(** * PySnake: the snake games of the repository, embedded in Rocq

    Three grid games are modelled, each in a module of its own:

    - [Retro]      : [src/retro_snake_game.py], class [SnakeGame] (menu,
                     power-ups, rectangular obstacles, high-score file); the
                     file ends inside [run], and the same class stands in
                     full in [src/realistic_snake_game.py];
    - [PiSnake]    : [src/realistic_snake_game.py], classes [Snake],
                     [ParticleSystem] and [Game] of the Raspberry Pi game;
    - [UltraSnake] : [src/realistic_snake.py], the grid game at the end of
                     the file, whose snake is a list of [SnakeSegment] objects.

    Python integers are [Z], Python floats are the kernel's binary64 floats,
    lists are lists, [None] is [option].  What Python takes from outside the
    program (the random generator, the clock, the keyboard, the high-score
    file) is an explicit input.  A [while True] loop takes fuel; running out
    of it is the result [OutOfFuel], which is not a return. *)

From Stdlib Require Import ZArith List Bool String Ascii Lia Floats Uint63 DecimalString.
Import ListNotations.
Set Warnings "-inexact-float".
Open Scope Z_scope.

(** ** Results of a Python call *)

(** [OSError] stands for its subclasses too ([FileNotFoundError],
    [PermissionError]). *)
Inductive exn : Type := IndexError | ValueError | OSError | AttributeError.

Inductive result (A : Type) : Type :=
| Ok (a : A)
| Raise (e : exn)
| OutOfFuel.
Arguments Ok {A} a.
Arguments Raise {A} e.
Arguments OutOfFuel {A}.

Definition bind {A B : Type} (m : result A) (k : A -> result B) : result B :=
  match m with
  | Ok a => k a
  | Raise e => Raise e
  | OutOfFuel => OutOfFuel
  end.

Notation "x <- m ;; k" := (bind m (fun x => k))
  (at level 61, m at next level, right associativity).
Notation "' pat <- m ;; k" := (bind m (fun x => match x with pat => k end))
  (at level 61, pat pattern, m at next level, right associativity).

(** [try: body except: handler] with a bare [except]: every exception is
    caught.  A loop that does not return is not an exception. *)
Definition try_except {A : Type} (body : result A) (handler : result A) : result A :=
  match body with
  | Raise _ => handler
  | r => r
  end.

Definition returns {A : Type} (m : result A) : Prop := exists a, m = Ok a.

(** [for _ in range(n): body] *)
Fixpoint for_range {S : Type} (n : nat) (body : S -> S) (s : S) : S :=
  match n with
  | O => s
  | S n' => for_range n' body (body s)
  end.

(** ** The outside world: random draws and the clock

    [random.randint], [random.uniform] and [time.time] read the next value of
    a script of outcomes.  A scripted integer outside the requested range,
    or a script that is used up, yields the lower bound, so that
    [randint a b] always lies in [a..b] when [a <= b], as Python's does. *)

Record Oracle : Type := {
  ints : list Z;
  floats : list float;
  times : list float
}.

Definition float_of_Z (z : Z) : float :=
  if z <? 0 then PrimFloat.opp (PrimFloat.of_uint63 (Uint63.of_Z (- z)))
  else PrimFloat.of_uint63 (Uint63.of_Z z).

Definition randint (a b : Z) (o : Oracle) : Z * Oracle :=
  match ints o with
  | [] => (a, o)
  | z :: rest =>
      (if (a <=? z) && (z <=? b) then z else a,
       {| ints := rest; floats := floats o; times := times o |})
  end.

Definition uniform (a b : Z) (o : Oracle) : float * Oracle :=
  match floats o with
  | [] => (float_of_Z a, o)
  | f :: rest => (f, {| ints := ints o; floats := rest; times := times o |})
  end.

Definition time_time (o : Oracle) : float * Oracle :=
  match times o with
  | [] => (0%float, o)
  | t :: rest => (t, {| ints := ints o; floats := floats o; times := rest |})
  end.

(** [random.choice(seq)] is [seq[randbelow(len(seq))]]. *)
Definition choice {A : Type} (seq : list A) (default : A) (o : Oracle) : A * Oracle :=
  let (i, o') := randint 0 (Z.of_nat (List.length seq) - 1) o in
  (nth (Z.to_nat i) seq default, o').

(** ** Grid positions and directions (the same in the three games) *)

Definition Pos : Type := (Z * Z)%type.

Definition pos_eqb (p q : Pos) : bool :=
  (fst p =? fst q) && (snd p =? snd q).

(** [p in l] for a list of tuples. *)
Definition py_in (p : Pos) (l : list Pos) : bool := existsb (pos_eqb p) l.

(** [l.pop()] on a list that is not empty. *)
Definition pop {A : Type} (l : list A) : list A := removelast l.

Inductive Direction : Type := UP | DOWN | LEFT | RIGHT.

Definition value (d : Direction) : Z * Z :=
  match d with
  | UP => (0, -1)
  | DOWN => (0, 1)
  | LEFT => (-1, 0)
  | RIGHT => (1, 0)
  end.

Definition Direction_eqb (a b : Direction) : bool :=
  match a, b with
  | UP, UP | DOWN, DOWN | LEFT, LEFT | RIGHT, RIGHT => true
  | _, _ => false
  end.

(** The dictionary [opposite] of [Snake.set_direction]. *)
Definition opposite (d : Direction) : Direction :=
  match d with
  | UP => DOWN
  | DOWN => UP
  | LEFT => RIGHT
  | RIGHT => LEFT
  end.

(** ** [src/realistic_snake_game.py]: the Raspberry Pi game *)

Module PiSnake.

Definition WINDOW_WIDTH : Z := 800.
Definition WINDOW_HEIGHT : Z := 600.
Definition GRID_SIZE : Z := 25.
Definition GRID_WIDTH : Z := WINDOW_WIDTH / GRID_SIZE.
Definition GRID_HEIGHT : Z := WINDOW_HEIGHT / GRID_SIZE.

(** *** class Particle, class ParticleSystem *)

Record Particle : Type := {
  p_x : float;
  p_y : float;
  p_vx : float;
  p_vy : float;
  p_lifetime : float;
  p_max_lifetime : float
}.

Definition Particle_update (dt : float) (p : Particle) : Particle :=
  {| p_x := p_x p + p_vx p * dt;
     p_y := p_y p + p_vy p * dt;
     p_vx := p_vx p;
     p_vy := p_vy p;
     p_lifetime := p_lifetime p - dt;
     p_max_lifetime := p_max_lifetime p |}%float.

(** [p.lifetime > 0] *)
Definition alive (p : Particle) : bool := (0 <? p_lifetime p)%float.

(** [ParticleSystem.update]: the list comprehension, then the loop. *)
Definition ParticleSystem_update (dt : float) (particles : list Particle) : list Particle :=
  let particles := filter alive particles in
  map (Particle_update dt) particles.

(** *** class Snake *)

Record Snake : Type := {
  segments : list Pos;
  direction : Direction;
  next_direction : Direction;
  growing : bool;
  move_timer : float;
  move_delay : float
}.

Definition Snake_init (start_x start_y : Z) : Snake :=
  {| segments := [(start_x, start_y)];
     direction := RIGHT;
     next_direction := RIGHT;
     growing := false;
     move_timer := 0%float;
     move_delay := 0.2%float |}.

Definition set_direction (d : Direction) (s : Snake) : Snake :=
  if (1 <? Z.of_nat (List.length (segments s))) then
    if negb (Direction_eqb d (opposite (direction s))) then
      {| segments := segments s; direction := direction s; next_direction := d;
         growing := growing s; move_timer := move_timer s; move_delay := move_delay s |}
    else s
  else
    {| segments := segments s; direction := direction s; next_direction := d;
       growing := growing s; move_timer := move_timer s; move_delay := move_delay s |}.

Definition move (s : Snake) : result Snake :=
  let d := next_direction s in
  match segments s with
  | [] => Raise IndexError
  | (head_x, head_y) :: _ =>
      let (dx, dy) := value d in
      let new_head := (head_x + dx, head_y + dy) in
      let segs := new_head :: segments s in
      if negb (growing s) then
        Ok {| segments := pop segs; direction := d; next_direction := next_direction s;
              growing := growing s; move_timer := move_timer s; move_delay := move_delay s |}
      else
        Ok {| segments := segs; direction := d; next_direction := next_direction s;
              growing := false; move_timer := move_timer s; move_delay := move_delay s |}
  end.

Definition grow (s : Snake) : Snake :=
  {| segments := segments s; direction := direction s; next_direction := next_direction s;
     growing := true; move_timer := move_timer s; move_delay := move_delay s |}.

(** [Snake.update]: the movement timer. *)
Definition Snake_update (dt : float) (s : Snake) : result Snake :=
  let t := (move_timer s + dt)%float in
  if (move_delay s <=? t)%float then
    move {| segments := segments s; direction := direction s;
            next_direction := next_direction s; growing := growing s;
            move_timer := 0%float; move_delay := move_delay s |}
  else
    Ok {| segments := segments s; direction := direction s;
          next_direction := next_direction s; growing := growing s;
          move_timer := t; move_delay := move_delay s |}.

Definition get_head_position (s : Snake) : result Pos :=
  match segments s with
  | [] => Raise IndexError
  | h :: _ => Ok h
  end.

Definition check_collision (s : Snake) (x y : Z) : bool := py_in (x, y) (segments s).

Definition check_wall_collision (s : Snake) : result bool :=
  '(head_x, head_y) <- get_head_position s ;;
  Ok ((head_x <? 0) || (GRID_WIDTH <=? head_x) || (head_y <? 0) || (GRID_HEIGHT <=? head_y)).

(** [head in self.segments[1:]] *)
Definition check_self_collision (s : Snake) : result bool :=
  head <- get_head_position s ;;
  Ok (py_in head (tl (segments s))).

(** *** class Apple, class Obstacle, class Game (the spawners) *)

Record Apple : Type := { a_x : Z; a_y : Z; pulse_time : float }.

Definition Apple_init (x y : Z) : Apple := {| a_x := x; a_y := y; pulse_time := 0%float |}.

Record Obstacle : Type := { o_x : Z; o_y : Z }.

Record Game : Type := {
  snake : Snake;
  apple : option Apple;
  obstacles : list Obstacle;
  score : Z;
  apples_eaten : Z;
  game_over : bool;
  paused : bool;
  rng : Oracle
}.

Definition is_obstacle (g : Game) (x y : Z) : bool :=
  existsb (fun obs => (o_x obs =? x) && (o_y obs =? y)) (obstacles g).

Definition with_rng (o : Oracle) (g : Game) : Game :=
  {| snake := snake g; apple := apple g; obstacles := obstacles g; score := score g;
     apples_eaten := apples_eaten g; game_over := game_over g; paused := paused g;
     rng := o |}.

Definition with_apple (a : option Apple) (g : Game) : Game :=
  {| snake := snake g; apple := a; obstacles := obstacles g; score := score g;
     apples_eaten := apples_eaten g; game_over := game_over g; paused := paused g;
     rng := rng g |}.

Definition with_obstacles (l : list Obstacle) (g : Game) : Game :=
  {| snake := snake g; apple := apple g; obstacles := l; score := score g;
     apples_eaten := apples_eaten g; game_over := game_over g; paused := paused g;
     rng := rng g |}.

(** The loop [while attempts < 100] of [spawn_apple]; [left] is
    [100 - attempts]. *)
Fixpoint spawn_apple_loop (left : nat) (g : Game) : Game :=
  match left with
  | O => g
  | S left' =>
      let (x, o1) := randint 0 (GRID_WIDTH - 1) (rng g) in
      let (y, o2) := randint 0 (GRID_HEIGHT - 1) o1 in
      let g := with_rng o2 g in
      if negb (check_collision (snake g) x y) && negb (is_obstacle g x y) then
        with_apple (Some (Apple_init x y)) g
      else spawn_apple_loop left' g
  end.

Definition spawn_apple (g : Game) : Game := spawn_apple_loop 100 g.

(** The number of cells [spawn_apple] tries before it places the apple or
    gives up: the final value of [attempts], plus one when it placed one. *)
Fixpoint spawn_apple_draws (left : nat) (g : Game) : nat :=
  match left with
  | O => O
  | S left' =>
      let (x, o1) := randint 0 (GRID_WIDTH - 1) (rng g) in
      let (y, o2) := randint 0 (GRID_HEIGHT - 1) o1 in
      let g := with_rng o2 g in
      if negb (check_collision (snake g) x y) && negb (is_obstacle g x y) then 1%nat
      else S (spawn_apple_draws left' g)
  end.

(** One pass of the inner loop [while attempts < 30] of [spawn_obstacles]. *)
Fixpoint spawn_obstacle_loop (left : nat) (g : Game) : Game :=
  match left with
  | O => g
  | S left' =>
      let (x, o1) := randint 0 (GRID_WIDTH - 1) (rng g) in
      let (y, o2) := randint 0 (GRID_HEIGHT - 1) o1 in
      let g := with_rng o2 g in
      if negb (check_collision (snake g) x y) && negb (is_obstacle g x y)
         && match apple g with
            | None => true
            | Some a => negb (x =? a_x a) || negb (y =? a_y a)
            end
      then with_obstacles (obstacles g ++ [{| o_x := x; o_y := y |}]) g
      else spawn_obstacle_loop left' g
  end.

Definition spawn_obstacles (g : Game) : Game :=
  let obstacle_count := Z.min 6 (apples_eaten g / 5 + 1) in
  for_range (Z.to_nat obstacle_count) (spawn_obstacle_loop 30) g.

End PiSnake.

(** ** [src/realistic_snake.py]: the grid game with segment objects *)

Module UltraSnake.

Definition WINDOW_WIDTH : Z := 1200.
Definition WINDOW_HEIGHT : Z := 800.
Definition GRID_SIZE : Z := 20.
Definition GRID_WIDTH : Z := WINDOW_WIDTH / GRID_SIZE.
Definition GRID_HEIGHT : Z := WINDOW_HEIGHT / GRID_SIZE.

(** *** class Particle, class ParticleSystem *)

Record Particle : Type := {
  p_x : float;
  p_y : float;
  p_color : Z * Z * Z;
  p_velocity : float * float;
  p_lifetime : float;
  p_max_lifetime : float
}.

Definition Particle_update (dt : float) (p : Particle) : Particle :=
  {| p_x := p_x p + fst (p_velocity p) * dt;
     p_y := p_y p + snd (p_velocity p) * dt;
     p_color := p_color p;
     p_velocity := p_velocity p;
     p_lifetime := p_lifetime p - dt;
     p_max_lifetime := p_max_lifetime p |}%float.

Definition alive (p : Particle) : bool := (0 <? p_lifetime p)%float.

Definition ParticleSystem_update (dt : float) (particles : list Particle) : list Particle :=
  let particles := filter alive particles in
  map (Particle_update dt) particles.

(** *** class SnakeSegment *)

Record SnakeSegment : Type := {
  x : Z;
  y : Z;
  is_head : bool;
  prev_x : Z;
  prev_y : Z;
  smooth_x : float;
  smooth_y : float;
  rotation : Z
}.

Definition SnakeSegment_init (x0 y0 : Z) (head : bool) : SnakeSegment :=
  {| x := x0; y := y0; is_head := head; prev_x := x0; prev_y := y0;
     smooth_x := float_of_Z (x0 * GRID_SIZE);
     smooth_y := float_of_Z (y0 * GRID_SIZE);
     rotation := 0 |}.

Definition update_smooth_position (interpolation_factor : float) (s : SnakeSegment)
  : SnakeSegment :=
  let target_x := float_of_Z (x s * GRID_SIZE) in
  let target_y := float_of_Z (y s * GRID_SIZE) in
  {| x := x s; y := y s; is_head := is_head s; prev_x := prev_x s; prev_y := prev_y s;
     smooth_x := (smooth_x s + (target_x - smooth_x s) * interpolation_factor)%float;
     smooth_y := (smooth_y s + (target_y - smooth_y s) * interpolation_factor)%float;
     rotation := rotation s |}.

(** [segment.prev_x = segment.x; segment.prev_y = segment.y] *)
Definition store_prev (s : SnakeSegment) : SnakeSegment :=
  {| x := x s; y := y s; is_head := is_head s; prev_x := x s; prev_y := y s;
     smooth_x := smooth_x s; smooth_y := smooth_y s; rotation := rotation s |}.

Definition set_xy (x0 y0 : Z) (s : SnakeSegment) : SnakeSegment :=
  {| x := x0; y := y0; is_head := is_head s; prev_x := prev_x s; prev_y := prev_y s;
     smooth_x := smooth_x s; smooth_y := smooth_y s; rotation := rotation s |}.

(** *** class Snake *)

Record Snake : Type := {
  segments : list SnakeSegment;
  direction : Direction;
  next_direction : Direction;
  growing : bool;
  move_timer : float;
  move_delay : float
}.

Definition Snake_init (start_x start_y : Z) : Snake :=
  {| segments := [SnakeSegment_init start_x start_y true];
     direction := RIGHT;
     next_direction := RIGHT;
     growing := false;
     move_timer := 0%float;
     move_delay := 0.15%float |}.

Definition set_direction (d : Direction) (s : Snake) : Snake :=
  if (1 <? Z.of_nat (List.length (segments s))) then
    if negb (Direction_eqb d (opposite (direction s))) then
      {| segments := segments s; direction := direction s; next_direction := d;
         growing := growing s; move_timer := move_timer s; move_delay := move_delay s |}
    else s
  else
    {| segments := segments s; direction := direction s; next_direction := d;
       growing := growing s; move_timer := move_timer s; move_delay := move_delay s |}.

(** The loop [for i in range(1, len(self.segments))]: segment [i] takes the
    stored position of segment [i-1]; [pred] is segment [i-1]. *)
Fixpoint follow (pred : SnakeSegment) (rest : list SnakeSegment) : list SnakeSegment :=
  match rest with
  | [] => []
  | s :: rest' =>
      let s' := set_xy (prev_x pred) (prev_y pred) s in
      s' :: follow s' rest'
  end.

Definition move (s : Snake) : result Snake :=
  let d := next_direction s in
  let segs := map store_prev (segments s) in
  match segs with
  | [] => Raise IndexError
  | head :: body =>
      let (dx, dy) := value d in
      let head := set_xy (x head + dx) (y head + dy) head in
      let segs := head :: follow head body in
      if growing s then
        let tail := last segs head in
        let new_segment := SnakeSegment_init (prev_x tail) (prev_y tail) false in
        Ok {| segments := segs ++ [new_segment]; direction := d;
              next_direction := next_direction s; growing := false;
              move_timer := move_timer s; move_delay := move_delay s |}
      else
        Ok {| segments := segs; direction := d;
              next_direction := next_direction s; growing := growing s;
              move_timer := move_timer s; move_delay := move_delay s |}
  end.

Definition grow (s : Snake) : Snake :=
  {| segments := segments s; direction := direction s; next_direction := next_direction s;
     growing := true; move_timer := move_timer s; move_delay := move_delay s |}.

Definition Snake_update (dt : float) (s : Snake) : result Snake :=
  let t := (move_timer s + dt)%float in
  let segs := map (update_smooth_position 0.3%float) (segments s) in
  if (move_delay s <=? t)%float then
    move {| segments := segs; direction := direction s;
            next_direction := next_direction s; growing := growing s;
            move_timer := 0%float; move_delay := move_delay s |}
  else
    Ok {| segments := segs; direction := direction s;
          next_direction := next_direction s; growing := growing s;
          move_timer := t; move_delay := move_delay s |}.

Definition get_head_position (s : Snake) : result Pos :=
  match segments s with
  | [] => Raise IndexError
  | h :: _ => Ok (x h, y h)
  end.

Definition check_collision (s : Snake) (x0 y0 : Z) : bool :=
  existsb (fun segment => (x segment =? x0) && (y segment =? y0)) (segments s).

Definition check_wall_collision (s : Snake) : result bool :=
  '(head_x, head_y) <- get_head_position s ;;
  Ok ((head_x <? 0) || (GRID_WIDTH <=? head_x) || (head_y <? 0) || (GRID_HEIGHT <=? head_y)).

Definition check_self_collision (s : Snake) : result bool :=
  head_pos <- get_head_position s ;;
  Ok (existsb (fun segment => (x segment =? fst head_pos) && (y segment =? snd head_pos))
        (tl (segments s))).

(** The cells of the body, head first. *)
Definition cells (s : Snake) : list Pos := map (fun segment => (x segment, y segment)) (segments s).

(** *** class Game (the spawners); an apple and an obstacle are the cell
    they occupy, their animation state is left out. *)

Record Game : Type := {
  snake : Snake;
  apple : option Pos;
  obstacles : list Pos;
  score : Z;
  apples_eaten : Z;
  game_over : bool;
  paused : bool;
  rng : Oracle
}.

Definition is_obstacle (g : Game) (x0 y0 : Z) : bool :=
  existsb (fun obs => (fst obs =? x0) && (snd obs =? y0)) (obstacles g).

Definition with_rng (o : Oracle) (g : Game) : Game :=
  {| snake := snake g; apple := apple g; obstacles := obstacles g; score := score g;
     apples_eaten := apples_eaten g; game_over := game_over g; paused := paused g;
     rng := o |}.

Definition with_apple (a : option Pos) (g : Game) : Game :=
  {| snake := snake g; apple := a; obstacles := obstacles g; score := score g;
     apples_eaten := apples_eaten g; game_over := game_over g; paused := paused g;
     rng := rng g |}.

(** [spawn_apple]: [while True]. *)
Fixpoint spawn_apple (fuel : nat) (g : Game) : result Game :=
  match fuel with
  | O => OutOfFuel
  | S fuel' =>
      let (x0, o1) := randint 0 (GRID_WIDTH - 1) (rng g) in
      let (y0, o2) := randint 0 (GRID_HEIGHT - 1) o1 in
      let g := with_rng o2 g in
      if negb (check_collision (snake g) x0 y0) && negb (is_obstacle g x0 y0) then
        Ok (with_apple (Some (x0, y0)) g)
      else spawn_apple fuel' g
  end.

End UltraSnake.

(** ** Python text, for the files the games keep

    A [str] is the list of its code points, a file the [string] of its
    bytes.  Text files are opened without an encoding: the bytes are UTF-8,
    the encoding of the locale of a Raspberry Pi; reading in text mode turns
    the line ends ["\r\n"] and ["\r"] into ["\n"], writing leaves ["\n"] as
    it is.  The tables of white space and of decimal digits are those of
    CPython 3.11 (Unicode 14.0), and so is the limit on the digits of a
    number that [int] and [str] convert. *)

Definition Text : Type := list Z.

Definition byte_value (c : ascii) : Z := Z.of_nat (nat_of_ascii c).

Definition byte_of (b : Z) : ascii := ascii_of_nat (Z.to_nat b).

(** The text of bytes that are ASCII characters. *)
Definition text_of (s : string) : Text := map byte_value (list_ascii_of_string s).

(** A byte that continues a character: its six bits, when it is between
    [low] and [high]. *)
Definition continuation (low high : Z) (c : ascii) : option Z :=
  let b := byte_value c in
  if (low <=? b) && (b <=? high) then Some (b - 128) else None.

(** [bytes.decode('utf-8')] with [errors='strict']: [None] stands for
    [UnicodeDecodeError].  Overlong forms, surrogates and code points past
    [0x10FFFF] are errors. *)
Fixpoint utf8_decode (bytes : string) : option Text :=
  match bytes with
  | EmptyString => Some []
  | String c0 rest =>
      let b0 := byte_value c0 in
      if b0 <? 128 then option_map (cons b0) (utf8_decode rest)
      else if (194 <=? b0) && (b0 <=? 223) then
        match rest with
        | String c1 rest =>
            match continuation 128 191 c1 with
            | Some x1 => option_map (cons ((b0 - 192) * 64 + x1)) (utf8_decode rest)
            | None => None
            end
        | _ => None
        end
      else if (224 <=? b0) && (b0 <=? 239) then
        match rest with
        | String c1 (String c2 rest) =>
            match continuation (if b0 =? 224 then 160 else 128)
                               (if b0 =? 237 then 159 else 191) c1,
                  continuation 128 191 c2 with
            | Some x1, Some x2 =>
                option_map (cons ((b0 - 224) * 4096 + x1 * 64 + x2)) (utf8_decode rest)
            | _, _ => None
            end
        | _ => None
        end
      else if (240 <=? b0) && (b0 <=? 244) then
        match rest with
        | String c1 (String c2 (String c3 rest)) =>
            match continuation (if b0 =? 240 then 144 else 128)
                               (if b0 =? 244 then 143 else 191) c1,
                  continuation 128 191 c2, continuation 128 191 c3 with
            | Some x1, Some x2, Some x3 =>
                option_map (cons ((b0 - 240) * 262144 + x1 * 4096 + x2 * 64 + x3))
                           (utf8_decode rest)
            | _, _, _ => None
            end
        | _ => None
        end
      else None
  end.

(** The bytes of one character in UTF-8; [None] stands for
    [UnicodeEncodeError], which a surrogate raises.  A [str] holds code
    points from 0 to [0x10FFFF]. *)
Definition utf8_encode_char (c : Z) : option string :=
  if (0 <=? c) && (c <? 128) then Some (String (byte_of c) EmptyString)
  else if (128 <=? c) && (c <? 2048) then
    Some (String (byte_of (192 + c / 64)) (String (byte_of (128 + c mod 64)) EmptyString))
  else if ((2048 <=? c) && (c <? 55296)) || ((57344 <=? c) && (c <? 65536)) then
    Some (String (byte_of (224 + c / 4096))
            (String (byte_of (128 + (c / 64) mod 64))
               (String (byte_of (128 + c mod 64)) EmptyString)))
  else if (65536 <=? c) && (c <? 1114112) then
    Some (String (byte_of (240 + c / 262144))
            (String (byte_of (128 + (c / 4096) mod 64))
               (String (byte_of (128 + (c / 64) mod 64))
                  (String (byte_of (128 + c mod 64)) EmptyString))))
  else None.

(** [text.encode('utf-8')] *)
Fixpoint utf8_encode (text : Text) : option string :=
  match text with
  | [] => Some EmptyString
  | c :: rest =>
      match utf8_encode_char c, utf8_encode rest with
      | Some bytes, Some more => Some (bytes ++ more)%string
      | _, _ => None
      end
  end.

(** Reading in text mode: ["\r\n"] and ["\r"] become ["\n"]. *)
Fixpoint universal_newlines (s : Text) : Text :=
  match s with
  | [] => []
  | c :: rest =>
      if c =? 13 then
        match rest with
        | d :: rest' =>
            if d =? 10 then 10 :: universal_newlines rest'
            else 10 :: universal_newlines rest
        | [] => [10]
        end
      else c :: universal_newlines rest
  end.

(** [str.isspace] of one character: the white space [str.strip] removes. *)
Definition is_space (c : Z) : bool :=
  ((9 <=? c) && (c <=? 13)) || ((28 <=? c) && (c <=? 32)) || (c =? 133) || (c =? 160)
  || (c =? 5760) || ((8192 <=? c) && (c <=? 8202)) || (c =? 8232) || (c =? 8233)
  || (c =? 8239) || (c =? 8287) || (c =? 12288).

Fixpoint lstrip (space : Z -> bool) (s : Text) : Text :=
  match s with
  | [] => []
  | c :: rest => if space c then lstrip space rest else s
  end.

Fixpoint rstrip (space : Z -> bool) (s : Text) : Text :=
  match s with
  | [] => []
  | c :: rest =>
      match rstrip space rest with
      | [] => if space c then [] else [c]
      | rest' => c :: rest'
      end
  end.

(** [s.strip()] *)
Definition py_strip (s : Text) : Text := rstrip is_space (lstrip is_space s).

(** The characters [0] of the decimal digits: each is followed by its
    [1] to [9]. *)
Definition decimal_zeros : list Z :=
  [48; 1632; 1776; 1984; 2406; 2534; 2662; 2790; 2918; 3046; 3174; 3302; 3430; 3558;
   3664; 3792; 3872; 4160; 4240; 6112; 6160; 6470; 6608; 6784; 6800; 6992; 7088; 7232;
   7248; 42528; 43216; 43264; 43472; 43504; 43600; 44016; 65296; 66720; 68912; 69734;
   69872; 69942; 70096; 70384; 70736; 70864; 71248; 71360; 71472; 71904; 72016; 72784;
   73040; 73120; 92768; 92864; 93008; 120782; 120792; 120802; 120812; 120822; 123200;
   123632; 125264; 130032].

Definition digit_value (c : Z) : option Z :=
  match find (fun zero => (zero <=? c) && (c <? zero + 10)) decimal_zeros with
  | Some zero => Some (c - zero)
  | None => None
  end.

(** The white space [int] passes over at both ends: that of [str.isspace]
    but the separators 28 to 31. *)
Definition int_space (c : Z) : bool := is_space c && negb ((28 <=? c) && (c <=? 31)).

(** Digits, single underscores allowed between them: the number and how
    many digits it has. *)
Fixpoint parse_digits (acc : Z) (count : nat) (after_digit : bool) (s : Text)
  : option (Z * nat) :=
  match s with
  | [] => if after_digit then Some (acc, count) else None
  | c :: rest =>
      match digit_value c with
      | Some d => parse_digits (10 * acc + d) (S count) true rest
      | None =>
          if (c =? 95) && after_digit then parse_digits acc count false rest
          else None
      end
  end.

(** [sys.get_int_max_str_digits()], as Python starts. *)
Definition int_max_str_digits : nat := 4300.

(** [int(s)] in base 10: white space at both ends, an optional sign, then
    the digits; anything else raises [ValueError], and so do more digits
    than [int_max_str_digits]. *)
Definition py_int (s : Text) : result Z :=
  let s := rstrip int_space (lstrip int_space s) in
  let (negative, digits) :=
    match s with
    | c :: rest => if c =? 45 then (true, rest) else if c =? 43 then (false, rest) else (false, s)
    | [] => (false, s)
    end in
  match parse_digits 0 0 false digits with
  | Some (n, count) =>
      if (count <=? int_max_str_digits)%nat then Ok (if negative then - n else n)
      else Raise ValueError
  | None => Raise ValueError
  end.

(** [str(n)]: ASCII characters, which are their own bytes; [ValueError] when
    [n] has more digits than [int_max_str_digits]. *)
Definition py_str (n : Z) : result string :=
  if Z.abs n <? 10 ^ Z.of_nat int_max_str_digits
  then Ok (NilZero.string_of_int (Z.to_int n))
  else Raise ValueError.

(** What the disk does when a file is opened for writing and written:
    [open] raises [OSError] and the file stays as it is; or [open] empties
    the file and the disk takes the first [room] bytes, raising [OSError] when
    there are more; or it empties the file and takes every byte. *)
Inductive Disk : Type :=
| CannotOpen
| Full (room : nat)
| Writable.

(** The bytes of [data] that reach a file opened for writing. *)
Definition written (disk : Disk) (data : string) : string :=
  match disk with
  | Full room => substring 0 room data
  | _ => data
  end.

(** Whether the write raises [OSError]. *)
Definition write_fails (disk : Disk) (data : string) : bool :=
  match disk with
  | Full room => (room <? String.length data)%nat
  | _ => false
  end.

(** ** [src/retro_snake_game.py]: class SnakeGame *)

Module Retro.

Definition WINDOW_WIDTH : Z := 800.
Definition WINDOW_HEIGHT : Z := 600.
Definition GRID_SIZE : Z := 20.
Definition GRID_WIDTH : Z := WINDOW_WIDTH / GRID_SIZE.
Definition GRID_HEIGHT : Z := WINDOW_HEIGHT / GRID_SIZE.

Definition Color : Type := (Z * Z * Z)%type.
Definition NEON_GREEN : Color := (57, 255, 20).
Definition NEON_PINK : Color := (255, 20, 147).
Definition NEON_BLUE : Color := (30, 144, 255).
Definition NEON_YELLOW : Color := (255, 255, 0).
Definition NEON_ORANGE : Color := (255, 165, 0).
Definition NEON_PURPLE : Color := (138, 43, 226).
Definition NEON_CYAN : Color := (0, 255, 255).
Definition DARK_GRAY : Color := (40, 40, 40).
Definition LIGHT_GRAY : Color := (128, 128, 128).
Definition RED : Color := (255, 0, 0).

Definition Color_eqb (a b : Color) : bool :=
  let '(r1, g1, b1) := a in
  let '(r2, g2, b2) := b in
  (r1 =? r2) && (g1 =? g2) && (b1 =? b2).

Inductive GameState : Type := MENU | PLAYING | PAUSED | GAME_OVER.

Definition GameState_eqb (a b : GameState) : bool :=
  match a, b with
  | MENU, MENU | PLAYING, PLAYING | PAUSED, PAUSED | GAME_OVER, GAME_OVER => true
  | _, _ => false
  end.

Inductive PowerUpType : Type :=
| SPEED_BOOST | SLOW_DOWN | GROW | SHRINK | INVINCIBILITY | DOUBLE_POINTS.

Definition PowerUpType_eqb (a b : PowerUpType) : bool :=
  match a, b with
  | SPEED_BOOST, SPEED_BOOST | SLOW_DOWN, SLOW_DOWN | GROW, GROW
  | SHRINK, SHRINK | INVINCIBILITY, INVINCIBILITY | DOUBLE_POINTS, DOUBLE_POINTS => true
  | _, _ => false
  end.

Record PowerUp : Type := {
  pu_x : Z;
  pu_y : Z;
  pu_type : PowerUpType;
  pu_duration : Z;
  pu_color : Color;
  pu_spawn_time : float
}.

(** The [__eq__] a dataclass generates: field by field. *)
Definition PowerUp_eqb (a b : PowerUp) : bool :=
  (pu_x a =? pu_x b) && (pu_y a =? pu_y b) && PowerUpType_eqb (pu_type a) (pu_type b)
  && (pu_duration a =? pu_duration b) && Color_eqb (pu_color a) (pu_color b)
  && (PrimFloat.Leibniz.eqb (pu_spawn_time a) (pu_spawn_time b)
      || (pu_spawn_time a =? pu_spawn_time b)%float).

Record Obstacle : Type := {
  ob_x : Z;
  ob_y : Z;
  ob_width : Z;
  ob_height : Z;
  ob_color : Color;
  ob_pattern : string
}.

(** A particle is an object without [__eq__]: [list.remove] finds it by
    identity, which is [pid] here. *)
Record Particle : Type := {
  pid : nat;
  p_x : float;
  p_y : float;
  p_color : Color;
  p_velocity : float * float;
  p_lifetime : Z;
  p_max_lifetime : Z;
  p_size : Z
}.

Definition Particle_update (p : Particle) : Particle :=
  {| pid := pid p;
     p_x := (p_x p + fst (p_velocity p))%float;
     p_y := (p_y p + snd (p_velocity p))%float;
     p_color := p_color p;
     p_velocity := (fst (p_velocity p) * 0.98, snd (p_velocity p) * 0.98)%float;
     p_lifetime := p_lifetime p - 1;
     p_max_lifetime := p_max_lifetime p;
     p_size := p_size p |}.

(** The attributes of [self] that the game logic reads or writes, then the
    world it acts on: the random generator and clock ([rng]), the bytes of
    the file [snake_highscore.txt] ([None] when it cannot be opened for
    reading), what the disk does when the file is written, and the next
    object identity. *)
Record SnakeGame : Type := {
  state : GameState;
  snake : list Pos;
  direction : Direction;
  food : Pos;
  score : Z;
  high_score : Z;
  speed : Z;
  base_speed : Z;
  power_ups : list PowerUp;
  obstacles : list Obstacle;
  effect_timers : list (string * Z);
  invincible : bool;
  double_points : bool;
  game_time : Z;
  level : Z;
  particles : list Particle;
  screen_shake : Z;
  rng : Oracle;
  highscore_file : option string;
  disk : Disk;
  next_pid : nat
}.

(** [self.f = v], one setter for each attribute. *)

Definition with_state (v : GameState) (g : SnakeGame) : SnakeGame :=
  {| state := v; snake := snake g; direction := direction g; food := food g;
     score := score g; high_score := high_score g; speed := speed g;
     base_speed := base_speed g; power_ups := power_ups g; obstacles := obstacles g;
     effect_timers := effect_timers g; invincible := invincible g;
     double_points := double_points g; game_time := game_time g; level := level g;
     particles := particles g; screen_shake := screen_shake g; rng := rng g;
     highscore_file := highscore_file g; disk := disk g;
     next_pid := next_pid g |}.

Definition with_snake (v : list Pos) (g : SnakeGame) : SnakeGame :=
  {| state := state g; snake := v; direction := direction g; food := food g;
     score := score g; high_score := high_score g; speed := speed g;
     base_speed := base_speed g; power_ups := power_ups g; obstacles := obstacles g;
     effect_timers := effect_timers g; invincible := invincible g;
     double_points := double_points g; game_time := game_time g; level := level g;
     particles := particles g; screen_shake := screen_shake g; rng := rng g;
     highscore_file := highscore_file g; disk := disk g;
     next_pid := next_pid g |}.

Definition with_direction (v : Direction) (g : SnakeGame) : SnakeGame :=
  {| state := state g; snake := snake g; direction := v; food := food g; score := score g;
     high_score := high_score g; speed := speed g; base_speed := base_speed g;
     power_ups := power_ups g; obstacles := obstacles g; effect_timers := effect_timers g;
     invincible := invincible g; double_points := double_points g;
     game_time := game_time g; level := level g; particles := particles g;
     screen_shake := screen_shake g; rng := rng g; highscore_file := highscore_file g;
     disk := disk g; next_pid := next_pid g |}.

Definition with_food (v : Pos) (g : SnakeGame) : SnakeGame :=
  {| state := state g; snake := snake g; direction := direction g; food := v;
     score := score g; high_score := high_score g; speed := speed g;
     base_speed := base_speed g; power_ups := power_ups g; obstacles := obstacles g;
     effect_timers := effect_timers g; invincible := invincible g;
     double_points := double_points g; game_time := game_time g; level := level g;
     particles := particles g; screen_shake := screen_shake g; rng := rng g;
     highscore_file := highscore_file g; disk := disk g;
     next_pid := next_pid g |}.

Definition with_score (v : Z) (g : SnakeGame) : SnakeGame :=
  {| state := state g; snake := snake g; direction := direction g; food := food g;
     score := v; high_score := high_score g; speed := speed g; base_speed := base_speed g;
     power_ups := power_ups g; obstacles := obstacles g; effect_timers := effect_timers g;
     invincible := invincible g; double_points := double_points g;
     game_time := game_time g; level := level g; particles := particles g;
     screen_shake := screen_shake g; rng := rng g; highscore_file := highscore_file g;
     disk := disk g; next_pid := next_pid g |}.

Definition with_high_score (v : Z) (g : SnakeGame) : SnakeGame :=
  {| state := state g; snake := snake g; direction := direction g; food := food g;
     score := score g; high_score := v; speed := speed g; base_speed := base_speed g;
     power_ups := power_ups g; obstacles := obstacles g; effect_timers := effect_timers g;
     invincible := invincible g; double_points := double_points g;
     game_time := game_time g; level := level g; particles := particles g;
     screen_shake := screen_shake g; rng := rng g; highscore_file := highscore_file g;
     disk := disk g; next_pid := next_pid g |}.

Definition with_speed (v : Z) (g : SnakeGame) : SnakeGame :=
  {| state := state g; snake := snake g; direction := direction g; food := food g;
     score := score g; high_score := high_score g; speed := v; base_speed := base_speed g;
     power_ups := power_ups g; obstacles := obstacles g; effect_timers := effect_timers g;
     invincible := invincible g; double_points := double_points g;
     game_time := game_time g; level := level g; particles := particles g;
     screen_shake := screen_shake g; rng := rng g; highscore_file := highscore_file g;
     disk := disk g; next_pid := next_pid g |}.

Definition with_base_speed (v : Z) (g : SnakeGame) : SnakeGame :=
  {| state := state g; snake := snake g; direction := direction g; food := food g;
     score := score g; high_score := high_score g; speed := speed g; base_speed := v;
     power_ups := power_ups g; obstacles := obstacles g; effect_timers := effect_timers g;
     invincible := invincible g; double_points := double_points g;
     game_time := game_time g; level := level g; particles := particles g;
     screen_shake := screen_shake g; rng := rng g; highscore_file := highscore_file g;
     disk := disk g; next_pid := next_pid g |}.

Definition with_power_ups (v : list PowerUp) (g : SnakeGame) : SnakeGame :=
  {| state := state g; snake := snake g; direction := direction g; food := food g;
     score := score g; high_score := high_score g; speed := speed g;
     base_speed := base_speed g; power_ups := v; obstacles := obstacles g;
     effect_timers := effect_timers g; invincible := invincible g;
     double_points := double_points g; game_time := game_time g; level := level g;
     particles := particles g; screen_shake := screen_shake g; rng := rng g;
     highscore_file := highscore_file g; disk := disk g;
     next_pid := next_pid g |}.

Definition with_obstacles (v : list Obstacle) (g : SnakeGame) : SnakeGame :=
  {| state := state g; snake := snake g; direction := direction g; food := food g;
     score := score g; high_score := high_score g; speed := speed g;
     base_speed := base_speed g; power_ups := power_ups g; obstacles := v;
     effect_timers := effect_timers g; invincible := invincible g;
     double_points := double_points g; game_time := game_time g; level := level g;
     particles := particles g; screen_shake := screen_shake g; rng := rng g;
     highscore_file := highscore_file g; disk := disk g;
     next_pid := next_pid g |}.

Definition with_effect_timers (v : list (string * Z)) (g : SnakeGame) : SnakeGame :=
  {| state := state g; snake := snake g; direction := direction g; food := food g;
     score := score g; high_score := high_score g; speed := speed g;
     base_speed := base_speed g; power_ups := power_ups g; obstacles := obstacles g;
     effect_timers := v; invincible := invincible g; double_points := double_points g;
     game_time := game_time g; level := level g; particles := particles g;
     screen_shake := screen_shake g; rng := rng g; highscore_file := highscore_file g;
     disk := disk g; next_pid := next_pid g |}.

Definition with_invincible (v : bool) (g : SnakeGame) : SnakeGame :=
  {| state := state g; snake := snake g; direction := direction g; food := food g;
     score := score g; high_score := high_score g; speed := speed g;
     base_speed := base_speed g; power_ups := power_ups g; obstacles := obstacles g;
     effect_timers := effect_timers g; invincible := v; double_points := double_points g;
     game_time := game_time g; level := level g; particles := particles g;
     screen_shake := screen_shake g; rng := rng g; highscore_file := highscore_file g;
     disk := disk g; next_pid := next_pid g |}.

Definition with_double_points (v : bool) (g : SnakeGame) : SnakeGame :=
  {| state := state g; snake := snake g; direction := direction g; food := food g;
     score := score g; high_score := high_score g; speed := speed g;
     base_speed := base_speed g; power_ups := power_ups g; obstacles := obstacles g;
     effect_timers := effect_timers g; invincible := invincible g; double_points := v;
     game_time := game_time g; level := level g; particles := particles g;
     screen_shake := screen_shake g; rng := rng g; highscore_file := highscore_file g;
     disk := disk g; next_pid := next_pid g |}.

Definition with_game_time (v : Z) (g : SnakeGame) : SnakeGame :=
  {| state := state g; snake := snake g; direction := direction g; food := food g;
     score := score g; high_score := high_score g; speed := speed g;
     base_speed := base_speed g; power_ups := power_ups g; obstacles := obstacles g;
     effect_timers := effect_timers g; invincible := invincible g;
     double_points := double_points g; game_time := v; level := level g;
     particles := particles g; screen_shake := screen_shake g; rng := rng g;
     highscore_file := highscore_file g; disk := disk g;
     next_pid := next_pid g |}.

Definition with_level (v : Z) (g : SnakeGame) : SnakeGame :=
  {| state := state g; snake := snake g; direction := direction g; food := food g;
     score := score g; high_score := high_score g; speed := speed g;
     base_speed := base_speed g; power_ups := power_ups g; obstacles := obstacles g;
     effect_timers := effect_timers g; invincible := invincible g;
     double_points := double_points g; game_time := game_time g; level := v;
     particles := particles g; screen_shake := screen_shake g; rng := rng g;
     highscore_file := highscore_file g; disk := disk g;
     next_pid := next_pid g |}.

Definition with_particles (v : list Particle) (g : SnakeGame) : SnakeGame :=
  {| state := state g; snake := snake g; direction := direction g; food := food g;
     score := score g; high_score := high_score g; speed := speed g;
     base_speed := base_speed g; power_ups := power_ups g; obstacles := obstacles g;
     effect_timers := effect_timers g; invincible := invincible g;
     double_points := double_points g; game_time := game_time g; level := level g;
     particles := v; screen_shake := screen_shake g; rng := rng g;
     highscore_file := highscore_file g; disk := disk g;
     next_pid := next_pid g |}.

Definition with_screen_shake (v : Z) (g : SnakeGame) : SnakeGame :=
  {| state := state g; snake := snake g; direction := direction g; food := food g;
     score := score g; high_score := high_score g; speed := speed g;
     base_speed := base_speed g; power_ups := power_ups g; obstacles := obstacles g;
     effect_timers := effect_timers g; invincible := invincible g;
     double_points := double_points g; game_time := game_time g; level := level g;
     particles := particles g; screen_shake := v; rng := rng g;
     highscore_file := highscore_file g; disk := disk g;
     next_pid := next_pid g |}.

Definition with_rng (v : Oracle) (g : SnakeGame) : SnakeGame :=
  {| state := state g; snake := snake g; direction := direction g; food := food g;
     score := score g; high_score := high_score g; speed := speed g;
     base_speed := base_speed g; power_ups := power_ups g; obstacles := obstacles g;
     effect_timers := effect_timers g; invincible := invincible g;
     double_points := double_points g; game_time := game_time g; level := level g;
     particles := particles g; screen_shake := screen_shake g; rng := v;
     highscore_file := highscore_file g; disk := disk g;
     next_pid := next_pid g |}.

Definition with_highscore_file (v : option string) (g : SnakeGame) : SnakeGame :=
  {| state := state g; snake := snake g; direction := direction g; food := food g;
     score := score g; high_score := high_score g; speed := speed g;
     base_speed := base_speed g; power_ups := power_ups g; obstacles := obstacles g;
     effect_timers := effect_timers g; invincible := invincible g;
     double_points := double_points g; game_time := game_time g; level := level g;
     particles := particles g; screen_shake := screen_shake g; rng := rng g;
     highscore_file := v; disk := disk g; next_pid := next_pid g |}.

Definition with_disk (v : Disk) (g : SnakeGame) : SnakeGame :=
  {| state := state g; snake := snake g; direction := direction g; food := food g;
     score := score g; high_score := high_score g; speed := speed g;
     base_speed := base_speed g; power_ups := power_ups g; obstacles := obstacles g;
     effect_timers := effect_timers g; invincible := invincible g;
     double_points := double_points g; game_time := game_time g; level := level g;
     particles := particles g; screen_shake := screen_shake g; rng := rng g;
     highscore_file := highscore_file g; disk := v; next_pid := next_pid g |}.

Definition with_next_pid (v : nat) (g : SnakeGame) : SnakeGame :=
  {| state := state g; snake := snake g; direction := direction g; food := food g;
     score := score g; high_score := high_score g; speed := speed g;
     base_speed := base_speed g; power_ups := power_ups g; obstacles := obstacles g;
     effect_timers := effect_timers g; invincible := invincible g;
     double_points := double_points g; game_time := game_time g; level := level g;
     particles := particles g; screen_shake := screen_shake g; rng := rng g;
     highscore_file := highscore_file g; disk := disk g; next_pid := v |}.


(** *** Reading the outside world through [self] *)

Definition rand_int (a b : Z) (g : SnakeGame) : Z * SnakeGame :=
  let (z, o) := randint a b (rng g) in (z, with_rng o g).

Definition rand_uniform (a b : Z) (g : SnakeGame) : float * SnakeGame :=
  let (f, o) := uniform a b (rng g) in (f, with_rng o g).

Definition rand_choice {A : Type} (seq : list A) (default : A) (g : SnakeGame)
  : A * SnakeGame :=
  let (a, o) := choice seq default (rng g) in (a, with_rng o g).

Definition now (g : SnakeGame) : float * SnakeGame :=
  let (t, o) := time_time (rng g) in (t, with_rng o g).

(** *** The high-score file *)

(** [open(path, 'r')] and [f.read()]: [OSError] when the file cannot be
    opened, [UnicodeDecodeError], which is a [ValueError], when its bytes are
    not UTF-8. *)
Definition open_read (file : option string) : result Text :=
  match file with
  | None => Raise OSError
  | Some bytes =>
      match utf8_decode bytes with
      | Some text => Ok (universal_newlines text)
      | None => Raise ValueError
      end
  end.

Definition load_high_score (g : SnakeGame) : result Z :=
  try_except
    (content <- open_read (highscore_file g) ;;
     py_int (py_strip content))
    (Ok 0).

(** The body of the [try] of [save_high_score]: the game when the block is
    left, and the exception it is left with, if any.  [open(path, 'w')]
    raises [OSError], or empties the file; [str] raises [ValueError] on too
    many digits; [f.write] and the end of the [with] block put in the file
    the bytes the disk takes, and raise [OSError] when it does not take them
    all. *)
Definition write_high_score (g : SnakeGame) : SnakeGame * option exn :=
  match disk g with
  | CannotOpen => (g, Some OSError)
  | _ =>
      let g := with_highscore_file (Some EmptyString) g in
      match py_str (high_score g) with
      | Ok data =>
          (with_highscore_file (Some (written (disk g) data)) g,
           if write_fails (disk g) data then Some OSError else None)
      | _ => (g, Some ValueError)
      end
  end.

(** [save_high_score]: the bare [except] passes over the exception, and the
    file is what it was when the exception was raised. *)
Definition save_high_score (g : SnakeGame) : result SnakeGame :=
  Ok (fst (write_high_score g)).

(** *** Obstacles and spawners *)

Definition is_obstacle_at (g : SnakeGame) (x y : Z) : bool :=
  existsb (fun obstacle =>
             (ob_x obstacle <=? x) && (x <? ob_x obstacle + ob_width obstacle)
             && (ob_y obstacle <=? y) && (y <? ob_y obstacle + ob_height obstacle))
          (obstacles g).

(** [spawn_food]: [while True]. *)
Fixpoint spawn_food (fuel : nat) (g : SnakeGame) : result (Pos * SnakeGame) :=
  match fuel with
  | O => OutOfFuel
  | S fuel' =>
      let (x, g) := rand_int 0 (GRID_WIDTH - 1) g in
      let (y, g) := rand_int 0 (GRID_HEIGHT - 1) g in
      if negb (py_in (x, y) (snake g)) && negb (is_obstacle_at g x y)
      then Ok ((x, y), g)
      else spawn_food fuel' g
  end.

Definition power_up_types : list (PowerUpType * Color) :=
  [ (SPEED_BOOST, NEON_YELLOW); (SLOW_DOWN, NEON_BLUE); (GROW, NEON_GREEN);
    (SHRINK, NEON_PINK); (INVINCIBILITY, NEON_PURPLE); (DOUBLE_POINTS, NEON_ORANGE) ].

(** The loop [while True] of [spawn_power_up]. *)
Fixpoint spawn_power_up_loop (fuel : nat) (power_type : PowerUpType) (color : Color)
  (g : SnakeGame) : result SnakeGame :=
  match fuel with
  | O => OutOfFuel
  | S fuel' =>
      let (x, g) := rand_int 0 (GRID_WIDTH - 1) g in
      let (y, g) := rand_int 0 (GRID_HEIGHT - 1) g in
      if negb (py_in (x, y) (snake g)) && negb (pos_eqb (x, y) (food g))
         && negb (is_obstacle_at g x y)
      then
        let (t, g) := now g in
        let power_up := {| pu_x := x; pu_y := y; pu_type := power_type; pu_duration := 300;
                           pu_color := color; pu_spawn_time := t |} in
        Ok (with_power_ups (power_ups g ++ [power_up]) g)
      else spawn_power_up_loop fuel' power_type color g
  end.

Definition spawn_power_up (fuel : nat) (g : SnakeGame) : result SnakeGame :=
  if 3 <=? Z.of_nat (List.length (power_ups g)) then Ok g
  else
    let '((power_type, color), g) := rand_choice power_up_types (SPEED_BOOST, NEON_YELLOW) g in
    spawn_power_up_loop fuel power_type color g.

Definition add_obstacle (ob : Obstacle) (g : SnakeGame) : SnakeGame :=
  with_obstacles (obstacles g ++ [ob]) g.

Definition create_line_obstacle (g : SnakeGame) : SnakeGame :=
  let (horizontal, g) := rand_choice [true; false] true g in
  if horizontal then
    let (length, g) := rand_int 3 8 g in
    let (x, g) := rand_int 2 (GRID_WIDTH - length - 2) g in
    let (y, g) := rand_int 2 (GRID_HEIGHT - 2) g in
    add_obstacle {| ob_x := x; ob_y := y; ob_width := length; ob_height := 1;
                    ob_color := LIGHT_GRAY; ob_pattern := "line" |} g
  else
    let (length, g) := rand_int 3 6 g in
    let (x, g) := rand_int 2 (GRID_WIDTH - 2) g in
    let (y, g) := rand_int 2 (GRID_HEIGHT - length - 2) g in
    add_obstacle {| ob_x := x; ob_y := y; ob_width := 1; ob_height := length;
                    ob_color := LIGHT_GRAY; ob_pattern := "line" |} g.

Definition create_box_obstacle (g : SnakeGame) : SnakeGame :=
  let (size, g) := rand_int 2 4 g in
  let (x, g) := rand_int 2 (GRID_WIDTH - size - 2) g in
  let (y, g) := rand_int 2 (GRID_HEIGHT - size - 2) g in
  add_obstacle {| ob_x := x; ob_y := y; ob_width := size; ob_height := size;
                  ob_color := DARK_GRAY; ob_pattern := "box" |} g.

Definition create_cross_obstacle (g : SnakeGame) : SnakeGame :=
  let (x, g) := rand_int 3 (GRID_WIDTH - 4) g in
  let (y, g) := rand_int 3 (GRID_HEIGHT - 4) g in
  let g := add_obstacle {| ob_x := x; ob_y := y - 1; ob_width := 1; ob_height := 3;
                           ob_color := NEON_CYAN; ob_pattern := "cross" |} g in
  add_obstacle {| ob_x := x - 1; ob_y := y; ob_width := 3; ob_height := 1;
                  ob_color := NEON_CYAN; ob_pattern := "cross" |} g.

Definition create_corner_obstacle (g : SnakeGame) : SnakeGame :=
  let (x, g) := rand_int 2 (GRID_WIDTH - 4) g in
  let (y, g) := rand_int 2 (GRID_HEIGHT - 4) g in
  let g := add_obstacle {| ob_x := x; ob_y := y; ob_width := 3; ob_height := 1;
                           ob_color := NEON_PINK; ob_pattern := "corner" |} g in
  add_obstacle {| ob_x := x; ob_y := y; ob_width := 1; ob_height := 3;
                  ob_color := NEON_PINK; ob_pattern := "corner" |} g.

Definition create_random_obstacle (g : SnakeGame) : SnakeGame :=
  let patterns := ["line"; "box"; "cross"; "corner"]%string in
  let (pattern, g) := rand_choice patterns "line"%string g in
  if String.eqb pattern "line" then create_line_obstacle g
  else if String.eqb pattern "box" then create_box_obstacle g
  else if String.eqb pattern "cross" then create_cross_obstacle g
  else if String.eqb pattern "corner" then create_corner_obstacle g
  else g.

Definition generate_obstacles (g : SnakeGame) : SnakeGame :=
  let g := with_obstacles [] g in
  let obstacle_count := Z.min (3 + level g / 2) 8 in
  for_range (Z.to_nat obstacle_count) create_random_obstacle g.

(** *** Particles *)

(** [Particle(x, y, color, velocity, lifetime)]: the constructor draws the
    size; the new object gets an identity of its own. *)
Definition new_Particle (x y : Z) (color : Color) (velocity : float * float) (lifetime : Z)
  (g : SnakeGame) : Particle * SnakeGame :=
  let (size, g) := rand_int 2 5 g in
  ({| pid := next_pid g; p_x := float_of_Z x; p_y := float_of_Z y; p_color := color;
      p_velocity := velocity; p_lifetime := lifetime; p_max_lifetime := lifetime;
      p_size := size |},
   with_next_pid (S (next_pid g)) g).

(** [self.particles.append(Particle(x, y, color, velocity, lifetime))] with
    [velocity = (random.uniform(-r, r), random.uniform(-r, r))]. *)
Definition emit (x y : Z) (color : Color) (r : Z) (lifetime : Z) (g : SnakeGame) : SnakeGame :=
  let (vx, g) := rand_uniform (- r) r g in
  let (vy, g) := rand_uniform (- r) r g in
  let (p, g) := new_Particle x y color (vx, vy) lifetime g in
  with_particles (particles g ++ [p]) g.

Definition create_food_particles (pos : Pos) (g : SnakeGame) : SnakeGame :=
  let x := fst pos * GRID_SIZE + GRID_SIZE / 2 in
  let y := snd pos * GRID_SIZE + GRID_SIZE / 2 in
  for_range 8 (emit x y NEON_GREEN 3 60) g.

Definition create_power_up_particles (pos : Pos) (color : Color) (g : SnakeGame) : SnakeGame :=
  let x := fst pos * GRID_SIZE + GRID_SIZE / 2 in
  let y := snd pos * GRID_SIZE + GRID_SIZE / 2 in
  for_range 12 (emit x y color 4 60) g.

Definition create_random_particle (pos : Pos) (g : SnakeGame) : SnakeGame :=
  let colors := [NEON_GREEN; NEON_PINK; NEON_BLUE; NEON_YELLOW; NEON_ORANGE] in
  let (color, g) := rand_choice colors NEON_GREEN g in
  emit (fst pos) (snd pos) color 5 60 g.

(** [self.particles.remove(particle)]: the first entry that is this object. *)
Fixpoint remove_particle (i : nat) (l : list Particle) : list Particle :=
  match l with
  | [] => []
  | q :: rest => if Nat.eqb (pid q) i then rest else q :: remove_particle i rest
  end.

(** The object [p] after a method changed its attributes: the list holds
    the same object. *)
Definition store_particle (p : Particle) (l : list Particle) : list Particle :=
  map (fun q => if Nat.eqb (pid q) (pid p) then p else q) l.

(** [update_particles]: the loop runs over a copy of the list, in which each
    object occurs once. *)
Definition update_particles (g : SnakeGame) : SnakeGame :=
  fold_left
    (fun g particle =>
       let particle := Particle_update particle in
       let g := with_particles (store_particle particle (particles g)) g in
       if p_lifetime particle <=? 0
       then with_particles (remove_particle (pid particle) (particles g)) g
       else g)
    (particles g) g.

(** *** Power-up effects *)

(** [d[k] = v] and [del d[k]] on a dictionary kept in insertion order. *)
Fixpoint dict_set (k : string) (v : Z) (d : list (string * Z)) : list (string * Z) :=
  match d with
  | [] => [(k, v)]
  | (k', v') :: rest =>
      if String.eqb k k' then (k, v) :: rest else (k', v') :: dict_set k v rest
  end.

Fixpoint dict_del (k : string) (d : list (string * Z)) : list (string * Z) :=
  match d with
  | [] => []
  | (k', v') :: rest => if String.eqb k k' then rest else (k', v') :: dict_del k rest
  end.

Definition update_effects (g : SnakeGame) : SnakeGame :=
  fold_left
    (fun g item =>
       let '(effect, timer) := item in
       let g := with_effect_timers (dict_set effect (timer - 1) (effect_timers g)) g in
       if timer <=? 0 then
         let g :=
           if String.eqb effect "speed_boost" then with_speed (base_speed g) g
           else if String.eqb effect "slow_down" then with_speed (base_speed g) g
           else if String.eqb effect "invincibility" then with_invincible false g
           else if String.eqb effect "double_points" then with_double_points false g
           else g in
         with_effect_timers (dict_del effect (effect_timers g)) g
       else g)
    (effect_timers g) g.

(** One pass of the loop of GROW: [if self.snake: self.snake.append(self.snake[-1])]. *)
Definition grow_once (body : list Pos) : list Pos :=
  match body with
  | [] => []
  | h :: _ => body ++ [last body h]
  end.

Definition apply_power_up (power_up : PowerUp) (g : SnakeGame) : SnakeGame :=
  let effect_duration := 300 in
  let g :=
    match pu_type power_up with
    | SPEED_BOOST =>
        let g := with_speed (Z.min (speed g + 3) 20) g in
        with_effect_timers (dict_set "speed_boost" effect_duration (effect_timers g)) g
    | SLOW_DOWN =>
        let g := with_speed (Z.max (speed g - 2) 3) g in
        with_effect_timers (dict_set "slow_down" effect_duration (effect_timers g)) g
    | GROW =>
        for_range 3 (fun g => with_snake (grow_once (snake g)) g) g
    | SHRINK =>
        let len := Z.of_nat (List.length (snake g)) in
        if 3 <? len then
          for_range (Z.to_nat (Z.min 2 (len - 1))) (fun g => with_snake (pop (snake g)) g) g
        else g
    | INVINCIBILITY =>
        let g := with_invincible true g in
        with_effect_timers (dict_set "invincibility" effect_duration (effect_timers g)) g
    | DOUBLE_POINTS =>
        let g := with_double_points true g in
        with_effect_timers (dict_set "double_points" effect_duration (effect_timers g)) g
    end in
  with_score (score g + 5) g.

(** *** Collision, game over, level up *)

Definition check_collision (g : SnakeGame) (pos : Pos) : bool :=
  let (x, y) := pos in
  if (x <? 0) || (GRID_WIDTH <=? x) || (y <? 0) || (GRID_HEIGHT <=? y) then true
  else if py_in pos (snake g) then true
  else if is_obstacle_at g x y then true
  else false.

Definition game_over (g : SnakeGame) : result SnakeGame :=
  let g := with_state GAME_OVER g in
  g <- (if high_score g <? score g
        then save_high_score (with_high_score (score g) g)
        else Ok g) ;;
  match snake g with
  | [] => Raise IndexError
  | head :: _ =>
      let x := fst head * GRID_SIZE + GRID_SIZE / 2 in
      let y := snd head * GRID_SIZE + GRID_SIZE / 2 in
      Ok (for_range 30 (emit x y RED 6 120) g)
  end.

Definition level_up (g : SnakeGame) : SnakeGame :=
  let g := with_level (level g + 1) g in
  let g := with_base_speed (Z.min (base_speed g + 1) 15) g in
  let g := with_speed (base_speed g) g in
  let g := generate_obstacles g in
  let g := with_screen_shake 10 g in
  for_range 20 (create_random_particle (WINDOW_WIDTH / 2, WINDOW_HEIGHT / 2)) g.

(** *** [update_game], in the four blocks of its body *)

(** The clock of the game, the effects, a power-up now and then, and the
    power-ups that expired. *)
Definition housekeeping (fuel : nat) (g : SnakeGame) : result SnakeGame :=
  let g := with_game_time (game_time g + 1) g in
  let g := update_effects g in
  let (r, g) := rand_int 1 200 g in
  g <- (if r =? 1 then spawn_power_up fuel g else Ok g) ;;
  let (current_time, g) := now g in
  Ok (with_power_ups
        (filter (fun p => (current_time - pu_spawn_time p <? 10)%float) (power_ups g)) g).

(** [new_head = (head_x + dx, head_y + dy)] *)
Definition new_head (g : SnakeGame) : result Pos :=
  match snake g with
  | [] => Raise IndexError
  | (head_x, head_y) :: _ =>
      let (dx, dy) := value (direction g) in
      Ok (head_x + dx, head_y + dy)
  end.

(** The food branch and its [else: self.snake.pop()]. *)
Definition eat_or_pop (fuel : nat) (head : Pos) (g : SnakeGame) : result SnakeGame :=
  if pos_eqb head (food g) then
    let points := 10 in
    let points := if double_points g then points * 2 else points in
    let g := with_score (score g + points) g in
    '(f, g) <- spawn_food fuel g ;;
    let g := with_food f g in
    let g := create_food_particles head g in
    if level g - 1 <? score g / 100 then Ok (level_up g) else Ok g
  else Ok (with_snake (pop (snake g)) g).

(** [self.power_ups.remove(power_up)]: the first entry equal to it. *)
Fixpoint remove_power_up (power_up : PowerUp) (l : list PowerUp) : list PowerUp :=
  match l with
  | [] => []
  | q :: rest =>
      if PowerUp_eqb q power_up then rest else q :: remove_power_up power_up rest
  end.

(** [for power_up in self.power_ups[:]] *)
Definition collect_power_ups (head : Pos) (g : SnakeGame) : SnakeGame :=
  fold_left
    (fun g power_up =>
       if pos_eqb head (pu_x power_up, pu_y power_up) then
         let g := apply_power_up power_up g in
         let g := with_power_ups (remove_power_up power_up (power_ups g)) g in
         create_power_up_particles (pu_x power_up, pu_y power_up) (pu_color power_up) g
       else g)
    (power_ups g) g.

Definition update_game (fuel : nat) (g : SnakeGame) : result SnakeGame :=
  if negb (GameState_eqb (state g) PLAYING) then Ok g
  else
    g <- housekeeping fuel g ;;
    head <- new_head g ;;
    if check_collision g head && negb (invincible g) then game_over g
    else
      let g := with_snake (head :: snake g) g in
      g <- eat_or_pop fuel head g ;;
      Ok (collect_power_ups head g).

(** *** [reset_game], input, and the main loop *)

Definition reset_game (fuel : nat) (g : SnakeGame) : result SnakeGame :=
  let g := with_snake [(GRID_WIDTH / 2, GRID_HEIGHT / 2)] g in
  let g := with_direction RIGHT g in
  '(f, g) <- spawn_food fuel g ;;
  let g := with_food f g in
  let g := with_score 0 g in
  hs <- load_high_score g ;;
  let g := with_high_score hs g in
  let g := with_speed 8 g in
  let g := with_base_speed 8 g in
  let g := with_power_ups [] g in
  let g := with_obstacles [] g in
  let g := with_effect_timers [] g in
  let g := with_invincible false g in
  let g := with_double_points false g in
  let g := with_game_time 0 g in
  let g := with_level 1 g in
  Ok (generate_obstacles g).

(** [pygame.key.get_pressed()], the keys the game reads. *)
Record Keys : Type := {
  K_UP : bool;
  K_DOWN : bool;
  K_LEFT : bool;
  K_RIGHT : bool;
  K_SPACE : bool
}.

Definition handle_input (keys : Keys) (fuel : nat) (g : SnakeGame) : result SnakeGame :=
  match state g with
  | PLAYING =>
      if K_UP keys && negb (Direction_eqb (direction g) DOWN) then Ok (with_direction UP g)
      else if K_DOWN keys && negb (Direction_eqb (direction g) UP)
      then Ok (with_direction DOWN g)
      else if K_LEFT keys && negb (Direction_eqb (direction g) RIGHT)
      then Ok (with_direction LEFT g)
      else if K_RIGHT keys && negb (Direction_eqb (direction g) LEFT)
      then Ok (with_direction RIGHT g)
      else if K_SPACE keys then Ok (with_state PAUSED g)
      else Ok g
  | PAUSED => if K_SPACE keys then Ok (with_state PLAYING g) else Ok g
  | MENU =>
      if K_SPACE keys then
        g <- reset_game fuel g ;;
        Ok (with_state PLAYING g)
      else Ok g
  | GAME_OVER => if K_SPACE keys then Ok (with_state MENU g) else Ok g
  end.

(** The events of [pygame.event.get()] that the loop tells apart. *)
Inductive Event : Type :=
| QUIT
| KEYDOWN_ESCAPE
| OTHER_EVENT.

Definition handle_event (acc : bool * SnakeGame) (event : Event) : bool * SnakeGame :=
  let (running, g) := acc in
  match event with
  | QUIT => (false, g)
  | KEYDOWN_ESCAPE =>
      match state g with
      | PLAYING => (running, with_state PAUSED g)
      | PAUSED => (running, with_state MENU g)
      | _ => (false, g)
      end
  | OTHER_EVENT => (running, g)
  end.

Definition apply_screen_shake (g : SnakeGame) : SnakeGame :=
  if 0 <? screen_shake g then
    let (shake_x, g) := rand_int (- screen_shake g) (screen_shake g) g in
    let (shake_y, g) := rand_int (- screen_shake g) (screen_shake g) g in
    with_screen_shake (screen_shake g - 1) g
  else g.

(** One pass of the loop [while running] of [run], as the full text of the
    class has it in [src/realistic_snake_game.py]: events, keys, the tick,
    the particles, the drawing calls, which read the state and change the
    screen only, and the screen shake. *)
Definition run_iteration (events : list Event) (keys : Keys) (fuel : nat) (g : SnakeGame)
  : result (bool * SnakeGame) :=
  let (running, g) := fold_left handle_event events (true, g) in
  g <- handle_input keys fuel g ;;
  g <- update_game fuel g ;;
  let g := update_particles g in
  let g := apply_screen_shake g in
  Ok (running, g).

End Retro.

(** ** The first call of [reset_game]

    [Retro.SnakeGame] describes an object all of whose attributes exist.
    [SnakeGame.__init__] calls [reset_game] on a new object, where they do
    not yet: [reset_game] assigns [snake] and [direction], then calls
    [spawn_food], which reads [self.obstacles] (in [is_obstacle_at]) before
    [reset_game] assigns it.  This module follows the attributes that
    [spawn_food] reads through that first call. *)
Module RetroStartup.

(** The attributes [spawn_food] reads, [None] for one the object does not
    have yet, and the generator. *)
Record Attributes : Type := {
  snake : option (list Pos);
  obstacles : option (list Retro.Obstacle);
  rng : Oracle
}.

Definition getattr {A : Type} (attribute : option A) : result A :=
  match attribute with
  | Some v => Ok v
  | None => Raise AttributeError
  end.

Definition is_obstacle_at (self : Attributes) (x y : Z) : result bool :=
  obstacles <- getattr (obstacles self) ;;
  Ok (existsb (fun obstacle =>
                 (Retro.ob_x obstacle <=? x)
                 && (x <? Retro.ob_x obstacle + Retro.ob_width obstacle)
                 && (Retro.ob_y obstacle <=? y)
                 && (y <? Retro.ob_y obstacle + Retro.ob_height obstacle))
              obstacles).

(** [spawn_food]: [and] looks at [is_obstacle_at] only when the cell is not
    on the snake. *)
Fixpoint spawn_food (fuel : nat) (self : Attributes) : result (Pos * Attributes) :=
  match fuel with
  | O => OutOfFuel
  | S fuel' =>
      let (x, o) := randint 0 (Retro.GRID_WIDTH - 1) (rng self) in
      let (y, o) := randint 0 (Retro.GRID_HEIGHT - 1) o in
      let self := {| snake := snake self; obstacles := obstacles self; rng := o |} in
      body <- getattr (snake self) ;;
      if negb (py_in (x, y) body) then
        hit <- is_obstacle_at self x y ;;
        if negb hit then Ok ((x, y), self) else spawn_food fuel' self
      else spawn_food fuel' self
  end.

(** A new object after the first two assignments of [reset_game]. *)
Definition new_object (o : Oracle) : Attributes :=
  {| snake := Some [(Retro.GRID_WIDTH / 2, Retro.GRID_HEIGHT / 2)];
     obstacles := None;
     rng := o |}.

(** The attributes of an object that has them all. *)
Definition attributes_of (g : Retro.SnakeGame) : Attributes :=
  {| snake := Some (Retro.snake g);
     obstacles := Some (Retro.obstacles g);
     rng := Retro.rng g |}.

End RetroStartup.

(** * The states, runs and examples of the statements *)

(** ** Bodies and boards *)

(** The cells a body keeps through a move: all of them when the snake
    grows, all but the tail cell when it does not. *)
Definition kept (growing : bool) (body : list Pos) : list Pos :=
  if growing then body else removelast body.

(** A snake of four segments curled in a square, heading right: its next
    head cell (6,5) is the cell of its tail. *)
Definition pi_square : PiSnake.Snake :=
  {| PiSnake.segments := [(5, 5); (5, 6); (6, 6); (6, 5)];
     PiSnake.direction := RIGHT;
     PiSnake.next_direction := RIGHT;
     PiSnake.growing := false;
     PiSnake.move_timer := 0%float;
     PiSnake.move_delay := 0.2%float |}.

(** The same snake in UltraSnake. *)
Definition ultra_square : UltraSnake.Snake :=
  {| UltraSnake.segments :=
       [UltraSnake.SnakeSegment_init 5 5 true; UltraSnake.SnakeSegment_init 5 6 false;
        UltraSnake.SnakeSegment_init 6 6 false; UltraSnake.SnakeSegment_init 6 5 false];
     UltraSnake.direction := RIGHT;
     UltraSnake.next_direction := RIGHT;
     UltraSnake.growing := false;
     UltraSnake.move_timer := 0%float;
     UltraSnake.move_delay := 0.15%float |}.

(** A game of Retro being played: a snake of one segment heading right, no
    obstacle, no power-up, no high-score file, a generator whose script is
    used up. *)
Definition retro_blank : Retro.SnakeGame :=
  {| Retro.state := Retro.PLAYING;
     Retro.snake := [(20, 15)];
     Retro.direction := RIGHT;
     Retro.food := (10, 10);
     Retro.score := 0;
     Retro.high_score := 0;
     Retro.speed := 8;
     Retro.base_speed := 8;
     Retro.power_ups := [];
     Retro.obstacles := [];
     Retro.effect_timers := [];
     Retro.invincible := false;
     Retro.double_points := false;
     Retro.game_time := 0;
     Retro.level := 1;
     Retro.particles := [];
     Retro.screen_shake := 0;
     Retro.rng := {| ints := []; floats := []; times := [] |};
     Retro.highscore_file := None;
     Retro.disk := Writable;
     Retro.next_pid := 0 |}.

(** The same snake in Retro. *)
Definition retro_square : Retro.SnakeGame :=
  Retro.with_snake [(5, 5); (5, 6); (6, 6); (6, 5)] retro_blank.

(** A board without a free cell: every cell of the grid is on the snake or
    in an obstacle. *)
Definition Retro_board_full (g : Retro.SnakeGame) : Prop :=
  forall x y, 0 <= x < Retro.GRID_WIDTH -> 0 <= y < Retro.GRID_HEIGHT ->
    py_in (x, y) (Retro.snake g) = true \/ Retro.is_obstacle_at g x y = true.

Definition Ultra_board_full (g : UltraSnake.Game) : Prop :=
  forall x y, 0 <= x < UltraSnake.GRID_WIDTH -> 0 <= y < UltraSnake.GRID_HEIGHT ->
    UltraSnake.check_collision (UltraSnake.snake g) x y = true \/
    UltraSnake.is_obstacle g x y = true.

Definition Pi_board_full (g : PiSnake.Game) : Prop :=
  forall x y, 0 <= x < PiSnake.GRID_WIDTH -> 0 <= y < PiSnake.GRID_HEIGHT ->
    PiSnake.check_collision (PiSnake.snake g) x y = true \/
    PiSnake.is_obstacle g x y = true.

(** The cells of a grid, and a snake that covers it row after row. *)
Definition zrange (n : nat) : list Z := map Z.of_nat (seq 0 n).

Definition all_cells (w h : nat) : list Pos :=
  flat_map (fun y => map (fun x => (x, y)) (zrange w)) (zrange h).

Definition serpentine (w h : nat) : list Pos :=
  flat_map (fun y => let row := map (fun x => (x, Z.of_nat y)) (zrange w) in
                     if Nat.even y then row else rev row)
           (seq 0 h).

(** Games whose snake covers the whole grid. *)
Definition retro_full : Retro.SnakeGame :=
  Retro.with_snake (serpentine 40 30) retro_blank.

Definition ultra_full : UltraSnake.Game :=
  {| UltraSnake.snake :=
       {| UltraSnake.segments :=
            map (fun p => UltraSnake.SnakeSegment_init (fst p) (snd p) false) (serpentine 60 40);
          UltraSnake.direction := RIGHT;
          UltraSnake.next_direction := RIGHT;
          UltraSnake.growing := false;
          UltraSnake.move_timer := 0%float;
          UltraSnake.move_delay := 0.15%float |};
     UltraSnake.apple := Some (0, 0);
     UltraSnake.obstacles := [];
     UltraSnake.score := 0;
     UltraSnake.apples_eaten := 0;
     UltraSnake.game_over := false;
     UltraSnake.paused := false;
     UltraSnake.rng := {| ints := []; floats := []; times := [] |} |}.

Definition pi_full : PiSnake.Game :=
  {| PiSnake.snake :=
       {| PiSnake.segments := serpentine 32 24;
          PiSnake.direction := RIGHT;
          PiSnake.next_direction := RIGHT;
          PiSnake.growing := false;
          PiSnake.move_timer := 0%float;
          PiSnake.move_delay := 0.2%float |};
     PiSnake.apple := Some (PiSnake.Apple_init 0 0);
     PiSnake.obstacles := [];
     PiSnake.score := 0;
     PiSnake.apples_eaten := 0;
     PiSnake.game_over := false;
     PiSnake.paused := false;
     PiSnake.rng := {| ints := []; floats := []; times := [] |} |}.

(** A GROW power-up on the cell [(x, y)]. *)
Definition a_power_up (x y : Z) : Retro.PowerUp :=
  {| Retro.pu_x := x; Retro.pu_y := y; Retro.pu_type := Retro.GROW; Retro.pu_duration := 300;
     Retro.pu_color := Retro.NEON_GREEN; Retro.pu_spawn_time := 0%float |}.

(** A game with one power-up on the cell (3,3); the generator will draw 3
    and 3. *)
Definition retro_power_up_at_3_3 : Retro.SnakeGame :=
  Retro.with_rng {| ints := [3; 3]; floats := []; times := [] |}
    (Retro.with_power_ups [a_power_up 3 3] retro_blank).

(** The same, the generator drawing 0 (the kind of the power-up), 3 and 3. *)
Definition retro_second_power_up : Retro.SnakeGame :=
  Retro.with_rng {| ints := [0; 3; 3]; floats := []; times := [] |}
    (Retro.with_power_ups [a_power_up 3 3] retro_blank).

(** A game of UltraSnake at its start. *)
Definition ultra_one_cell : UltraSnake.Game :=
  {| UltraSnake.snake := UltraSnake.Snake_init 30 20;
     UltraSnake.apple := None;
     UltraSnake.obstacles := [];
     UltraSnake.score := 0;
     UltraSnake.apples_eaten := 0;
     UltraSnake.game_over := false;
     UltraSnake.paused := false;
     UltraSnake.rng := {| ints := []; floats := []; times := [] |} |}.

(** ** Keys and direction requests *)

(** The keyboard with one arrow key held down. *)
Definition press (d : Direction) : Retro.Keys :=
  {| Retro.K_UP := Direction_eqb d UP;
     Retro.K_DOWN := Direction_eqb d DOWN;
     Retro.K_LEFT := Direction_eqb d LEFT;
     Retro.K_RIGHT := Direction_eqb d RIGHT;
     Retro.K_SPACE := false |}.

(** A snake of two segments heading right. *)
Definition pi_two_cells : PiSnake.Snake :=
  {| PiSnake.segments := [(10, 10); (9, 10)];
     PiSnake.direction := RIGHT;
     PiSnake.next_direction := RIGHT;
     PiSnake.growing := false;
     PiSnake.move_timer := 0%float;
     PiSnake.move_delay := 0.2%float |}.

Definition ultra_two_cells : UltraSnake.Snake :=
  {| UltraSnake.segments :=
       [UltraSnake.SnakeSegment_init 10 10 true; UltraSnake.SnakeSegment_init 9 10 false];
     UltraSnake.direction := RIGHT;
     UltraSnake.next_direction := RIGHT;
     UltraSnake.growing := false;
     UltraSnake.move_timer := 0%float;
     UltraSnake.move_delay := 0.15%float |}.

(** ** The cells a spawner draws *)

(** The cell that the next two draws of the generator give on a grid of
    [width] by [height] cells, and the generator after them. *)
Definition draw_cell (width height : Z) (o : Oracle) : Pos * Oracle :=
  let (x, o1) := randint 0 (width - 1) o in
  let (y, o2) := randint 0 (height - 1) o1 in
  ((x, y), o2).

(** The generator after [n] cells were drawn. *)
Fixpoint after_cells (width height : Z) (n : nat) (o : Oracle) : Oracle :=
  match n with
  | O => o
  | S n' => after_cells width height n' (snd (draw_cell width height o))
  end.

(** The cell drawn after [n] others. *)
Definition cell_drawn (width height : Z) (n : nat) (o : Oracle) : Pos :=
  fst (draw_cell width height (after_cells width height n o)).

(** The cells a spawner accepts: the condition of its loop. *)
Definition Retro_free (g : Retro.SnakeGame) (p : Pos) : bool :=
  negb (py_in p (Retro.snake g)) && negb (Retro.is_obstacle_at g (fst p) (snd p)).

Definition Retro_free_of_food (g : Retro.SnakeGame) (p : Pos) : bool :=
  negb (py_in p (Retro.snake g)) && negb (pos_eqb p (Retro.food g))
  && negb (Retro.is_obstacle_at g (fst p) (snd p)).

Definition Pi_free (g : PiSnake.Game) (p : Pos) : bool :=
  negb (PiSnake.check_collision (PiSnake.snake g) (fst p) (snd p))
  && negb (PiSnake.is_obstacle g (fst p) (snd p)).

Definition Ultra_free (g : UltraSnake.Game) (p : Pos) : bool :=
  negb (UltraSnake.check_collision (UltraSnake.snake g) (fst p) (snd p))
  && negb (UltraSnake.is_obstacle g (fst p) (snd p)).

(** The generator of [spawn_power_up] after the kind of the power-up was
    chosen. *)
Definition after_choice (g : Retro.SnakeGame) : Oracle :=
  snd (choice Retro.power_up_types (Retro.SPEED_BOOST, Retro.NEON_YELLOW) (Retro.rng g)).

(** Games whose generator first draws the cell of the head, then the cell
    (3,3): Retro (for the food and, 0 being the kind, for a power-up),
    PiSnake and UltraSnake. *)
Definition retro_second_draw : Retro.SnakeGame :=
  Retro.with_rng {| ints := [20; 15; 3; 3]; floats := []; times := [] |} retro_blank.

Definition retro_power_up_second_draw : Retro.SnakeGame :=
  Retro.with_rng {| ints := [0; 20; 15; 3; 3]; floats := []; times := [] |} retro_blank.

Definition pi_second_draw : PiSnake.Game :=
  {| PiSnake.snake := pi_two_cells;
     PiSnake.apple := None;
     PiSnake.obstacles := [];
     PiSnake.score := 0;
     PiSnake.apples_eaten := 0;
     PiSnake.game_over := false;
     PiSnake.paused := false;
     PiSnake.rng := {| ints := [10; 10; 3; 3]; floats := []; times := [] |} |}.

Definition ultra_second_draw : UltraSnake.Game :=
  UltraSnake.with_rng {| ints := [30; 20; 3; 3]; floats := []; times := [] |} ultra_one_cell.

(** ** The states a game reaches *)

(** One pass of the loop of [collect_power_ups]. *)
Definition collect_one (head : Pos) (g : Retro.SnakeGame) (power_up : Retro.PowerUp)
  : Retro.SnakeGame :=
  if pos_eqb head (Retro.pu_x power_up, Retro.pu_y power_up) then
    let g := Retro.apply_power_up power_up g in
    let g := Retro.with_power_ups (Retro.remove_power_up power_up (Retro.power_ups g)) g in
    Retro.create_power_up_particles (Retro.pu_x power_up, Retro.pu_y power_up)
      (Retro.pu_color power_up) g
  else g.

(** [SnakeGame.__init__], for an object [g] whose attributes exist:
    [reset_game], then the menu, no particle, no shake. *)
Definition SnakeGame_init (fuel : nat) (g : Retro.SnakeGame) : result Retro.SnakeGame :=
  g <- Retro.reset_game fuel g ;;
  Ok (Retro.with_screen_shake 0 (Retro.with_particles [] (Retro.with_state Retro.MENU g))).

(** The states of a game: the one [__init__] returns, and what the methods
    the main loop calls make of a state. *)
Inductive Retro_reachable : Retro.SnakeGame -> Prop :=
| reach_init fuel g g' :
    SnakeGame_init fuel g = Ok g' -> Retro_reachable g'
| reach_event running g event :
    Retro_reachable g -> Retro_reachable (snd (Retro.handle_event (running, g) event))
| reach_input keys fuel g g' :
    Retro_reachable g -> Retro.handle_input keys fuel g = Ok g' -> Retro_reachable g'
| reach_update fuel g g' :
    Retro_reachable g -> Retro.update_game fuel g = Ok g' -> Retro_reachable g'
| reach_particles g :
    Retro_reachable g -> Retro_reachable (Retro.update_particles g)
| reach_shake g :
    Retro_reachable g -> Retro_reachable (Retro.apply_screen_shake g).

(** [self.snake.move_delay = ...] in [Game.update]. *)
Definition Pi_with_move_delay (delay : float) (s : PiSnake.Snake) : PiSnake.Snake :=
  {| PiSnake.segments := PiSnake.segments s; PiSnake.direction := PiSnake.direction s;
     PiSnake.next_direction := PiSnake.next_direction s; PiSnake.growing := PiSnake.growing s;
     PiSnake.move_timer := PiSnake.move_timer s; PiSnake.move_delay := delay |}.

(** The states of a snake of PiSnake: a new snake, and what its methods and
    the assignment to [move_delay] in [Game.update] make of a state. *)
Inductive Pi_reachable : PiSnake.Snake -> Prop :=
| pi_init x y : Pi_reachable (PiSnake.Snake_init x y)
| pi_set_direction d s : Pi_reachable s -> Pi_reachable (PiSnake.set_direction d s)
| pi_grow s : Pi_reachable s -> Pi_reachable (PiSnake.grow s)
| pi_move s s' : Pi_reachable s -> PiSnake.move s = Ok s' -> Pi_reachable s'
| pi_update dt s s' : Pi_reachable s -> PiSnake.Snake_update dt s = Ok s' -> Pi_reachable s'
| pi_delay delay s : Pi_reachable s -> Pi_reachable (Pi_with_move_delay delay s).

(** [self.snake.move_delay = ...] in [Game.update]. *)
Definition Ultra_with_move_delay (delay : float) (s : UltraSnake.Snake) : UltraSnake.Snake :=
  {| UltraSnake.segments := UltraSnake.segments s;
     UltraSnake.direction := UltraSnake.direction s;
     UltraSnake.next_direction := UltraSnake.next_direction s;
     UltraSnake.growing := UltraSnake.growing s;
     UltraSnake.move_timer := UltraSnake.move_timer s; UltraSnake.move_delay := delay |}.

(** The states of a snake of UltraSnake. *)
Inductive Ultra_reachable : UltraSnake.Snake -> Prop :=
| ultra_init x y : Ultra_reachable (UltraSnake.Snake_init x y)
| ultra_set_direction d s : Ultra_reachable s -> Ultra_reachable (UltraSnake.set_direction d s)
| ultra_grow s : Ultra_reachable s -> Ultra_reachable (UltraSnake.grow s)
| ultra_move s s' : Ultra_reachable s -> UltraSnake.move s = Ok s' -> Ultra_reachable s'
| ultra_update dt s s' :
    Ultra_reachable s -> UltraSnake.Snake_update dt s = Ok s' -> Ultra_reachable s'
| ultra_delay delay s : Ultra_reachable s -> Ultra_reachable (Ultra_with_move_delay delay s).

(** A call that raises no exception. *)
Definition no_raise {A : Type} (m : result A) : Prop := forall e, m <> Raise e.

(** ** Runs *)

(** The state in which the snake takes its step on this tick, with the cell
    its head moves to; [None] when the game is not being played, when the
    tick does not come to the step, or when the step ends the game. *)
Definition tick_step (fuel : nat) (g : Retro.SnakeGame) : option (Retro.SnakeGame * Pos) :=
  if negb (Retro.GameState_eqb (Retro.state g) Retro.PLAYING) then None
  else
    match Retro.housekeeping fuel g with
    | Ok g1 =>
        match Retro.new_head g1 with
        | Ok head =>
            if Retro.check_collision g1 head && negb (Retro.invincible g1) then None
            else Some (g1, head)
        | _ => None
        end
    | _ => None
    end.

(** The tick eats the food: the test [new_head == self.food]. *)
Definition eats (fuel : nat) (g : Retro.SnakeGame) : bool :=
  match tick_step fuel g with
  | Some (g1, head) => pos_eqb head (Retro.food g1)
  | None => false
  end.

(** The tick collects a power-up: the test [new_head == (power_up.x, power_up.y)]
    holds for one of them. *)
Definition collects (fuel : nat) (g : Retro.SnakeGame) : bool :=
  match tick_step fuel g with
  | Some (g1, head) =>
      existsb (fun p => pos_eqb head (Retro.pu_x p, Retro.pu_y p)) (Retro.power_ups g1)
  | None => false
  end.

(** A run of the game with [n] ticks that eat and none that collects a
    power-up; between two ticks anything may happen that leaves the body
    alone (a key, a pause). *)
Inductive retro_run : Retro.SnakeGame -> nat -> Retro.SnakeGame -> Prop :=
| run_end g : retro_run g 0 g
| run_tick fuel g g1 n g' :
    Retro.update_game fuel g = Ok g1 ->
    collects fuel g = false ->
    retro_run g1 n g' ->
    retro_run g ((if eats fuel g then 1 else 0) + n) g'
| run_between g g1 n g' :
    Retro.snake g1 = Retro.snake g ->
    retro_run g1 n g' ->
    retro_run g n g'.

(** The calls [Game] makes on its snake, and a run of them. *)
Inductive SnakeOp : Type :=
| SetDirection (d : Direction)
| Grow
| Move.

Fixpoint Pi_run (ops : list SnakeOp) (s : PiSnake.Snake) : result PiSnake.Snake :=
  match ops with
  | [] => Ok s
  | SetDirection d :: rest => Pi_run rest (PiSnake.set_direction d s)
  | Grow :: rest => Pi_run rest (PiSnake.grow s)
  | Move :: rest => s' <- PiSnake.move s ;; Pi_run rest s'
  end.

Fixpoint Ultra_run (ops : list SnakeOp) (s : UltraSnake.Snake) : result UltraSnake.Snake :=
  match ops with
  | [] => Ok s
  | SetDirection d :: rest => Ultra_run rest (UltraSnake.set_direction d s)
  | Grow :: rest => Ultra_run rest (UltraSnake.grow s)
  | Move :: rest => s' <- UltraSnake.move s ;; Ultra_run rest s'
  end.

(** The number of consumption events (calls of [grow]) of a run. *)
Fixpoint count_grow (ops : list SnakeOp) : nat :=
  match ops with
  | [] => 0
  | Grow :: rest => S (count_grow rest)
  | _ :: rest => count_grow rest
  end.

(** No consumption happens while the flag [growing] is still set. *)
Fixpoint spaced (flag : bool) (ops : list SnakeOp) : bool :=
  match ops with
  | [] => true
  | Grow :: rest => negb flag && spaced true rest
  | Move :: rest => spaced false rest
  | SetDirection _ :: rest => spaced flag rest
  end.

(** The segment a set flag stands for. *)
Definition pending (flag : bool) : nat := if flag then 1 else 0.

(** A game whose food lies on the cell ahead of the head, and the state
    after the tick that eats it. *)
Definition retro_food_ahead : Retro.SnakeGame := Retro.with_food (21, 15) retro_blank.

Definition retro_after_meal : Retro.SnakeGame :=
  Eval vm_compute in
    match Retro.update_game 1 retro_food_ahead with
    | Ok g => g
    | _ => retro_food_ahead
    end.

(** Two consumptions, each followed by its move. *)
Definition two_meals : list SnakeOp := [Move; Grow; Move; Move; Grow; Move].

(** ** Particles *)

(** One pass of the loop of [update_particles], on the list. *)
Definition particle_step (l : list Retro.Particle) (particle : Retro.Particle)
  : list Retro.Particle :=
  let particle := Retro.Particle_update particle in
  let l := Retro.store_particle particle l in
  if Retro.p_lifetime particle <=? 0 then Retro.remove_particle (Retro.pid particle) l else l.

(** The loop of [update_particles], on the list. *)
Definition update_particle_list (l : list Retro.Particle) : list Retro.Particle :=
  fold_left particle_step l l.

(** The particles that outlive their update. *)
Definition outlives (p : Retro.Particle) : bool := negb (Retro.p_lifetime p <=? 0).

(** The particles of the list carry different identities, all of them
    given out before [next_pid]. *)
Definition fresh_particles (g : Retro.SnakeGame) : Prop :=
  NoDup (map Retro.pid (Retro.particles g)) /\
  forall i, In i (map Retro.pid (Retro.particles g)) -> (i < Retro.next_pid g)%nat.

(** The part of the game [fresh_particles] reads. *)
Definition particle_store (g : Retro.SnakeGame) : list Retro.Particle * nat :=
  (Retro.particles g, Retro.next_pid g).

(** A particle with the lifetime given. *)
Definition pi_spark (lifetime : float) : PiSnake.Particle :=
  {| PiSnake.p_x := 100; PiSnake.p_y := 100; PiSnake.p_vx := 30; PiSnake.p_vy := 40;
     PiSnake.p_lifetime := lifetime; PiSnake.p_max_lifetime := 0.5 |}%float.

Definition ultra_spark (lifetime : float) : UltraSnake.Particle :=
  {| UltraSnake.p_x := 100%float; UltraSnake.p_y := 100%float;
     UltraSnake.p_color := (255, 100, 100);
     UltraSnake.p_velocity := (30, 40)%float; UltraSnake.p_lifetime := lifetime;
     UltraSnake.p_max_lifetime := 0.5%float |}.

Definition retro_spark (i : nat) (lifetime : Z) : Retro.Particle :=
  {| Retro.pid := i; Retro.p_x := 100; Retro.p_y := 100; Retro.p_color := Retro.RED;
     Retro.p_velocity := (1, 1)%float; Retro.p_lifetime := lifetime;
     Retro.p_max_lifetime := 120; Retro.p_size := 3 |}.

(** A game with a particle that is spent and one that is not. *)
Definition retro_two_sparks : Retro.SnakeGame :=
  Retro.with_particles [retro_spark 0 0; retro_spark 1 20] retro_blank.

(** The draws of a game: integers and floats of a fixed script. *)
Definition a_script : Oracle :=
  {| ints := map (fun i => Z.of_nat ((17 * i + 3) mod 41)) (seq 0 300);
     floats := map (fun i => float_of_Z (Z.of_nat (i mod 5) - 2)) (seq 0 100);
     times := [] |}.

(** The keyboard with the space bar held down. *)
Definition space_bar : Retro.Keys :=
  {| Retro.K_UP := false; Retro.K_DOWN := false; Retro.K_LEFT := false;
     Retro.K_RIGHT := false; Retro.K_SPACE := true |}.

(** [n] ticks of the game. *)
Fixpoint ticks (n : nat) (g : Retro.SnakeGame) : result Retro.SnakeGame :=
  match n with
  | O => Ok g
  | S n => g <- Retro.update_game 3 g ;; ticks n g
  end.

(** A game from [__init__]: the space bar in the menu, then [n] ticks. *)
Definition play (n : nat) (g : Retro.SnakeGame) : result Retro.SnakeGame :=
  g <- SnakeGame_init 3 g ;;
  g <- Retro.handle_input space_bar 3 g ;;
  ticks n g.

(** Twenty ticks straight to the right, to the wall. *)
Definition retro_to_the_wall : result Retro.SnakeGame :=
  play 20 (Retro.with_rng a_script retro_blank).

(** ** The main loop and the high score *)

(** The keyboard with no key held down. *)
Definition no_keys : Retro.Keys :=
  {| Retro.K_UP := false; Retro.K_DOWN := false; Retro.K_LEFT := false;
     Retro.K_RIGHT := false; Retro.K_SPACE := false |}.

(** A game that is over, with one particle in its last frame. *)
Definition retro_last_spark : Retro.SnakeGame :=
  Retro.with_state Retro.GAME_OVER
    (Retro.with_particles
       [{| Retro.pid := 0; Retro.p_x := 100; Retro.p_y := 100; Retro.p_color := Retro.RED;
           Retro.p_velocity := (1, 1)%float; Retro.p_lifetime := 1;
           Retro.p_max_lifetime := 120; Retro.p_size := 3 |}]
       retro_blank).



(** The text of a line feed. *)
Definition newline : string := String (ascii_of_nat 10) EmptyString.


(** A game that is lost with 30 points, the file holding 20. *)
Definition retro_thirty_points : Retro.SnakeGame :=
  Retro.with_highscore_file (Some "20"%string)
    (Retro.with_high_score 20 (Retro.with_score 30 retro_blank)).

(** The bytes of [12] and a no-break space, of the Arabic-Indic digits one
    and two, and a byte that no UTF-8 text holds. *)
Definition twelve_and_space : string :=
  String "1" (String "2" (String (byte_of 194) (String (byte_of 160) EmptyString))).

Definition arabic_twelve : string :=
  String (byte_of 217) (String (byte_of 161)
    (String (byte_of 217) (String (byte_of 162) EmptyString))).

Definition not_utf8 : string := String (byte_of 255) EmptyString.

(** [n] times the digit [1]. *)
Fixpoint ones (n : nat) : string :=
  match n with
  | O => EmptyString
  | S n' => String "1" (ones n')
  end.

(** The cell of the first two draws of a generator. *)
Definition first_cell (o : Oracle) : Pos :=
  let (x, o) := randint 0 (Retro.GRID_WIDTH - 1) o in
  let (y, _) := randint 0 (Retro.GRID_HEIGHT - 1) o in
  (x, y).

(** ** Retro: the effects of the power-ups, the settings of a game *)

(** The dictionary [effect_timers] through the loop of [update_effects]:
    what one pass does to it. *)
Definition timers_step (d : list (string * Z)) (item : string * Z) : list (string * Z) :=
  let d := Retro.dict_set (fst item) (snd item - 1) d in
  if snd item <=? 0 then Retro.dict_del (fst item) d else d.

(** A timer that has ticks left, and the timer one tick later. *)
Definition ticking (item : string * Z) : bool := 0 <? snd item.

Definition tick_down (item : string * Z) : string * Z := (fst item, snd item - 1).

(** The timer of [effect] is in the dictionary and has run out. *)
Definition expired (effect : string) (d : list (string * Z)) : bool :=
  existsb (fun item => String.eqb (fst item) effect && (snd item <=? 0)) d.

(** The keys of a dictionary. *)
Definition dict_keys (d : list (string * Z)) : list string := map fst d.

(** The flags of the effects say what the dictionary of timers holds, and
    every timer is between 0 and the duration of an effect. *)
Definition effects_in_order (g : Retro.SnakeGame) : Prop :=
  NoDup (dict_keys (Retro.effect_timers g)) /\
  (forall item, In item (Retro.effect_timers g) -> 0 <= snd item <= 300) /\
  (Retro.invincible g = true <-> In "invincibility"%string (dict_keys (Retro.effect_timers g))) /\
  (Retro.double_points g = true <-> In "double_points"%string (dict_keys (Retro.effect_timers g))).

(** An obstacle that leaves the outer ring of the grid free: the columns 0,
    1 and [GRID_WIDTH - 1], the rows 0, 1 and [GRID_HEIGHT - 1]. *)
Definition obstacle_inside (ob : Retro.Obstacle) : Prop :=
  2 <= Retro.ob_x ob /\ 1 <= Retro.ob_width ob /\
  Retro.ob_x ob + Retro.ob_width ob <= Retro.GRID_WIDTH - 1 /\
  2 <= Retro.ob_y ob /\ 1 <= Retro.ob_height ob /\
  Retro.ob_y ob + Retro.ob_height ob <= Retro.GRID_HEIGHT - 1.

(** What the invariants of a game read. *)
Definition settings (g : Retro.SnakeGame)
  : list Retro.PowerUp * Z * Z * Z * list (string * Z) * bool * bool * list Retro.Obstacle * Z :=
  (Retro.power_ups g, Retro.speed g, Retro.base_speed g, Retro.level g,
   Retro.effect_timers g, Retro.invincible g, Retro.double_points g, Retro.obstacles g,
   Retro.score g).

(** The settings of a game are in order. *)
Definition tidy (g : Retro.SnakeGame) : Prop :=
  (List.length (Retro.power_ups g) <= 3)%nat /\
  3 <= Retro.speed g <= 20 /\
  (1 <= Retro.level g /\ Retro.base_speed g = Z.min (7 + Retro.level g) 15) /\
  effects_in_order g /\
  (Forall obstacle_inside (Retro.obstacles g) /\ (List.length (Retro.obstacles g) <= 16)%nat) /\
  (0 <= Retro.score g /\ Retro.score g mod 5 = 0).

(** One pass of the loop of [update_effects]. *)
Definition effects_step (g : Retro.SnakeGame) (item : string * Z) : Retro.SnakeGame :=
  let '(effect, timer) := item in
  let g := Retro.with_effect_timers
             (Retro.dict_set effect (timer - 1) (Retro.effect_timers g)) g in
  if timer <=? 0 then
    let g :=
      if String.eqb effect "speed_boost" then Retro.with_speed (Retro.base_speed g) g
      else if String.eqb effect "slow_down" then Retro.with_speed (Retro.base_speed g) g
      else if String.eqb effect "invincibility" then Retro.with_invincible false g
      else if String.eqb effect "double_points" then Retro.with_double_points false g
      else g in
    Retro.with_effect_timers (Retro.dict_del effect (Retro.effect_timers g)) g
  else g.

(** A game at the right wall, heading right, with an INVINCIBILITY effect
    that has 100 ticks left. *)
Definition retro_at_the_wall : Retro.SnakeGame :=
  Retro.with_effect_timers [("invincibility"%string, 100)]
    (Retro.with_invincible true
       (Retro.with_snake [(39, 15); (38, 15)] (Retro.with_rng a_script retro_blank))).

(** A power-up of the type given. *)
Definition power_up_of (type : Retro.PowerUpType) : Retro.PowerUp :=
  {| Retro.pu_x := 3; Retro.pu_y := 3; Retro.pu_type := type; Retro.pu_duration := 300;
     Retro.pu_color := Retro.NEON_PURPLE; Retro.pu_spawn_time := 0%float |}.

(** What a tick does not touch before the step of the snake. *)
Definition course (g : Retro.SnakeGame)
  : Retro.GameState * list Pos * Direction * list Retro.Obstacle * Z * Z * option string * Disk :=
  (Retro.state g, Retro.snake g, Retro.direction g, Retro.obstacles g, Retro.score g,
   Retro.high_score g, Retro.highscore_file g, Retro.disk g).

(** What a pattern adds: one or two obstacles, the ones that were there
    staying in front. *)
Definition adds_inside (g g' : Retro.SnakeGame) : Prop :=
  exists new,
    Retro.obstacles g' = Retro.obstacles g ++ new /\
    (List.length new <= 2)%nat /\ Forall obstacle_inside new.

(** ** [src/realistic_snake_game.py]: class Game of the Raspberry Pi game

    The spawners of [Game] are in [PiSnake]; here are the rest of the class,
    [ParticleSystem.add_explosion] and [Apple.update].  [math.cos] and
    [math.sin] are those of the platform: [cos] and [sin] stand for them. *)

Module PiGame.

(** [random.uniform(a, b)] with float bounds: the next float of the script,
    whatever it is, and [a] when the script is used up. *)
Definition uniform_float (a b : float) (o : Oracle) : float * Oracle :=
  match floats o with
  | [] => (a, o)
  | f :: rest => (f, {| ints := ints o; floats := rest; times := times o |})
  end.

(** The keys [handle_events] tells apart, and the events. *)
Inductive Key : Type :=
| K_ESCAPE | K_q | K_r | K_SPACE | K_p
| K_UP | K_w | K_DOWN | K_s | K_LEFT | K_a | K_RIGHT | K_d
| K_other.

Inductive Event : Type :=
| QUIT
| KEYDOWN (key : Key)
| OTHER_EVENT.

(** [self]: the attributes of [PiSnake.Game], the particles of
    [self.particle_system] and the frame counter. *)
Record Game : Type := {
  core : PiSnake.Game;
  particles : list PiSnake.Particle;
  frame_count : Z;
  last_fps_time : float;
  current_fps : Z
}.

Definition with_core (c : PiSnake.Game) (g : Game) : Game :=
  {| core := c; particles := particles g; frame_count := frame_count g;
     last_fps_time := last_fps_time g; current_fps := current_fps g |}.

Definition with_particles (l : list PiSnake.Particle) (g : Game) : Game :=
  {| core := core g; particles := l; frame_count := frame_count g;
     last_fps_time := last_fps_time g; current_fps := current_fps g |}.

(** Assignments to the attributes of [PiSnake.Game]. *)
Definition with_snake (s : PiSnake.Snake) (c : PiSnake.Game) : PiSnake.Game :=
  {| PiSnake.snake := s; PiSnake.apple := PiSnake.apple c;
     PiSnake.obstacles := PiSnake.obstacles c; PiSnake.score := PiSnake.score c;
     PiSnake.apples_eaten := PiSnake.apples_eaten c; PiSnake.game_over := PiSnake.game_over c;
     PiSnake.paused := PiSnake.paused c; PiSnake.rng := PiSnake.rng c |}.

Definition with_score (score apples_eaten : Z) (c : PiSnake.Game) : PiSnake.Game :=
  {| PiSnake.snake := PiSnake.snake c; PiSnake.apple := PiSnake.apple c;
     PiSnake.obstacles := PiSnake.obstacles c; PiSnake.score := score;
     PiSnake.apples_eaten := apples_eaten; PiSnake.game_over := PiSnake.game_over c;
     PiSnake.paused := PiSnake.paused c; PiSnake.rng := PiSnake.rng c |}.

Definition with_game_over (v : bool) (c : PiSnake.Game) : PiSnake.Game :=
  {| PiSnake.snake := PiSnake.snake c; PiSnake.apple := PiSnake.apple c;
     PiSnake.obstacles := PiSnake.obstacles c; PiSnake.score := PiSnake.score c;
     PiSnake.apples_eaten := PiSnake.apples_eaten c; PiSnake.game_over := v;
     PiSnake.paused := PiSnake.paused c; PiSnake.rng := PiSnake.rng c |}.

Definition with_paused (v : bool) (c : PiSnake.Game) : PiSnake.Game :=
  {| PiSnake.snake := PiSnake.snake c; PiSnake.apple := PiSnake.apple c;
     PiSnake.obstacles := PiSnake.obstacles c; PiSnake.score := PiSnake.score c;
     PiSnake.apples_eaten := PiSnake.apples_eaten c; PiSnake.game_over := PiSnake.game_over c;
     PiSnake.paused := v; PiSnake.rng := PiSnake.rng c |}.

(** [Game.reset_game]: a new snake, no obstacle, the counters at 0, then an
    apple; the particles and the frame counter stay. *)
Definition reset_core (o : Oracle) : PiSnake.Game :=
  PiSnake.spawn_apple
    {| PiSnake.snake := PiSnake.Snake_init (PiSnake.GRID_WIDTH / 2) (PiSnake.GRID_HEIGHT / 2);
       PiSnake.apple := None;
       PiSnake.obstacles := [];
       PiSnake.score := 0;
       PiSnake.apples_eaten := 0;
       PiSnake.game_over := false;
       PiSnake.paused := false;
       PiSnake.rng := o |}.

Definition reset_game (g : Game) : Game := with_core (reset_core (PiSnake.rng (core g))) g.

(** [Game.__init__], the window and the fonts apart: [reset_game], an empty
    particle system, the frame counter. *)
Definition Game_init (o : Oracle) : Game :=
  let c := reset_core o in
  let (now, o') := time_time (PiSnake.rng c) in
  {| core := PiSnake.with_rng o' c; particles := []; frame_count := 0;
     last_fps_time := now; current_fps := 0 |}.

(** [Apple.update] *)
Definition Apple_update (dt : float) (a : PiSnake.Apple) : PiSnake.Apple :=
  {| PiSnake.a_x := PiSnake.a_x a; PiSnake.a_y := PiSnake.a_y a;
     PiSnake.pulse_time := (PiSnake.pulse_time a + dt * 2)%float |}.

(** [Game.handle_events]: [False] at the first event that quits, the events
    after it unread; [True] at the end of the events. *)
Fixpoint handle_events (events : list Event) (g : Game) : bool * Game :=
  match events with
  | [] => (true, g)
  | QUIT :: _ => (false, g)
  | OTHER_EVENT :: rest => handle_events rest g
  | KEYDOWN key :: rest =>
      let c := core g in
      match key with
      | K_ESCAPE | K_q => (false, g)
      | _ =>
          let is_r := match key with K_r => true | _ => false end in
          let is_pause := match key with K_SPACE | K_p => true | _ => false end in
          if is_r && PiSnake.game_over c then handle_events rest (reset_game g)
          else if is_pause then
            handle_events rest (with_core (with_paused (negb (PiSnake.paused c)) c) g)
          else if negb (PiSnake.game_over c) && negb (PiSnake.paused c) then
            let turn d := with_core (with_snake (PiSnake.set_direction d (PiSnake.snake c)) c) g in
            match key with
            | K_UP | K_w => handle_events rest (turn UP)
            | K_DOWN | K_s => handle_events rest (turn DOWN)
            | K_LEFT | K_a => handle_events rest (turn LEFT)
            | K_RIGHT | K_d => handle_events rest (turn RIGHT)
            | _ => handle_events rest g
            end
          else handle_events rest g
      end
  end.

(** [max(0.1, self.snake.move_delay - 0.02)] *)
Definition speed_up (move_delay : float) : float :=
  let delay := (move_delay - 0.02)%float in
  if (0.1 <? delay)%float then delay else 0.1%float.

Definition max_particles : Z := 20.

Definition two_pi : float := (2 * 3.141592653589793)%float.

Section Libm.

Variables cos sin : float -> float.

(** One pass of the loop of [add_explosion]: the draws, the new particle. *)
Definition explode_once (x y : Z) (g : Game) : Game :=
  let (angle, o) := uniform_float 0 two_pi (PiSnake.rng (core g)) in
  let (speed, o) := uniform_float 30 80 o in
  let velocity := (cos angle * speed, sin angle * speed)%float in
  let (lifetime, o) := uniform_float 0.3 0.8 o in
  let p := {| PiSnake.p_x := float_of_Z x; PiSnake.p_y := float_of_Z y;
              PiSnake.p_vx := fst velocity; PiSnake.p_vy := snd velocity;
              PiSnake.p_lifetime := lifetime; PiSnake.p_max_lifetime := lifetime |} in
  with_particles (particles g ++ [p]) (with_core (PiSnake.with_rng o (core g)) g).

(** [ParticleSystem.add_explosion] *)
Definition add_explosion (x y : Z) (count : nat) (g : Game) : Game :=
  if max_particles <? Z.of_nat (List.length (particles g)) then g
  else for_range count (explode_once x y) g.

(** The block of [Game.update] under [if self.apple and head_pos == ...]. *)
Definition eat (a : PiSnake.Apple) (g : Game) : Game :=
  let c := core g in
  let c := with_snake (PiSnake.grow (PiSnake.snake c)) c in
  let c := with_score (PiSnake.score c + 10) (PiSnake.apples_eaten c + 1) c in
  let g := with_core c g in
  let apple_pixel_x := PiSnake.a_x a * PiSnake.GRID_SIZE + PiSnake.GRID_SIZE / 2 in
  let apple_pixel_y := PiSnake.a_y a * PiSnake.GRID_SIZE + PiSnake.GRID_SIZE / 2 in
  let g := add_explosion apple_pixel_x apple_pixel_y 6 g in
  let g := with_core (PiSnake.spawn_apple (core g)) g in
  if PiSnake.apples_eaten (core g) mod 5 =? 0 then
    let c := PiSnake.spawn_obstacles (core g) in
    with_core (with_snake (Pi_with_move_delay (speed_up (PiSnake.move_delay (PiSnake.snake c)))
                             (PiSnake.snake c)) c) g
  else g.

(** [Game.update] *)
Definition update (dt : float) (g : Game) : result Game :=
  if PiSnake.game_over (core g) || PiSnake.paused (core g) then Ok g
  else
    let (current_time, o) := time_time (PiSnake.rng (core g)) in
    let g := with_core (PiSnake.with_rng o (core g)) g in
    let g :=
      if (1 <=? current_time - last_fps_time g)%float then
        {| core := core g; particles := particles g; frame_count := 0;
           last_fps_time := current_time; current_fps := frame_count g + 1 |}
      else
        {| core := core g; particles := particles g; frame_count := frame_count g + 1;
           last_fps_time := last_fps_time g; current_fps := current_fps g |} in
    s <- PiSnake.Snake_update dt (PiSnake.snake (core g)) ;;
    let g := with_core (with_snake s (core g)) g in
    let g := with_core (PiSnake.with_apple (option_map (Apple_update dt) (PiSnake.apple (core g)))
                          (core g)) g in
    let g := with_particles (PiSnake.ParticleSystem_update dt (particles g)) g in
    head_pos <- PiSnake.get_head_position (PiSnake.snake (core g)) ;;
    let g :=
      match PiSnake.apple (core g) with
      | Some a => if pos_eqb head_pos (PiSnake.a_x a, PiSnake.a_y a) then eat a g else g
      | None => g
      end in
    let (head_x, head_y) := head_pos in
    wall <- PiSnake.check_wall_collision (PiSnake.snake (core g)) ;;
    hit <- (if wall then Ok true
            else
              self <- PiSnake.check_self_collision (PiSnake.snake (core g)) ;;
              if self then Ok true else Ok (PiSnake.is_obstacle (core g) head_x head_y)) ;;
    if hit then
      let g := with_core (with_game_over true (core g)) g in
      let pixel_x := head_x * PiSnake.GRID_SIZE + PiSnake.GRID_SIZE / 2 in
      let pixel_y := head_y * PiSnake.GRID_SIZE + PiSnake.GRID_SIZE / 2 in
      Ok (add_explosion pixel_x pixel_y 10 g)
    else Ok g.

(** [min(a, b)] on floats: [b] when [b < a], else [a]. *)
Definition py_min (a b : float) : float := if (b <? a)%float then b else a.

(** [Game.run]: one list of events for each pass of [while running], the
    events [pygame.event.get()] returns then; [draw], [flip] and [tick]
    change nothing of the game.  [Ok] is the game when the loop is left, for
    [pygame.quit()] and [sys.exit()]; the loop goes on when the lists are
    used up. *)
Fixpoint run_loop (frames : list (list Event)) (last_time : float) (g : Game)
  : result Game :=
  match frames with
  | [] => OutOfFuel
  | events :: frames' =>
      let (current_time, o) := time_time (PiSnake.rng (core g)) in
      let g := with_core (PiSnake.with_rng o (core g)) g in
      let dt := py_min (current_time - last_time) 0.05 in
      let (running, g) := handle_events events g in
      g <- update dt g ;;
      if running then run_loop frames' current_time g else Ok g
  end.

Definition run (frames : list (list Event)) (g : Game) : result Game :=
  let (last_time, o) := time_time (PiSnake.rng (core g)) in
  run_loop frames last_time (with_core (PiSnake.with_rng o (core g)) g).

End Libm.

End PiGame.

(** The cell of an obstacle. *)
Definition Pi_cell (ob : PiSnake.Obstacle) : Pos := (PiSnake.o_x ob, PiSnake.o_y ob).

(** The delays between two moves that a game goes through: 0.2 at first,
    then what [speed_up] makes of it. *)
Definition Pi_delays : list float :=
  Eval vm_compute in
    [0.2%float; PiGame.speed_up 0.2; Nat.iter 2 PiGame.speed_up 0.2%float;
     Nat.iter 3 PiGame.speed_up 0.2%float; Nat.iter 4 PiGame.speed_up 0.2%float;
     Nat.iter 5 PiGame.speed_up 0.2%float; Nat.iter 6 PiGame.speed_up 0.2%float].

(** The delay between two moves after [apples_eaten] apples: one [speed_up]
    for every five apples. *)
Definition Pi_delay_after (apples_eaten : Z) : float :=
  Nat.iter (Z.to_nat (apples_eaten / 5)) PiGame.speed_up 0.2%float.

(** What holds of a game of PiSnake throughout. *)
Definition Pi_steady (g : PiGame.Game) : Prop :=
  let c := PiGame.core g in
  Pi_reachable (PiSnake.snake c) /\
  (PiSnake.score c = 10 * PiSnake.apples_eaten c /\ 0 <= PiSnake.apples_eaten c) /\
  (List.length (PiGame.particles g) <= 30)%nat /\
  (NoDup (map Pi_cell (PiSnake.obstacles c)) /\
   forall a, PiSnake.apple c = Some a ->
             PiSnake.is_obstacle c (PiSnake.a_x a) (PiSnake.a_y a) = false) /\
  PiSnake.move_delay (PiSnake.snake c) = Pi_delay_after (PiSnake.apples_eaten c).

(** The states of a game of PiSnake: the one [Game()] returns, and what
    [handle_events] and [update] make of a state. *)
Inductive PiGame_reachable (cos sin : float -> float) : PiGame.Game -> Prop :=
| pi_game_init o : PiGame_reachable cos sin (PiGame.Game_init o)
| pi_game_events events g :
    PiGame_reachable cos sin g ->
    PiGame_reachable cos sin (snd (PiGame.handle_events events g))
| pi_game_update dt g g' :
    PiGame_reachable cos sin g -> PiGame.update cos sin dt g = Ok g' ->
    PiGame_reachable cos sin g'.

(** The board of a game: the obstacles do not share a cell, and the apple
    is on none of them. *)
Definition Pi_board_in_order (c : PiSnake.Game) : Prop :=
  NoDup (map Pi_cell (PiSnake.obstacles c)) /\
  forall a, PiSnake.apple c = Some a ->
            PiSnake.is_obstacle c (PiSnake.a_x a) (PiSnake.a_y a) = false.

(** What the spawners leave alone. *)
Definition Pi_rest (c : PiSnake.Game) : PiSnake.Snake * Z * Z * bool * bool :=
  (PiSnake.snake c, PiSnake.score c, PiSnake.apples_eaten c, PiSnake.game_over c,
   PiSnake.paused c).

(** The events at which [handle_events] returns [False], and the one that
    starts a new game. *)
Definition Pi_quits (e : PiGame.Event) : bool :=
  match e with
  | PiGame.QUIT | PiGame.KEYDOWN PiGame.K_ESCAPE | PiGame.KEYDOWN PiGame.K_q => true
  | _ => false
  end.

Definition Pi_restarts (e : PiGame.Event) : bool :=
  match e with
  | PiGame.KEYDOWN PiGame.K_r => true
  | _ => false
  end.

(** The cell next to [p] in direction [d]. *)
Definition step (p : Pos) (d : Direction) : Pos :=
  (fst p + fst (value d), snd p + snd (value d)).

(** The head is one step of [direction] ahead of the second segment, and
    the pending direction is not the way back. *)
Definition heading_kept (cells : list Pos) (direction next_direction : Direction) : Prop :=
  match cells with
  | h :: n :: _ => h = step n direction /\ next_direction <> opposite direction
  | _ => True
  end.

(** [n] calls of [Game.update] with the same [dt]. *)
Fixpoint Pi_frames (cos sin : float -> float) (n : nat) (dt : float) (g : PiGame.Game)
  : result PiGame.Game :=
  match n with
  | O => Ok g
  | S n' => g <- PiGame.update cos sin dt g ;; Pi_frames cos sin n' dt g
  end.

(** For the examples: [cos] and [sin] of an explosion that goes to the
    right, a generator that puts each apple in front of the snake and
    gives the particles five seconds, and the game it starts. *)
Definition cos_0 (angle : float) : float := 1%float.
Definition sin_0 (angle : float) : float := 0%float.

Definition meals_ahead : Oracle :=
  {| ints := [17; 12; 18; 12; 19; 12; 20; 12; 21; 12; 22; 12; 3; 3; 3; 3; 4; 4];
     floats := repeat 5%float 90;
     times := [] |}.

Definition pi_meals (n : nat) : result PiGame.Game :=
  Pi_frames cos_0 sin_0 n 0.2%float (PiGame.Game_init meals_ahead).

(** ** [src/realistic_snake_game.py]: the classes after [SnakeGame] *)

(** [random.random()]: the next float of the script, 0.0 when the script
    is used up. *)
Definition random_random (o : Oracle) : float * Oracle :=
  match floats o with
  | [] => (0%float, o)
  | f :: rest => (f, {| ints := ints o; floats := rest; times := times o |})
  end.

(** [int(f)] of a float: the integer towards zero; [None] for a NaN
    ([ValueError]) and for an infinity ([OverflowError]). *)
Definition py_int_of_float (f : float) : option Z :=
  match Prim2SF f with
  | S754_zero _ => Some 0
  | S754_finite s m e =>
      let magnitude := if 0 <=? e then Z.pos m * 2 ^ e else Z.pos m / 2 ^ (- e) in
      Some (if s then - magnitude else magnitude)
  | S754_infinity _ => None
  | S754_nan => None
  end.

(** [range(start, stop, 2)] *)
Definition range_by_2 (start stop : Z) : list Z :=
  map (fun i => start + 2 * Z.of_nat i) (seq 0 (Z.to_nat ((stop - start + 1) / 2))).

Module AIPlayer.

(** [self.game] is a [SnakeGame]: [snake] a list of cells, [food] a cell. *)
Definition get_next_move (game : Retro.SnakeGame) : Direction :=
  match Retro.snake game with
  | [] => RIGHT
  | head :: _ =>
      let food := Retro.food game in
      let dx := fst food - fst head in
      let dy := snd food - snd head in
      if Z.abs dy <? Z.abs dx then
        if 0 <? dx then RIGHT else LEFT
      else
        if 0 <? dy then DOWN else UP
  end.

End AIPlayer.

Module PowerUpManager.

Record PowerUpManager : Type := {
  combo_multiplier : float;
  last_power_up_time : float
}.

Definition PowerUpManager_init : PowerUpManager :=
  {| combo_multiplier := 1%float; last_power_up_time := 0%float |}.

(** [calculate_combo_bonus]: the attributes are assigned before [int] is
    called; [current_time] is a float, as [time.time()] returns. *)
Definition calculate_combo_bonus (current_time : float) (self : PowerUpManager)
  : option Z * PowerUpManager :=
  let time_diff := (current_time - last_power_up_time self)%float in
  let multiplier :=
    if (time_diff <? 3)%float
    then PiGame.py_min (combo_multiplier self * 1.5) 5%float
    else 1%float in
  (py_int_of_float (10 * multiplier),
   {| combo_multiplier := multiplier; last_power_up_time := current_time |}).

End PowerUpManager.

Module PerformanceManager.

(** [update_frame_time], on [self.frame_times]; [pop(0)] takes the first
    entry away. *)
Definition update_frame_time {A : Type} (frame_time : A) (frame_times : list A) : list A :=
  let frame_times := frame_times ++ [frame_time] in
  if 30 <? Z.of_nat (List.length frame_times) then tl frame_times else frame_times.

End PerformanceManager.

Module ObstaclePatterns.

(** The body of the two loops of [create_maze_section]. *)
Definition maze_cell (x y : Z) (state : list Retro.Obstacle * Oracle)
  : list Retro.Obstacle * Oracle :=
  let (obstacles, o) := state in
  let (r, o) := random_random o in
  if (r <? 0.3)%float then
    (obstacles ++ [{| Retro.ob_x := x; Retro.ob_y := y; Retro.ob_width := 1;
                      Retro.ob_height := 1; Retro.ob_color := Retro.DARK_GRAY;
                      Retro.ob_pattern := "maze" |}], o)
  else (obstacles, o).

(** [create_maze_section]: the list it is given, with what it appends. *)
Definition create_maze_section (obstacles : list Retro.Obstacle) (start_x start_y width height : Z)
    (o : Oracle) : list Retro.Obstacle * Oracle :=
  fold_left
    (fun state x =>
       fold_left (fun state y => maze_cell x y state)
                 (range_by_2 start_y (start_y + height)) state)
    (range_by_2 start_x (start_x + width)) (obstacles, o).

End ObstaclePatterns.

(** The number of steps between two cells. *)
Definition steps_between (p q : Pos) : Z := Z.abs (fst p - fst q) + Z.abs (snd p - snd q).

(** The values the multiplier of [PowerUpManager] takes. *)
Definition combo_levels : list float := [1; 1.5; 2.25; 3.375; 5]%float.

(** [calculate_combo_bonus] at each time of a list, in turn: the bonuses. *)
Fixpoint combo_bonuses (times : list float) (self : PowerUpManager.PowerUpManager)
  : list (option Z) * PowerUpManager.PowerUpManager :=
  match times with
  | [] => ([], self)
  | t :: rest =>
      let (bonus, self) := PowerUpManager.calculate_combo_bonus t self in
      let (bonuses, self) := combo_bonuses rest self in
      (bonus :: bonuses, self)
  end.

(** [update_frame_time] with each entry of a list, in turn. *)
Definition frame_times_after {A : Type} (entries : list A) (frame_times : list A) : list A :=
  fold_left (fun l entry => PerformanceManager.update_frame_time entry l) entries frame_times.

(** The cell of a one-by-one obstacle of Retro. *)
Definition Retro_cell (ob : Retro.Obstacle) : Pos := (Retro.ob_x ob, Retro.ob_y ob).

(** What [create_maze_section] appends: a dark gray one-by-one obstacle of
    pattern ["maze"]. *)
Definition maze_obstacle (x y : Z) : Retro.Obstacle :=
  {| Retro.ob_x := x; Retro.ob_y := y; Retro.ob_width := 1; Retro.ob_height := 1;
     Retro.ob_color := Retro.DARK_GRAY; Retro.ob_pattern := "maze" |}.

(** *** class GameConfig

    The configuration file is a text file: [save_to_file] writes it and
    [load_from_file] reads it as the high-score file is read. *)

(** [for line in f]: the lines of a text, each with its ["\n"]. *)
Fixpoint py_lines (s : Text) : list Text :=
  match s with
  | [] => []
  | c :: rest =>
      if c =? 10 then [c] :: py_lines rest
      else
        match py_lines rest with
        | [] => [[c]]
        | line :: lines => (c :: line) :: lines
        end
  end.

(** ['=' in line] *)
Fixpoint has_equals (s : Text) : bool :=
  match s with
  | [] => false
  | c :: rest => (c =? 61) || has_equals rest
  end.

(** [s.split('=', 1)] of a string that holds ["="]: what is before the first
    ["="] and what is after it. *)
Fixpoint split_equals (s : Text) : Text * Text :=
  match s with
  | [] => ([], [])
  | c :: rest =>
      if c =? 61 then ([], rest)
      else let (key, value) := split_equals rest in (c :: key, value)
  end.

(** [a == b] on strings. *)
Fixpoint text_eqb (a b : Text) : bool :=
  match a, b with
  | [], [] => true
  | c :: a', d :: b' => (c =? d) && text_eqb a' b'
  | _, _ => false
  end.

(** The bytes that the calls of [f.write] leave for the file, one call for
    each line: a line whose text cannot be made ([None]) or cannot be encoded
    raises, and the lines after it are not written. *)
Fixpoint write_lines (lines : list (option Text)) : string :=
  match lines with
  | [] => EmptyString
  | None :: _ => EmptyString
  | Some line :: rest =>
      match utf8_encode line with
      | Some bytes => (bytes ++ write_lines rest)%string
      | None => EmptyString
      end
  end.

Module GameConfig.

(** The values of the attributes: a string, a bool or a colour. *)
Inductive Value : Type :=
| Str (s : Text)
| Bool (b : bool)
| Colour (c : Retro.Color).

(** [str(v)], which an f-string writes; [None] when it raises, as the
    numbers of a colour do when they have too many digits. *)
Definition py_format (v : Value) : option Text :=
  match v with
  | Str s => Some s
  | Bool true => Some (text_of "True")
  | Bool false => Some (text_of "False")
  | Colour (r, g, b) =>
      match py_str r, py_str g, py_str b with
      | Ok r, Ok g, Ok b => Some (text_of ("(" ++ r ++ ", " ++ g ++ ", " ++ b ++ ")"))
      | _, _, _ => None
      end
  end.

(** [bool(v)], the value of [v] as a condition. *)
Definition truth (v : Value) : bool :=
  match v with
  | Str [] => false
  | Str _ => true
  | Bool b => b
  | Colour _ => true
  end.

Record GameConfig : Type := {
  difficulty : Value;
  snake_color : Value;
  food_color : Value;
  show_grid : Value;
  particle_effects : Value;
  screen_shake : Value;
  auto_pause_on_focus_loss : Value
}.

Definition GameConfig_init : GameConfig :=
  {| difficulty := Str (text_of "Normal");
     snake_color := Colour Retro.NEON_GREEN;
     food_color := Colour Retro.NEON_PINK;
     show_grid := Bool true;
     particle_effects := Bool true;
     screen_shake := Bool true;
     auto_pause_on_focus_loss := Bool true |}.

(** A file: missing, one that [open] cannot read, or its bytes. *)
Inductive File : Type :=
| Missing
| Unreadable
| Bytes (content : string).

(** [f"key={value}\n"] *)
Definition line_text (key : string) (value : Text) : Text :=
  text_of key ++ [61] ++ value ++ [10].

Definition line_of (key : string) (v : Value) : option Text :=
  option_map (line_text key) (py_format v).

(** [save_to_file]: the bare [except] lets nothing out.  A file that cannot
    be opened stays as it is; one that is opened holds the bytes that were
    written before an exception, if any, and that the disk took. *)
Definition save_to_file (self : GameConfig) (disk : Disk) (file : File) : File :=
  match disk with
  | CannotOpen => file
  | _ =>
      Bytes (written disk
               (write_lines [line_of "difficulty" (difficulty self);
                             line_of "show_grid" (show_grid self);
                             line_of "particle_effects" (particle_effects self);
                             line_of "screen_shake" (screen_shake self)]))
  end.

Section Object.

(** [hasattr] and [setattr] with a name that is not one of the seven
    attributes are those of the object, with its methods and the names of
    [object]: [has_other_attribute] tells whether [hasattr] holds, and
    [set_other_attribute_raises] whether [setattr] raises. *)
Variable has_other_attribute : Text -> bool.
Variable set_other_attribute_raises : Text -> bool.

(** [if hasattr(self, key): setattr(self, key, value)]; [None] when
    [setattr] raises. *)
Definition set_if_present (key value : Text) (self : GameConfig) : option GameConfig :=
  let v := Str value in
  if text_eqb key (text_of "difficulty") then
    Some {| difficulty := v; snake_color := snake_color self; food_color := food_color self;
            show_grid := show_grid self; particle_effects := particle_effects self;
            screen_shake := screen_shake self;
            auto_pause_on_focus_loss := auto_pause_on_focus_loss self |}
  else if text_eqb key (text_of "snake_color") then
    Some {| difficulty := difficulty self; snake_color := v; food_color := food_color self;
            show_grid := show_grid self; particle_effects := particle_effects self;
            screen_shake := screen_shake self;
            auto_pause_on_focus_loss := auto_pause_on_focus_loss self |}
  else if text_eqb key (text_of "food_color") then
    Some {| difficulty := difficulty self; snake_color := snake_color self; food_color := v;
            show_grid := show_grid self; particle_effects := particle_effects self;
            screen_shake := screen_shake self;
            auto_pause_on_focus_loss := auto_pause_on_focus_loss self |}
  else if text_eqb key (text_of "show_grid") then
    Some {| difficulty := difficulty self; snake_color := snake_color self;
            food_color := food_color self; show_grid := v;
            particle_effects := particle_effects self; screen_shake := screen_shake self;
            auto_pause_on_focus_loss := auto_pause_on_focus_loss self |}
  else if text_eqb key (text_of "particle_effects") then
    Some {| difficulty := difficulty self; snake_color := snake_color self;
            food_color := food_color self; show_grid := show_grid self;
            particle_effects := v; screen_shake := screen_shake self;
            auto_pause_on_focus_loss := auto_pause_on_focus_loss self |}
  else if text_eqb key (text_of "screen_shake") then
    Some {| difficulty := difficulty self; snake_color := snake_color self;
            food_color := food_color self; show_grid := show_grid self;
            particle_effects := particle_effects self; screen_shake := v;
            auto_pause_on_focus_loss := auto_pause_on_focus_loss self |}
  else if text_eqb key (text_of "auto_pause_on_focus_loss") then
    Some {| difficulty := difficulty self; snake_color := snake_color self;
            food_color := food_color self; show_grid := show_grid self;
            particle_effects := particle_effects self; screen_shake := screen_shake self;
            auto_pause_on_focus_loss := v |}
  else if has_other_attribute key then
    if set_other_attribute_raises key then None else Some self
  else Some self.

(** The loop [for line in f]. *)
Fixpoint load_lines (lines : list Text) (self : GameConfig) : option GameConfig :=
  match lines with
  | [] => Some self
  | line :: rest =>
      if has_equals line then
        let (key, value) := split_equals (py_strip line) in
        match set_if_present key value self with
        | Some self => load_lines rest self
        | None => None
        end
      else load_lines rest self
  end.

(** [load_from_file]: [FileNotFoundError] is passed over; [None] when
    another exception gets out, as [UnicodeDecodeError] does for bytes that
    are not UTF-8. *)
Definition load_from_file (file : File) (self : GameConfig) : option GameConfig :=
  match file with
  | Missing => Some self
  | Unreadable => None
  | Bytes content =>
      match utf8_decode content with
      | Some text => load_lines (py_lines (universal_newlines text)) self
      | None => None
      end
  end.

End Object.

End GameConfig.

(** A string without a line end. *)
Fixpoint one_line (s : Text) : bool :=
  match s with
  | [] => true
  | c :: rest => negb (c =? 10) && negb (c =? 13) && one_line rest
  end.

(** A character that UTF-8 encodes: a code point that is no surrogate. *)
Definition encodable (c : Z) : bool :=
  ((0 <=? c) && (c <? 55296)) || ((57344 <=? c) && (c <? 1114112)).

(** What [load_from_file] makes of a text that [save_to_file] wrote as a
    value. *)
Definition read_back (value : Text) : GameConfig.Value :=
  GameConfig.Str (rstrip is_space value).

(** A name without white space and without ["="]. *)
Fixpoint plain_key (s : Text) : bool :=
  match s with
  | [] => true
  | c :: rest => negb (is_space c) && negb (c =? 61) && plain_key rest
  end.

(** A value that is written as the text [value] on a line of the file and
    can be read again: the text holds no line end and no surrogate. *)
Definition written_as (v : GameConfig.Value) (value : Text) : Prop :=
  GameConfig.py_format v = Some value /\
  one_line value = true /\ forallb encodable value = true.

(** The text [Hard] followed by a no-break space and a next-line character. *)
Definition hard_and_space : Text := text_of "Hard" ++ [160; 133].

(** ** [src/realistic_snake.py]: class Game of the grid game

    The attributes of [Game] are those of [UltraSnake.Game], where an apple
    and an obstacle are the cell they are on: [pulse_time] and
    [sparkle_particles] of an apple are read by [draw] only, and of
    [Apple.update] the draws of the generator are kept.  [cos] and [sin]
    stand for [math.cos] and [math.sin]. *)

Module UltraGame.

(** The keys [handle_events] tells apart, and the events. *)
Inductive Key : Type :=
| K_ESCAPE | K_r | K_SPACE
| K_UP | K_w | K_DOWN | K_s | K_LEFT | K_a | K_RIGHT | K_d
| K_other.

Inductive Event : Type :=
| QUIT
| KEYDOWN (key : Key)
| OTHER_EVENT.

Definition APPLE_RED : Z * Z * Z := (220, 20, 60).
Definition SNAKE_HEAD : Z * Z * Z := (85, 107, 47).
Definition OBSTACLE_BROWN : Z * Z * Z := (139, 69, 19).

(** [self]: the attributes of [UltraSnake.Game] and the particles of
    [self.particle_system]. *)
Record Game : Type := {
  core : UltraSnake.Game;
  particles : list UltraSnake.Particle
}.

Definition with_core (c : UltraSnake.Game) (g : Game) : Game :=
  {| core := c; particles := particles g |}.

Definition with_snake (s : UltraSnake.Snake) (c : UltraSnake.Game) : UltraSnake.Game :=
  {| UltraSnake.snake := s; UltraSnake.apple := UltraSnake.apple c;
     UltraSnake.obstacles := UltraSnake.obstacles c; UltraSnake.score := UltraSnake.score c;
     UltraSnake.apples_eaten := UltraSnake.apples_eaten c;
     UltraSnake.game_over := UltraSnake.game_over c; UltraSnake.paused := UltraSnake.paused c;
     UltraSnake.rng := UltraSnake.rng c |}.

Definition with_obstacles (l : list Pos) (c : UltraSnake.Game) : UltraSnake.Game :=
  {| UltraSnake.snake := UltraSnake.snake c; UltraSnake.apple := UltraSnake.apple c;
     UltraSnake.obstacles := l; UltraSnake.score := UltraSnake.score c;
     UltraSnake.apples_eaten := UltraSnake.apples_eaten c;
     UltraSnake.game_over := UltraSnake.game_over c; UltraSnake.paused := UltraSnake.paused c;
     UltraSnake.rng := UltraSnake.rng c |}.

Definition with_score (score apples_eaten : Z) (c : UltraSnake.Game) : UltraSnake.Game :=
  {| UltraSnake.snake := UltraSnake.snake c; UltraSnake.apple := UltraSnake.apple c;
     UltraSnake.obstacles := UltraSnake.obstacles c; UltraSnake.score := score;
     UltraSnake.apples_eaten := apples_eaten;
     UltraSnake.game_over := UltraSnake.game_over c; UltraSnake.paused := UltraSnake.paused c;
     UltraSnake.rng := UltraSnake.rng c |}.

Definition with_game_over (v : bool) (c : UltraSnake.Game) : UltraSnake.Game :=
  {| UltraSnake.snake := UltraSnake.snake c; UltraSnake.apple := UltraSnake.apple c;
     UltraSnake.obstacles := UltraSnake.obstacles c; UltraSnake.score := UltraSnake.score c;
     UltraSnake.apples_eaten := UltraSnake.apples_eaten c;
     UltraSnake.game_over := v; UltraSnake.paused := UltraSnake.paused c;
     UltraSnake.rng := UltraSnake.rng c |}.

Definition with_paused (v : bool) (c : UltraSnake.Game) : UltraSnake.Game :=
  {| UltraSnake.snake := UltraSnake.snake c; UltraSnake.apple := UltraSnake.apple c;
     UltraSnake.obstacles := UltraSnake.obstacles c; UltraSnake.score := UltraSnake.score c;
     UltraSnake.apples_eaten := UltraSnake.apples_eaten c;
     UltraSnake.game_over := UltraSnake.game_over c; UltraSnake.paused := v;
     UltraSnake.rng := UltraSnake.rng c |}.

(** [Game.reset_game]; [spawn_apple] is a [while True]. *)
Definition reset_core (fuel : nat) (o : Oracle) : result UltraSnake.Game :=
  UltraSnake.spawn_apple fuel
    {| UltraSnake.snake :=
         UltraSnake.Snake_init (UltraSnake.GRID_WIDTH / 2) (UltraSnake.GRID_HEIGHT / 2);
       UltraSnake.apple := None;
       UltraSnake.obstacles := [];
       UltraSnake.score := 0;
       UltraSnake.apples_eaten := 0;
       UltraSnake.game_over := false;
       UltraSnake.paused := false;
       UltraSnake.rng := o |}.

Definition reset_game (fuel : nat) (g : Game) : result Game :=
  c <- reset_core fuel (UltraSnake.rng (core g)) ;;
  Ok (with_core c g).

(** [Game.__init__], the window and the fonts apart. *)
Definition Game_init (fuel : nat) (o : Oracle) : result Game :=
  c <- reset_core fuel o ;;
  Ok {| core := c; particles := [] |}.

(** One pass of the loop [while attempts < 50] of [spawn_obstacles]:
    [self.apple.x] is read when the cell is off the snake and the obstacles,
    and raises when there is no apple. *)
Fixpoint spawn_obstacle_loop (left : nat) (c : UltraSnake.Game) : result UltraSnake.Game :=
  match left with
  | O => Ok c
  | S left' =>
      let (x, o1) := randint 0 (UltraSnake.GRID_WIDTH - 1) (UltraSnake.rng c) in
      let (y, o2) := randint 0 (UltraSnake.GRID_HEIGHT - 1) o1 in
      let c := UltraSnake.with_rng o2 c in
      if negb (UltraSnake.check_collision (UltraSnake.snake c) x y)
         && negb (UltraSnake.is_obstacle c x y)
      then
        match UltraSnake.apple c with
        | None => Raise AttributeError
        | Some a =>
            if negb (x =? fst a) || negb (y =? snd a)
            then Ok (with_obstacles (UltraSnake.obstacles c ++ [(x, y)]) c)
            else spawn_obstacle_loop left' c
        end
      else spawn_obstacle_loop left' c
  end.

(** [for _ in range(n)] with a body that can raise. *)
Fixpoint for_range_raising {S : Type} (n : nat) (body : S -> result S) (s : S) : result S :=
  match n with
  | O => Ok s
  | S n' => s <- body s ;; for_range_raising n' body s
  end.

Definition spawn_obstacles (c : UltraSnake.Game) : result UltraSnake.Game :=
  let obstacle_count := Z.min 10 (UltraSnake.apples_eaten c / 5 * 2 + 2) in
  for_range_raising (Z.to_nat obstacle_count) (spawn_obstacle_loop 50) c.

(** [Game.handle_events]: [False] at the first event that quits. *)
Fixpoint handle_events (fuel : nat) (events : list Event) (g : Game) : result (bool * Game) :=
  match events with
  | [] => Ok (true, g)
  | QUIT :: _ => Ok (false, g)
  | OTHER_EVENT :: rest => handle_events fuel rest g
  | KEYDOWN key :: rest =>
      let c := core g in
      match key with
      | K_ESCAPE => Ok (false, g)
      | _ =>
          let is_r := match key with K_r => true | _ => false end in
          let is_space := match key with K_SPACE => true | _ => false end in
          if is_r && UltraSnake.game_over c then
            g <- reset_game fuel g ;; handle_events fuel rest g
          else if is_space then
            handle_events fuel rest (with_core (with_paused (negb (UltraSnake.paused c)) c) g)
          else if negb (UltraSnake.game_over c) && negb (UltraSnake.paused c) then
            let turn d :=
              with_core (with_snake (UltraSnake.set_direction d (UltraSnake.snake c)) c) g in
            match key with
            | K_UP | K_w => handle_events fuel rest (turn UP)
            | K_DOWN | K_s => handle_events fuel rest (turn DOWN)
            | K_LEFT | K_a => handle_events fuel rest (turn LEFT)
            | K_RIGHT | K_d => handle_events fuel rest (turn RIGHT)
            | _ => handle_events fuel rest g
            end
          else handle_events fuel rest g
      end
  end.

(** [max(0.08, self.snake.move_delay - 0.01)] *)
Definition speed_up (move_delay : float) : float :=
  let delay := (move_delay - 0.01)%float in
  if (0.08 <? delay)%float then delay else 0.08%float.

(** What [Apple.update] draws: [random.random()], and two [randint] for a
    sparkle. *)
Definition Apple_update_draws (o : Oracle) : Oracle :=
  let (r, o) := random_random o in
  if (r <? 0.1)%float then
    let (offset_x, o) := randint (-10) 10 o in
    let (offset_y, o) := randint (-10) 10 o in
    o
  else o.

Section Libm.

Variables cos sin : float -> float.

(** One pass of the loop of [ParticleSystem.add_explosion]. *)
Definition explode_once (x y : Z) (color : Z * Z * Z) (g : Game) : Game :=
  let (angle, o) := PiGame.uniform_float 0 PiGame.two_pi (UltraSnake.rng (core g)) in
  let (speed, o) := PiGame.uniform_float 50 150 o in
  let velocity := (cos angle * speed, sin angle * speed)%float in
  let (lifetime, o) := PiGame.uniform_float 0.5 1.5 o in
  let p := {| UltraSnake.p_x := float_of_Z x; UltraSnake.p_y := float_of_Z y;
              UltraSnake.p_color := color; UltraSnake.p_velocity := velocity;
              UltraSnake.p_lifetime := lifetime; UltraSnake.p_max_lifetime := lifetime |} in
  {| core := UltraSnake.with_rng o (core g); particles := particles g ++ [p] |}.

Definition add_explosion (x y : Z) (color : Z * Z * Z) (count : nat) (g : Game) : Game :=
  for_range count (explode_once x y color) g.

(** The block of [Game.update] under [# Apple eaten]. *)
Definition eat (fuel : nat) (a : Pos) (g : Game) : result Game :=
  let c := core g in
  let c := with_snake (UltraSnake.grow (UltraSnake.snake c)) c in
  let c := with_score (UltraSnake.score c + 10) (UltraSnake.apples_eaten c + 1) c in
  let g := with_core c g in
  let apple_pixel_x := fst a * UltraSnake.GRID_SIZE + UltraSnake.GRID_SIZE / 2 in
  let apple_pixel_y := snd a * UltraSnake.GRID_SIZE + UltraSnake.GRID_SIZE / 2 in
  let g := add_explosion apple_pixel_x apple_pixel_y APPLE_RED 20 g in
  c <- UltraSnake.spawn_apple fuel (core g) ;;
  if UltraSnake.apples_eaten c mod 5 =? 0 then
    c <- spawn_obstacles c ;;
    Ok (with_core
          (with_snake
             (Ultra_with_move_delay (speed_up (UltraSnake.move_delay (UltraSnake.snake c)))
                (UltraSnake.snake c)) c) g)
  else Ok (with_core c g).

(** [self.game_over = True] and the explosion at the head, after a check
    of [Game.update] that holds. *)
Definition crash (head_x head_y : Z) (color : Z * Z * Z) (g : Game) : Game :=
  let g := with_core (with_game_over true (core g)) g in
  add_explosion (head_x * UltraSnake.GRID_SIZE + UltraSnake.GRID_SIZE / 2)
                (head_y * UltraSnake.GRID_SIZE + UltraSnake.GRID_SIZE / 2) color 30 g.

(** [Game.update] *)
Definition update (fuel : nat) (dt : float) (g : Game) : result Game :=
  if UltraSnake.game_over (core g) || UltraSnake.paused (core g) then Ok g
  else
    s <- UltraSnake.Snake_update dt (UltraSnake.snake (core g)) ;;
    let g := with_core (with_snake s (core g)) g in
    let g :=
      match UltraSnake.apple (core g) with
      | Some _ =>
          with_core (UltraSnake.with_rng (Apple_update_draws (UltraSnake.rng (core g))) (core g)) g
      | None => g
      end in
    let g := {| core := core g;
                particles := UltraSnake.ParticleSystem_update dt (particles g) |} in
    head_pos <- UltraSnake.get_head_position (UltraSnake.snake (core g)) ;;
    g <- match UltraSnake.apple (core g) with
         | Some a =>
             if (fst head_pos =? fst a) && (snd head_pos =? snd a) then eat fuel a g else Ok g
         | None => Ok g
         end ;;
    let (head_x, head_y) := head_pos in
    wall <- UltraSnake.check_wall_collision (UltraSnake.snake (core g)) ;;
    let g := if wall then crash head_x head_y SNAKE_HEAD g else g in
    self <- UltraSnake.check_self_collision (UltraSnake.snake (core g)) ;;
    let g := if self then crash head_x head_y SNAKE_HEAD g else g in
    let g := if UltraSnake.is_obstacle (core g) head_x head_y
             then crash head_x head_y OBSTACLE_BROWN g else g in
    Ok g.

End Libm.

End UltraGame.

(** The delay between two moves of UltraSnake after [apples_eaten] apples. *)
Definition Ultra_delay_after (apples_eaten : Z) : float :=
  Nat.iter (Z.to_nat (apples_eaten / 5)) UltraGame.speed_up 0.15%float.

(** The delays a game of UltraSnake goes through. *)
Definition Ultra_delays : list float :=
  Eval vm_compute in map (fun n => Nat.iter n UltraGame.speed_up 0.15%float) (seq 0 8).

(** The board of a game of UltraSnake: the obstacles do not share a cell,
    and there is an apple, on none of them. *)
Definition Ultra_board_in_order (c : UltraSnake.Game) : Prop :=
  NoDup (UltraSnake.obstacles c) /\
  exists a, UltraSnake.apple c = Some a /\ UltraSnake.is_obstacle c (fst a) (snd a) = false.

(** What the spawners leave alone. *)
Definition Ultra_rest (c : UltraSnake.Game) : UltraSnake.Snake * Z * Z * bool * bool :=
  (UltraSnake.snake c, UltraSnake.score c, UltraSnake.apples_eaten c, UltraSnake.game_over c,
   UltraSnake.paused c).

(** What holds of a game of UltraSnake throughout. *)
Definition Ultra_steady (g : UltraGame.Game) : Prop :=
  let c := UltraGame.core g in
  Ultra_reachable (UltraSnake.snake c) /\
  (UltraSnake.score c = 10 * UltraSnake.apples_eaten c /\ 0 <= UltraSnake.apples_eaten c) /\
  Ultra_board_in_order c /\
  UltraSnake.move_delay (UltraSnake.snake c) = Ultra_delay_after (UltraSnake.apples_eaten c).

(** The states of a game of UltraSnake: the one [Game()] returns, what
    [handle_events] and [update] make of a state, and a state after the
    draws of [draw]. *)
Inductive UltraGame_reachable (cos sin : float -> float) : UltraGame.Game -> Prop :=
| ultra_game_init fuel o g :
    UltraGame.Game_init fuel o = Ok g -> UltraGame_reachable cos sin g
| ultra_game_events fuel events g running g' :
    UltraGame_reachable cos sin g ->
    UltraGame.handle_events fuel events g = Ok (running, g') ->
    UltraGame_reachable cos sin g'
| ultra_game_update fuel dt g g' :
    UltraGame_reachable cos sin g -> UltraGame.update cos sin fuel dt g = Ok g' ->
    UltraGame_reachable cos sin g'
| ultra_game_draw o g :
    UltraGame_reachable cos sin g ->
    UltraGame_reachable cos sin (UltraGame.with_core (UltraSnake.with_rng o (UltraGame.core g)) g).

(** A call that raises nothing, and whose result has [P] when it returns. *)
Definition raises_nothing {A : Type} (P : A -> Prop) (r : result A) : Prop :=
  match r with
  | Ok a => P a
  | Raise _ => False
  | OutOfFuel => True
  end.

(** [n] calls of [Game.update] of UltraSnake with the same [dt]. *)
Fixpoint Ultra_frames (cos sin : float -> float) (fuel n : nat) (dt : float)
    (g : UltraGame.Game) : result UltraGame.Game :=
  match n with
  | O => Ok g
  | S n' => g <- UltraGame.update cos sin fuel dt g ;; Ultra_frames cos sin fuel n' dt g
  end.

(** For the examples: a generator that puts each apple in front of the
    snake of UltraSnake, and the game it starts. *)
Definition ultra_meals_ahead : Oracle :=
  {| ints := [31; 20; 32; 20; 33; 20; 34; 20; 35; 20; 36; 20; 3; 3; 3; 3; 4; 4; 5; 5; 6; 6];
     floats := repeat 5%float 400;
     times := [] |}.

Definition ultra_meals (n : nat) : result UltraGame.Game :=
  g <- UltraGame.Game_init 3 ultra_meals_ahead ;;
  Ultra_frames cos_0 sin_0 3 n 0.15%float g.

(** The cell of the first two draws of a generator on the grid of
    UltraSnake. *)
Definition Ultra_first_cell (o : Oracle) : Pos :=
  let (x, o) := randint 0 (UltraSnake.GRID_WIDTH - 1) o in
  let (y, _) := randint 0 (UltraSnake.GRID_HEIGHT - 1) o in
  (x, y).

(** A game of UltraSnake without an apple, as [reset_game] has it before it
    calls [spawn_apple]. *)
Definition ultra_no_apple : UltraSnake.Game :=
  {| UltraSnake.snake := UltraSnake.Snake_init 30 20;
     UltraSnake.apple := None;
     UltraSnake.obstacles := [];
     UltraSnake.score := 0;
     UltraSnake.apples_eaten := 0;
     UltraSnake.game_over := false;
     UltraSnake.paused := false;
     UltraSnake.rng := ultra_meals_ahead |}.

(** * Proofs *)

(** * Facts on the shared helpers *)

Section Lists.

Lemma pos_eqb_eq (p q : Pos) : pos_eqb p q = true <-> p = q.
Proof.
  destruct p as [a b], q as [c d]; unfold pos_eqb; simpl.
  rewrite andb_true_iff, !Z.eqb_eq. split.
  - intros [-> ->]; reflexivity.
  - intros H; inversion H; auto.
Qed.

Lemma pos_eqb_refl (p : Pos) : pos_eqb p p = true.
Proof. apply pos_eqb_eq; reflexivity. Qed.

Lemma py_in_In (p : Pos) (l : list Pos) : py_in p l = true <-> In p l.
Proof.
  unfold py_in. rewrite existsb_exists. split.
  - intros [q [Hq He]]. apply pos_eqb_eq in He. subst; assumption.
  - intros H. exists p. split; [assumption | apply pos_eqb_refl].
Qed.

Lemma py_in_last (l : list Pos) (d : Pos) : l <> [] -> py_in (last l d) l = true.
Proof.
  intros H. apply py_in_In.
  destruct (exists_last H) as [l' [a ->]].
  rewrite last_last. apply in_or_app. right. left. reflexivity.
Qed.

Lemma removelast_cons_cons {A : Type} (a b : A) (l : list A) :
  removelast (a :: b :: l) = a :: removelast (b :: l).
Proof. reflexivity. Qed.

Lemma removelast_cons_nonempty {A : Type} (a : A) (l : list A) :
  l <> [] -> removelast (a :: l) = a :: removelast l.
Proof. destruct l; [congruence | reflexivity]. Qed.

Lemma removelast_length {A : Type} (l : list A) :
  l <> [] -> S (List.length (removelast l)) = List.length l.
Proof.
  intros H. destruct (exists_last H) as [l' [a ->]].
  rewrite removelast_last, length_app. simpl. lia.
Qed.

End Lists.

(** * The self-collision test after a move (PiSnake, UltraSnake) *)

Lemma Pi_move_segments (s s' : PiSnake.Snake) :
  PiSnake.move s = Ok s' ->
  exists h rest,
    PiSnake.segments s = h :: rest /\
    PiSnake.segments s' =
      (fst h + fst (value (PiSnake.next_direction s)),
       snd h + snd (value (PiSnake.next_direction s)))
      :: kept (PiSnake.growing s) (PiSnake.segments s).
Proof.
  unfold PiSnake.move. destruct (PiSnake.segments s) as [|[hx hy] rest] eqn:E; [discriminate|].
  destruct (value (PiSnake.next_direction s)) as [dx dy] eqn:V.
  destruct (PiSnake.growing s) eqn:G; simpl; intros H; inversion H; subst; clear H;
    exists (hx, hy), rest; simpl; (split; [reflexivity|]).
  - reflexivity.
  - unfold pop. destruct rest; reflexivity.
Qed.

Lemma Pi_move_returns (s : PiSnake.Snake) :
  PiSnake.segments s <> [] -> returns (PiSnake.move s).
Proof.
  unfold PiSnake.move, returns. destruct (PiSnake.segments s) as [|[hx hy] rest]; [congruence|].
  intros _. destruct (value _) as [dx dy]. destruct (negb _); eauto.
Qed.

Lemma Pi_self_collision_after_move (s s' : PiSnake.Snake) :
  PiSnake.move s = Ok s' ->
  exists head,
    PiSnake.get_head_position s' = Ok head /\
    PiSnake.check_self_collision s' =
      Ok (py_in head (kept (PiSnake.growing s) (PiSnake.segments s))).
Proof.
  intros H. destruct (Pi_move_segments _ _ H) as [h [rest [E E']]].
  eexists. unfold PiSnake.check_self_collision, PiSnake.get_head_position.
  rewrite E'. simpl. split; reflexivity.
Qed.

Lemma follow_cells (pred : UltraSnake.SnakeSegment) (rest : list UltraSnake.SnakeSegment) :
  map (fun sg => (UltraSnake.x sg, UltraSnake.y sg)) (UltraSnake.follow pred rest) =
  removelast ((UltraSnake.prev_x pred, UltraSnake.prev_y pred)
              :: map (fun sg => (UltraSnake.prev_x sg, UltraSnake.prev_y sg)) rest).
Proof.
  revert pred. induction rest as [|sg rest IH]; intros pred; [reflexivity|].
  cbn [UltraSnake.follow map]. rewrite IH. cbn [map]. reflexivity.
Qed.

Lemma follow_last_prev (pred : UltraSnake.SnakeSegment) (rest : list UltraSnake.SnakeSegment) d :
  let tail := last (pred :: UltraSnake.follow pred rest) d in
  (UltraSnake.prev_x tail, UltraSnake.prev_y tail) =
  last ((UltraSnake.prev_x pred, UltraSnake.prev_y pred)
        :: map (fun sg => (UltraSnake.prev_x sg, UltraSnake.prev_y sg)) rest)
       (UltraSnake.prev_x d, UltraSnake.prev_y d).
Proof.
  revert pred. induction rest as [|sg rest IH]; intros pred; [reflexivity|].
  cbn [UltraSnake.follow map]. cbn zeta in *.
  change (last (pred :: ?a :: ?l) d) with (last (a :: l) d).
  rewrite IH. reflexivity.
Qed.

Lemma store_prev_cells (l : list UltraSnake.SnakeSegment) :
  map (fun sg => (UltraSnake.prev_x sg, UltraSnake.prev_y sg)) (map UltraSnake.store_prev l) =
  map (fun sg => (UltraSnake.x sg, UltraSnake.y sg)) l.
Proof. rewrite map_map. apply map_ext. reflexivity. Qed.

Lemma Ultra_move_cells (s s' : UltraSnake.Snake) :
  UltraSnake.move s = Ok s' ->
  exists h rest,
    UltraSnake.cells s = h :: rest /\
    UltraSnake.cells s' =
      (fst h + fst (value (UltraSnake.next_direction s)),
       snd h + snd (value (UltraSnake.next_direction s)))
      :: kept (UltraSnake.growing s) (UltraSnake.cells s).
Proof.
  unfold UltraSnake.move, UltraSnake.cells.
  destruct (UltraSnake.segments s) as [|h body] eqn:E; [discriminate|].
  cbn [map]. destruct (value (UltraSnake.next_direction s)) as [dx dy] eqn:V.
  set (h' := UltraSnake.set_xy _ _ _).
  destruct (UltraSnake.growing s) eqn:G; intros [= <-];
    exists (UltraSnake.x h, UltraSnake.y h),
           (map (fun sg => (UltraSnake.x sg, UltraSnake.y sg)) body);
    (split; [reflexivity|]); cbn [UltraSnake.segments kept fst snd].
  - cbn [map]. rewrite map_app. cbn [map]. rewrite follow_cells.
    cbn [UltraSnake.SnakeSegment_init UltraSnake.x UltraSnake.y].
    pose proof (follow_last_prev h' (map UltraSnake.store_prev body) h') as L.
    cbn zeta in L.
    change (match UltraSnake.follow h' (map UltraSnake.store_prev body) with
            | [] => h'
            | _ :: _ => last (UltraSnake.follow h' (map UltraSnake.store_prev body)) h'
            end)
      with (last (h' :: UltraSnake.follow h' (map UltraSnake.store_prev body)) h').
    rewrite L. rewrite store_prev_cells.
    subst h'. cbn [UltraSnake.set_xy UltraSnake.store_prev UltraSnake.x UltraSnake.y
                   UltraSnake.prev_x UltraSnake.prev_y].
    f_equal.
    symmetry. apply app_removelast_last. discriminate.
  - cbn [map]. rewrite follow_cells, store_prev_cells.
    subst h'. cbn [UltraSnake.set_xy UltraSnake.store_prev UltraSnake.x UltraSnake.y
                   UltraSnake.prev_x UltraSnake.prev_y].
    reflexivity.
Qed.

Lemma Ultra_move_returns (s : UltraSnake.Snake) :
  UltraSnake.segments s <> [] -> returns (UltraSnake.move s).
Proof.
  unfold UltraSnake.move, returns. destruct (UltraSnake.segments s) as [|h body]; [congruence|].
  intros _. cbn [map]. destruct (value _) as [dx dy]. destruct (UltraSnake.growing s); eauto.
Qed.

Lemma Ultra_existsb_cells (p : Pos) (l : list UltraSnake.SnakeSegment) :
  existsb (fun sg => (UltraSnake.x sg =? fst p) && (UltraSnake.y sg =? snd p)) l =
  py_in p (map (fun sg => (UltraSnake.x sg, UltraSnake.y sg)) l).
Proof.
  unfold py_in. induction l as [|sg l IH]; [reflexivity|].
  cbn [existsb map]. rewrite IH. unfold pos_eqb. cbn [fst snd].
  rewrite (Z.eqb_sym (fst p)), (Z.eqb_sym (snd p)). reflexivity.
Qed.

Lemma Ultra_self_collision_after_move (s s' : UltraSnake.Snake) :
  UltraSnake.move s = Ok s' ->
  exists head,
    UltraSnake.get_head_position s' = Ok head /\
    UltraSnake.check_self_collision s' =
      Ok (py_in head (kept (UltraSnake.growing s) (UltraSnake.cells s))).
Proof.
  intros H. destruct (Ultra_move_cells _ _ H) as [h [rest [E E']]].
  unfold UltraSnake.check_self_collision, UltraSnake.get_head_position.
  unfold UltraSnake.cells in E'.
  destruct (UltraSnake.segments s') as [|h' body'] eqn:S'; [discriminate|].
  cbn [map] in E'. injection E' as _ _ Eb.
  exists (UltraSnake.x h', UltraSnake.y h'). split; [reflexivity|].
  cbn [bind tl]. rewrite Ultra_existsb_cells, Eb. reflexivity.
Qed.

Lemma Retro_body_cell_collides (g : Retro.SnakeGame) (pos : Pos) :
  In pos (Retro.snake g) -> Retro.check_collision g pos = true.
Proof.
  intros H. apply py_in_In in H. unfold Retro.check_collision.
  destruct pos as [x y]. rewrite H.
  destruct (_ || _); reflexivity.
Qed.

(** C1, as the code has it.  In PiSnake and UltraSnake the test runs after
    the move: it is true exactly when the new head lies on a cell the body
    still occupies after the shift, which leaves out the cell the tail
    vacated when the snake is not growing.  In Retro the test runs before the
    move, against the whole body: every body cell, the tail's too, is a
    collision. *)
Theorem self_collision_by_variant :
  (forall s, PiSnake.segments s <> [] ->
     exists s' head,
       PiSnake.move s = Ok s' /\ PiSnake.get_head_position s' = Ok head /\
       PiSnake.check_self_collision s' =
         Ok (py_in head (kept (PiSnake.growing s) (PiSnake.segments s)))) /\
  (forall s, UltraSnake.segments s <> [] ->
     exists s' head,
       UltraSnake.move s = Ok s' /\ UltraSnake.get_head_position s' = Ok head /\
       UltraSnake.check_self_collision s' =
         Ok (py_in head (kept (UltraSnake.growing s) (UltraSnake.cells s)))) /\
  (forall g pos, In pos (Retro.snake g) -> Retro.check_collision g pos = true).
Proof.
  split; [|split].
  - intros s H. destruct (Pi_move_returns s H) as [s' M].
    destruct (Pi_self_collision_after_move s s' M) as [head [G C]].
    exists s', head. auto.
  - intros s H. destruct (Ultra_move_returns s H) as [s' M].
    destruct (Ultra_self_collision_after_move s s' M) as [head [G C]].
    exists s', head. auto.
  - exact Retro_body_cell_collides.
Qed.

Lemma self_collision_by_variant_witness :
  (PiSnake.segments pi_square <> [] /\
   exists s' head,
     PiSnake.move pi_square = Ok s' /\ PiSnake.get_head_position s' = Ok head /\
     PiSnake.check_self_collision s' =
       Ok (py_in head (kept (PiSnake.growing pi_square) (PiSnake.segments pi_square)))) /\
  (UltraSnake.segments ultra_square <> [] /\
   exists s' head,
     UltraSnake.move ultra_square = Ok s' /\ UltraSnake.get_head_position s' = Ok head /\
     UltraSnake.check_self_collision s' =
       Ok (py_in head (kept (UltraSnake.growing ultra_square) (UltraSnake.cells ultra_square)))) /\
  (In (6, 5) (Retro.snake retro_square) /\
   Retro.check_collision retro_square (6, 5) = true).
Proof.
  repeat apply conj.
  - discriminate.
  - apply (proj1 self_collision_by_variant pi_square). discriminate.
  - discriminate.
  - apply (proj1 (proj2 self_collision_by_variant) ultra_square). discriminate.
  - simpl. tauto.
  - apply (proj2 (proj2 self_collision_by_variant) retro_square (6, 5)). simpl. tauto.
Defined.

(** C1 fails in Retro: the snake is not growing (the food is elsewhere), the
    new head (6,5) is the cell its tail is leaving, no wall and no obstacle
    is there, and the move is a collision that ends the game. *)
Lemma retro_tail_cell_is_collision :
  Retro.new_head retro_square = Ok (6, 5) /\
  last (Retro.snake retro_square) (0, 0) = (6, 5) /\
  pos_eqb (6, 5) (Retro.food retro_square) = false /\
  Retro.is_obstacle_at retro_square 6 5 = false /\
  Retro.check_collision retro_square (6, 5) = true /\
  exists g', Retro.update_game 1 retro_square = Ok g' /\ Retro.state g' = Retro.GAME_OVER.
Proof.
  repeat split; try reflexivity.
  eexists. split; [vm_compute; reflexivity | reflexivity].
Qed.

(** In PiSnake the same move is not a collision. *)
Example pi_tail_cell_is_free :
  exists s', PiSnake.move pi_square = Ok s' /\
             PiSnake.get_head_position s' = Ok (6, 5) /\
             PiSnake.check_self_collision s' = Ok false.
Proof. eexists. repeat split. Qed.

(** * The spawners *)

(** Reading an attribute of a state built by setters. *)
Ltac retro_fields :=
  cbn [Retro.state Retro.snake Retro.direction Retro.food Retro.score Retro.high_score
       Retro.speed Retro.base_speed Retro.power_ups Retro.obstacles Retro.effect_timers
       Retro.invincible Retro.double_points Retro.game_time Retro.level Retro.particles
       Retro.screen_shake Retro.rng Retro.highscore_file Retro.disk
       Retro.next_pid Retro.with_state Retro.with_snake Retro.with_direction
       Retro.with_food Retro.with_score Retro.with_high_score Retro.with_speed
       Retro.with_base_speed Retro.with_power_ups Retro.with_obstacles
       Retro.with_effect_timers Retro.with_invincible Retro.with_double_points
       Retro.with_game_time Retro.with_level Retro.with_particles
       Retro.with_screen_shake Retro.with_rng Retro.with_highscore_file
       Retro.with_disk Retro.with_next_pid
       ints floats times fst snd] in *.

Lemma randint_range (a b : Z) (o : Oracle) :
  a <= b -> a <= fst (randint a b o) <= b.
Proof.
  intros H. unfold randint. destruct (ints o) as [|z rest]; simpl; [lia|].
  destruct ((a <=? z) && (z <=? b)) eqn:E; [|lia].
  apply andb_true_iff in E. destruct E as [E1 E2].
  apply Z.leb_le in E1, E2. lia.
Qed.

Lemma Retro_rand_int_frame (a b : Z) (g : Retro.SnakeGame) :
  snd (Retro.rand_int a b g) = Retro.with_rng (Retro.rng (snd (Retro.rand_int a b g))) g.
Proof. unfold Retro.rand_int. destruct (randint a b (Retro.rng g)); reflexivity. Qed.

Lemma Retro_rand_int_range (a b : Z) (g : Retro.SnakeGame) :
  a <= b -> a <= fst (Retro.rand_int a b g) <= b.
Proof.
  intros H. unfold Retro.rand_int. pose proof (randint_range a b (Retro.rng g) H).
  destruct (randint a b (Retro.rng g)); assumption.
Qed.

(** What [spawn_food] returns: a cell of the grid that is on no snake
    segment and in no obstacle; of the game only the generator moved on. *)
Lemma Retro_spawn_food_spec (fuel : nat) (g g' : Retro.SnakeGame) (p : Pos) :
  Retro.spawn_food fuel g = Ok (p, g') ->
  py_in p (Retro.snake g) = false /\
  Retro.is_obstacle_at g (fst p) (snd p) = false /\
  (0 <= fst p < Retro.GRID_WIDTH /\ 0 <= snd p < Retro.GRID_HEIGHT) /\
  g' = Retro.with_rng (Retro.rng g') g.
Proof.
  revert g. induction fuel as [|fuel IH]; intros g; [discriminate|].
  cbn [Retro.spawn_food].
  pose proof (Retro_rand_int_range 0 (Retro.GRID_WIDTH - 1) g ltac:(vm_compute; discriminate)) as Rx.
  pose proof (Retro_rand_int_frame 0 (Retro.GRID_WIDTH - 1) g) as Fx.
  destruct (Retro.rand_int 0 (Retro.GRID_WIDTH - 1) g) as [x g1].
  pose proof (Retro_rand_int_range 0 (Retro.GRID_HEIGHT - 1) g1 ltac:(vm_compute; discriminate)) as Ry.
  pose proof (Retro_rand_int_frame 0 (Retro.GRID_HEIGHT - 1) g1) as Fy.
  destruct (Retro.rand_int 0 (Retro.GRID_HEIGHT - 1) g1) as [y g2].
  cbn [fst snd] in *.
  assert (E2 : g2 = Retro.with_rng (Retro.rng g2) g) by (rewrite Fy, Fx; reflexivity).
  destruct (negb (py_in (x, y) (Retro.snake g2)) && negb (Retro.is_obstacle_at g2 x y)) eqn:C.
  - intros [= <- <-]. apply andb_true_iff in C. destruct C as [C1 C2].
    apply negb_true_iff in C1, C2. rewrite E2 in C1, C2.
    cbn [fst snd]. repeat split; try assumption; try lia.
  - intros H. apply IH in H. destruct H as [H1 [H2 [H3 H4]]].
    rewrite E2 in H1, H2. repeat split; try assumption; try tauto.
    rewrite H4, E2. reflexivity.
Qed.

(** [spawn_food] returns as soon as a drawn cell is free. *)
Lemma Retro_spawn_food_first_draw (fuel : nat) (g : Retro.SnakeGame) (x y : Z) (rest : list Z) :
  ints (Retro.rng g) = x :: y :: rest ->
  0 <= x < Retro.GRID_WIDTH -> 0 <= y < Retro.GRID_HEIGHT ->
  py_in (x, y) (Retro.snake g) = false ->
  Retro.is_obstacle_at g x y = false ->
  exists g', Retro.spawn_food (S fuel) g = Ok ((x, y), g').
Proof.
  intros E Hx Hy Hs Ho. cbn [Retro.spawn_food]. unfold Retro.rand_int, randint.
  rewrite E. cbn [Retro.rng Retro.with_rng ints].
  assert (X : (0 <=? x) && (x <=? Retro.GRID_WIDTH - 1) = true).
  { apply andb_true_iff. split; apply Z.leb_le; lia. }
  assert (Y : (0 <=? y) && (y <=? Retro.GRID_HEIGHT - 1) = true).
  { apply andb_true_iff. split; apply Z.leb_le; lia. }
  rewrite X, Y. unfold Retro.is_obstacle_at in *. retro_fields.
  rewrite Hs, Ho. cbn [negb andb]. eauto.
Qed.

Lemma Retro_now_frame (g : Retro.SnakeGame) :
  snd (Retro.now g) = Retro.with_rng (Retro.rng (snd (Retro.now g))) g.
Proof. unfold Retro.now. destruct (time_time (Retro.rng g)); reflexivity. Qed.

Lemma Retro_rand_choice_frame {A : Type} (seq : list A) (d : A) (g : Retro.SnakeGame) :
  snd (Retro.rand_choice seq d g) =
  Retro.with_rng (Retro.rng (snd (Retro.rand_choice seq d g))) g.
Proof. unfold Retro.rand_choice. destruct (choice seq d (Retro.rng g)); reflexivity. Qed.

Lemma Retro_rand_uniform_frame (a b : Z) (g : Retro.SnakeGame) :
  snd (Retro.rand_uniform a b g) =
  Retro.with_rng (Retro.rng (snd (Retro.rand_uniform a b g))) g.
Proof. unfold Retro.rand_uniform. destruct (uniform a b (Retro.rng g)); reflexivity. Qed.

(** What the loop of [spawn_power_up] returns: one more power-up, on a cell
    that is on no snake segment, not the food, in no obstacle. *)
Lemma Retro_spawn_power_up_loop_spec (fuel : nat) (ty : Retro.PowerUpType) (c : Retro.Color)
  (g g' : Retro.SnakeGame) :
  Retro.spawn_power_up_loop fuel ty c g = Ok g' ->
  exists pu,
    g' = Retro.with_power_ups (Retro.power_ups g ++ [pu]) (Retro.with_rng (Retro.rng g') g) /\
    Retro.pu_type pu = ty /\
    py_in (Retro.pu_x pu, Retro.pu_y pu) (Retro.snake g) = false /\
    pos_eqb (Retro.pu_x pu, Retro.pu_y pu) (Retro.food g) = false /\
    Retro.is_obstacle_at g (Retro.pu_x pu) (Retro.pu_y pu) = false.
Proof.
  revert g. induction fuel as [|fuel IH]; intros g; [discriminate|].
  cbn [Retro.spawn_power_up_loop].
  pose proof (Retro_rand_int_frame 0 (Retro.GRID_WIDTH - 1) g) as Fx.
  destruct (Retro.rand_int 0 (Retro.GRID_WIDTH - 1) g) as [x g1].
  pose proof (Retro_rand_int_frame 0 (Retro.GRID_HEIGHT - 1) g1) as Fy.
  destruct (Retro.rand_int 0 (Retro.GRID_HEIGHT - 1) g1) as [y g2].
  cbn [fst snd] in *.
  assert (E2 : g2 = Retro.with_rng (Retro.rng g2) g) by (rewrite Fy, Fx; reflexivity).
  destruct (negb (py_in (x, y) (Retro.snake g2)) && negb (pos_eqb (x, y) (Retro.food g2))
            && negb (Retro.is_obstacle_at g2 x y)) eqn:C.
  - pose proof (Retro_now_frame g2) as Ft.
    destruct (Retro.now g2) as [t g3]. cbn [snd] in Ft.
    intros [= <-].
    apply andb_true_iff in C. destruct C as [C C3].
    apply andb_true_iff in C. destruct C as [C1 C2].
    apply negb_true_iff in C1, C2, C3. rewrite E2 in C1, C2, C3.
    eexists. split; [rewrite Ft, E2; reflexivity|].
    cbn [Retro.pu_x Retro.pu_y Retro.pu_type]. repeat split; assumption.
  - intros H. apply IH in H. destruct H as [pu [H1 [H2 [H3 [H4 H5]]]]].
    rewrite E2 in H1, H3, H4, H5.
    exists pu. repeat split; try assumption.
Qed.

Lemma Retro_spawn_power_up_spec (fuel : nat) (g g' : Retro.SnakeGame) :
  Retro.spawn_power_up fuel g = Ok g' ->
  (3 <= Z.of_nat (List.length (Retro.power_ups g)) /\ g' = g) \/
  (Z.of_nat (List.length (Retro.power_ups g)) < 3 /\
   exists pu,
     g' = Retro.with_power_ups (Retro.power_ups g ++ [pu]) (Retro.with_rng (Retro.rng g') g) /\
     py_in (Retro.pu_x pu, Retro.pu_y pu) (Retro.snake g) = false /\
     pos_eqb (Retro.pu_x pu, Retro.pu_y pu) (Retro.food g) = false /\
     Retro.is_obstacle_at g (Retro.pu_x pu) (Retro.pu_y pu) = false).
Proof.
  unfold Retro.spawn_power_up.
  destruct (3 <=? Z.of_nat (List.length (Retro.power_ups g))) eqn:L.
  - intros [= <-]. left. split; [apply Z.leb_le; assumption | reflexivity].
  - apply Z.leb_gt in L. intros H. right. split; [assumption|].
    pose proof (Retro_rand_choice_frame Retro.power_up_types
                  (Retro.SPEED_BOOST, Retro.NEON_YELLOW) g) as Fc.
    destruct (Retro.rand_choice _ _ g) as [[ty c] g1]. cbn [snd] in Fc.
    apply Retro_spawn_power_up_loop_spec in H.
    destruct H as [pu [H1 [_ [H3 [H4 H5]]]]].
    rewrite Fc in H1, H3, H4, H5.
    exists pu. repeat split; assumption.
Qed.

(** The spawners of PiSnake and UltraSnake. *)

Lemma Pi_spawn_apple_loop_spec (left : nat) (g : PiSnake.Game) :
  let g' := PiSnake.spawn_apple_loop left g in
  g' = PiSnake.with_apple (PiSnake.apple g') (PiSnake.with_rng (PiSnake.rng g') g) /\
  (PiSnake.apple g' = PiSnake.apple g \/
   exists x y,
     PiSnake.apple g' = Some (PiSnake.Apple_init x y) /\
     PiSnake.check_collision (PiSnake.snake g) x y = false /\
     PiSnake.is_obstacle g x y = false).
Proof.
  revert g. induction left as [|left IH]; intros g; cbn zeta.
  - cbn [PiSnake.spawn_apple_loop]. split; [destruct g; reflexivity | left; reflexivity].
  - cbn [PiSnake.spawn_apple_loop].
    destruct (randint 0 (PiSnake.GRID_WIDTH - 1) (PiSnake.rng g)) as [x o1].
    destruct (randint 0 (PiSnake.GRID_HEIGHT - 1) o1) as [y o2].
    destruct (negb (PiSnake.check_collision (PiSnake.snake (PiSnake.with_rng o2 g)) x y)
              && negb (PiSnake.is_obstacle (PiSnake.with_rng o2 g) x y)) eqn:C.
    + split; [reflexivity|]. right. exists x, y.
      apply andb_true_iff in C. destruct C as [C1 C2].
      apply negb_true_iff in C1, C2. repeat split; assumption.
    + specialize (IH (PiSnake.with_rng o2 g)). cbn zeta in IH.
      destruct IH as [F IH]. split; [rewrite F at 1; reflexivity|].
      destruct IH as [IH | [x' [y' [A [B D]]]]]; [left; exact IH|].
      right. exists x', y'. repeat split; assumption.
Qed.

Lemma Pi_spawn_apple_draws_bound (left : nat) (g : PiSnake.Game) :
  (PiSnake.spawn_apple_draws left g <= left)%nat.
Proof.
  revert g. induction left as [|left IH]; intros g; [apply le_n|].
  cbn [PiSnake.spawn_apple_draws].
  destruct (randint _ _ _) as [x o1]. destruct (randint _ _ o1) as [y o2].
  destruct (_ && _).
  - apply le_n_S, Nat.le_0_l.
  - apply le_n_S, IH.
Qed.

Lemma Ultra_spawn_apple_spec (fuel : nat) (g g' : UltraSnake.Game) :
  UltraSnake.spawn_apple fuel g = Ok g' ->
  exists x y,
    g' = UltraSnake.with_apple (Some (x, y)) (UltraSnake.with_rng (UltraSnake.rng g') g) /\
    UltraSnake.check_collision (UltraSnake.snake g) x y = false /\
    UltraSnake.is_obstacle g x y = false.
Proof.
  revert g. induction fuel as [|fuel IH]; intros g; [discriminate|].
  cbn [UltraSnake.spawn_apple].
  destruct (randint 0 (UltraSnake.GRID_WIDTH - 1) (UltraSnake.rng g)) as [x o1].
  destruct (randint 0 (UltraSnake.GRID_HEIGHT - 1) o1) as [y o2].
  destruct (negb (UltraSnake.check_collision (UltraSnake.snake (UltraSnake.with_rng o2 g)) x y)
            && negb (UltraSnake.is_obstacle (UltraSnake.with_rng o2 g) x y)) eqn:C.
  - intros [= <-]. exists x, y.
    apply andb_true_iff in C. destruct C as [C1 C2].
    apply negb_true_iff in C1, C2. repeat split; assumption.
  - intros H. apply IH in H. destruct H as [x' [y' [A [B D]]]].
    exists x', y'. repeat split; assumption.
Qed.

(** ** Boards without a free cell *)

Lemma Retro_spawn_food_never_returns (g : Retro.SnakeGame) :
  Retro_board_full g -> forall fuel o, Retro.spawn_food fuel (Retro.with_rng o g) = OutOfFuel.
Proof.
  intros F fuel. induction fuel as [|fuel IH]; intros o; [reflexivity|].
  cbn [Retro.spawn_food].
  pose proof (Retro_rand_int_range 0 (Retro.GRID_WIDTH - 1) (Retro.with_rng o g)
                ltac:(vm_compute; discriminate)) as Rx.
  pose proof (Retro_rand_int_frame 0 (Retro.GRID_WIDTH - 1) (Retro.with_rng o g)) as Fx.
  destruct (Retro.rand_int 0 (Retro.GRID_WIDTH - 1) (Retro.with_rng o g)) as [x g1].
  pose proof (Retro_rand_int_range 0 (Retro.GRID_HEIGHT - 1) g1
                ltac:(vm_compute; discriminate)) as Ry.
  pose proof (Retro_rand_int_frame 0 (Retro.GRID_HEIGHT - 1) g1) as Fy.
  destruct (Retro.rand_int 0 (Retro.GRID_HEIGHT - 1) g1) as [y g2].
  cbn [fst snd] in *.
  assert (E2 : g2 = Retro.with_rng (Retro.rng g2) g) by (rewrite Fy, Fx; reflexivity).
  rewrite E2.
  change (Retro.snake (Retro.with_rng (Retro.rng g2) g)) with (Retro.snake g).
  change (Retro.is_obstacle_at (Retro.with_rng (Retro.rng g2) g) x y)
    with (Retro.is_obstacle_at g x y).
  destruct (F x y) as [H | H]; try lia; rewrite H.
  - apply IH.
  - rewrite andb_false_r. apply IH.
Qed.

Lemma Ultra_spawn_apple_never_returns (g : UltraSnake.Game) :
  Ultra_board_full g ->
  forall fuel o, UltraSnake.spawn_apple fuel (UltraSnake.with_rng o g) = OutOfFuel.
Proof.
  intros F fuel. induction fuel as [|fuel IH]; intros o; [reflexivity|].
  cbn [UltraSnake.spawn_apple UltraSnake.rng UltraSnake.with_rng].
  pose proof (randint_range 0 (UltraSnake.GRID_WIDTH - 1) o ltac:(vm_compute; discriminate)) as Rx.
  destruct (randint 0 (UltraSnake.GRID_WIDTH - 1) o) as [x o1].
  pose proof (randint_range 0 (UltraSnake.GRID_HEIGHT - 1) o1 ltac:(vm_compute; discriminate)) as Ry.
  destruct (randint 0 (UltraSnake.GRID_HEIGHT - 1) o1) as [y o2].
  cbn [fst snd] in *.
  change (UltraSnake.check_collision _ x y)
    with (UltraSnake.check_collision (UltraSnake.snake g) x y).
  change (UltraSnake.is_obstacle _ x y) with (UltraSnake.is_obstacle g x y).
  destruct (F x y) as [H | H]; try lia; rewrite H.
  - apply (IH o2).
  - rewrite andb_false_r. apply (IH o2).
Qed.

(** [spawn_apple] of PiSnake gives up after its 100 attempts: the apple
    stays what it was. *)
Lemma Pi_spawn_apple_gives_up (g : PiSnake.Game) :
  Pi_board_full g ->
  forall left o,
    PiSnake.apple (PiSnake.spawn_apple_loop left (PiSnake.with_rng o g)) = PiSnake.apple g /\
    PiSnake.spawn_apple_draws left (PiSnake.with_rng o g) = left.
Proof.
  intros F left. induction left as [|left IH]; intros o; [split; reflexivity|].
  cbn [PiSnake.spawn_apple_loop PiSnake.spawn_apple_draws PiSnake.rng PiSnake.with_rng].
  pose proof (randint_range 0 (PiSnake.GRID_WIDTH - 1) o ltac:(vm_compute; discriminate)) as Rx.
  destruct (randint 0 (PiSnake.GRID_WIDTH - 1) o) as [x o1].
  pose proof (randint_range 0 (PiSnake.GRID_HEIGHT - 1) o1 ltac:(vm_compute; discriminate)) as Ry.
  destruct (randint 0 (PiSnake.GRID_HEIGHT - 1) o1) as [y o2].
  cbn [fst snd] in *.
  change (PiSnake.check_collision _ x y) with (PiSnake.check_collision (PiSnake.snake g) x y).
  change (PiSnake.is_obstacle _ x y) with (PiSnake.is_obstacle g x y).
  destruct (IH o2) as [IH1 IH2].
  destruct (F x y) as [H | H]; try lia; rewrite H; rewrite ?andb_false_r; cbn [negb andb].
  - split; [exact IH1 | f_equal; exact IH2].
  - split; [exact IH1 | f_equal; exact IH2].
Qed.

Lemma zrange_In (n : nat) (z : Z) : 0 <= z < Z.of_nat n -> In z (zrange n).
Proof.
  intros H. unfold zrange. apply in_map_iff. exists (Z.to_nat z).
  split; [lia | apply in_seq; lia].
Qed.

Lemma all_cells_In (w h : nat) (x y : Z) :
  0 <= x < Z.of_nat w -> 0 <= y < Z.of_nat h -> In (x, y) (all_cells w h).
Proof.
  intros Hx Hy. unfold all_cells. apply in_flat_map. exists y.
  split; [apply zrange_In; assumption|].
  apply in_map_iff. exists x. split; [reflexivity | apply zrange_In; assumption].
Qed.

Lemma covers_all_cells (w h : nat) (f : Pos -> bool) :
  forallb f (all_cells w h) = true ->
  forall x y, 0 <= x < Z.of_nat w -> 0 <= y < Z.of_nat h -> f (x, y) = true.
Proof.
  intros H x y Hx Hy. rewrite forallb_forall in H. apply H, all_cells_In; assumption.
Qed.

Lemma retro_full_is_full : Retro_board_full retro_full.
Proof.
  intros x y Hx Hy. left.
  apply (covers_all_cells 40 30 (fun p => py_in p (Retro.snake retro_full))).
  - vm_compute. reflexivity.
  - exact Hx.
  - exact Hy.
Qed.

Lemma ultra_full_is_full : Ultra_board_full ultra_full.
Proof.
  intros x y Hx Hy. left.
  apply (covers_all_cells 60 40
           (fun p => UltraSnake.check_collision (UltraSnake.snake ultra_full) (fst p) (snd p))).
  - vm_compute. reflexivity.
  - exact Hx.
  - exact Hy.
Qed.

Lemma pi_full_is_full : Pi_board_full pi_full.
Proof.
  intros x y Hx Hy. left.
  apply (covers_all_cells 32 24
           (fun p => PiSnake.check_collision (PiSnake.snake pi_full) (fst p) (snd p))).
  - vm_compute. reflexivity.
  - exact Hx.
  - exact Hy.
Qed.

(** ** The loops draw again until a cell is free *)

Lemma Retro_spawn_food_step (fuel : nat) (g : Retro.SnakeGame) :
  Retro.spawn_food (S fuel) g =
  if Retro_free g (fst (draw_cell Retro.GRID_WIDTH Retro.GRID_HEIGHT (Retro.rng g)))
  then Ok (fst (draw_cell Retro.GRID_WIDTH Retro.GRID_HEIGHT (Retro.rng g)),
           Retro.with_rng
             (snd (draw_cell Retro.GRID_WIDTH Retro.GRID_HEIGHT (Retro.rng g))) g)
  else Retro.spawn_food fuel
         (Retro.with_rng
            (snd (draw_cell Retro.GRID_WIDTH Retro.GRID_HEIGHT (Retro.rng g))) g).
Proof.
  cbn [Retro.spawn_food]. unfold Retro.rand_int, draw_cell, Retro_free.
  destruct (randint 0 (Retro.GRID_WIDTH - 1) (Retro.rng g)) as [x o1].
  cbn [Retro.rng Retro.with_rng].
  destruct (randint 0 (Retro.GRID_HEIGHT - 1) o1) as [y o2].
  reflexivity.
Qed.

(** [spawn_food] passes over the cells drawn that are taken and returns the
    first that is free. *)
Lemma Retro_spawn_food_retries (k : nat) :
  forall fuel g,
    (k < fuel)%nat ->
    (forall i, (i < k)%nat ->
       Retro_free g (cell_drawn Retro.GRID_WIDTH Retro.GRID_HEIGHT i (Retro.rng g)) = false) ->
    Retro_free g (cell_drawn Retro.GRID_WIDTH Retro.GRID_HEIGHT k (Retro.rng g)) = true ->
    Retro.spawn_food fuel g =
    Ok (cell_drawn Retro.GRID_WIDTH Retro.GRID_HEIGHT k (Retro.rng g),
        Retro.with_rng
          (after_cells Retro.GRID_WIDTH Retro.GRID_HEIGHT (S k) (Retro.rng g)) g).
Proof.
  induction k as [|k IH]; intros fuel g L T F;
    (destruct fuel as [|fuel]; [lia|]); rewrite Retro_spawn_food_step.
  - unfold cell_drawn in F. cbn [after_cells] in F. rewrite F. reflexivity.
  - pose proof (T 0%nat ltac:(lia)) as T0. unfold cell_drawn in T0.
    cbn [after_cells] in T0. rewrite T0.
    rewrite (IH fuel _ ltac:(lia)).
    + reflexivity.
    + intros i Hi. exact (T (S i) ltac:(lia)).
    + exact F.
Qed.

Lemma Retro_spawn_power_up_loop_step
    (fuel : nat) (ty : Retro.PowerUpType) (c : Retro.Color) (g : Retro.SnakeGame) :
  Retro.spawn_power_up_loop (S fuel) ty c g =
  if Retro_free_of_food g (fst (draw_cell Retro.GRID_WIDTH Retro.GRID_HEIGHT (Retro.rng g)))
  then
    Ok (let g2 := Retro.with_rng
                    (snd (draw_cell Retro.GRID_WIDTH Retro.GRID_HEIGHT (Retro.rng g))) g in
        Retro.with_power_ups
          (Retro.power_ups (snd (Retro.now g2)) ++
           [{| Retro.pu_x :=
                 fst (fst (draw_cell Retro.GRID_WIDTH Retro.GRID_HEIGHT (Retro.rng g)));
               Retro.pu_y :=
                 snd (fst (draw_cell Retro.GRID_WIDTH Retro.GRID_HEIGHT (Retro.rng g)));
               Retro.pu_type := ty; Retro.pu_duration := 300; Retro.pu_color := c;
               Retro.pu_spawn_time := fst (Retro.now g2) |}])
          (snd (Retro.now g2)))
  else Retro.spawn_power_up_loop fuel ty c
         (Retro.with_rng
            (snd (draw_cell Retro.GRID_WIDTH Retro.GRID_HEIGHT (Retro.rng g))) g).
Proof.
  cbn [Retro.spawn_power_up_loop]. unfold Retro.rand_int, draw_cell, Retro_free_of_food.
  destruct (randint 0 (Retro.GRID_WIDTH - 1) (Retro.rng g)) as [x o1].
  cbn [Retro.rng Retro.with_rng].
  destruct (randint 0 (Retro.GRID_HEIGHT - 1) o1) as [y o2].
  unfold Retro.is_obstacle_at. retro_fields.
  match goal with |- (if ?b then _ else _) = _ => destruct b end; [|reflexivity].
  cbv zeta. destruct (Retro.now _) as [t g3]. reflexivity.
Qed.

Lemma Retro_now_power_ups (g : Retro.SnakeGame) :
  Retro.power_ups (snd (Retro.now g)) = Retro.power_ups g.
Proof. unfold Retro.now. destruct (time_time (Retro.rng g)). reflexivity. Qed.

Lemma Retro_spawn_power_up_loop_retries
    (ty : Retro.PowerUpType) (c : Retro.Color) (k : nat) :
  forall fuel g,
    (k < fuel)%nat ->
    (forall i, (i < k)%nat ->
       Retro_free_of_food g
         (cell_drawn Retro.GRID_WIDTH Retro.GRID_HEIGHT i (Retro.rng g)) = false) ->
    Retro_free_of_food g
      (cell_drawn Retro.GRID_WIDTH Retro.GRID_HEIGHT k (Retro.rng g)) = true ->
    exists g' pu,
      Retro.spawn_power_up_loop fuel ty c g = Ok g' /\
      Retro.power_ups g' = Retro.power_ups g ++ [pu] /\
      (Retro.pu_x pu, Retro.pu_y pu)
      = cell_drawn Retro.GRID_WIDTH Retro.GRID_HEIGHT k (Retro.rng g) /\
      Retro.pu_type pu = ty.
Proof.
  induction k as [|k IH]; intros fuel g L T F;
    (destruct fuel as [|fuel]; [lia|]); rewrite Retro_spawn_power_up_loop_step.
  - unfold cell_drawn in *. cbn [after_cells] in *. rewrite F.
    eexists. eexists. split; [reflexivity|]. cbv zeta.
    cbn [Retro.power_ups Retro.with_power_ups Retro.pu_x Retro.pu_y Retro.pu_type].
    split; [rewrite Retro_now_power_ups; reflexivity|].
    split; [destruct (fst (draw_cell _ _ _)); reflexivity | reflexivity].
  - pose proof (T 0%nat ltac:(lia)) as T0. unfold cell_drawn in T0.
    cbn [after_cells] in T0. rewrite T0.
    destruct (IH fuel
                (Retro.with_rng
                   (snd (draw_cell Retro.GRID_WIDTH Retro.GRID_HEIGHT (Retro.rng g))) g)
                ltac:(lia)) as [g' [pu [E [P [Ce Ty]]]]].
    + intros i Hi. exact (T (S i) ltac:(lia)).
    + exact F.
    + exists g', pu. repeat split; assumption.
Qed.

Lemma Pi_spawn_apple_loop_step (left : nat) (g : PiSnake.Game) :
  PiSnake.spawn_apple_loop (S left) g =
  if Pi_free g (fst (draw_cell PiSnake.GRID_WIDTH PiSnake.GRID_HEIGHT (PiSnake.rng g)))
  then
    PiSnake.with_apple
      (Some (PiSnake.Apple_init
               (fst (fst (draw_cell PiSnake.GRID_WIDTH PiSnake.GRID_HEIGHT (PiSnake.rng g))))
               (snd (fst (draw_cell PiSnake.GRID_WIDTH PiSnake.GRID_HEIGHT (PiSnake.rng g))))))
      (PiSnake.with_rng
         (snd (draw_cell PiSnake.GRID_WIDTH PiSnake.GRID_HEIGHT (PiSnake.rng g))) g)
  else PiSnake.spawn_apple_loop left
         (PiSnake.with_rng
            (snd (draw_cell PiSnake.GRID_WIDTH PiSnake.GRID_HEIGHT (PiSnake.rng g))) g).
Proof.
  cbn [PiSnake.spawn_apple_loop]. unfold draw_cell, Pi_free.
  destruct (randint 0 (PiSnake.GRID_WIDTH - 1) (PiSnake.rng g)) as [x o1].
  destruct (randint 0 (PiSnake.GRID_HEIGHT - 1) o1) as [y o2].
  reflexivity.
Qed.

(** [spawn_apple] of PiSnake places the apple on the first cell drawn that
    is free, when it is among the cells its attempts draw; when none of them
    is free the apple stays. *)
Lemma Pi_spawn_apple_loop_retries (k : nat) :
  forall left g,
    (k < left)%nat ->
    (forall i, (i < k)%nat ->
       Pi_free g (cell_drawn PiSnake.GRID_WIDTH PiSnake.GRID_HEIGHT i (PiSnake.rng g)) = false) ->
    Pi_free g (cell_drawn PiSnake.GRID_WIDTH PiSnake.GRID_HEIGHT k (PiSnake.rng g)) = true ->
    PiSnake.apple (PiSnake.spawn_apple_loop left g) =
    Some (PiSnake.Apple_init
            (fst (cell_drawn PiSnake.GRID_WIDTH PiSnake.GRID_HEIGHT k (PiSnake.rng g)))
            (snd (cell_drawn PiSnake.GRID_WIDTH PiSnake.GRID_HEIGHT k (PiSnake.rng g)))).
Proof.
  induction k as [|k IH]; intros left g L T F;
    (destruct left as [|left]; [lia|]); rewrite Pi_spawn_apple_loop_step.
  - unfold cell_drawn in *. cbn [after_cells] in *. rewrite F. reflexivity.
  - pose proof (T 0%nat ltac:(lia)) as T0. unfold cell_drawn in T0.
    cbn [after_cells] in T0. rewrite T0.
    rewrite (IH left _ ltac:(lia)).
    + reflexivity.
    + intros i Hi. exact (T (S i) ltac:(lia)).
    + exact F.
Qed.

Lemma Pi_spawn_apple_loop_none_free (left : nat) :
  forall g,
    (forall i, (i < left)%nat ->
       Pi_free g (cell_drawn PiSnake.GRID_WIDTH PiSnake.GRID_HEIGHT i (PiSnake.rng g)) = false) ->
    PiSnake.apple (PiSnake.spawn_apple_loop left g) = PiSnake.apple g.
Proof.
  induction left as [|left IH]; intros g T; [reflexivity|].
  rewrite Pi_spawn_apple_loop_step.
  pose proof (T 0%nat ltac:(lia)) as T0. unfold cell_drawn in T0.
  cbn [after_cells] in T0. rewrite T0.
  rewrite IH; [reflexivity|].
  intros i Hi. exact (T (S i) ltac:(lia)).
Qed.

Lemma Ultra_spawn_apple_step (fuel : nat) (g : UltraSnake.Game) :
  UltraSnake.spawn_apple (S fuel) g =
  if Ultra_free g
       (fst (draw_cell UltraSnake.GRID_WIDTH UltraSnake.GRID_HEIGHT (UltraSnake.rng g)))
  then
    Ok (UltraSnake.with_apple
          (Some (fst (draw_cell UltraSnake.GRID_WIDTH UltraSnake.GRID_HEIGHT
                        (UltraSnake.rng g))))
          (UltraSnake.with_rng
             (snd (draw_cell UltraSnake.GRID_WIDTH UltraSnake.GRID_HEIGHT
                     (UltraSnake.rng g))) g))
  else UltraSnake.spawn_apple fuel
         (UltraSnake.with_rng
            (snd (draw_cell UltraSnake.GRID_WIDTH UltraSnake.GRID_HEIGHT
                    (UltraSnake.rng g))) g).
Proof.
  cbn [UltraSnake.spawn_apple]. unfold draw_cell, Ultra_free.
  destruct (randint 0 (UltraSnake.GRID_WIDTH - 1) (UltraSnake.rng g)) as [x o1].
  destruct (randint 0 (UltraSnake.GRID_HEIGHT - 1) o1) as [y o2].
  reflexivity.
Qed.

Lemma Ultra_spawn_apple_retries (k : nat) :
  forall fuel g,
    (k < fuel)%nat ->
    (forall i, (i < k)%nat ->
       Ultra_free g
         (cell_drawn UltraSnake.GRID_WIDTH UltraSnake.GRID_HEIGHT i (UltraSnake.rng g))
       = false) ->
    Ultra_free g
      (cell_drawn UltraSnake.GRID_WIDTH UltraSnake.GRID_HEIGHT k (UltraSnake.rng g)) = true ->
    exists g',
      UltraSnake.spawn_apple fuel g = Ok g' /\
      UltraSnake.apple g' =
      Some (cell_drawn UltraSnake.GRID_WIDTH UltraSnake.GRID_HEIGHT k (UltraSnake.rng g)).
Proof.
  induction k as [|k IH]; intros fuel g L T F;
    (destruct fuel as [|fuel]; [lia|]); rewrite Ultra_spawn_apple_step.
  - unfold cell_drawn in *. cbn [after_cells] in *. rewrite F.
    eexists. split; reflexivity.
  - pose proof (T 0%nat ltac:(lia)) as T0. unfold cell_drawn in T0.
    cbn [after_cells] in T0. rewrite T0.
    destruct (IH fuel
                (UltraSnake.with_rng
                   (snd (draw_cell UltraSnake.GRID_WIDTH UltraSnake.GRID_HEIGHT
                           (UltraSnake.rng g))) g)
                ltac:(lia)) as [g' [E A]].
    + intros i Hi. exact (T (S i) ltac:(lia)).
    + exact F.
    + exists g'. split; assumption.
Qed.

Lemma Retro_spawn_power_up_retries (k : nat) (fuel : nat) (g : Retro.SnakeGame) :
  Z.of_nat (List.length (Retro.power_ups g)) < 3 ->
  (k < fuel)%nat ->
  (forall i, (i < k)%nat ->
     Retro_free_of_food g
       (cell_drawn Retro.GRID_WIDTH Retro.GRID_HEIGHT i (after_choice g)) = false) ->
  Retro_free_of_food g
    (cell_drawn Retro.GRID_WIDTH Retro.GRID_HEIGHT k (after_choice g)) = true ->
  exists g' pu,
    Retro.spawn_power_up fuel g = Ok g' /\
    Retro.power_ups g' = Retro.power_ups g ++ [pu] /\
    (Retro.pu_x pu, Retro.pu_y pu)
    = cell_drawn Retro.GRID_WIDTH Retro.GRID_HEIGHT k (after_choice g).
Proof.
  intros N L T F. unfold Retro.spawn_power_up.
  destruct (Z.leb_spec 3 (Z.of_nat (List.length (Retro.power_ups g)))); [lia|].
  unfold Retro.rand_choice, after_choice in *.
  destruct (choice Retro.power_up_types (Retro.SPEED_BOOST, Retro.NEON_YELLOW) (Retro.rng g))
    as [[ty c] o]. cbn [snd] in *.
  destruct (Retro_spawn_power_up_loop_retries ty c k fuel (Retro.with_rng o g) L T F)
    as [g' [pu [E [P [Ce _]]]]].
  exists g', pu. split; [exact E|]. split; [exact P | exact Ce].
Qed.

Lemma cell_drawn_range (width height : Z) (n : nat) (o : Oracle) :
  0 < width -> 0 < height ->
  0 <= fst (cell_drawn width height n o) < width /\
  0 <= snd (cell_drawn width height n o) < height.
Proof.
  intros W H. unfold cell_drawn, draw_cell.
  generalize (after_cells width height n o). intros o'.
  pose proof (randint_range 0 (width - 1) o' ltac:(lia)) as Rx.
  destruct (randint 0 (width - 1) o') as [x o1].
  pose proof (randint_range 0 (height - 1) o1 ltac:(lia)) as Ry.
  destruct (randint 0 (height - 1) o1) as [y o2].
  cbn [fst snd] in *. lia.
Qed.

(** On the board that the snake of PiSnake covers, every cell drawn is
    taken. *)
Lemma pi_full_cells_taken (o : Oracle) (i : nat) :
  Pi_free (PiSnake.with_rng o pi_full)
    (cell_drawn PiSnake.GRID_WIDTH PiSnake.GRID_HEIGHT i o) = false.
Proof.
  destruct (cell_drawn_range PiSnake.GRID_WIDTH PiSnake.GRID_HEIGHT i o
              ltac:(reflexivity) ltac:(reflexivity)) as [Rx Ry].
  unfold Pi_free.
  change (PiSnake.snake (PiSnake.with_rng o pi_full)) with (PiSnake.snake pi_full).
  destruct (pi_full_is_full _ _ Rx Ry) as [H | H].
  - rewrite H. reflexivity.
  - change (PiSnake.is_obstacle (PiSnake.with_rng o pi_full)) with (PiSnake.is_obstacle pi_full).
    rewrite H. apply andb_false_r.
Qed.

(** ** C2 and C3 *)

(** C2, as the code has it.  A position that a spawner returns is on no
    snake segment and in no obstacle; a power-up is moreover not on the
    food.  Nothing is said about the other power-ups, which no spawner
    looks at.  And the spawners return: [spawn_food], [spawn_power_up] and
    [spawn_apple] of UltraSnake pass over the cells drawn that are taken and
    return the first that is free, whenever the generator draws one;
    [spawn_apple] of PiSnake does so within its 100 attempts, and leaves the
    apple as it was when none of the 100 cells is free. *)
Theorem spawn_avoids_snake_and_obstacles :
  (forall fuel g p g',
     Retro.spawn_food fuel g = Ok (p, g') ->
     py_in p (Retro.snake g) = false /\ Retro.is_obstacle_at g (fst p) (snd p) = false) /\
  (forall fuel g x y rest,
     ints (Retro.rng g) = x :: y :: rest ->
     0 <= x < Retro.GRID_WIDTH -> 0 <= y < Retro.GRID_HEIGHT ->
     py_in (x, y) (Retro.snake g) = false -> Retro.is_obstacle_at g x y = false ->
     exists g', Retro.spawn_food (S fuel) g = Ok ((x, y), g')) /\
  (forall fuel g g',
     Retro.spawn_power_up fuel g = Ok g' ->
     Z.of_nat (List.length (Retro.power_ups g)) < 3 ->
     exists pu,
       Retro.power_ups g' = Retro.power_ups g ++ [pu] /\
       py_in (Retro.pu_x pu, Retro.pu_y pu) (Retro.snake g) = false /\
       pos_eqb (Retro.pu_x pu, Retro.pu_y pu) (Retro.food g) = false /\
       Retro.is_obstacle_at g (Retro.pu_x pu) (Retro.pu_y pu) = false) /\
  (forall g,
     PiSnake.apple (PiSnake.spawn_apple g) = PiSnake.apple g \/
     exists x y,
       PiSnake.apple (PiSnake.spawn_apple g) = Some (PiSnake.Apple_init x y) /\
       PiSnake.check_collision (PiSnake.snake g) x y = false /\
       PiSnake.is_obstacle g x y = false) /\
  (forall fuel g g',
     UltraSnake.spawn_apple fuel g = Ok g' ->
     exists x y,
       UltraSnake.apple g' = Some (x, y) /\
       UltraSnake.check_collision (UltraSnake.snake g) x y = false /\
       UltraSnake.is_obstacle g x y = false) /\
  (forall fuel g k,
     (k < fuel)%nat ->
     (forall i, (i < k)%nat ->
        Retro_free g (cell_drawn Retro.GRID_WIDTH Retro.GRID_HEIGHT i (Retro.rng g)) = false) ->
     Retro_free g (cell_drawn Retro.GRID_WIDTH Retro.GRID_HEIGHT k (Retro.rng g)) = true ->
     exists g',
       Retro.spawn_food fuel g
       = Ok (cell_drawn Retro.GRID_WIDTH Retro.GRID_HEIGHT k (Retro.rng g), g')) /\
  (forall fuel g k,
     Z.of_nat (List.length (Retro.power_ups g)) < 3 ->
     (k < fuel)%nat ->
     (forall i, (i < k)%nat ->
        Retro_free_of_food g
          (cell_drawn Retro.GRID_WIDTH Retro.GRID_HEIGHT i (after_choice g)) = false) ->
     Retro_free_of_food g
       (cell_drawn Retro.GRID_WIDTH Retro.GRID_HEIGHT k (after_choice g)) = true ->
     exists g' pu,
       Retro.spawn_power_up fuel g = Ok g' /\
       Retro.power_ups g' = Retro.power_ups g ++ [pu] /\
       (Retro.pu_x pu, Retro.pu_y pu)
       = cell_drawn Retro.GRID_WIDTH Retro.GRID_HEIGHT k (after_choice g)) /\
  (forall g k,
     (k < 100)%nat ->
     (forall i, (i < k)%nat ->
        Pi_free g (cell_drawn PiSnake.GRID_WIDTH PiSnake.GRID_HEIGHT i (PiSnake.rng g))
        = false) ->
     Pi_free g (cell_drawn PiSnake.GRID_WIDTH PiSnake.GRID_HEIGHT k (PiSnake.rng g)) = true ->
     PiSnake.apple (PiSnake.spawn_apple g) =
     Some (PiSnake.Apple_init
             (fst (cell_drawn PiSnake.GRID_WIDTH PiSnake.GRID_HEIGHT k (PiSnake.rng g)))
             (snd (cell_drawn PiSnake.GRID_WIDTH PiSnake.GRID_HEIGHT k (PiSnake.rng g))))) /\
  (forall g,
     (forall i, (i < 100)%nat ->
        Pi_free g (cell_drawn PiSnake.GRID_WIDTH PiSnake.GRID_HEIGHT i (PiSnake.rng g))
        = false) ->
     PiSnake.apple (PiSnake.spawn_apple g) = PiSnake.apple g) /\
  (forall fuel g k,
     (k < fuel)%nat ->
     (forall i, (i < k)%nat ->
        Ultra_free g
          (cell_drawn UltraSnake.GRID_WIDTH UltraSnake.GRID_HEIGHT i (UltraSnake.rng g))
        = false) ->
     Ultra_free g
       (cell_drawn UltraSnake.GRID_WIDTH UltraSnake.GRID_HEIGHT k (UltraSnake.rng g)) = true ->
     exists g',
       UltraSnake.spawn_apple fuel g = Ok g' /\
       UltraSnake.apple g' =
       Some (cell_drawn UltraSnake.GRID_WIDTH UltraSnake.GRID_HEIGHT k (UltraSnake.rng g))).
Proof.
  repeat apply conj.
  - intros fuel g p g' H. apply Retro_spawn_food_spec in H. tauto.
  - intros fuel g x y rest. apply Retro_spawn_food_first_draw.
  - intros fuel g g' H L. apply Retro_spawn_power_up_spec in H.
    destruct H as [[H _] | [_ [pu [E [H1 [H2 H3]]]]]]; [lia|].
    exists pu. rewrite E. repeat split; assumption.
  - intros g. apply (Pi_spawn_apple_loop_spec 100 g).
  - intros fuel g g' H. apply Ultra_spawn_apple_spec in H.
    destruct H as [x [y [E [H1 H2]]]]. exists x, y. rewrite E. repeat split; assumption.
  - intros fuel g k L T F. eexists. exact (Retro_spawn_food_retries k fuel g L T F).
  - intros fuel g k N L T F. exact (Retro_spawn_power_up_retries k fuel g N L T F).
  - intros g k L T F. exact (Pi_spawn_apple_loop_retries k 100 g L T F).
  - intros g T. exact (Pi_spawn_apple_loop_none_free 100 g T).
  - intros fuel g k L T F. exact (Ultra_spawn_apple_retries k fuel g L T F).
Qed.

Lemma spawn_avoids_snake_and_obstacles_witness :
  (exists g',
     Retro.spawn_food 1 retro_power_up_at_3_3 = Ok ((3, 3), g') /\
     py_in (3, 3) (Retro.snake retro_power_up_at_3_3) = false /\
     Retro.is_obstacle_at retro_power_up_at_3_3 3 3 = false) /\
  (exists g', Retro.spawn_food 1 retro_power_up_at_3_3 = Ok ((3, 3), g')) /\
  (exists g',
     Retro.spawn_power_up 1 retro_second_power_up = Ok g' /\
     exists pu,
       Retro.power_ups g' = Retro.power_ups retro_second_power_up ++ [pu] /\
       py_in (Retro.pu_x pu, Retro.pu_y pu) (Retro.snake retro_second_power_up) = false /\
       pos_eqb (Retro.pu_x pu, Retro.pu_y pu) (Retro.food retro_second_power_up) = false /\
       Retro.is_obstacle_at retro_second_power_up (Retro.pu_x pu) (Retro.pu_y pu) = false) /\
  (exists g',
     UltraSnake.spawn_apple 1 ultra_one_cell = Ok g' /\
     exists x y,
       UltraSnake.apple g' = Some (x, y) /\
       UltraSnake.check_collision (UltraSnake.snake ultra_one_cell) x y = false /\
       UltraSnake.is_obstacle ultra_one_cell x y = false) /\
  (cell_drawn Retro.GRID_WIDTH Retro.GRID_HEIGHT 0 (Retro.rng retro_second_draw) = (20, 15) /\
   exists g', Retro.spawn_food 2 retro_second_draw = Ok ((3, 3), g')) /\
  (exists g' pu,
     Retro.spawn_power_up 2 retro_power_up_second_draw = Ok g' /\
     Retro.power_ups g' = Retro.power_ups retro_power_up_second_draw ++ [pu] /\
     (Retro.pu_x pu, Retro.pu_y pu) = (3, 3)) /\
  PiSnake.apple (PiSnake.spawn_apple pi_second_draw) = Some (PiSnake.Apple_init 3 3) /\
  PiSnake.apple (PiSnake.spawn_apple (PiSnake.with_rng (PiSnake.rng pi_full) pi_full))
  = PiSnake.apple pi_full /\
  (exists g',
     UltraSnake.spawn_apple 2 ultra_second_draw = Ok g' /\
     UltraSnake.apple g' = Some (3, 3)).
Proof.
  repeat apply conj.
  - eexists. split; [reflexivity|].
    eapply (proj1 spawn_avoids_snake_and_obstacles 1%nat retro_power_up_at_3_3 (3, 3)).
    reflexivity.
  - apply (proj1 (proj2 spawn_avoids_snake_and_obstacles) 0%nat retro_power_up_at_3_3 3 3 []);
      [reflexivity | vm_compute; intuition discriminate | vm_compute; intuition discriminate
      | reflexivity | reflexivity].
  - eexists. split; [reflexivity|].
    apply (proj1 (proj2 (proj2 spawn_avoids_snake_and_obstacles)) 1%nat retro_second_power_up);
      [reflexivity | simpl; lia].
  - eexists. split; [reflexivity|].
    apply (proj1 (proj2 (proj2 (proj2 (proj2 spawn_avoids_snake_and_obstacles))))
             1%nat ultra_one_cell).
    reflexivity.
  - reflexivity.
  - apply (proj1 (proj2 (proj2 (proj2 (proj2 (proj2 spawn_avoids_snake_and_obstacles)))))
             2%nat retro_second_draw 1%nat).
    + lia.
    + intros i Hi. assert (E : i = 0%nat) by lia. rewrite E. reflexivity.
    + reflexivity.
  - apply (proj1 (proj2 (proj2 (proj2 (proj2 (proj2 (proj2
             spawn_avoids_snake_and_obstacles))))))
             2%nat retro_power_up_second_draw 1%nat).
    + simpl. lia.
    + lia.
    + intros i Hi. assert (E : i = 0%nat) by lia. rewrite E. reflexivity.
    + reflexivity.
  - apply (proj1 (proj2 (proj2 (proj2 (proj2 (proj2 (proj2 (proj2
             spawn_avoids_snake_and_obstacles)))))))
             pi_second_draw 1%nat).
    + lia.
    + intros i Hi. assert (E : i = 0%nat) by lia. rewrite E. reflexivity.
    + reflexivity.
  - apply (proj1 (proj2 (proj2 (proj2 (proj2 (proj2 (proj2 (proj2 (proj2
             spawn_avoids_snake_and_obstacles))))))))
             (PiSnake.with_rng (PiSnake.rng pi_full) pi_full)).
    intros i Hi. exact (pi_full_cells_taken (PiSnake.rng pi_full) i).
  - apply (proj2 (proj2 (proj2 (proj2 (proj2 (proj2 (proj2 (proj2 (proj2
             spawn_avoids_snake_and_obstacles))))))))
             2%nat ultra_second_draw 1%nat).
    + lia.
    + intros i Hi. assert (E : i = 0%nat) by lia. rewrite E. reflexivity.
    + reflexivity.
Defined.

(** C2 fails on the other active items: the food is spawned on the cell of
    an active power-up, and a power-up on the cell of another one, while the
    board has free cells (the cell (0,0) for one). *)
Lemma food_spawns_on_a_power_up :
  (exists g',
     Retro.spawn_food 1 retro_power_up_at_3_3 = Ok ((3, 3), g') /\
     Retro.power_ups g' = [a_power_up 3 3]) /\
  (exists g',
     Retro.spawn_power_up 1 retro_second_power_up = Ok g' /\
     map (fun p => (Retro.pu_x p, Retro.pu_y p)) (Retro.power_ups g') = [(3, 3); (3, 3)]) /\
  py_in (0, 0) (Retro.snake retro_power_up_at_3_3) = false /\
  Retro.is_obstacle_at retro_power_up_at_3_3 0 0 = false /\
  pos_eqb (0, 0) (Retro.food retro_power_up_at_3_3) = false.
Proof.
  repeat split; try reflexivity; eexists; split; reflexivity.
Qed.

(** C3 on boards without a free cell, whatever the generator draws:
    [spawn_food] of Retro and [spawn_apple] of UltraSnake do not return,
    however much fuel their loop gets; [spawn_apple] of PiSnake stops after
    its 100 attempts and leaves the apple as it was. *)
Theorem spawn_on_a_full_board :
  (forall fuel o, Retro.spawn_food fuel (Retro.with_rng o retro_full) = OutOfFuel) /\
  (forall fuel o, UltraSnake.spawn_apple fuel (UltraSnake.with_rng o ultra_full) = OutOfFuel) /\
  (forall o,
     PiSnake.apple (PiSnake.spawn_apple (PiSnake.with_rng o pi_full)) = PiSnake.apple pi_full /\
     PiSnake.spawn_apple_draws 100 (PiSnake.with_rng o pi_full) = 100%nat) /\
  (forall g, (PiSnake.spawn_apple_draws 100 g <= 100)%nat).
Proof.
  repeat apply conj.
  - apply Retro_spawn_food_never_returns, retro_full_is_full.
  - apply Ultra_spawn_apple_never_returns, ultra_full_is_full.
  - intros o. apply (Pi_spawn_apple_gives_up pi_full pi_full_is_full 100 o).
  - intros g. apply Pi_spawn_apple_draws_bound.
Qed.

(** * Direction requests *)

Lemma Direction_eqb_eq (a b : Direction) : Direction_eqb a b = true <-> a = b.
Proof. destruct a, b; simpl; split; intros H; try reflexivity; discriminate. Qed.

Lemma Direction_eqb_refl (a : Direction) : Direction_eqb a a = true.
Proof. destruct a; reflexivity. Qed.

Lemma Pi_reversal_ignored (s : PiSnake.Snake) :
  (1 < List.length (PiSnake.segments s))%nat ->
  PiSnake.set_direction (opposite (PiSnake.direction s)) s = s.
Proof.
  intros L. unfold PiSnake.set_direction.
  replace (1 <? Z.of_nat (List.length (PiSnake.segments s))) with true
    by (symmetry; apply Z.ltb_lt; lia).
  rewrite Direction_eqb_refl. reflexivity.
Qed.

Lemma Pi_request_accepted_when_short (d : Direction) (s : PiSnake.Snake) :
  (List.length (PiSnake.segments s) <= 1)%nat ->
  PiSnake.next_direction (PiSnake.set_direction d s) = d /\
  PiSnake.direction (PiSnake.set_direction d s) = PiSnake.direction s /\
  PiSnake.segments (PiSnake.set_direction d s) = PiSnake.segments s.
Proof.
  intros L. unfold PiSnake.set_direction.
  replace (1 <? Z.of_nat (List.length (PiSnake.segments s))) with false
    by (symmetry; apply Z.ltb_ge; lia).
  repeat split.
Qed.

Lemma Ultra_reversal_ignored (s : UltraSnake.Snake) :
  (1 < List.length (UltraSnake.segments s))%nat ->
  UltraSnake.set_direction (opposite (UltraSnake.direction s)) s = s.
Proof.
  intros L. unfold UltraSnake.set_direction.
  replace (1 <? Z.of_nat (List.length (UltraSnake.segments s))) with true
    by (symmetry; apply Z.ltb_lt; lia).
  rewrite Direction_eqb_refl. reflexivity.
Qed.

Lemma Ultra_request_accepted_when_short (d : Direction) (s : UltraSnake.Snake) :
  (List.length (UltraSnake.segments s) <= 1)%nat ->
  UltraSnake.next_direction (UltraSnake.set_direction d s) = d /\
  UltraSnake.direction (UltraSnake.set_direction d s) = UltraSnake.direction s /\
  UltraSnake.segments (UltraSnake.set_direction d s) = UltraSnake.segments s.
Proof.
  intros L. unfold UltraSnake.set_direction.
  replace (1 <? Z.of_nat (List.length (UltraSnake.segments s))) with false
    by (symmetry; apply Z.ltb_ge; lia).
  repeat split.
Qed.

(** Retro has no test on the length of the body. *)
Lemma Retro_reversal_ignored (fuel : nat) (g : Retro.SnakeGame) :
  Retro.state g = Retro.PLAYING ->
  Retro.handle_input (press (opposite (Retro.direction g))) fuel g = Ok g.
Proof.
  intros P. unfold Retro.handle_input. rewrite P.
  destruct (Retro.direction g); reflexivity.
Qed.

Lemma Retro_turn_accepted (fuel : nat) (d : Direction) (g : Retro.SnakeGame) :
  Retro.state g = Retro.PLAYING ->
  d <> opposite (Retro.direction g) ->
  Retro.handle_input (press d) fuel g = Ok (Retro.with_direction d g).
Proof.
  intros P N. unfold Retro.handle_input. rewrite P.
  destruct d, (Retro.direction g) eqn:E; simpl in N; try congruence; reflexivity.
Qed.

(** C4, as the code has it.  In PiSnake and UltraSnake a request for the
    opposite of the current direction changes nothing when the body has more
    than one segment, and any request becomes the pending direction when it
    has one.  In Retro the opposite of the current direction is ignored
    whatever the length of the body; any other direction is taken. *)
Theorem reversal_request_by_variant :
  (forall s, (1 < List.length (PiSnake.segments s))%nat ->
     PiSnake.set_direction (opposite (PiSnake.direction s)) s = s) /\
  (forall d s, (List.length (PiSnake.segments s) <= 1)%nat ->
     PiSnake.next_direction (PiSnake.set_direction d s) = d /\
     PiSnake.direction (PiSnake.set_direction d s) = PiSnake.direction s /\
     PiSnake.segments (PiSnake.set_direction d s) = PiSnake.segments s) /\
  (forall s, (1 < List.length (UltraSnake.segments s))%nat ->
     UltraSnake.set_direction (opposite (UltraSnake.direction s)) s = s) /\
  (forall d s, (List.length (UltraSnake.segments s) <= 1)%nat ->
     UltraSnake.next_direction (UltraSnake.set_direction d s) = d /\
     UltraSnake.direction (UltraSnake.set_direction d s) = UltraSnake.direction s /\
     UltraSnake.segments (UltraSnake.set_direction d s) = UltraSnake.segments s) /\
  (forall fuel g, Retro.state g = Retro.PLAYING ->
     Retro.handle_input (press (opposite (Retro.direction g))) fuel g = Ok g) /\
  (forall fuel d g, Retro.state g = Retro.PLAYING -> d <> opposite (Retro.direction g) ->
     Retro.handle_input (press d) fuel g = Ok (Retro.with_direction d g)).
Proof.
  repeat apply conj.
  - exact Pi_reversal_ignored.
  - exact Pi_request_accepted_when_short.
  - exact Ultra_reversal_ignored.
  - exact Ultra_request_accepted_when_short.
  - exact Retro_reversal_ignored.
  - exact Retro_turn_accepted.
Qed.

Lemma reversal_request_by_variant_witness :
  ((1 < List.length (PiSnake.segments pi_two_cells))%nat /\
   PiSnake.set_direction (opposite (PiSnake.direction pi_two_cells)) pi_two_cells
   = pi_two_cells) /\
  ((List.length (PiSnake.segments (PiSnake.Snake_init 16 12)) <= 1)%nat /\
   PiSnake.next_direction (PiSnake.set_direction LEFT (PiSnake.Snake_init 16 12)) = LEFT) /\
  ((1 < List.length (UltraSnake.segments ultra_two_cells))%nat /\
   UltraSnake.set_direction (opposite (UltraSnake.direction ultra_two_cells)) ultra_two_cells
   = ultra_two_cells) /\
  ((List.length (UltraSnake.segments (UltraSnake.Snake_init 30 20)) <= 1)%nat /\
   UltraSnake.next_direction (UltraSnake.set_direction LEFT (UltraSnake.Snake_init 30 20))
   = LEFT) /\
  Retro.handle_input (press (opposite (Retro.direction retro_square))) 0 retro_square
  = Ok retro_square /\
  Retro.handle_input (press UP) 0 retro_square = Ok (Retro.with_direction UP retro_square).
Proof.
  repeat apply conj.
  - simpl; lia.
  - apply (proj1 reversal_request_by_variant pi_two_cells). simpl; lia.
  - simpl; lia.
  - apply (proj1 (proj2 reversal_request_by_variant) LEFT (PiSnake.Snake_init 16 12)).
    simpl; lia.
  - simpl; lia.
  - apply (proj1 (proj2 (proj2 reversal_request_by_variant)) ultra_two_cells). simpl; lia.
  - simpl; lia.
  - apply (proj1 (proj2 (proj2 (proj2 reversal_request_by_variant))) LEFT
             (UltraSnake.Snake_init 30 20)).
    simpl; lia.
  - apply (proj1 (proj2 (proj2 (proj2 (proj2 reversal_request_by_variant)))) 0%nat
             retro_square).
    reflexivity.
  - apply (proj2 (proj2 (proj2 (proj2 (proj2 reversal_request_by_variant)))) 0%nat UP
             retro_square).
    + reflexivity.
    + discriminate.
Defined.

(** C4 fails in Retro for a body of one segment: the snake heads right, the
    left arrow alone is held, and the direction stays what it was. *)
Lemma retro_short_snake_cannot_reverse :
  List.length (Retro.snake retro_blank) = 1%nat /\
  Retro.state retro_blank = Retro.PLAYING /\
  Retro.direction retro_blank = RIGHT /\
  Retro.handle_input (press LEFT) 0 retro_blank = Ok retro_blank.
Proof. repeat split. Qed.

(** * What the methods of Retro leave alone

    [proj] reads something of the game.  Each lemma says that a method does
    not change what [proj] reads, provided [proj] does not look at the
    attributes the method assigns. *)

Section RetroFrames.

Context {A : Type} (proj : Retro.SnakeGame -> A).

Hypothesis no_rng : forall v g, proj (Retro.with_rng v g) = proj g.

Lemma rand_int_keeps a b g : proj (snd (Retro.rand_int a b g)) = proj g.
Proof. unfold Retro.rand_int. destruct (randint a b (Retro.rng g)). apply no_rng. Qed.

Lemma rand_uniform_keeps a b g : proj (snd (Retro.rand_uniform a b g)) = proj g.
Proof. unfold Retro.rand_uniform. destruct (uniform a b (Retro.rng g)). apply no_rng. Qed.

Lemma rand_choice_keeps {B : Type} (seq : list B) d g :
  proj (snd (Retro.rand_choice seq d g)) = proj g.
Proof. unfold Retro.rand_choice. destruct (choice seq d (Retro.rng g)). apply no_rng. Qed.

Lemma now_keeps g : proj (snd (Retro.now g)) = proj g.
Proof. unfold Retro.now. destruct (time_time (Retro.rng g)). apply no_rng. Qed.

Lemma for_range_keeps (f : Retro.SnakeGame -> Retro.SnakeGame) :
  (forall g, proj (f g) = proj g) -> forall n g, proj (for_range n f g) = proj g.
Proof.
  intros F n. induction n as [|n IH]; intros g; [reflexivity|].
  cbn [for_range]. rewrite IH. apply F.
Qed.

Lemma spawn_food_keeps fuel g p g' :
  Retro.spawn_food fuel g = Ok (p, g') -> proj g' = proj g.
Proof.
  intros H. apply Retro_spawn_food_spec in H. destruct H as [_ [_ [_ E]]].
  rewrite E. apply no_rng.
Qed.

Lemma apply_screen_shake_keeps :
  (forall v g, proj (Retro.with_screen_shake v g) = proj g) ->
  forall g, proj (Retro.apply_screen_shake g) = proj g.
Proof.
  intros no_shake g. unfold Retro.apply_screen_shake.
  destruct (0 <? Retro.screen_shake g); [|reflexivity].
  pose proof (rand_int_keeps (- Retro.screen_shake g) (Retro.screen_shake g) g) as K1.
  destruct (Retro.rand_int (- Retro.screen_shake g) (Retro.screen_shake g) g) as [sx g1].
  pose proof (rand_int_keeps (- Retro.screen_shake g1) (Retro.screen_shake g1) g1) as K2.
  destruct (Retro.rand_int (- Retro.screen_shake g1) (Retro.screen_shake g1) g1) as [sy g2].
  cbn [snd] in *. rewrite no_shake, K2, K1. reflexivity.
Qed.

(** Particles *)

Hypothesis no_particles : forall v g, proj (Retro.with_particles v g) = proj g.
Hypothesis no_next_pid : forall v g, proj (Retro.with_next_pid v g) = proj g.

Lemma emit_keeps x y c r l g : proj (Retro.emit x y c r l g) = proj g.
Proof.
  unfold Retro.emit, Retro.new_Particle.
  pose proof (rand_uniform_keeps (- r) r g) as K1.
  destruct (Retro.rand_uniform (- r) r g) as [vx g1].
  pose proof (rand_uniform_keeps (- r) r g1) as K2.
  destruct (Retro.rand_uniform (- r) r g1) as [vy g2].
  pose proof (rand_int_keeps 2 5 g2) as K3.
  destruct (Retro.rand_int 2 5 g2) as [size g3].
  cbn [snd] in *. rewrite no_particles, no_next_pid, K3, K2, K1. reflexivity.
Qed.

Lemma create_food_particles_keeps pos g : proj (Retro.create_food_particles pos g) = proj g.
Proof. unfold Retro.create_food_particles. apply for_range_keeps. intros; apply emit_keeps. Qed.

Lemma create_power_up_particles_keeps pos c g :
  proj (Retro.create_power_up_particles pos c g) = proj g.
Proof. unfold Retro.create_power_up_particles. apply for_range_keeps. intros; apply emit_keeps. Qed.

Lemma create_random_particle_keeps pos g : proj (Retro.create_random_particle pos g) = proj g.
Proof.
  unfold Retro.create_random_particle.
  match goal with |- context [Retro.rand_choice ?s ?d g] =>
    pose proof (rand_choice_keeps s d g) as K; destruct (Retro.rand_choice s d g) as [c g1] end.
  cbn [snd] in K. rewrite emit_keeps. exact K.
Qed.

Lemma update_particles_keeps g : proj (Retro.update_particles g) = proj g.
Proof.
  unfold Retro.update_particles.
  generalize (Retro.particles g) at 1. intros l. revert g.
  induction l as [|p l IH]; intros g; [reflexivity|].
  cbn [fold_left]. rewrite IH.
  destruct (Retro.p_lifetime (Retro.Particle_update p) <=? 0); rewrite ?no_particles; reflexivity.
Qed.

(** Obstacles *)

Hypothesis no_obstacles : forall v g, proj (Retro.with_obstacles v g) = proj g.

Lemma add_obstacle_keeps ob g : proj (Retro.add_obstacle ob g) = proj g.
Proof. apply no_obstacles. Qed.

Ltac draw :=
  match goal with
  | |- context [Retro.rand_int ?a ?b ?g] =>
      let K := fresh "K" in
      pose proof (rand_int_keeps a b g) as K;
      destruct (Retro.rand_int a b g); cbn [snd] in K
  | |- context [Retro.rand_choice ?s ?d ?g] =>
      let K := fresh "K" in
      pose proof (rand_choice_keeps s d g) as K;
      destruct (Retro.rand_choice s d g); cbn [snd] in K
  end.

Lemma create_random_obstacle_keeps g : proj (Retro.create_random_obstacle g) = proj g.
Proof.
  unfold Retro.create_random_obstacle. draw.
  repeat match goal with |- context [if ?b then _ else _] => destruct b end;
    unfold Retro.create_line_obstacle, Retro.create_box_obstacle,
      Retro.create_cross_obstacle, Retro.create_corner_obstacle;
    repeat draw;
    repeat match goal with |- context [if ?b then _ else _] => destruct b end;
    repeat draw;
    rewrite ?add_obstacle_keeps; congruence.
Qed.

Lemma generate_obstacles_keeps g : proj (Retro.generate_obstacles g) = proj g.
Proof.
  unfold Retro.generate_obstacles. rewrite for_range_keeps.
  - apply no_obstacles.
  - apply create_random_obstacle_keeps.
Qed.

(** Level up *)

Hypothesis no_level : forall v g, proj (Retro.with_level v g) = proj g.
Hypothesis no_speed : forall v g, proj (Retro.with_speed v g) = proj g.
Hypothesis no_base_speed : forall v g, proj (Retro.with_base_speed v g) = proj g.
Hypothesis no_screen_shake : forall v g, proj (Retro.with_screen_shake v g) = proj g.

Lemma level_up_keeps g : proj (Retro.level_up g) = proj g.
Proof.
  unfold Retro.level_up. rewrite for_range_keeps.
  - rewrite no_screen_shake, generate_obstacles_keeps, no_speed, no_base_speed, no_level.
    reflexivity.
  - intros; apply create_random_particle_keeps.
Qed.

(** Effects *)

Hypothesis no_effect_timers : forall v g, proj (Retro.with_effect_timers v g) = proj g.
Hypothesis no_invincible : forall v g, proj (Retro.with_invincible v g) = proj g.
Hypothesis no_double_points : forall v g, proj (Retro.with_double_points v g) = proj g.

Lemma update_effects_keeps g : proj (Retro.update_effects g) = proj g.
Proof.
  unfold Retro.update_effects.
  generalize (Retro.effect_timers g) at 1. intros l. revert g.
  induction l as [|[effect timer] l IH]; intros g; [reflexivity|].
  cbn [fold_left]. rewrite IH.
  destruct (timer <=? 0); [|apply no_effect_timers].
  rewrite no_effect_timers.
  repeat match goal with |- context [if ?b then _ else _] => destruct b end;
    rewrite ?no_speed, ?no_invincible, ?no_double_points; apply no_effect_timers.
Qed.

End RetroFrames.

Lemma Ok_inj {A : Type} (a b : A) : Ok a = Ok b -> a = b.
Proof. intros H. injection H. auto. Qed.

Section RetroTickFrames.

Context {A : Type} (proj : Retro.SnakeGame -> A).

Hypothesis no_rng : forall v g, proj (Retro.with_rng v g) = proj g.
Hypothesis no_particles : forall v g, proj (Retro.with_particles v g) = proj g.
Hypothesis no_next_pid : forall v g, proj (Retro.with_next_pid v g) = proj g.

Lemma save_high_score_keeps g g' :
  (forall v g, proj (Retro.with_highscore_file v g) = proj g) ->
  Retro.save_high_score g = Ok g' -> proj g' = proj g.
Proof.
  intros no_file. unfold Retro.save_high_score, Retro.write_high_score.
  destruct (Retro.disk g) as [|room|]; try (destruct (py_str _));
    cbn [fst]; intros [= <-]; rewrite ?no_file; reflexivity.
Qed.

Lemma game_over_keeps g g' :
  (forall v g, proj (Retro.with_state v g) = proj g) ->
  (forall v g, proj (Retro.with_high_score v g) = proj g) ->
  (forall v g, proj (Retro.with_highscore_file v g) = proj g) ->
  Retro.game_over g = Ok g' -> proj g' = proj g.
Proof.
  intros no_state no_high no_file. unfold Retro.game_over.
  destruct (Retro.high_score (Retro.with_state Retro.GAME_OVER g)
            <? Retro.score (Retro.with_state Retro.GAME_OVER g)).
  - destruct (Retro.save_high_score _) as [g1| |] eqn:S; try discriminate.
    apply (save_high_score_keeps _ _ no_file) in S. cbn [bind].
    destruct (Retro.snake g1); [discriminate|]. intros H. apply Ok_inj in H. subst g'.
    rewrite for_range_keeps by (intros; apply emit_keeps; assumption).
    rewrite S, no_high, no_state. reflexivity.
  - cbn [bind]. destruct (Retro.snake _); [discriminate|]. intros H. apply Ok_inj in H.
    subst g'. rewrite for_range_keeps by (intros; apply emit_keeps; assumption).
    apply no_state.
Qed.

Hypothesis no_power_ups : forall v g, proj (Retro.with_power_ups v g) = proj g.

Lemma spawn_power_up_keeps fuel g g' :
  Retro.spawn_power_up fuel g = Ok g' -> proj g' = proj g.
Proof.
  intros H. apply Retro_spawn_power_up_spec in H.
  destruct H as [[_ ->] | [_ [pu [-> _]]]]; [reflexivity|].
  rewrite no_power_ups. apply no_rng.
Qed.

Hypothesis no_game_time : forall v g, proj (Retro.with_game_time v g) = proj g.
Hypothesis no_speed : forall v g, proj (Retro.with_speed v g) = proj g.
Hypothesis no_effect_timers : forall v g, proj (Retro.with_effect_timers v g) = proj g.
Hypothesis no_invincible : forall v g, proj (Retro.with_invincible v g) = proj g.
Hypothesis no_double_points : forall v g, proj (Retro.with_double_points v g) = proj g.

Lemma housekeeping_keeps fuel g g' :
  Retro.housekeeping fuel g = Ok g' -> proj g' = proj g.
Proof.
  unfold Retro.housekeeping.
  set (g0 := Retro.update_effects _).
  assert (E0 : proj g0 = proj g).
  { subst g0. rewrite update_effects_keeps by assumption. apply no_game_time. }
  clearbody g0.
  pose proof (rand_int_keeps proj no_rng 1 200 g0) as K1.
  destruct (Retro.rand_int 1 200 g0) as [r g1]. cbn [snd] in K1.
  destruct (if r =? 1 then Retro.spawn_power_up fuel g1 else Ok g1) as [g2| |] eqn:S;
    try discriminate.
  assert (E2 : proj g2 = proj g1).
  { destruct (r =? 1); [apply (spawn_power_up_keeps _ _ _ S) | congruence]. }
  cbn [bind].
  pose proof (now_keeps proj no_rng g2) as K3.
  destruct (Retro.now g2) as [t g3]. cbn [snd] in K3.
  intros [= <-]. rewrite no_power_ups. congruence.
Qed.

End RetroTickFrames.

(** * The high-score file *)

Lemma py_int_cases (s : Text) : (exists n, py_int s = Ok n) \/ py_int s = Raise ValueError.
Proof.
  unfold py_int.
  match goal with |- context [let (_, _) := ?p in _] => destruct p as [negative digits] end.
  destruct (parse_digits 0 0 false digits) as [[n count]|]; [|eauto].
  destruct (count <=? int_max_str_digits)%nat; eauto.
Qed.

(** [load_high_score] returns on every file; it returns 0 when the file
    cannot be opened, when its bytes are not UTF-8 and when its text is not
    a number. *)
Lemma load_high_score_total (g : Retro.SnakeGame) :
  exists n, Retro.load_high_score g = Ok n.
Proof.
  unfold Retro.load_high_score, Retro.open_read.
  destruct (Retro.highscore_file g) as [bytes|]; cbn [bind try_except]; [|eauto].
  destruct (utf8_decode bytes) as [text|]; cbn [bind try_except]; [|eauto].
  destruct (py_int_cases (py_strip (universal_newlines text))) as [[n ->] | ->];
    cbn [try_except]; eauto.
Qed.





(** * The body of the snake in Retro *)

Ltac frame_by L := apply L; first [eassumption | intros; reflexivity].

Lemma for_range_with_snake (f : list Pos -> list Pos) (n : nat) (g : Retro.SnakeGame) :
  for_range n (fun g => Retro.with_snake (f (Retro.snake g)) g) g =
  Retro.with_snake (Nat.iter n f (Retro.snake g)) g.
Proof.
  revert g. induction n as [|n IH]; intros g; [destruct g; reflexivity|].
  cbn [for_range]. rewrite IH. cbn [Retro.snake Retro.with_snake].
  rewrite <- Nat.iter_succ_r. reflexivity.
Qed.

Lemma last_default {A : Type} (l : list A) (d d' : A) : l <> [] -> last l d = last l d'.
Proof.
  induction l as [|a l IH]; [congruence|]. intros _.
  destruct l as [|b l]; [reflexivity|].
  change (last (b :: l) d = last (b :: l) d'). apply IH. discriminate.
Qed.

Lemma grow_once_last (body : list Pos) (d : Pos) :
  body <> [] -> Retro.grow_once body = body ++ [last body d].
Proof.
  intros H. destruct body as [|h rest]; [congruence|].
  unfold Retro.grow_once. f_equal. f_equal. apply last_default. discriminate.
Qed.

Lemma grow_thrice (body : list Pos) (d : Pos) :
  body <> [] ->
  Nat.iter 3 Retro.grow_once body = body ++ [last body d; last body d; last body d].
Proof.
  intros H. cbn [Nat.iter nat_rect].
  rewrite (grow_once_last body d H).
  rewrite (grow_once_last (body ++ [last body d]) d), last_last
    by (destruct body; discriminate).
  rewrite (grow_once_last ((body ++ [last body d]) ++ [last body d]) d), last_last
    by (destruct body; discriminate).
  rewrite <- !app_assoc. reflexivity.
Qed.

Lemma apply_power_up_grow (pu : Retro.PowerUp) (g : Retro.SnakeGame) (d : Pos) :
  Retro.pu_type pu = Retro.GROW ->
  Retro.snake g <> [] ->
  Retro.snake (Retro.apply_power_up pu g) =
  Retro.snake g ++ [last (Retro.snake g) d; last (Retro.snake g) d; last (Retro.snake g) d].
Proof.
  intros T H. unfold Retro.apply_power_up. rewrite T.
  rewrite for_range_with_snake. cbn [Retro.snake Retro.with_snake Retro.with_score].
  apply grow_thrice, H.
Qed.

Lemma pop_length {A : Type} (l : list A) : List.length (pop l) = Nat.pred (List.length l).
Proof.
  unfold pop. destruct l as [|a l]; [reflexivity|].
  pose proof (removelast_length (a :: l) ltac:(discriminate)) as H.
  cbn [List.length] in *. lia.
Qed.

Lemma apply_power_up_length (pu : Retro.PowerUp) (g : Retro.SnakeGame) :
  Retro.snake g <> [] ->
  List.length (Retro.snake (Retro.apply_power_up pu g)) =
  match Retro.pu_type pu with
  | Retro.GROW => (List.length (Retro.snake g) + 3)%nat
  | Retro.SHRINK =>
      if (3 <? List.length (Retro.snake g))%nat
      then (List.length (Retro.snake g) - 2)%nat
      else List.length (Retro.snake g)
  | _ => List.length (Retro.snake g)
  end.
Proof.
  intros H. destruct (Retro.pu_type pu) eqn:T.
  - unfold Retro.apply_power_up. rewrite T. reflexivity.
  - unfold Retro.apply_power_up. rewrite T. reflexivity.
  - rewrite (apply_power_up_grow pu g (0, 0) T H), length_app. reflexivity.
  - unfold Retro.apply_power_up. rewrite T.
    destruct (3 <? Z.of_nat (List.length (Retro.snake g))) eqn:L.
    + apply Z.ltb_lt in L.
      replace (3 <? List.length (Retro.snake g))%nat with true
        by (symmetry; apply Nat.ltb_lt; lia).
      replace (Z.to_nat (Z.min 2 (Z.of_nat (List.length (Retro.snake g)) - 1))) with 2%nat
        by lia.
      rewrite for_range_with_snake. cbn [Retro.snake Retro.with_snake Retro.with_score].
      cbn [Nat.iter nat_rect]. rewrite !pop_length. lia.
    + apply Z.ltb_ge in L.
      replace (3 <? List.length (Retro.snake g))%nat with false
        by (symmetry; apply Nat.ltb_ge; lia).
      reflexivity.
  - unfold Retro.apply_power_up. rewrite T. reflexivity.
  - unfold Retro.apply_power_up. rewrite T. reflexivity.
Qed.

Lemma apply_power_up_nonempty (pu : Retro.PowerUp) (g : Retro.SnakeGame) :
  Retro.snake g <> [] -> Retro.snake (Retro.apply_power_up pu g) <> [].
Proof.
  intros H E. pose proof (apply_power_up_length pu g H) as L. rewrite E in L.
  assert (0 < List.length (Retro.snake g))%nat by (destruct (Retro.snake g); [congruence | simpl; lia]).
  cbn [List.length] in L.
  destruct (Retro.pu_type pu); try lia.
  destruct (3 <? List.length (Retro.snake g))%nat eqn:C; [apply Nat.ltb_lt in C|]; lia.
Qed.

Lemma collect_power_ups_fold (head : Pos) (g : Retro.SnakeGame) :
  Retro.collect_power_ups head g = fold_left (collect_one head) (Retro.power_ups g) g.
Proof. reflexivity. Qed.

Lemma collect_one_nonempty (head : Pos) (g : Retro.SnakeGame) (pu : Retro.PowerUp) :
  Retro.snake g <> [] -> Retro.snake (collect_one head g pu) <> [].
Proof.
  intros H. unfold collect_one. destruct (pos_eqb _ _); [|assumption].
  rewrite (create_power_up_particles_keeps Retro.snake) by (intros; reflexivity).
  cbn [Retro.snake Retro.with_power_ups]. apply apply_power_up_nonempty, H.
Qed.

Lemma collect_power_ups_nonempty (head : Pos) (g : Retro.SnakeGame) :
  Retro.snake g <> [] -> Retro.snake (Retro.collect_power_ups head g) <> [].
Proof.
  rewrite collect_power_ups_fold. generalize (Retro.power_ups g). intros l. revert g.
  induction l as [|pu l IH]; intros g H; [assumption|].
  cbn [fold_left]. apply IH, collect_one_nonempty, H.
Qed.

Lemma collect_power_ups_none (head : Pos) (g : Retro.SnakeGame) :
  existsb (fun p => pos_eqb head (Retro.pu_x p, Retro.pu_y p)) (Retro.power_ups g) = false ->
  Retro.collect_power_ups head g = g.
Proof.
  rewrite collect_power_ups_fold. generalize (Retro.power_ups g). intros l. revert g.
  induction l as [|pu l IH]; intros g H; [reflexivity|].
  cbn [fold_left existsb] in *. apply orb_false_iff in H. destruct H as [H1 H2].
  unfold collect_one at 2. rewrite H1. apply IH, H2.
Qed.

Section CollectFrames.

Context {A : Type} (proj : Retro.SnakeGame -> A).
Hypothesis no_rng : forall v g, proj (Retro.with_rng v g) = proj g.
Hypothesis no_particles : forall v g, proj (Retro.with_particles v g) = proj g.
Hypothesis no_next_pid : forall v g, proj (Retro.with_next_pid v g) = proj g.
Hypothesis no_snake : forall v g, proj (Retro.with_snake v g) = proj g.
Hypothesis no_speed : forall v g, proj (Retro.with_speed v g) = proj g.
Hypothesis no_effect_timers : forall v g, proj (Retro.with_effect_timers v g) = proj g.
Hypothesis no_invincible : forall v g, proj (Retro.with_invincible v g) = proj g.
Hypothesis no_double_points : forall v g, proj (Retro.with_double_points v g) = proj g.
Hypothesis no_score : forall v g, proj (Retro.with_score v g) = proj g.
Hypothesis no_power_ups : forall v g, proj (Retro.with_power_ups v g) = proj g.

Lemma apply_power_up_keeps power_up g : proj (Retro.apply_power_up power_up g) = proj g.
Proof.
  unfold Retro.apply_power_up. rewrite no_score.
  destruct (Retro.pu_type power_up).
  - rewrite no_effect_timers. apply no_speed.
  - rewrite no_effect_timers. apply no_speed.
  - apply for_range_keeps. intros; apply no_snake.
  - destruct (3 <? _); [|reflexivity]. apply for_range_keeps. intros; apply no_snake.
  - rewrite no_effect_timers. apply no_invincible.
  - rewrite no_effect_timers. apply no_double_points.
Qed.

Lemma collect_power_ups_keeps head g : proj (Retro.collect_power_ups head g) = proj g.
Proof.
  rewrite collect_power_ups_fold. generalize (Retro.power_ups g). intros l. revert g.
  induction l as [|pu l IH]; intros g; [reflexivity|].
  cbn [fold_left]. rewrite IH. unfold collect_one.
  destruct (pos_eqb _ _); [|reflexivity].
  rewrite create_power_up_particles_keeps by assumption.
  rewrite no_power_ups. apply apply_power_up_keeps.
Qed.

End CollectFrames.

Lemma eat_or_pop_pops (fuel : nat) (head : Pos) (g : Retro.SnakeGame) :
  pos_eqb head (Retro.food g) = false ->
  Retro.eat_or_pop fuel head g = Ok (Retro.with_snake (pop (Retro.snake g)) g).
Proof. intros H. unfold Retro.eat_or_pop. rewrite H. reflexivity. Qed.

Section EatFrames.

Context {A : Type} (proj : Retro.SnakeGame -> A).
Hypothesis no_rng : forall v g, proj (Retro.with_rng v g) = proj g.
Hypothesis no_particles : forall v g, proj (Retro.with_particles v g) = proj g.
Hypothesis no_next_pid : forall v g, proj (Retro.with_next_pid v g) = proj g.
Hypothesis no_obstacles : forall v g, proj (Retro.with_obstacles v g) = proj g.
Hypothesis no_level : forall v g, proj (Retro.with_level v g) = proj g.
Hypothesis no_speed : forall v g, proj (Retro.with_speed v g) = proj g.
Hypothesis no_base_speed : forall v g, proj (Retro.with_base_speed v g) = proj g.
Hypothesis no_screen_shake : forall v g, proj (Retro.with_screen_shake v g) = proj g.
Hypothesis no_score : forall v g, proj (Retro.with_score v g) = proj g.
Hypothesis no_food : forall v g, proj (Retro.with_food v g) = proj g.

Lemma eat_or_pop_eats (fuel : nat) (head : Pos) (g g' : Retro.SnakeGame) :
  pos_eqb head (Retro.food g) = true ->
  Retro.eat_or_pop fuel head g = Ok g' -> proj g' = proj g.
Proof.
  intros H. unfold Retro.eat_or_pop. rewrite H.
  destruct (Retro.spawn_food fuel _) as [[f g1]| |] eqn:S; try discriminate.
  apply (spawn_food_keeps proj no_rng) in S. rewrite no_score in S.
  cbn [bind].
  match goal with |- (if ?c then _ else _) = _ -> _ => destruct c end;
    intros E; apply Ok_inj in E; subst g'.
  - rewrite level_up_keeps by assumption.
    rewrite create_food_particles_keeps by assumption.
    rewrite no_food. exact S.
  - rewrite create_food_particles_keeps by assumption.
    rewrite no_food. exact S.
Qed.

End EatFrames.

(** The length of the body after a tick. *)
Lemma update_game_nonempty (fuel : nat) (g g' : Retro.SnakeGame) :
  Retro.update_game fuel g = Ok g' -> Retro.snake g <> [] -> Retro.snake g' <> [].
Proof.
  unfold Retro.update_game. destruct (negb _); [intros [= <-]; auto|].
  destruct (Retro.housekeeping fuel g) as [g1| |] eqn:HK; try discriminate.
  assert (S1 : Retro.snake g1 = Retro.snake g)
    by (revert HK; frame_by (housekeeping_keeps Retro.snake)).
  cbn [bind]. destruct (Retro.new_head g1) as [head| |] eqn:NH; try discriminate.
  cbn [bind]. destruct (Retro.check_collision g1 head && negb (Retro.invincible g1)).
  - intros GO N.
    assert (Retro.snake g' = Retro.snake g1)
      by (revert GO; frame_by (game_over_keeps Retro.snake)).
    congruence.
  - destruct (Retro.eat_or_pop fuel head _) as [g2| |] eqn:EP; try discriminate.
    cbn [bind]. intros E N. apply Ok_inj in E. subst g'.
    apply collect_power_ups_nonempty.
    destruct (pos_eqb head (Retro.food (Retro.with_snake (head :: Retro.snake g1) g1))) eqn:F.
    + assert (S2 : Retro.snake g2 = head :: Retro.snake g1)
        by (revert EP; frame_by (eat_or_pop_eats Retro.snake)).
      rewrite S2. discriminate.
    + rewrite (eat_or_pop_pops _ _ _ F) in EP. apply Ok_inj in EP. subst g2.
      cbn [Retro.snake Retro.with_snake]. rewrite S1.
      destruct (Retro.snake g); [congruence | discriminate].
Qed.

Lemma reset_game_body (fuel : nat) (g g' : Retro.SnakeGame) :
  Retro.reset_game fuel g = Ok g' ->
  Retro.snake g' = [(Retro.GRID_WIDTH / 2, Retro.GRID_HEIGHT / 2)].
Proof.
  unfold Retro.reset_game.
  destruct (Retro.spawn_food fuel _) as [[f g1]| |] eqn:S; try discriminate.
  apply (spawn_food_keeps Retro.snake) in S; [|intros; reflexivity].
  cbn [bind].
  destruct (load_high_score_total
              (Retro.with_score 0 (Retro.with_food f g1))) as [hs ->].
  cbn [bind]. intros E. apply Ok_inj in E. subst g'.
  rewrite (generate_obstacles_keeps Retro.snake) by (intros; reflexivity).
  exact S.
Qed.

Lemma handle_event_body (acc : bool * Retro.SnakeGame) (event : Retro.Event) :
  Retro.snake (snd (Retro.handle_event acc event)) = Retro.snake (snd acc).
Proof.
  destruct acc as [running g]. destruct event; cbn [Retro.handle_event snd];
    try reflexivity.
  destruct (Retro.state g); reflexivity.
Qed.

Lemma handle_input_nonempty (keys : Retro.Keys) (fuel : nat) (g g' : Retro.SnakeGame) :
  Retro.handle_input keys fuel g = Ok g' -> Retro.snake g <> [] -> Retro.snake g' <> [].
Proof.
  unfold Retro.handle_input. destruct (Retro.state g).
  - destruct (Retro.K_SPACE keys); [|intros [= <-]; auto].
    destruct (Retro.reset_game fuel g) as [g1| |] eqn:R; try discriminate.
    cbn [bind]. intros [= <-] _. cbn [Retro.snake Retro.with_state].
    rewrite (reset_game_body _ _ _ R). discriminate.
  - repeat match goal with |- context [if ?b then _ else _] => destruct b end;
      intros [= <-]; auto.
  - destruct (Retro.K_SPACE keys); intros [= <-]; auto.
  - destruct (Retro.K_SPACE keys); intros [= <-]; auto.
Qed.

Lemma Retro_reachable_nonempty (g : Retro.SnakeGame) :
  Retro_reachable g -> Retro.snake g <> [].
Proof.
  induction 1 as [fuel g g' R | running g event _ IH | keys fuel g g' _ IH HI
                 | fuel g g' _ IH U | g _ IH | g _ IH].
  - unfold SnakeGame_init in R.
    destruct (Retro.reset_game fuel g) as [g1| |] eqn:R1; try discriminate.
    cbn [bind] in R. apply Ok_inj in R. subst g'.
    cbn [Retro.snake Retro.with_screen_shake Retro.with_particles Retro.with_state].
    rewrite (reset_game_body _ _ _ R1). discriminate.
  - rewrite handle_event_body. exact IH.
  - exact (handle_input_nonempty _ _ _ _ HI IH).
  - exact (update_game_nonempty _ _ _ U IH).
  - rewrite (update_particles_keeps Retro.snake) by (intros; reflexivity). exact IH.
  - rewrite (apply_screen_shake_keeps Retro.snake) by (intros; reflexivity). exact IH.
Qed.

Lemma Pi_set_direction_segments (d : Direction) (s : PiSnake.Snake) :
  PiSnake.segments (PiSnake.set_direction d s) = PiSnake.segments s.
Proof.
  unfold PiSnake.set_direction.
  destruct (1 <? _); [destruct (negb _)|]; reflexivity.
Qed.

Lemma Pi_move_nonempty (s s' : PiSnake.Snake) :
  PiSnake.move s = Ok s' -> PiSnake.segments s' <> [].
Proof.
  intros M. destruct (Pi_move_segments _ _ M) as [h [rest [_ E]]]. rewrite E. discriminate.
Qed.

Lemma Pi_reachable_nonempty (s : PiSnake.Snake) :
  Pi_reachable s -> PiSnake.segments s <> [].
Proof.
  induction 1 as [x y | d s _ IH | s _ IH | s s' _ IH M | dt s s' _ IH U | delay s _ IH].
  - discriminate.
  - rewrite Pi_set_direction_segments. exact IH.
  - exact IH.
  - exact (Pi_move_nonempty _ _ M).
  - unfold PiSnake.Snake_update in U. destruct (_ <=? _)%float.
    + exact (Pi_move_nonempty _ _ U).
    + apply Ok_inj in U. subst s'. exact IH.
  - exact IH.
Qed.

Lemma Ultra_set_direction_segments (d : Direction) (s : UltraSnake.Snake) :
  UltraSnake.segments (UltraSnake.set_direction d s) = UltraSnake.segments s.
Proof.
  unfold UltraSnake.set_direction.
  destruct (1 <? _); [destruct (negb _)|]; reflexivity.
Qed.

Lemma Ultra_move_nonempty (s s' : UltraSnake.Snake) :
  UltraSnake.move s = Ok s' -> UltraSnake.segments s' <> [].
Proof.
  intros M E. destruct (Ultra_move_cells _ _ M) as [h [rest [_ C]]].
  unfold UltraSnake.cells in C. rewrite E in C. discriminate.
Qed.

Lemma Ultra_reachable_nonempty (s : UltraSnake.Snake) :
  Ultra_reachable s -> UltraSnake.segments s <> [].
Proof.
  induction 1 as [x y | d s _ IH | s _ IH | s s' _ IH M | dt s s' _ IH U | delay s _ IH].
  - discriminate.
  - rewrite Ultra_set_direction_segments. exact IH.
  - exact IH.
  - exact (Ultra_move_nonempty _ _ M).
  - unfold UltraSnake.Snake_update in U. destruct (_ <=? _)%float.
    + exact (Ultra_move_nonempty _ _ U).
    + apply Ok_inj in U. subst s'. cbn [UltraSnake.segments].
      intros E. apply map_eq_nil in E. exact (IH E).
  - exact IH.
Qed.

(** ** No exception from a state whose body is not empty *)

Lemma spawn_food_no_raise (fuel : nat) (g : Retro.SnakeGame) :
  no_raise (Retro.spawn_food fuel g).
Proof.
  revert g. induction fuel as [|fuel IH]; intros g e; [discriminate|].
  cbn [Retro.spawn_food].
  destruct (Retro.rand_int _ _ g) as [x g1]. destruct (Retro.rand_int _ _ g1) as [y g2].
  destruct (_ && _); [discriminate | apply IH].
Qed.

Lemma spawn_power_up_no_raise (fuel : nat) (g : Retro.SnakeGame) :
  no_raise (Retro.spawn_power_up fuel g).
Proof.
  intros e. unfold Retro.spawn_power_up. destruct (3 <=? _); [discriminate|].
  destruct (Retro.rand_choice _ _ g) as [[ty c] g0].
  revert g0. induction fuel as [|fuel IH]; intros g0; [discriminate|].
  cbn [Retro.spawn_power_up_loop].
  destruct (Retro.rand_int _ _ g0) as [x g1]. destruct (Retro.rand_int _ _ g1) as [y g2].
  destruct (_ && _); [|apply IH].
  destruct (Retro.now g2). discriminate.
Qed.

Lemma housekeeping_no_raise (fuel : nat) (g : Retro.SnakeGame) :
  no_raise (Retro.housekeeping fuel g).
Proof.
  intros e. unfold Retro.housekeeping.
  destruct (Retro.rand_int 1 200 _) as [r g1].
  destruct (r =? 1).
  - pose proof (spawn_power_up_no_raise fuel g1) as N.
    destruct (Retro.spawn_power_up fuel g1) as [g2|e'|]; cbn [bind].
    + destruct (Retro.now g2). discriminate.
    + exfalso. exact (N e' eq_refl).
    + discriminate.
  - cbn [bind]. destruct (Retro.now g1). discriminate.
Qed.

Lemma new_head_returns (g : Retro.SnakeGame) :
  Retro.snake g <> [] -> returns (Retro.new_head g).
Proof.
  unfold Retro.new_head, returns. destruct (Retro.snake g) as [|[hx hy] rest]; [congruence|].
  intros _. destruct (value (Retro.direction g)). eauto.
Qed.

Lemma save_high_score_returns (g : Retro.SnakeGame) : returns (Retro.save_high_score g).
Proof.
  unfold Retro.save_high_score, returns. eauto.
Qed.

Lemma game_over_returns (g : Retro.SnakeGame) :
  Retro.snake g <> [] -> returns (Retro.game_over g).
Proof.
  intros H. unfold Retro.game_over.
  assert (S : exists g1, (if Retro.high_score (Retro.with_state Retro.GAME_OVER g)
                             <? Retro.score (Retro.with_state Retro.GAME_OVER g)
                          then Retro.save_high_score
                                 (Retro.with_high_score
                                    (Retro.score (Retro.with_state Retro.GAME_OVER g))
                                    (Retro.with_state Retro.GAME_OVER g))
                          else Ok (Retro.with_state Retro.GAME_OVER g)) = Ok g1
                         /\ Retro.snake g1 = Retro.snake g).
  { destruct (_ <? _).
    - destruct (save_high_score_returns
                  (Retro.with_high_score (Retro.score (Retro.with_state Retro.GAME_OVER g))
                     (Retro.with_state Retro.GAME_OVER g))) as [g1 E].
      exists g1. split; [exact E|].
      exact (save_high_score_keeps Retro.snake _ _ (fun _ _ => eq_refl) E).
    - eexists. split; reflexivity. }
  destruct S as [g1 [-> S]]. cbn [bind]. rewrite S.
  destruct (Retro.snake g); [congruence|]. unfold returns. eauto.
Qed.

Lemma eat_or_pop_no_raise (fuel : nat) (head : Pos) (g : Retro.SnakeGame) :
  no_raise (Retro.eat_or_pop fuel head g).
Proof.
  intros e. unfold Retro.eat_or_pop. destruct (pos_eqb _ _); [|discriminate].
  match goal with |- context [Retro.spawn_food fuel ?g0] =>
    pose proof (spawn_food_no_raise fuel g0) as N;
    destruct (Retro.spawn_food fuel g0) as [[f g1]|e'|] end; cbn [bind].
  - destruct (_ <? _); discriminate.
  - exfalso. exact (N e' eq_refl).
  - discriminate.
Qed.

Lemma update_game_no_raise (fuel : nat) (g : Retro.SnakeGame) :
  Retro.snake g <> [] -> no_raise (Retro.update_game fuel g).
Proof.
  intros H e. unfold Retro.update_game. destruct (negb _); [discriminate|].
  pose proof (housekeeping_no_raise fuel g) as N.
  destruct (Retro.housekeeping fuel g) as [g1|e'|] eqn:HK; cbn [bind];
    [|exfalso; exact (N e' eq_refl)|discriminate].
  assert (S1 : Retro.snake g1 = Retro.snake g)
    by (revert HK; frame_by (housekeeping_keeps Retro.snake)).
  destruct (new_head_returns g1 ltac:(congruence)) as [head ->]. cbn [bind].
  destruct (_ && _).
  - destruct (game_over_returns g1 ltac:(congruence)) as [g2 ->]. discriminate.
  - match goal with |- context [Retro.eat_or_pop fuel head ?g0] =>
      pose proof (eat_or_pop_no_raise fuel head g0) as N2;
      destruct (Retro.eat_or_pop fuel head g0) as [g2|e'|] end; cbn [bind].
    + discriminate.
    + exfalso. exact (N2 e' eq_refl).
    + discriminate.
Qed.

(** C9: the body of the snake is never empty.  In Retro every state the
    game reaches has a body with a segment, and [update_game] raises no
    exception there (its [self.snake[0]] and [self.snake.pop()] find a
    segment); a power-up never empties the body.  In PiSnake and UltraSnake
    every state of the snake has a segment, and [move] returns. *)
Theorem body_never_empty :
  (forall g, Retro_reachable g ->
     Retro.snake g <> [] /\ forall fuel e, Retro.update_game fuel g <> Raise e) /\
  (forall pu g, Retro.snake g <> [] -> Retro.snake (Retro.apply_power_up pu g) <> []) /\
  (forall s, Pi_reachable s -> PiSnake.segments s <> [] /\ returns (PiSnake.move s)) /\
  (forall s, Ultra_reachable s -> UltraSnake.segments s <> [] /\ returns (UltraSnake.move s)).
Proof.
  repeat apply conj.
  - intros g R. pose proof (Retro_reachable_nonempty g R) as N.
    split; [exact N|]. intros fuel. apply update_game_no_raise, N.
  - exact apply_power_up_nonempty.
  - intros s R. pose proof (Pi_reachable_nonempty s R) as N.
    split; [exact N | apply Pi_move_returns, N].
  - intros s R. pose proof (Ultra_reachable_nonempty s R) as N.
    split; [exact N | apply Ultra_move_returns, N].
Qed.

Lemma body_never_empty_witness :
  (exists g', SnakeGame_init 1 retro_blank = Ok g' /\ Retro.snake g' <> []) /\
  Retro.snake (Retro.apply_power_up (a_power_up 3 3) retro_square) <> [] /\
  (PiSnake.segments (PiSnake.Snake_init 16 12) <> [] /\
   returns (PiSnake.move (PiSnake.Snake_init 16 12))) /\
  (UltraSnake.segments (UltraSnake.Snake_init 30 20) <> [] /\
   returns (UltraSnake.move (UltraSnake.Snake_init 30 20))).
Proof.
  repeat apply conj.
  - eexists. split; [vm_compute; reflexivity|].
    apply (proj1 body_never_empty). apply (reach_init 1%nat retro_blank).
    vm_compute. reflexivity.
  - apply (proj1 (proj2 body_never_empty)). discriminate.
  - apply (proj1 (proj2 (proj2 body_never_empty))), pi_init.
  - apply (proj1 (proj2 (proj2 body_never_empty))), pi_init.
  - apply (proj2 (proj2 (proj2 body_never_empty))), ultra_init.
  - apply (proj2 (proj2 (proj2 body_never_empty))), ultra_init.
Defined.

(** C10: GROW appends the cell of the tail three times. *)
Theorem grow_power_up_appends_tail (power_up : Retro.PowerUp) (g : Retro.SnakeGame) :
  Retro.pu_type power_up = Retro.GROW ->
  Retro.snake g <> [] ->
  let tail := last (Retro.snake g) (0, 0) in
  let g' := Retro.apply_power_up power_up g in
  Retro.snake g' = Retro.snake g ++ [tail; tail; tail] /\
  List.length (Retro.snake g') = (List.length (Retro.snake g) + 3)%nat /\
  ~ NoDup (Retro.snake g').
Proof.
  intros T H tail g'. subst tail g'.
  rewrite (apply_power_up_grow power_up g (0, 0) T H).
  repeat split.
  - rewrite length_app. reflexivity.
  - intros N. apply NoDup_app_remove_l in N. inversion N as [|? ? NI _]; subst.
    apply NI. left. reflexivity.
Qed.

Lemma grow_power_up_appends_tail_witness :
  Retro.snake (Retro.apply_power_up (a_power_up 3 3) retro_square) =
  [(5, 5); (5, 6); (6, 6); (6, 5); (6, 5); (6, 5); (6, 5)].
Proof.
  apply (grow_power_up_appends_tail (a_power_up 3 3) retro_square); [reflexivity | discriminate].
Defined.

(** * Growth *)

(** ** Retro: a tick that eats keeps the tail *)

Lemma update_game_length (fuel : nat) (g g' : Retro.SnakeGame) :
  Retro.update_game fuel g = Ok g' ->
  collects fuel g = false ->
  List.length (Retro.snake g') =
  (List.length (Retro.snake g) + (if eats fuel g then 1 else 0))%nat.
Proof.
  unfold Retro.update_game, eats, collects, tick_step.
  destruct (negb _); [intros [= <-] _; lia|].
  destruct (Retro.housekeeping fuel g) as [g1| |] eqn:HK; try discriminate.
  assert (S1 : Retro.snake g1 = Retro.snake g)
    by (revert HK; frame_by (housekeeping_keeps Retro.snake)).
  cbn [bind]. destruct (Retro.new_head g1) as [head| |] eqn:NH; try discriminate.
  cbn [bind]. destruct (Retro.check_collision g1 head && negb (Retro.invincible g1)).
  - intros GO _.
    assert (Retro.snake g' = Retro.snake g1)
      by (revert GO; frame_by (game_over_keeps Retro.snake)).
    replace (Retro.snake g') with (Retro.snake g) by congruence. lia.
  - destruct (Retro.eat_or_pop fuel head _) as [g2| |] eqn:EP; try discriminate.
    cbn [bind]. intros E C. apply Ok_inj in E. subst g'.
    change (Retro.food (Retro.with_snake (head :: Retro.snake g1) g1))
      with (Retro.food g1) in *.
    destruct (pos_eqb head (Retro.food g1)) eqn:F.
    + assert (S2 : Retro.snake g2 = head :: Retro.snake g1)
        by (revert EP; frame_by (eat_or_pop_eats Retro.snake)).
      assert (P2 : Retro.power_ups g2 =
                   Retro.power_ups (Retro.with_snake (head :: Retro.snake g1) g1))
        by (revert EP; frame_by (eat_or_pop_eats Retro.power_ups)).
      cbn [Retro.power_ups Retro.with_snake] in P2.
      rewrite collect_power_ups_none by (rewrite P2; exact C).
      rewrite S2, S1. cbn [List.length]. lia.
    + rewrite (eat_or_pop_pops fuel head (Retro.with_snake (head :: Retro.snake g1) g1) F)
        in EP.
      apply Ok_inj in EP. subst g2.
      rewrite collect_power_ups_none by exact C.
      cbn [Retro.snake Retro.with_snake]. rewrite pop_length, S1. cbn [List.length]. lia.
Qed.

Lemma retro_run_length (g g' : Retro.SnakeGame) (n : nat) :
  retro_run g n g' ->
  List.length (Retro.snake g') = (List.length (Retro.snake g) + n)%nat.
Proof.
  induction 1 as [g | fuel g g1 n g' U C _ IH | g g1 n g' S _ IH].
  - lia.
  - rewrite IH, (update_game_length _ _ _ U C). lia.
  - rewrite IH, S. reflexivity.
Qed.

(** ** PiSnake and UltraSnake: a consumption sets a flag, the next move
    keeps the tail *)

Lemma Pi_set_direction_growing (d : Direction) (s : PiSnake.Snake) :
  PiSnake.growing (PiSnake.set_direction d s) = PiSnake.growing s.
Proof.
  unfold PiSnake.set_direction.
  destruct (1 <? _); [destruct (negb _)|]; reflexivity.
Qed.

Lemma Pi_move_growing (s s' : PiSnake.Snake) :
  PiSnake.move s = Ok s' -> PiSnake.growing s' = false.
Proof.
  unfold PiSnake.move. destruct (PiSnake.segments s) as [|[hx hy] rest]; [discriminate|].
  destruct (value _). destruct (PiSnake.growing s) eqn:G; cbn [negb];
    intros E; apply Ok_inj in E; subst s'; cbn [PiSnake.growing]; reflexivity.
Qed.

Lemma kept_length (flag : bool) (body : list Pos) :
  body <> [] -> S (List.length (kept flag body)) = (List.length body + pending flag)%nat.
Proof.
  intros H. destruct flag; cbn [kept pending].
  - lia.
  - rewrite (removelast_length body H). lia.
Qed.

Lemma Pi_run_length (ops : list SnakeOp) (s : PiSnake.Snake) :
  PiSnake.segments s <> [] ->
  spaced (PiSnake.growing s) ops = true ->
  exists s',
    Pi_run ops s = Ok s' /\
    (List.length (PiSnake.segments s') + pending (PiSnake.growing s') =
     List.length (PiSnake.segments s) + pending (PiSnake.growing s) + count_grow ops)%nat.
Proof.
  revert s. induction ops as [|op ops IH]; intros s N Sp.
  - exists s. split; [reflexivity | cbn [count_grow]; lia].
  - destruct op as [d | | ]; cbn [Pi_run count_grow spaced] in *.
    + destruct (IH (PiSnake.set_direction d s)) as [s' [R L]].
      * rewrite Pi_set_direction_segments. exact N.
      * rewrite Pi_set_direction_growing. exact Sp.
      * exists s'. split; [exact R|].
        rewrite L, Pi_set_direction_segments, Pi_set_direction_growing. reflexivity.
    + apply andb_true_iff in Sp. destruct Sp as [G Sp]. apply negb_true_iff in G.
      destruct (IH (PiSnake.grow s) N Sp) as [s' [R L]].
      exists s'. split; [exact R|].
      rewrite L. cbn [PiSnake.grow PiSnake.segments PiSnake.growing]. rewrite G.
      cbn [pending]. lia.
    + destruct (Pi_move_returns s N) as [s1 M]. rewrite M. cbn [bind].
      pose proof (Pi_move_growing _ _ M) as G1.
      destruct (Pi_move_segments _ _ M) as [h [rest [E E1]]].
      destruct (IH s1) as [s' [R L]].
      * rewrite E1. discriminate.
      * rewrite G1. exact Sp.
      * exists s'. split; [exact R|].
        rewrite L, G1, E1. cbn [List.length pending].
        rewrite (kept_length (PiSnake.growing s) (PiSnake.segments s) N). lia.
Qed.

Lemma Ultra_set_direction_growing (d : Direction) (s : UltraSnake.Snake) :
  UltraSnake.growing (UltraSnake.set_direction d s) = UltraSnake.growing s.
Proof.
  unfold UltraSnake.set_direction.
  destruct (1 <? _); [destruct (negb _)|]; reflexivity.
Qed.

Lemma Ultra_move_growing (s s' : UltraSnake.Snake) :
  UltraSnake.move s = Ok s' -> UltraSnake.growing s' = false.
Proof.
  unfold UltraSnake.move. destruct (map UltraSnake.store_prev _) as [|h body]; [discriminate|].
  destruct (value _). destruct (UltraSnake.growing s) eqn:G;
    intros E; apply Ok_inj in E; subst s'; cbn [UltraSnake.growing]; reflexivity.
Qed.

Lemma Ultra_cells_length (s : UltraSnake.Snake) :
  List.length (UltraSnake.cells s) = List.length (UltraSnake.segments s).
Proof. apply length_map. Qed.

Lemma Ultra_run_length (ops : list SnakeOp) (s : UltraSnake.Snake) :
  UltraSnake.segments s <> [] ->
  spaced (UltraSnake.growing s) ops = true ->
  exists s',
    Ultra_run ops s = Ok s' /\
    (List.length (UltraSnake.segments s') + pending (UltraSnake.growing s') =
     List.length (UltraSnake.segments s) + pending (UltraSnake.growing s) + count_grow ops)%nat.
Proof.
  revert s. induction ops as [|op ops IH]; intros s N Sp.
  - exists s. split; [reflexivity | cbn [count_grow]; lia].
  - destruct op as [d | | ]; cbn [Ultra_run count_grow spaced] in *.
    + destruct (IH (UltraSnake.set_direction d s)) as [s' [R L]].
      * rewrite Ultra_set_direction_segments. exact N.
      * rewrite Ultra_set_direction_growing. exact Sp.
      * exists s'. split; [exact R|].
        rewrite L, Ultra_set_direction_segments, Ultra_set_direction_growing. reflexivity.
    + apply andb_true_iff in Sp. destruct Sp as [G Sp]. apply negb_true_iff in G.
      destruct (IH (UltraSnake.grow s) N Sp) as [s' [R L]].
      exists s'. split; [exact R|].
      rewrite L. cbn [UltraSnake.grow UltraSnake.segments UltraSnake.growing]. rewrite G.
      cbn [pending]. lia.
    + destruct (Ultra_move_returns s N) as [s1 M]. rewrite M. cbn [bind].
      pose proof (Ultra_move_growing _ _ M) as G1.
      destruct (Ultra_move_cells _ _ M) as [h [rest [E E1]]].
      destruct (IH s1) as [s' [R L]].
      * exact (Ultra_move_nonempty _ _ M).
      * rewrite G1. exact Sp.
      * exists s'. split; [exact R|].
        rewrite L, G1. rewrite <- !Ultra_cells_length, E1. cbn [List.length pending].
        assert (C : UltraSnake.cells s <> []) by (rewrite E; discriminate).
        rewrite (kept_length (UltraSnake.growing s) (UltraSnake.cells s) C). lia.
Qed.

(** C5, as the code has it.  In Retro the body after a run is longer by the
    number of ticks that ate, when no tick collected a power-up.  In PiSnake
    and UltraSnake a consumption sets the flag [growing] and the next move
    keeps the tail: counting a set flag as one segment to come, the body
    after a run is longer by the number of consumptions, when none of them
    happens while the flag is still set. *)
Theorem growth_by_variant :
  (forall g n g',
     retro_run g n g' ->
     List.length (Retro.snake g') = (List.length (Retro.snake g) + n)%nat) /\
  (forall ops s,
     PiSnake.segments s <> [] ->
     spaced (PiSnake.growing s) ops = true ->
     exists s',
       Pi_run ops s = Ok s' /\
       (List.length (PiSnake.segments s') + pending (PiSnake.growing s') =
        List.length (PiSnake.segments s) + pending (PiSnake.growing s) + count_grow ops)%nat) /\
  (forall ops s,
     UltraSnake.segments s <> [] ->
     spaced (UltraSnake.growing s) ops = true ->
     exists s',
       Ultra_run ops s = Ok s' /\
       (List.length (UltraSnake.segments s') + pending (UltraSnake.growing s') =
        List.length (UltraSnake.segments s) + pending (UltraSnake.growing s)
        + count_grow ops)%nat).
Proof.
  repeat apply conj.
  - intros g n g'. apply retro_run_length.
  - exact Pi_run_length.
  - exact Ultra_run_length.
Qed.

Lemma growth_by_variant_witness :
  (retro_run retro_food_ahead 1 retro_after_meal /\
   List.length (Retro.snake retro_after_meal) =
   (List.length (Retro.snake retro_food_ahead) + 1)%nat) /\
  (exists s',
     Pi_run two_meals (PiSnake.Snake_init 16 12) = Ok s' /\
     (List.length (PiSnake.segments s') + pending (PiSnake.growing s') =
      List.length (PiSnake.segments (PiSnake.Snake_init 16 12))
      + pending (PiSnake.growing (PiSnake.Snake_init 16 12)) + count_grow two_meals)%nat) /\
  (exists s',
     Ultra_run two_meals (UltraSnake.Snake_init 30 20) = Ok s' /\
     (List.length (UltraSnake.segments s') + pending (UltraSnake.growing s') =
      List.length (UltraSnake.segments (UltraSnake.Snake_init 30 20))
      + pending (UltraSnake.growing (UltraSnake.Snake_init 30 20))
      + count_grow two_meals)%nat).
Proof.
  assert (R : retro_run retro_food_ahead 1 retro_after_meal).
  { change 1%nat with ((if eats 1 retro_food_ahead then 1 else 0) + 0)%nat.
    apply (run_tick 1 retro_food_ahead retro_after_meal 0 retro_after_meal).
    - vm_compute. reflexivity.
    - vm_compute. reflexivity.
    - apply run_end. }
  repeat apply conj.
  - exact R.
  - exact (proj1 growth_by_variant retro_food_ahead 1%nat retro_after_meal R).
  - apply (proj1 (proj2 growth_by_variant) two_meals (PiSnake.Snake_init 16 12)).
    + discriminate.
    + reflexivity.
  - apply (proj2 (proj2 growth_by_variant) two_meals (UltraSnake.Snake_init 30 20)).
    + discriminate.
    + reflexivity.
Defined.

(** C5 fails in PiSnake.  After the first consumption (one call of [grow],
    as [Game.update] makes it when the head is on the apple) the body still
    has its one segment: the segment comes with the next move.  And two
    consumptions before a move (the apple stays under the head when
    [spawn_apple] gives up) add one segment, not two. *)
Lemma pi_growth_is_deferred :
  (exists s',
     Pi_run [Grow] (PiSnake.Snake_init 16 12) = Ok s' /\
     count_grow [Grow] = 1%nat /\
     List.length (PiSnake.segments (PiSnake.Snake_init 16 12)) = 1%nat /\
     List.length (PiSnake.segments s') = 1%nat) /\
  (exists s',
     Pi_run [Grow; Grow; Move; Move] (PiSnake.Snake_init 16 12) = Ok s' /\
     count_grow [Grow; Grow; Move; Move] = 2%nat /\
     PiSnake.growing s' = false /\
     List.length (PiSnake.segments s') = 2%nat).
Proof.
  split; eexists; repeat split.
Qed.

(** In PiSnake a consumption followed by its move does add the segment. *)
Example pi_growth_after_the_move :
  exists s',
    Pi_run [Grow; Move] (PiSnake.Snake_init 16 12) = Ok s' /\
    PiSnake.segments s' = [(17, 12); (16, 12)].
Proof. eexists. split; reflexivity. Qed.

(** * Particles *)

(** ** PiSnake and UltraSnake *)

(** On floats, [0 < x] excludes [x <= 0]. *)
Lemma float_positive_not_nonpositive (x : float) :
  (0 <? x)%float = true -> (x <=? 0)%float = false.
Proof.
  rewrite FloatAxioms.ltb_spec, FloatAxioms.leb_spec. unfold SpecFloat.SFltb, SpecFloat.SFleb.
  change (Prim2SF 0) with (SpecFloat.S754_zero false).
  destruct (Prim2SF x) as [s | s | | s m e]; cbn; try discriminate.
  - destruct s; cbn; [discriminate | reflexivity].
  - destruct s; cbn; [discriminate | reflexivity].
Qed.

Lemma Pi_survivors (dt : float) (particles : list PiSnake.Particle) (q : PiSnake.Particle) :
  In q (PiSnake.ParticleSystem_update dt particles) ->
  exists p,
    In p particles /\ (PiSnake.p_lifetime p <=? 0)%float = false /\
    q = PiSnake.Particle_update dt p.
Proof.
  unfold PiSnake.ParticleSystem_update. intros H.
  apply in_map_iff in H. destruct H as [p [E H]].
  apply filter_In in H. destruct H as [H A].
  exists p. repeat split; [exact H | | symmetry; exact E].
  apply float_positive_not_nonpositive, A.
Qed.

Lemma Ultra_survivors (dt : float) (particles : list UltraSnake.Particle)
  (q : UltraSnake.Particle) :
  In q (UltraSnake.ParticleSystem_update dt particles) ->
  exists p,
    In p particles /\ (UltraSnake.p_lifetime p <=? 0)%float = false /\
    q = UltraSnake.Particle_update dt p.
Proof.
  unfold UltraSnake.ParticleSystem_update. intros H.
  apply in_map_iff in H. destruct H as [p [E H]].
  apply filter_In in H. destruct H as [H A].
  exists p. repeat split; [exact H | | symmetry; exact E].
  apply float_positive_not_nonpositive, A.
Qed.

(** ** Retro: the loop over a copy of the list *)

Lemma update_particles_fold (todo l : list Retro.Particle) (g : Retro.SnakeGame) :
  fold_left
    (fun g particle =>
       let particle := Retro.Particle_update particle in
       let g := Retro.with_particles (Retro.store_particle particle (Retro.particles g)) g in
       if Retro.p_lifetime particle <=? 0
       then Retro.with_particles (Retro.remove_particle (Retro.pid particle) (Retro.particles g)) g
       else g)
    todo (Retro.with_particles l g) =
  Retro.with_particles (fold_left particle_step todo l) g.
Proof.
  revert l. induction todo as [|p todo IH]; intros l; [reflexivity|].
  cbn [fold_left]. unfold particle_step at 2. cbn zeta.
  cbn [Retro.particles Retro.with_particles].
  destruct (Retro.p_lifetime (Retro.Particle_update p) <=? 0); apply IH.
Qed.

Lemma update_particles_list (g : Retro.SnakeGame) :
  Retro.update_particles g =
  Retro.with_particles (update_particle_list (Retro.particles g)) g.
Proof.
  unfold Retro.update_particles, update_particle_list.
  rewrite <- update_particles_fold. destruct g; reflexivity.
Qed.

Lemma store_particle_others (p : Retro.Particle) (l : list Retro.Particle) :
  ~ In (Retro.pid p) (map Retro.pid l) -> Retro.store_particle p l = l.
Proof.
  induction l as [|q l IH]; intros N; [reflexivity|].
  cbn [Retro.store_particle map] in *.
  destruct (Nat.eqb (Retro.pid q) (Retro.pid p)) eqn:E.
  - apply Nat.eqb_eq in E. exfalso. apply N. left. exact E.
  - f_equal. apply IH. intros H. apply N. right. exact H.
Qed.

Lemma store_particle_app (p : Retro.Particle) (l1 l2 : list Retro.Particle) :
  Retro.store_particle p (l1 ++ l2) = Retro.store_particle p l1 ++ Retro.store_particle p l2.
Proof. apply map_app. Qed.

Lemma remove_particle_app (i : nat) (l1 l2 : list Retro.Particle) :
  ~ In i (map Retro.pid l1) ->
  Retro.remove_particle i (l1 ++ l2) = l1 ++ Retro.remove_particle i l2.
Proof.
  induction l1 as [|q l1 IH]; intros N; [reflexivity|].
  cbn [app Retro.remove_particle map] in *.
  destruct (Nat.eqb (Retro.pid q) i) eqn:E.
  - apply Nat.eqb_eq in E. exfalso. apply N. left. exact E.
  - f_equal. apply IH. intros H. apply N. right. exact H.
Qed.

Lemma update_particle_list_fold (done todo : list Retro.Particle) :
  NoDup (map Retro.pid (done ++ todo)) ->
  fold_left particle_step todo (done ++ todo) =
  done ++ filter outlives (map Retro.Particle_update todo).
Proof.
  revert done. induction todo as [|p todo IH]; intros done N.
  - cbn. rewrite !app_nil_r. reflexivity.
  - rewrite map_app in N. cbn [map] in N.
    pose proof (NoDup_remove_2 _ _ _ N) as Out.
    pose proof (NoDup_remove_1 _ _ _ N) as N'.
    assert (OutD : ~ In (Retro.pid p) (map Retro.pid done))
      by (intros H; apply Out, in_or_app; left; exact H).
    assert (OutT : ~ In (Retro.pid p) (map Retro.pid todo))
      by (intros H; apply Out, in_or_app; right; exact H).
    cbn [fold_left map filter]. unfold particle_step at 2. cbn zeta.
    rewrite store_particle_app.
    change (Retro.store_particle (Retro.Particle_update p) (p :: todo))
      with ((if Nat.eqb (Retro.pid p) (Retro.pid p) then Retro.Particle_update p else p)
            :: Retro.store_particle (Retro.Particle_update p) todo).
    rewrite Nat.eqb_refl.
    rewrite (store_particle_others (Retro.Particle_update p) done) by exact OutD.
    rewrite (store_particle_others (Retro.Particle_update p) todo) by exact OutT.
    unfold outlives at 1.
    destruct (Retro.p_lifetime (Retro.Particle_update p) <=? 0); cbn [negb].
    + rewrite remove_particle_app by exact OutD.
      cbn [Retro.remove_particle]. change (Retro.pid (Retro.Particle_update p)) with (Retro.pid p).
      rewrite Nat.eqb_refl. apply IH. rewrite map_app. exact N'.
    + change (done ++ Retro.Particle_update p :: todo)
        with (done ++ [Retro.Particle_update p] ++ todo).
      rewrite app_assoc, IH.
      * rewrite <- app_assoc. reflexivity.
      * rewrite <- app_assoc, map_app. cbn [map app]. exact N.
Qed.

(** With every object once in the list, the loop keeps the updated
    particles whose lifetime is still positive, in their order. *)
Lemma update_particle_list_filter (l : list Retro.Particle) :
  NoDup (map Retro.pid l) ->
  update_particle_list l = filter outlives (map Retro.Particle_update l).
Proof. intros N. apply (update_particle_list_fold [] l N). Qed.

Lemma NoDup_map_inj {A B : Type} (f : A -> B) (l : list A) (a b : A) :
  NoDup (map f l) -> In a l -> In b l -> f a = f b -> a = b.
Proof.
  induction l as [|c l IH]; intros N Ha Hb E; [contradiction|].
  cbn [map] in N. inversion N as [|? ? NI N']; subst.
  destruct Ha as [-> | Ha], Hb as [-> | Hb].
  - reflexivity.
  - exfalso. apply NI. rewrite E. apply in_map, Hb.
  - exfalso. apply NI. rewrite <- E. apply in_map, Ha.
  - apply IH; assumption.
Qed.

Lemma Retro_expired_removed (g : Retro.SnakeGame) (p : Retro.Particle) :
  NoDup (map Retro.pid (Retro.particles g)) ->
  In p (Retro.particles g) ->
  Retro.p_lifetime p <= 0 ->
  ~ In (Retro.pid p) (map Retro.pid (Retro.particles (Retro.update_particles g))).
Proof.
  intros N H L. rewrite update_particles_list. cbn [Retro.particles Retro.with_particles].
  rewrite (update_particle_list_filter _ N). intros C.
  apply in_map_iff in C. destruct C as [q' [E C]].
  apply filter_In in C. destruct C as [C O].
  apply in_map_iff in C. destruct C as [q [<- C]].
  change (Retro.pid (Retro.Particle_update q)) with (Retro.pid q) in E.
  assert (q = p) by (apply (NoDup_map_inj Retro.pid (Retro.particles g)); assumption).
  subst q. unfold outlives in O. apply negb_true_iff, Z.leb_gt in O.
  cbn [Retro.Particle_update Retro.p_lifetime] in O. lia.
Qed.

(** ** Retro: each particle is an object of its own *)

Lemma fresh_particles_store (g g' : Retro.SnakeGame) :
  particle_store g' = particle_store g -> fresh_particles g -> fresh_particles g'.
Proof.
  unfold particle_store, fresh_particles. intros [= P N]. rewrite P, N. auto.
Qed.

Ltac same_store := refine (fresh_particles_store _ _ _ _); [|eassumption].

Lemma emit_fresh x y c r l (g : Retro.SnakeGame) :
  fresh_particles g -> fresh_particles (Retro.emit x y c r l g).
Proof.
  unfold Retro.emit, Retro.new_Particle.
  pose proof (rand_uniform_keeps particle_store (fun _ _ => eq_refl) (- r) r g) as K1.
  destruct (Retro.rand_uniform (- r) r g) as [vx g1].
  pose proof (rand_uniform_keeps particle_store (fun _ _ => eq_refl) (- r) r g1) as K2.
  destruct (Retro.rand_uniform (- r) r g1) as [vy g2].
  pose proof (rand_int_keeps particle_store (fun _ _ => eq_refl) 2 5 g2) as K3.
  destruct (Retro.rand_int 2 5 g2) as [size g3].
  cbn [snd] in *.
  assert (K : particle_store g3 = particle_store g) by congruence.
  unfold particle_store in K. injection K as P N.
  unfold fresh_particles.
  cbn [Retro.particles Retro.next_pid Retro.with_particles Retro.with_next_pid].
  rewrite P, N, map_app. cbn [map Retro.pid]. intros [D B]. split.
  - apply NoDup_app.
    + exact D.
    + constructor; [intros [] | constructor].
    + intros i Hi [<- | []]. apply B in Hi. lia.
  - intros i Hi. apply in_app_or in Hi. destruct Hi as [Hi | [<- | []]].
    + apply B in Hi. lia.
    + lia.
Qed.

Lemma for_range_fresh (f : Retro.SnakeGame -> Retro.SnakeGame) :
  (forall g, fresh_particles g -> fresh_particles (f g)) ->
  forall n g, fresh_particles g -> fresh_particles (for_range n f g).
Proof.
  intros F n. induction n as [|n IH]; intros g H; [exact H|].
  cbn [for_range]. apply IH, F, H.
Qed.

Lemma create_random_particle_fresh pos (g : Retro.SnakeGame) :
  fresh_particles g -> fresh_particles (Retro.create_random_particle pos g).
Proof.
  intros H. unfold Retro.create_random_particle.
  match goal with |- context [Retro.rand_choice ?s ?d g] =>
    pose proof (rand_choice_keeps particle_store (fun _ _ => eq_refl) s d g) as K;
    destruct (Retro.rand_choice s d g) as [c g1] end.
  cbn [snd] in K. apply emit_fresh. exact (fresh_particles_store _ _ K H).
Qed.

Lemma level_up_fresh (g : Retro.SnakeGame) :
  fresh_particles g -> fresh_particles (Retro.level_up g).
Proof.
  intros H. unfold Retro.level_up. apply for_range_fresh.
  - intros; apply create_random_particle_fresh; assumption.
  - same_store.
    change (particle_store (Retro.with_screen_shake 10 ?x)) with (particle_store x).
    rewrite (generate_obstacles_keeps particle_store) by (intros; reflexivity).
    reflexivity.
Qed.

Lemma game_over_fresh (g g' : Retro.SnakeGame) :
  Retro.game_over g = Ok g' -> fresh_particles g -> fresh_particles g'.
Proof.
  unfold Retro.game_over. intros E H.
  destruct (if Retro.high_score (Retro.with_state Retro.GAME_OVER g)
               <? Retro.score (Retro.with_state Retro.GAME_OVER g)
            then Retro.save_high_score _ else Ok _) as [g1| |] eqn:S; try discriminate.
  assert (H1 : fresh_particles g1).
  { same_store.
    destruct (_ <? _).
    - apply (save_high_score_keeps particle_store) in S; [|intros; reflexivity]. exact S.
    - apply Ok_inj in S. subst g1. reflexivity. }
  cbn [bind] in E. destruct (Retro.snake g1) as [|[hx hy] rest]; [discriminate|].
  apply Ok_inj in E. subst g'. apply for_range_fresh; [|exact H1].
  intros; apply emit_fresh; assumption.
Qed.

Lemma eat_or_pop_fresh (fuel : nat) (head : Pos) (g g' : Retro.SnakeGame) :
  Retro.eat_or_pop fuel head g = Ok g' -> fresh_particles g -> fresh_particles g'.
Proof.
  intros E H. destruct (pos_eqb head (Retro.food g)) eqn:F.
  - revert E. unfold Retro.eat_or_pop. rewrite F.
    destruct (Retro.spawn_food fuel _) as [[f g1]| |] eqn:S; try discriminate.
    apply (spawn_food_keeps particle_store) in S; [|intros; reflexivity].
    change (particle_store (Retro.with_score ?v ?x)) with (particle_store x) in S.
    cbn [bind].
    assert (H2 : fresh_particles (Retro.create_food_particles head (Retro.with_food f g1))).
    { unfold Retro.create_food_particles. apply for_range_fresh.
      - intros; apply emit_fresh; assumption.
      - same_store. exact S. }
    match goal with |- (if ?c then _ else _) = _ -> _ => destruct c end;
      intros E; apply Ok_inj in E; subst g'; [apply level_up_fresh|]; exact H2.
  - rewrite (eat_or_pop_pops fuel head g F) in E. apply Ok_inj in E. subst g'.
    same_store. reflexivity.
Qed.

Lemma collect_power_ups_fresh (head : Pos) (g : Retro.SnakeGame) :
  fresh_particles g -> fresh_particles (Retro.collect_power_ups head g).
Proof.
  rewrite collect_power_ups_fold. generalize (Retro.power_ups g). intros l. revert g.
  induction l as [|pu l IH]; intros g H; [exact H|].
  cbn [fold_left]. apply IH. unfold collect_one.
  destruct (pos_eqb _ _); [|exact H].
  unfold Retro.create_power_up_particles. apply for_range_fresh.
  - intros; apply emit_fresh; assumption.
  - same_store.
    change (particle_store (Retro.with_power_ups ?v ?x)) with (particle_store x).
    apply (apply_power_up_keeps particle_store); intros; reflexivity.
Qed.

Lemma update_game_fresh (fuel : nat) (g g' : Retro.SnakeGame) :
  Retro.update_game fuel g = Ok g' -> fresh_particles g -> fresh_particles g'.
Proof.
  unfold Retro.update_game. intros U H.
  destruct (negb _); [apply Ok_inj in U; subst g'; exact H|].
  destruct (Retro.housekeeping fuel g) as [g1| |] eqn:HK; try discriminate.
  assert (H1 : fresh_particles g1).
  { same_store. revert HK. frame_by (housekeeping_keeps particle_store). }
  cbn [bind] in U.
  destruct (Retro.new_head g1) as [head| |]; try discriminate. cbn [bind] in U.
  destruct (_ && _).
  - exact (game_over_fresh _ _ U H1).
  - destruct (Retro.eat_or_pop fuel head _) as [g2| |] eqn:EP; try discriminate.
    cbn [bind] in U. apply Ok_inj in U. subst g'.
    apply collect_power_ups_fresh. apply (eat_or_pop_fresh _ _ _ _ EP).
    same_store. reflexivity.
Qed.

Lemma reset_game_store (fuel : nat) (g g' : Retro.SnakeGame) :
  Retro.reset_game fuel g = Ok g' -> particle_store g' = particle_store g.
Proof.
  unfold Retro.reset_game.
  destruct (Retro.spawn_food fuel _) as [[f g1]| |] eqn:S; try discriminate.
  apply (spawn_food_keeps particle_store) in S; [|intros; reflexivity].
  cbn [bind].
  destruct (load_high_score_total
              (Retro.with_score 0 (Retro.with_food f g1))) as [hs ->].
  cbn [bind]. intros E. apply Ok_inj in E. subst g'.
  rewrite (generate_obstacles_keeps particle_store) by (intros; reflexivity).
  exact S.
Qed.

Lemma filter_map_pid (l : list Retro.Particle) :
  let l' := filter outlives (map Retro.Particle_update l) in
  (forall i, In i (map Retro.pid l') -> In i (map Retro.pid l)) /\
  (NoDup (map Retro.pid l) -> NoDup (map Retro.pid l')).
Proof.
  induction l as [|p l [I D]]; cbn zeta in *.
  - split; auto.
  - cbn [map filter]. destruct (outlives (Retro.Particle_update p)); cbn [map].
    + change (Retro.pid (Retro.Particle_update p)) with (Retro.pid p). split.
      * intros i [<- | Hi]; [left; reflexivity | right; apply I, Hi].
      * intros N. inversion N as [|? ? NI N']; subst. constructor; [|apply D, N'].
        intros C. apply NI, I, C.

    + split.
      * intros i Hi. right. apply I, Hi.
      * intros N. inversion N; subst. auto.
Qed.

Lemma update_particles_fresh (g : Retro.SnakeGame) :
  fresh_particles g -> fresh_particles (Retro.update_particles g).
Proof.
  intros [N B]. rewrite update_particles_list. unfold fresh_particles.
  cbn [Retro.particles Retro.next_pid Retro.with_particles].
  rewrite (update_particle_list_filter _ N).
  destruct (filter_map_pid (Retro.particles g)) as [I D]. split; [apply D, N|].
  intros i Hi. apply B, I, Hi.
Qed.

(** In every state of a game each particle is an object of its own. *)
Lemma Retro_reachable_fresh (g : Retro.SnakeGame) :
  Retro_reachable g -> fresh_particles g.
Proof.
  induction 1 as [fuel g g' R | running g event _ IH | keys fuel g g' _ IH HI
                 | fuel g g' _ IH U | g _ IH | g _ IH].
  - unfold SnakeGame_init in R.
    destruct (Retro.reset_game fuel g) as [g1| |]; try discriminate.
    cbn [bind] in R. apply Ok_inj in R. subst g'. split.
    + constructor.
    + intros i [].
  - same_store. destruct event; cbn [Retro.handle_event snd]; try reflexivity.
    destruct (Retro.state g); reflexivity.
  - revert HI. unfold Retro.handle_input. destruct (Retro.state g).
    + destruct (Retro.K_SPACE keys); [|intros [= <-]; exact IH].
      destruct (Retro.reset_game fuel g) as [g1| |] eqn:R; try discriminate.
      cbn [bind]. intros E. apply Ok_inj in E. subst g'. same_store.
      exact (reset_game_store _ _ _ R).
    + repeat match goal with |- context [if ?b then _ else _] => destruct b end;
        intros E; apply Ok_inj in E; subst g'; exact IH.
    + destruct (Retro.K_SPACE keys); intros E; apply Ok_inj in E; subst g'; exact IH.
    + destruct (Retro.K_SPACE keys); intros E; apply Ok_inj in E; subst g'; exact IH.
  - exact (update_game_fresh _ _ _ U IH).
  - apply update_particles_fresh, IH.
  - same_store. apply (apply_screen_shake_keeps particle_store); intros; reflexivity.
Qed.

Lemma ticks_reachable (n : nat) (g g' : Retro.SnakeGame) :
  Retro_reachable g -> ticks n g = Ok g' -> Retro_reachable g'.
Proof.
  revert g. induction n as [|n IH]; intros g R T; cbn [ticks] in T.
  - apply Ok_inj in T. subst g'. exact R.
  - destruct (Retro.update_game 3 g) as [g1| |] eqn:U; try discriminate.
    cbn [bind] in T. exact (IH g1 (reach_update _ _ _ R U) T).
Qed.

Lemma play_reachable (n : nat) (g g' : Retro.SnakeGame) :
  play n g = Ok g' -> Retro_reachable g'.
Proof.
  unfold play. intros H.
  destruct (SnakeGame_init 3 g) as [g0| |] eqn:I; try discriminate. cbn [bind] in H.
  destruct (Retro.handle_input space_bar 3 g0) as [g1| |] eqn:K; try discriminate.
  cbn [bind] in H.
  exact (ticks_reachable _ _ _ (reach_input _ _ _ _ (reach_init _ _ _ I) K) H).
Qed.

Lemma Retro_survivors (g : Retro.SnakeGame) (q : Retro.Particle) :
  NoDup (map Retro.pid (Retro.particles g)) ->
  In q (Retro.particles (Retro.update_particles g)) ->
  exists p, In p (Retro.particles g) /\ 1 < Retro.p_lifetime p /\ q = Retro.Particle_update p.
Proof.
  intros N. rewrite update_particles_list. cbn [Retro.particles Retro.with_particles].
  rewrite (update_particle_list_filter _ N). intros C.
  apply filter_In in C. destruct C as [C O].
  apply in_map_iff in C. destruct C as [p [<- C]].
  exists p. repeat split; [exact C|].
  unfold outlives in O. apply negb_true_iff, Z.leb_gt in O.
  cbn [Retro.Particle_update Retro.p_lifetime] in O. lia.
Qed.

(** C8: after the update of the particles, every particle of the list had a
    lifetime that was not [<= 0] before the call.  In PiSnake and UltraSnake
    the particles of the new list are the updates of such particles.  In
    Retro each particle is an object of the list, and the list holds an
    object once in every state of a game: no object whose lifetime was
    [<= 0] is in the new list, whose particles are the updates of the ones
    that had more than one tick left. *)
Theorem expired_particles_are_removed :
  (forall dt particles q,
     In q (PiSnake.ParticleSystem_update dt particles) ->
     exists p,
       In p particles /\ (PiSnake.p_lifetime p <=? 0)%float = false /\
       q = PiSnake.Particle_update dt p) /\
  (forall dt particles q,
     In q (UltraSnake.ParticleSystem_update dt particles) ->
     exists p,
       In p particles /\ (UltraSnake.p_lifetime p <=? 0)%float = false /\
       q = UltraSnake.Particle_update dt p) /\
  (forall g, Retro_reachable g -> NoDup (map Retro.pid (Retro.particles g))) /\
  (forall g p,
     NoDup (map Retro.pid (Retro.particles g)) ->
     In p (Retro.particles g) ->
     Retro.p_lifetime p <= 0 ->
     ~ In (Retro.pid p) (map Retro.pid (Retro.particles (Retro.update_particles g)))) /\
  (forall g q,
     NoDup (map Retro.pid (Retro.particles g)) ->
     In q (Retro.particles (Retro.update_particles g)) ->
     exists p,
       In p (Retro.particles g) /\ 1 < Retro.p_lifetime p /\ q = Retro.Particle_update p).
Proof.
  repeat apply conj.
  - exact Pi_survivors.
  - exact Ultra_survivors.
  - intros g R. exact (proj1 (Retro_reachable_fresh g R)).
  - exact Retro_expired_removed.
  - exact Retro_survivors.
Qed.

Lemma expired_particles_are_removed_witness :
  (PiSnake.ParticleSystem_update 0.05 [pi_spark 0; pi_spark 0.5] =
     [PiSnake.Particle_update 0.05 (pi_spark 0.5)] /\
   exists p,
     In p [pi_spark 0; pi_spark 0.5] /\ (PiSnake.p_lifetime p <=? 0)%float = false /\
     PiSnake.Particle_update 0.05 (pi_spark 0.5) = PiSnake.Particle_update 0.05 p) /\
  (UltraSnake.ParticleSystem_update 0.05 [ultra_spark 0; ultra_spark 0.5] =
     [UltraSnake.Particle_update 0.05 (ultra_spark 0.5)] /\
   exists p,
     In p [ultra_spark 0; ultra_spark 0.5] /\ (UltraSnake.p_lifetime p <=? 0)%float = false /\
     UltraSnake.Particle_update 0.05 (ultra_spark 0.5) = UltraSnake.Particle_update 0.05 p) /\
  (exists g,
     retro_to_the_wall = Ok g /\ Retro.state g = Retro.GAME_OVER /\
     List.length (Retro.particles g) = 30%nat /\
     NoDup (map Retro.pid (Retro.particles g))) /\
  ~ In 0%nat (map Retro.pid (Retro.particles (Retro.update_particles retro_two_sparks))) /\
  (Retro.particles (Retro.update_particles retro_two_sparks) =
     [Retro.Particle_update (retro_spark 1 20)] /\
   exists p,
     In p (Retro.particles retro_two_sparks) /\ 1 < Retro.p_lifetime p /\
     Retro.Particle_update (retro_spark 1 20) = Retro.Particle_update p).
Proof.
  assert (N : NoDup (map Retro.pid (Retro.particles retro_two_sparks))).
  { cbn. repeat constructor; cbn; intuition discriminate. }
  repeat apply conj.
  - reflexivity.
  - apply (proj1 expired_particles_are_removed 0.05%float [pi_spark 0; pi_spark 0.5]).
    left. reflexivity.
  - reflexivity.
  - apply (proj1 (proj2 expired_particles_are_removed) 0.05%float
             [ultra_spark 0; ultra_spark 0.5]).
    left. reflexivity.
  - eexists. split; [vm_compute; reflexivity|]. split; [reflexivity|].
    split; [reflexivity|].
    apply (proj1 (proj2 (proj2 expired_particles_are_removed))).
    apply (play_reachable 20 (Retro.with_rng a_script retro_blank)). vm_compute. reflexivity.
  - apply (proj1 (proj2 (proj2 (proj2 expired_particles_are_removed)))
             retro_two_sparks (retro_spark 0 0)).
    + exact N.
    + left. reflexivity.
    + cbn. lia.
  - reflexivity.
  - apply (proj2 (proj2 (proj2 (proj2 expired_particles_are_removed))) retro_two_sparks).
    + exact N.
    + left. reflexivity.
Defined.

(** * The main loop of Retro outside of play *)

Lemma update_game_idle (fuel : nat) (g : Retro.SnakeGame) :
  Retro.state g <> Retro.PLAYING -> Retro.update_game fuel g = Ok g.
Proof.
  intros H. unfold Retro.update_game.
  destruct (Retro.state g); try reflexivity. congruence.
Qed.

Lemma handle_event_idle (acc : bool * Retro.SnakeGame) (event : Retro.Event) :
  Retro.state (snd acc) <> Retro.PLAYING ->
  exists s,
    s <> Retro.PLAYING /\
    snd (Retro.handle_event acc event) = Retro.with_state s (snd acc).
Proof.
  destruct acc as [running g]. cbn [snd]. intros H.
  destruct event; cbn [Retro.handle_event snd].
  - exists (Retro.state g). split; [exact H | destruct g; reflexivity].
  - destruct (Retro.state g) eqn:S; try congruence.
    + exists Retro.MENU. split; [discriminate|]. rewrite <- S. destruct g; reflexivity.
    + exists Retro.MENU. split; [discriminate | reflexivity].
    + exists Retro.GAME_OVER. split; [discriminate|]. rewrite <- S. destruct g; reflexivity.
  - exists (Retro.state g). split; [exact H | destruct g; reflexivity].
Qed.

Lemma handle_events_idle (events : list Retro.Event) (running : bool) (g : Retro.SnakeGame) :
  Retro.state g <> Retro.PLAYING ->
  exists s,
    s <> Retro.PLAYING /\
    snd (fold_left Retro.handle_event events (running, g)) = Retro.with_state s g.
Proof.
  revert running g. induction events as [|event events IH]; intros running g H.
  - exists (Retro.state g). split; [exact H | destruct g; reflexivity].
  - cbn [fold_left].
    destruct (handle_event_idle (running, g) event H) as [s [Hs E]]. cbn [snd] in E.
    destruct (Retro.handle_event (running, g) event) as [running' g1]. cbn [snd] in E.
    subst g1. destruct (IH running' (Retro.with_state s g) Hs) as [s' [Hs' E']].
    exists s'. split; [exact Hs' | exact E'].
Qed.

Lemma handle_input_idle (keys : Retro.Keys) (fuel : nat) (g : Retro.SnakeGame) :
  Retro.state g <> Retro.PLAYING -> Retro.K_SPACE keys = false ->
  Retro.handle_input keys fuel g = Ok g.
Proof.
  intros H K. unfold Retro.handle_input. rewrite K.
  destruct (Retro.state g); try reflexivity. congruence.
Qed.

Lemma run_iteration_idle (events : list Retro.Event) (keys : Retro.Keys) (fuel : nat)
  (g : Retro.SnakeGame) :
  Retro.state g <> Retro.PLAYING -> Retro.K_SPACE keys = false ->
  exists running s,
    s <> Retro.PLAYING /\
    Retro.run_iteration events keys fuel g =
    Ok (running,
        Retro.apply_screen_shake (Retro.update_particles (Retro.with_state s g))).
Proof.
  intros H K. unfold Retro.run_iteration.
  destruct (handle_events_idle events true g H) as [s [Hs E]].
  destruct (fold_left Retro.handle_event events (true, g)) as [running g1]. cbn [snd] in E.
  subst g1. exists running, s. split; [exact Hs|].
  rewrite handle_input_idle by assumption. cbn [bind].
  rewrite update_game_idle by exact Hs. reflexivity.
Qed.

(** C6, as the code has it.  Outside of play [update_game] does nothing,
    and an iteration of the main loop that finds the game outside of play,
    the space bar not held, leaves it outside of play with the same body,
    food, power-ups, obstacles and score.  The particles are updated all the
    same: [update_particles] runs on every iteration. *)
Theorem idle_iteration_moves_particles_only :
  (forall fuel g, Retro.state g <> Retro.PLAYING -> Retro.update_game fuel g = Ok g) /\
  (forall events keys fuel g,
     Retro.state g <> Retro.PLAYING -> Retro.K_SPACE keys = false ->
     exists running g',
       Retro.run_iteration events keys fuel g = Ok (running, g') /\
       Retro.state g' <> Retro.PLAYING /\
       Retro.snake g' = Retro.snake g /\
       Retro.food g' = Retro.food g /\
       Retro.power_ups g' = Retro.power_ups g /\
       Retro.obstacles g' = Retro.obstacles g /\
       Retro.score g' = Retro.score g /\
       Retro.particles g' = Retro.particles (Retro.update_particles g)).
Proof.
  split; [exact update_game_idle|].
  intros events keys fuel g H K.
  destruct (run_iteration_idle events keys fuel g H K) as [running [s [Hs E]]].
  exists running. eexists. split; [exact E|].
  rewrite (apply_screen_shake_keeps Retro.state) by (intros; reflexivity).
  rewrite (apply_screen_shake_keeps Retro.snake) by (intros; reflexivity).
  rewrite (apply_screen_shake_keeps Retro.food) by (intros; reflexivity).
  rewrite (apply_screen_shake_keeps Retro.power_ups) by (intros; reflexivity).
  rewrite (apply_screen_shake_keeps Retro.obstacles) by (intros; reflexivity).
  rewrite (apply_screen_shake_keeps Retro.score) by (intros; reflexivity).
  rewrite (apply_screen_shake_keeps Retro.particles) by (intros; reflexivity).
  rewrite !update_particles_list. cbn [Retro.state Retro.snake Retro.food Retro.power_ups
    Retro.obstacles Retro.score Retro.particles Retro.with_particles Retro.with_state].
  repeat split. exact Hs.
Qed.

Lemma idle_iteration_moves_particles_only_witness :
  Retro.update_game 1 retro_last_spark = Ok retro_last_spark /\
  exists running g',
    Retro.run_iteration [] no_keys 0 retro_last_spark = Ok (running, g') /\
    Retro.state g' <> Retro.PLAYING /\
    Retro.snake g' = Retro.snake retro_last_spark /\
    Retro.food g' = Retro.food retro_last_spark /\
    Retro.power_ups g' = Retro.power_ups retro_last_spark /\
    Retro.obstacles g' = Retro.obstacles retro_last_spark /\
    Retro.score g' = Retro.score retro_last_spark /\
    Retro.particles g' = Retro.particles (Retro.update_particles retro_last_spark).
Proof.
  split.
  - apply (proj1 idle_iteration_moves_particles_only 1%nat retro_last_spark). discriminate.
  - apply (proj2 idle_iteration_moves_particles_only [] no_keys 0%nat retro_last_spark).
    + discriminate.
    + reflexivity.
Defined.

(** C6 fails on the particles: the game is over, no key is held, and the
    iteration of the main loop removes the particle. *)
Lemma particles_tick_when_game_is_over :
  Retro.state retro_last_spark = Retro.GAME_OVER /\
  List.length (Retro.particles retro_last_spark) = 1%nat /\
  exists g',
    Retro.run_iteration [] no_keys 0 retro_last_spark = Ok (true, g') /\
    Retro.particles g' = [].
Proof.
  repeat split. eexists. split; reflexivity.
Qed.

(** * The high score through a game *)



Lemma game_over_file (g : Retro.SnakeGame) :
  Retro.snake g <> [] ->
  exists g',
    Retro.game_over g = Ok g' /\
    Retro.state g' = Retro.GAME_OVER /\
    Retro.high_score g' = Z.max (Retro.high_score g) (Retro.score g) /\
    Retro.highscore_file g' =
      if Retro.high_score g <? Retro.score g
      then match Retro.disk g, py_str (Retro.score g) with
           | CannotOpen, _ => Retro.highscore_file g
           | Full room, Ok text => Some (substring 0 room text)
           | Writable, Ok text => Some text
           | _, _ => Some EmptyString
           end
      else Retro.highscore_file g.
Proof.
  intros N. destruct (game_over_returns g N) as [g' E]. exists g'. split; [exact E|].
  revert E. unfold Retro.game_over, Retro.save_high_score, Retro.write_high_score.
  cbn [Retro.high_score Retro.score Retro.with_state Retro.disk Retro.with_high_score
       Retro.with_highscore_file].
  destruct (Retro.high_score g <? Retro.score g) eqn:C.
  - apply Z.ltb_lt in C.
    destruct (Retro.disk g) as [|room|] eqn:D; try (destruct (py_str (Retro.score g)));
      cbn [fst bind Retro.snake Retro.with_state Retro.with_high_score
           Retro.with_highscore_file];
      (destruct (Retro.snake g); [congruence|]); intros E; apply Ok_inj in E; subst g';
      rewrite (for_range_keeps Retro.state), (for_range_keeps Retro.high_score),
        (for_range_keeps Retro.highscore_file)
        by (intros; apply emit_keeps; intros; reflexivity);
      cbn [Retro.state Retro.high_score Retro.highscore_file Retro.with_state Retro.disk
           Retro.with_high_score Retro.with_highscore_file written];
      repeat split; lia.
  - apply Z.ltb_ge in C. cbn [bind andb Retro.snake Retro.with_state].
    destruct (Retro.snake g); [congruence|]. intros E. apply Ok_inj in E. subst g'.
    rewrite (for_range_keeps Retro.state), (for_range_keeps Retro.high_score),
      (for_range_keeps Retro.highscore_file)
      by (intros; apply emit_keeps; intros; reflexivity).
    cbn [Retro.state Retro.high_score Retro.highscore_file Retro.with_state].
    repeat split; lia.
Qed.



Example load_high_score_examples :
  Retro.load_high_score (Retro.with_highscore_file None retro_blank) = Ok 0 /\
  Retro.load_high_score (Retro.with_highscore_file (Some EmptyString) retro_blank) = Ok 0 /\
  Retro.load_high_score (Retro.with_highscore_file (Some "12.5"%string) retro_blank) = Ok 0 /\
  Retro.load_high_score (Retro.with_highscore_file (Some "high score"%string) retro_blank) = Ok 0 /\
  Retro.load_high_score (Retro.with_highscore_file (Some ("120" ++ newline)%string) retro_blank)
    = Ok 120 /\
  Retro.load_high_score (Retro.with_highscore_file (Some " +1_20 "%string) retro_blank)
    = Ok 120.
Proof. repeat split. Qed.

(** Bytes that are not ASCII: [12] followed by a no-break space, the
    Arabic-Indic digits one and two, and a byte that is not UTF-8. *)
Example load_high_score_bytes :
  Retro.load_high_score (Retro.with_highscore_file (Some twelve_and_space) retro_blank)
    = Ok 12 /\
  Retro.load_high_score (Retro.with_highscore_file (Some arabic_twelve) retro_blank) = Ok 12 /\
  Retro.load_high_score (Retro.with_highscore_file (Some not_utf8) retro_blank) = Ok 0.
Proof. repeat split. Qed.

(** A number of more digits than [int] takes is read as 0. *)
Example load_high_score_long :
  Retro.load_high_score (Retro.with_highscore_file (Some (ones 4300)) retro_blank) <> Ok 0 /\
  Retro.load_high_score (Retro.with_highscore_file (Some (ones 4301)) retro_blank) = Ok 0.
Proof. split; vm_compute; [discriminate | reflexivity]. Qed.



Example high_score_written :
  exists g',
    Retro.game_over retro_thirty_points = Ok g' /\
    Retro.highscore_file g' = Some "30"%string.
Proof. eexists. split; vm_compute; reflexivity. Qed.

Example high_score_not_written :
  (exists g',
     Retro.game_over (Retro.with_score 20 retro_thirty_points) = Ok g' /\
     Retro.highscore_file g' = Some "20"%string) /\
  (exists g',
     Retro.game_over (Retro.with_disk CannotOpen retro_thirty_points) = Ok g' /\
     Retro.highscore_file g' = Some "20"%string /\ Retro.high_score g' = 30).
Proof. split; eexists; repeat split; vm_compute; reflexivity. Qed.

(** A disk that is full leaves the file empty, and the game is then restarted
    with a high score of 0. *)
Example high_score_lost :
  exists g',
    Retro.game_over (Retro.with_disk (Full 0) retro_thirty_points) = Ok g' /\
    Retro.highscore_file g' = Some EmptyString /\ Retro.high_score g' = 30 /\
    Retro.load_high_score g' = Ok 0.
Proof. eexists. repeat split; vm_compute; reflexivity. Qed.

(** So does a score of more digits than [str] writes. *)
Example high_score_too_long :
  exists g',
    Retro.game_over (Retro.with_score (10 ^ 4300) retro_thirty_points) = Ok g' /\
    Retro.highscore_file g' = Some EmptyString.
Proof. eexists. split; vm_compute; reflexivity. Qed.

(** * The first call of [reset_game] *)

(** On an object that has its attributes, [spawn_food] is the one of
    [Retro]. *)
Lemma spawn_food_with_attributes (fuel : nat) (g : Retro.SnakeGame) :
  RetroStartup.spawn_food fuel (RetroStartup.attributes_of g) =
  match Retro.spawn_food fuel g with
  | Ok (p, g') => Ok (p, RetroStartup.attributes_of g')
  | Raise e => Raise e
  | OutOfFuel => OutOfFuel
  end.
Proof.
  revert g. induction fuel as [|fuel IH]; intros g; [reflexivity|].
  cbn [RetroStartup.spawn_food Retro.spawn_food].
  unfold Retro.rand_int.
  cbn [RetroStartup.rng RetroStartup.attributes_of RetroStartup.snake RetroStartup.obstacles].
  destruct (randint 0 (Retro.GRID_WIDTH - 1) (Retro.rng g)) as [x o1].
  cbn [Retro.rng Retro.with_rng].
  destruct (randint 0 (Retro.GRID_HEIGHT - 1) o1) as [y o2].
  cbn [RetroStartup.getattr bind Retro.snake Retro.with_rng].
  unfold RetroStartup.is_obstacle_at, Retro.is_obstacle_at.
  cbn [RetroStartup.obstacles RetroStartup.getattr bind Retro.obstacles Retro.with_rng].
  destruct (negb (py_in (x, y) (Retro.snake g))); cbn [andb].
  - destruct (negb (existsb _ _)).
    + reflexivity.
    + apply (IH (Retro.with_rng o2 (Retro.with_rng o1 g))).
  - apply (IH (Retro.with_rng o2 (Retro.with_rng o1 g))).
Qed.

Lemma spawn_food_on_new_object (fuel : nat) (o : Oracle) :
  RetroStartup.spawn_food fuel (RetroStartup.new_object o) = Raise AttributeError \/
  RetroStartup.spawn_food fuel (RetroStartup.new_object o) = OutOfFuel.
Proof.
  revert o. induction fuel as [|fuel IH]; intros o; [right; reflexivity|].
  cbn [RetroStartup.spawn_food RetroStartup.new_object RetroStartup.rng RetroStartup.snake
       RetroStartup.obstacles].
  destruct (randint 0 (Retro.GRID_WIDTH - 1) o) as [x o1].
  destruct (randint 0 (Retro.GRID_HEIGHT - 1) o1) as [y o2].
  cbn [RetroStartup.getattr bind].
  destruct (negb (py_in (x, y) _)).
  - left. reflexivity.
  - apply (IH o2).
Qed.

(** X1: [SnakeGame()] does not return.  The first call of [reset_game]
    stops in [spawn_food] with an [AttributeError], at the first cell drawn
    off the snake: [is_obstacle_at] reads [self.obstacles], which
    [reset_game] assigns after the call.  (It draws for ever when every cell
    drawn is the cell of the snake.)  On an object that has its attributes,
    as in a restart from the menu, [spawn_food] is the one of [Retro]. *)
Theorem new_game_raises_AttributeError :
  (forall fuel o, ~ returns (RetroStartup.spawn_food fuel (RetroStartup.new_object o))) /\
  (forall fuel o,
     first_cell o <> (Retro.GRID_WIDTH / 2, Retro.GRID_HEIGHT / 2) ->
     RetroStartup.spawn_food (S fuel) (RetroStartup.new_object o) = Raise AttributeError) /\
  (forall fuel g,
     RetroStartup.spawn_food fuel (RetroStartup.attributes_of g) =
     match Retro.spawn_food fuel g with
     | Ok (p, g') => Ok (p, RetroStartup.attributes_of g')
     | Raise e => Raise e
     | OutOfFuel => OutOfFuel
     end).
Proof.
  repeat apply conj.
  - intros fuel o [r E].
    destruct (spawn_food_on_new_object fuel o) as [H | H]; rewrite H in E; discriminate.
  - intros fuel o. unfold first_cell.
    cbn [RetroStartup.spawn_food RetroStartup.new_object RetroStartup.rng RetroStartup.snake
         RetroStartup.obstacles].
    destruct (randint 0 (Retro.GRID_WIDTH - 1) o) as [x o1].
    destruct (randint 0 (Retro.GRID_HEIGHT - 1) o1) as [y o2].
    cbn [RetroStartup.getattr bind]. intros N.
    replace (py_in (x, y) [(Retro.GRID_WIDTH / 2, Retro.GRID_HEIGHT / 2)]) with false.
    + reflexivity.
    + symmetry. cbn [py_in existsb]. rewrite orb_false_r.
      destruct (pos_eqb _ _) eqn:E; [|reflexivity].
      exfalso. apply N. apply pos_eqb_eq in E. congruence.
  - exact spawn_food_with_attributes.
Qed.

Lemma new_game_raises_AttributeError_witness :
  first_cell a_script <> (Retro.GRID_WIDTH / 2, Retro.GRID_HEIGHT / 2) /\
  RetroStartup.spawn_food 1 (RetroStartup.new_object a_script) = Raise AttributeError.
Proof.
  split.
  - vm_compute. discriminate.
  - apply (proj1 (proj2 new_game_raises_AttributeError) 0%nat a_script).
    vm_compute. discriminate.
Defined.

(** * Retro: the effects of the power-ups *)

Lemma dict_set_app_new (k : string) (v v' : Z) (done todo : list (string * Z)) :
  ~ In k (dict_keys done) ->
  Retro.dict_set k v (done ++ (k, v') :: todo) = done ++ (k, v) :: todo.
Proof.
  induction done as [|[k0 v0] done IH]; intros N; cbn [app Retro.dict_set dict_keys map fst] in *.
  - rewrite String.eqb_refl. reflexivity.
  - destruct (String.eqb k k0) eqn:E.
    + apply String.eqb_eq in E. exfalso. apply N. left. symmetry. exact E.
    + f_equal. apply IH. intros H. apply N. right. exact H.
Qed.

Lemma dict_del_app_new (k : string) (v : Z) (done todo : list (string * Z)) :
  ~ In k (dict_keys done) ->
  Retro.dict_del k (done ++ (k, v) :: todo) = done ++ todo.
Proof.
  induction done as [|[k0 v0] done IH]; intros N; cbn [app Retro.dict_del dict_keys map fst] in *.
  - rewrite String.eqb_refl. reflexivity.
  - destruct (String.eqb k k0) eqn:E.
    + apply String.eqb_eq in E. exfalso. apply N. left. symmetry. exact E.
    + f_equal. apply IH. intros H. apply N. right. exact H.
Qed.

(** With every key once in the dictionary, the loop leaves the timers that
    had ticks left, one tick down, in their order. *)
Lemma timers_fold (done todo : list (string * Z)) :
  NoDup (dict_keys (done ++ todo)) ->
  fold_left timers_step todo (done ++ todo) = done ++ map tick_down (filter ticking todo).
Proof.
  revert done. induction todo as [|[k t] todo IH]; intros done N.
  - cbn. reflexivity.
  - unfold dict_keys in N. rewrite map_app in N. cbn [map fst] in N.
    pose proof (NoDup_remove_2 _ _ _ N) as Out.
    pose proof (NoDup_remove_1 _ _ _ N) as N'.
    assert (OutD : ~ In k (dict_keys done))
      by (intros H; apply Out, in_or_app; left; exact H).
    cbn [fold_left filter]. unfold timers_step at 2, ticking at 1. cbn [fst snd].
    rewrite dict_set_app_new by exact OutD.
    destruct (t <=? 0) eqn:T.
    + replace (0 <? t) with false by (symmetry; apply Z.ltb_ge; apply Z.leb_le in T; lia).
      rewrite dict_del_app_new by exact OutD.
      apply IH. unfold dict_keys. rewrite map_app. exact N'.
    + replace (0 <? t) with true by (symmetry; apply Z.ltb_lt; apply Z.leb_gt in T; lia).
      cbn [map]. unfold tick_down at 1. cbn [fst snd].
      change (done ++ (k, t - 1) :: todo) with (done ++ [(k, t - 1)] ++ todo).
      rewrite app_assoc, IH.
      * rewrite <- app_assoc. reflexivity.
      * unfold dict_keys. rewrite <- app_assoc, map_app. cbn [map app fst]. exact N.
Qed.

Lemma update_effects_fold (g : Retro.SnakeGame) :
  Retro.update_effects g = fold_left effects_step (Retro.effect_timers g) g.
Proof. reflexivity. Qed.

Lemma effects_step_timers (g : Retro.SnakeGame) (item : string * Z) :
  Retro.effect_timers (effects_step g item) = timers_step (Retro.effect_timers g) item.
Proof.
  destruct item as [k t]. unfold effects_step, timers_step. cbn [fst snd].
  destruct (t <=? 0); [|reflexivity].
  repeat match goal with |- context [if String.eqb ?a ?b then _ else _] =>
    destruct (String.eqb a b) end; reflexivity.
Qed.

Lemma effects_fold_timers (todo : list (string * Z)) (g : Retro.SnakeGame) :
  Retro.effect_timers (fold_left effects_step todo g) =
  fold_left timers_step todo (Retro.effect_timers g).
Proof.
  revert g. induction todo as [|item todo IH]; intros g; [reflexivity|].
  cbn [fold_left]. rewrite IH, effects_step_timers. reflexivity.
Qed.

Lemma effects_step_invincible (g : Retro.SnakeGame) (item : string * Z) :
  Retro.invincible (effects_step g item) =
  Retro.invincible g
  && negb (String.eqb (fst item) "invincibility" && (snd item <=? 0)).
Proof.
  destruct item as [k t]. unfold effects_step. cbn [fst snd].
  destruct (t <=? 0); [|rewrite andb_false_r, andb_true_r; reflexivity].
  rewrite andb_true_r.
  destruct (String.eqb k "invincibility") eqn:E.
  - apply String.eqb_eq in E. subst k. cbn. rewrite andb_false_r. reflexivity.
  - cbn [negb]. rewrite andb_true_r.
    repeat match goal with |- context [if String.eqb ?a ?b then _ else _] =>
      destruct (String.eqb a b) end; reflexivity.
Qed.

Lemma effects_step_double_points (g : Retro.SnakeGame) (item : string * Z) :
  Retro.double_points (effects_step g item) =
  Retro.double_points g
  && negb (String.eqb (fst item) "double_points" && (snd item <=? 0)).
Proof.
  destruct item as [k t]. unfold effects_step. cbn [fst snd].
  destruct (t <=? 0); [|rewrite andb_false_r, andb_true_r; reflexivity].
  rewrite andb_true_r.
  destruct (String.eqb k "double_points") eqn:E.
  - apply String.eqb_eq in E. subst k. cbn. rewrite andb_false_r. reflexivity.
  - cbn [negb]. rewrite andb_true_r.
    repeat match goal with |- context [if String.eqb ?a ?b then _ else _] =>
      destruct (String.eqb a b) end; reflexivity.
Qed.

Lemma effects_fold_invincible (todo : list (string * Z)) (g : Retro.SnakeGame) :
  Retro.invincible (fold_left effects_step todo g) =
  Retro.invincible g && negb (expired "invincibility" todo).
Proof.
  revert g. induction todo as [|item todo IH]; intros g.
  - cbn. rewrite andb_true_r. reflexivity.
  - cbn [fold_left]. rewrite IH, effects_step_invincible. unfold expired. cbn [existsb].
    rewrite negb_orb, andb_assoc. reflexivity.
Qed.

Lemma effects_fold_double_points (todo : list (string * Z)) (g : Retro.SnakeGame) :
  Retro.double_points (fold_left effects_step todo g) =
  Retro.double_points g && negb (expired "double_points" todo).
Proof.
  revert g. induction todo as [|item todo IH]; intros g.
  - cbn. rewrite andb_true_r. reflexivity.
  - cbn [fold_left]. rewrite IH, effects_step_double_points. unfold expired. cbn [existsb].
    rewrite negb_orb, andb_assoc. reflexivity.
Qed.

Lemma effects_step_base_speed (g : Retro.SnakeGame) (item : string * Z) :
  Retro.base_speed (effects_step g item) = Retro.base_speed g.
Proof.
  destruct item as [k t]. unfold effects_step.
  destruct (t <=? 0); [|reflexivity].
  repeat match goal with |- context [if String.eqb ?a ?b then _ else _] =>
    destruct (String.eqb a b) end; reflexivity.
Qed.

(** The speed after a pass is the speed before it or the base speed. *)
Lemma effects_step_speed (g : Retro.SnakeGame) (item : string * Z) :
  Retro.speed (effects_step g item) = Retro.speed g \/
  Retro.speed (effects_step g item) = Retro.base_speed g.
Proof.
  destruct item as [k t]. unfold effects_step.
  destruct (t <=? 0); [|left; reflexivity].
  repeat match goal with |- context [if String.eqb ?a ?b then _ else _] =>
    destruct (String.eqb a b) end; auto.
Qed.

Lemma effects_fold_speed (todo : list (string * Z)) (g : Retro.SnakeGame) :
  Retro.base_speed (fold_left effects_step todo g) = Retro.base_speed g /\
  (Retro.speed (fold_left effects_step todo g) = Retro.speed g \/
   Retro.speed (fold_left effects_step todo g) = Retro.base_speed g).
Proof.
  revert g. induction todo as [|item todo IH]; intros g; [split; [|left]; reflexivity|].
  cbn [fold_left]. destruct (IH (effects_step g item)) as [B S].
  rewrite effects_step_base_speed in B, S. split; [exact B|].
  destruct S as [S | S]; [|right; exact S].
  rewrite S. apply effects_step_speed.
Qed.

(** [update_effects]: the timers that had ticks left are one tick down, the
    others are gone and their effect with them. *)
Lemma update_effects_spec (g : Retro.SnakeGame) :
  NoDup (dict_keys (Retro.effect_timers g)) ->
  Retro.effect_timers (Retro.update_effects g) =
    map tick_down (filter ticking (Retro.effect_timers g)) /\
  Retro.invincible (Retro.update_effects g) =
    Retro.invincible g && negb (expired "invincibility" (Retro.effect_timers g)) /\
  Retro.double_points (Retro.update_effects g) =
    Retro.double_points g && negb (expired "double_points" (Retro.effect_timers g)).
Proof.
  intros N. rewrite update_effects_fold. repeat split.
  - rewrite effects_fold_timers. exact (timers_fold [] _ N).
  - apply effects_fold_invincible.
  - apply effects_fold_double_points.
Qed.

(** * Retro: the settings of a game stay in order *)

Lemma tidy_settings (g g' : Retro.SnakeGame) :
  settings g' = settings g -> tidy g -> tidy g'.
Proof.
  unfold settings. intros E. injection E as E1 E2 E3 E4 E5 E6 E7 E8 E9.
  unfold tidy, effects_in_order. rewrite E1, E2, E3, E4, E5, E6, E7, E8, E9. auto.
Qed.

Ltac same_settings := refine (tidy_settings _ _ _ _); [|eassumption].

Lemma dict_keys_dict_set (k : string) (v : Z) (d : list (string * Z)) (k' : string) :
  In k' (dict_keys (Retro.dict_set k v d)) <-> k' = k \/ In k' (dict_keys d).
Proof.
  induction d as [|[k0 v0] d IH]; cbn [Retro.dict_set dict_keys map fst In].
  - intuition auto.
  - destruct (String.eqb k k0) eqn:E; cbn [map fst In].
    + apply String.eqb_eq in E. subst k0. intuition auto.
    + unfold dict_keys in IH. rewrite IH. intuition auto.
Qed.

Lemma NoDup_dict_set (k : string) (v : Z) (d : list (string * Z)) :
  NoDup (dict_keys d) -> NoDup (dict_keys (Retro.dict_set k v d)).
Proof.
  induction d as [|[k0 v0] d IH]; intros N; cbn [Retro.dict_set dict_keys map fst] in *.
  - constructor; [intros [] | constructor].
  - inversion N as [|? ? NI N']; subst.
    destruct (String.eqb k k0) eqn:E; cbn [map fst].
    + apply String.eqb_eq in E. subst k0. constructor; assumption.
    + constructor; [|apply IH, N'].
      intros H. apply (dict_keys_dict_set k v d k0) in H. destruct H as [H | H].
      * subst k0. rewrite String.eqb_refl in E. discriminate.
      * exact (NI H).
Qed.

Lemma In_dict_set (k : string) (v : Z) (d : list (string * Z)) (item : string * Z) :
  In item (Retro.dict_set k v d) -> item = (k, v) \/ In item d.
Proof.
  induction d as [|[k0 v0] d IH]; cbn [Retro.dict_set In].
  - intuition auto.
  - destruct (String.eqb k k0); cbn [In]; intuition auto.
Qed.

Lemma NoDup_keys_filter (keep : string * Z -> bool) (d : list (string * Z)) :
  NoDup (dict_keys d) -> NoDup (dict_keys (filter keep d)).
Proof.
  unfold dict_keys. induction d as [|item d IH]; intros N; [constructor|].
  cbn [map filter] in *. inversion N as [|? ? Out N']; subst.
  destruct (keep item); [|apply IH, N'].
  cbn [map]. constructor; [|apply IH, N'].
  intros H. apply Out. apply in_map_iff in H. destruct H as [other [E H]].
  apply filter_In in H. rewrite <- E. apply in_map, H.
Qed.

Lemma dict_keys_tick_down (d : list (string * Z)) :
  dict_keys (map tick_down d) = dict_keys d.
Proof. unfold dict_keys. rewrite map_map. reflexivity. Qed.

Lemma expired_spec (k : string) (d : list (string * Z)) :
  expired k d = true <-> exists t, In (k, t) d /\ t <= 0.
Proof.
  unfold expired. rewrite existsb_exists. split.
  - intros [[k0 t] [H E]]. cbn [fst snd] in E. apply andb_true_iff in E.
    destruct E as [E1 E2]. apply String.eqb_eq in E1. apply Z.leb_le in E2. subst k0.
    exists t. split; assumption.
  - intros [t [H L]]. exists (k, t). split; [exact H|]. cbn [fst snd].
    rewrite String.eqb_refl. apply Z.leb_le. exact L.
Qed.

(** In a dictionary whose keys differ, a flag that stands for a key stands
    for it after [update_effects]. *)
Lemma flag_after_update (k : string) (flag : bool) (d : list (string * Z)) :
  NoDup (dict_keys d) ->
  (flag = true <-> In k (dict_keys d)) ->
  (flag && negb (expired k d) = true <-> In k (dict_keys (map tick_down (filter ticking d)))).
Proof.
  intros N F. rewrite dict_keys_tick_down. split.
  - intros H. apply andb_true_iff in H. destruct H as [H1 H2].
    apply F in H1. unfold dict_keys in H1. apply in_map_iff in H1.
    destruct H1 as [[k0 t] [E H1]]. cbn [fst] in E. subst k0.
    unfold dict_keys. apply in_map_iff. exists (k, t). split; [reflexivity|].
    apply filter_In. split; [exact H1|]. unfold ticking. cbn [snd]. apply Z.ltb_lt.
    destruct (Z_lt_le_dec 0 t) as [L | L]; [exact L|].
    exfalso. apply negb_true_iff in H2.
    assert (X : expired k d = true) by (apply expired_spec; exists t; split; assumption).
    congruence.
  - intros H. unfold dict_keys in H. apply in_map_iff in H. destruct H as [[k0 t] [E H]].
    cbn [fst] in E. subst k0. apply filter_In in H. destruct H as [H R].
    unfold ticking in R. cbn [snd] in R. apply Z.ltb_lt in R.
    apply andb_true_iff. split.
    + apply F. unfold dict_keys. apply in_map_iff. exists (k, t). split; [reflexivity | exact H].
    + apply negb_true_iff. destruct (expired k d) eqn:X; [|reflexivity].
      apply expired_spec in X. destruct X as [t' [H' L]].
      assert (E : (k, t') = (k, t))
        by (apply (NoDup_map_inj fst d); [exact N | exact H' | exact H | reflexivity]).
      injection E as E. lia.
Qed.

Lemma update_effects_in_order (g : Retro.SnakeGame) :
  effects_in_order g -> effects_in_order (Retro.update_effects g).
Proof.
  intros [N [R [I D]]]. destruct (update_effects_spec g N) as [T [I' D']].
  unfold effects_in_order. rewrite T, I', D'. repeat split.
  - rewrite dict_keys_tick_down. apply NoDup_keys_filter. exact N.
  - apply in_map_iff in H. destruct H as [it [E H]]. apply filter_In in H.
    destruct H as [H Ru]. apply R in H. unfold ticking in Ru. apply Z.ltb_lt in Ru.
    subst item. cbn [tick_down snd]. lia.
  - apply in_map_iff in H. destruct H as [it [E H]]. apply filter_In in H.
    destruct H as [H Ru]. apply R in H. subst item. cbn [tick_down snd]. lia.
  - apply (flag_after_update _ _ _ N I).
  - apply (flag_after_update _ _ _ N I).
  - apply (flag_after_update _ _ _ N D).
  - apply (flag_after_update _ _ _ N D).
Qed.

Lemma base_speed_bounds (level : Z) : 1 <= level -> 8 <= Z.min (7 + level) 15 <= 15.
Proof. lia. Qed.

(** Rewriting with what a method leaves alone, attribute by attribute. *)
Ltac frames L :=
  try rewrite (L _ Retro.power_ups) by (intros; reflexivity);
  try rewrite (L _ Retro.speed) by (intros; reflexivity);
  try rewrite (L _ Retro.base_speed) by (intros; reflexivity);
  try rewrite (L _ Retro.level) by (intros; reflexivity);
  try rewrite (L _ Retro.effect_timers) by (intros; reflexivity);
  try rewrite (L _ Retro.invincible) by (intros; reflexivity);
  try rewrite (L _ Retro.double_points) by (intros; reflexivity);
  try rewrite (L _ Retro.obstacles) by (intros; reflexivity);
  try rewrite (L _ Retro.score) by (intros; reflexivity);
  try rewrite (L _ Retro.snake) by (intros; reflexivity);
  try rewrite (L _ Retro.state) by (intros; reflexivity);
  try rewrite (L _ Retro.food) by (intros; reflexivity);
  try rewrite (L _ Retro.direction) by (intros; reflexivity).

Lemma update_effects_tidy (g : Retro.SnakeGame) : tidy g -> tidy (Retro.update_effects g).
Proof.
  intros [P [S [[L B] [E [O Sc]]]]].
  destruct (effects_fold_speed (Retro.effect_timers g) g) as [_ Sp].
  rewrite <- update_effects_fold in Sp.
  unfold tidy. frames @update_effects_keeps.
  split; [exact P|]. split; [|split; [split; assumption|split; [|split; assumption]]].
  - destruct Sp as [-> | ->]; [lia|]. rewrite B. lia.
  - apply update_effects_in_order, E.
Qed.

(** ** The obstacles *)

Lemma Retro_rand_int_obstacles (a b : Z) (g : Retro.SnakeGame) :
  Retro.obstacles (snd (Retro.rand_int a b g)) = Retro.obstacles g.
Proof. apply (rand_int_keeps Retro.obstacles). intros; reflexivity. Qed.

Lemma Retro_rand_choice_obstacles {B : Type} (seq : list B) (d : B) (g : Retro.SnakeGame) :
  Retro.obstacles (snd (Retro.rand_choice seq d g)) = Retro.obstacles g.
Proof. apply (rand_choice_keeps Retro.obstacles). intros; reflexivity. Qed.

(** A draw: its range, and the obstacles it leaves alone. *)
Ltac draw_obstacle :=
  match goal with
  | |- context [Retro.rand_int ?a ?b ?g] =>
      let R := fresh "R" in
      let K := fresh "K" in
      pose proof (Retro_rand_int_range a b g) as R;
      pose proof (Retro_rand_int_obstacles a b g) as K;
      destruct (Retro.rand_int a b g); cbn [fst snd] in R, K
  | |- context [Retro.rand_choice ?s ?d ?g] =>
      let K := fresh "K" in
      pose proof (Retro_rand_choice_obstacles s d g) as K;
      destruct (Retro.rand_choice s d g); cbn [snd] in K
  end.

Ltac back_to_start :=
  repeat match goal with
  | K : Retro.obstacles ?a = Retro.obstacles ?b |- context [Retro.obstacles ?a] =>
      rewrite K; clear K
  end.

Ltac one_obstacle :=
  eexists [_]; split;
  [ unfold Retro.add_obstacle; cbn [Retro.obstacles Retro.with_obstacles];
    back_to_start; reflexivity
  | split; [cbn; lia|];
    constructor; [|constructor];
    unfold obstacle_inside; cbn [Retro.ob_x Retro.ob_y Retro.ob_width Retro.ob_height];
    change Retro.GRID_WIDTH with 40 in *; change Retro.GRID_HEIGHT with 30 in *; lia ].

Ltac two_obstacles :=
  eexists [_; _]; split;
  [ unfold Retro.add_obstacle; cbn [Retro.obstacles Retro.with_obstacles];
    rewrite <- app_assoc; cbn [app]; back_to_start; reflexivity
  | split; [cbn; lia|];
    constructor; [|constructor; [|constructor]];
    unfold obstacle_inside; cbn [Retro.ob_x Retro.ob_y Retro.ob_width Retro.ob_height];
    change Retro.GRID_WIDTH with 40 in *; change Retro.GRID_HEIGHT with 30 in *; lia ].

Lemma create_line_obstacle_inside (g : Retro.SnakeGame) :
  adds_inside g (Retro.create_line_obstacle g).
Proof.
  unfold Retro.create_line_obstacle. draw_obstacle.
  match goal with |- context [if ?b then _ else _] => destruct b end;
    repeat draw_obstacle; one_obstacle.
Qed.

Lemma create_box_obstacle_inside (g : Retro.SnakeGame) :
  adds_inside g (Retro.create_box_obstacle g).
Proof. unfold Retro.create_box_obstacle. repeat draw_obstacle. one_obstacle. Qed.

Lemma create_cross_obstacle_inside (g : Retro.SnakeGame) :
  adds_inside g (Retro.create_cross_obstacle g).
Proof. unfold Retro.create_cross_obstacle. repeat draw_obstacle. two_obstacles. Qed.

Lemma create_corner_obstacle_inside (g : Retro.SnakeGame) :
  adds_inside g (Retro.create_corner_obstacle g).
Proof. unfold Retro.create_corner_obstacle. repeat draw_obstacle. two_obstacles. Qed.

Lemma adds_inside_after (g g1 g' : Retro.SnakeGame) :
  Retro.obstacles g1 = Retro.obstacles g -> adds_inside g1 g' -> adds_inside g g'.
Proof. intros E [new [H1 H2]]. exists new. rewrite <- E. split; assumption. Qed.

Lemma create_random_obstacle_inside (g : Retro.SnakeGame) :
  adds_inside g (Retro.create_random_obstacle g).
Proof.
  unfold Retro.create_random_obstacle. draw_obstacle.
  repeat match goal with |- context [if ?b then _ else _] => destruct b end;
    try (apply (adds_inside_after _ _ _ K);
         first [ apply create_line_obstacle_inside | apply create_box_obstacle_inside
               | apply create_cross_obstacle_inside | apply create_corner_obstacle_inside ]).
  exists []. split; [rewrite app_nil_r; exact K|]. split; [cbn; lia | constructor].
Qed.

Lemma for_range_obstacles (n : nat) (g : Retro.SnakeGame) :
  exists new,
    Retro.obstacles (for_range n Retro.create_random_obstacle g) = Retro.obstacles g ++ new /\
    (List.length new <= 2 * n)%nat /\ Forall obstacle_inside new.
Proof.
  revert g. induction n as [|n IH]; intros g.
  - exists []. cbn [for_range]. rewrite app_nil_r. repeat split; [cbn; lia | constructor].
  - cbn [for_range]. destruct (create_random_obstacle_inside g) as [new1 [E1 [L1 F1]]].
    destruct (IH (Retro.create_random_obstacle g)) as [new2 [E2 [L2 F2]]].
    exists (new1 ++ new2). rewrite E2, E1, <- app_assoc. repeat split.
    + rewrite length_app. lia.
    + apply Forall_app. split; assumption.
Qed.

(** [generate_obstacles]: at most 16 obstacles, none on the outer ring. *)
Lemma generate_obstacles_inside (g : Retro.SnakeGame) :
  Forall obstacle_inside (Retro.obstacles (Retro.generate_obstacles g)) /\
  (List.length (Retro.obstacles (Retro.generate_obstacles g)) <= 16)%nat.
Proof.
  unfold Retro.generate_obstacles.
  destruct (for_range_obstacles
              (Z.to_nat (Z.min (3 + Retro.level (Retro.with_obstacles [] g) / 2) 8))
              (Retro.with_obstacles [] g)) as [new [E [L F]]].
  rewrite E. cbn [Retro.obstacles Retro.with_obstacles app]. split; [exact F|]. lia.
Qed.

Lemma generate_obstacles_tidy (g : Retro.SnakeGame) :
  tidy g -> tidy (Retro.generate_obstacles g).
Proof.
  intros [P [S [LB [E [O Sc]]]]]. destruct (generate_obstacles_inside g) as [F L].
  unfold tidy. frames @generate_obstacles_keeps.
  split; [exact P|]. split; [exact S|]. split; [exact LB|].
  split; [|split; [split; assumption | exact Sc]].
  unfold effects_in_order in *. frames @generate_obstacles_keeps. exact E.
Qed.

Lemma for_range_settings (f : Retro.SnakeGame -> Retro.SnakeGame) :
  (forall g, settings (f g) = settings g) ->
  forall n g, settings (for_range n f g) = settings g.
Proof. apply for_range_keeps. Qed.

Lemma level_up_tidy (g : Retro.SnakeGame) : tidy g -> tidy (Retro.level_up g).
Proof.
  intros T. unfold Retro.level_up.
  refine (tidy_settings _ _ _ (generate_obstacles_tidy _ _)).
  - rewrite for_range_settings
      by (intros; apply (create_random_particle_keeps settings); intros; reflexivity).
    reflexivity.
  - destruct T as [P [S [[L B] [E [O Sc]]]]].
    unfold tidy. retro_fields.
    split; [exact P|]. split; [lia|]. split; [split; lia|].
    split; [exact E|]. split; [exact O | exact Sc].
Qed.

(** ** The tick *)

Lemma spawn_power_up_tidy (fuel : nat) (g g' : Retro.SnakeGame) :
  Retro.spawn_power_up fuel g = Ok g' -> tidy g -> tidy g'.
Proof.
  intros H T. apply Retro_spawn_power_up_spec in H.
  destruct H as [[_ ->] | [L [pu [-> _]]]]; [exact T|].
  destruct T as [P [S [LB [E [O Sc]]]]]. unfold tidy. retro_fields.
  split; [rewrite length_app; cbn [List.length]; lia|].
  split; [exact S|]. split; [exact LB|]. split; [exact E|]. split; [exact O | exact Sc].
Qed.

Lemma housekeeping_tidy (fuel : nat) (g g' : Retro.SnakeGame) :
  Retro.housekeeping fuel g = Ok g' -> tidy g -> tidy g'.
Proof.
  unfold Retro.housekeeping. intros H T.
  assert (T0 : tidy (Retro.update_effects (Retro.with_game_time (Retro.game_time g + 1) g)))
    by (apply update_effects_tidy; exact T).
  revert H. generalize dependent (Retro.update_effects
                                    (Retro.with_game_time (Retro.game_time g + 1) g)).
  intros g0 T0.
  pose proof (rand_int_keeps settings (fun _ _ => eq_refl) 1 200 g0) as K1.
  destruct (Retro.rand_int 1 200 g0) as [r g1]. cbn [snd] in K1.
  assert (T1 : tidy g1) by (same_settings; exact K1).
  destruct (if r =? 1 then Retro.spawn_power_up fuel g1 else Ok g1) as [g2| |] eqn:Sp;
    try discriminate.
  assert (T2 : tidy g2).
  { destruct (r =? 1); [exact (spawn_power_up_tidy _ _ _ Sp T1)|].
    apply Ok_inj in Sp. subst g2. exact T1. }
  cbn [bind].
  pose proof (now_keeps settings (fun _ _ => eq_refl) g2) as K3.
  destruct (Retro.now g2) as [t g3]. cbn [snd] in K3.
  assert (T3 : tidy g3) by (same_settings; exact K3).
  intros H. apply Ok_inj in H. subst g'.
  destruct T3 as [P [S [LB [E [O Sc]]]]]. unfold tidy. retro_fields.
  split.
  - pose proof (filter_length_le (fun p => (t - Retro.pu_spawn_time p <? 10)%float)
                  (Retro.power_ups g3)). lia.
  - split; [exact S|]. split; [exact LB|]. split; [exact E|]. split; [exact O | exact Sc].
Qed.

Lemma string_neq_keys (k k' : string) (v : Z) (d : list (string * Z)) :
  String.eqb k' k = false ->
  (In k' (dict_keys (Retro.dict_set k v d)) <-> In k' (dict_keys d)).
Proof.
  intros N. rewrite dict_keys_dict_set. split; [|auto].
  intros [E | H]; [|exact H]. subst k'. rewrite String.eqb_refl in N. discriminate.
Qed.

Lemma remove_power_up_length (pu : Retro.PowerUp) (l : list Retro.PowerUp) :
  (List.length (Retro.remove_power_up pu l) <= List.length l)%nat.
Proof.
  induction l as [|q l IH]; [cbn; lia|].
  cbn [Retro.remove_power_up]. destruct (Retro.PowerUp_eqb q pu); cbn [List.length]; lia.
Qed.

Lemma score_plus (s p : Z) :
  0 <= s /\ s mod 5 = 0 -> 0 <= p -> p mod 5 = 0 -> 0 <= s + p /\ (s + p) mod 5 = 0.
Proof.
  intros [H1 H2] H3 H4. split; [lia|].
  rewrite Z.add_mod by lia. rewrite H2, H4. reflexivity.
Qed.

Lemma timers_set_in_order (k : string) (g : Retro.SnakeGame) :
  String.eqb "invincibility" k = false -> String.eqb "double_points" k = false ->
  effects_in_order g ->
  effects_in_order (Retro.with_effect_timers (Retro.dict_set k 300 (Retro.effect_timers g)) g).
Proof.
  intros N1 N2 [N [R [I D]]]. unfold effects_in_order. retro_fields.
  split; [apply NoDup_dict_set, N|]. split.
  - intros item H. apply In_dict_set in H. destruct H as [-> | H]; [cbn; lia | apply R, H].
  - rewrite (string_neq_keys _ _ _ _ N1), (string_neq_keys _ _ _ _ N2). split; assumption.
Qed.

Lemma tidy_bonus (g : Retro.SnakeGame) :
  tidy g -> tidy (Retro.with_score (Retro.score g + 5) g).
Proof.
  intros [P [S [LB [E [O Sc]]]]]. unfold tidy. retro_fields.
  split; [exact P|]. split; [exact S|]. split; [exact LB|]. split; [exact E|].
  split; [exact O|]. apply score_plus; [exact Sc | lia | reflexivity].
Qed.

Lemma apply_power_up_tidy (pu : Retro.PowerUp) (g : Retro.SnakeGame) :
  tidy g -> tidy (Retro.apply_power_up pu g).
Proof.
  intros T. unfold Retro.apply_power_up.
  destruct (Retro.pu_type pu); apply tidy_bonus.
  - destruct T as [P [S [LB [E [O Sc]]]]]. unfold tidy. retro_fields.
    split; [exact P|]. split; [lia|]. split; [exact LB|].
    split; [apply (timers_set_in_order "speed_boost" g); [reflexivity | reflexivity | exact E]|].
    split; [exact O | exact Sc].
  - destruct T as [P [S [LB [E [O Sc]]]]]. unfold tidy. retro_fields.
    split; [exact P|]. split; [lia|]. split; [exact LB|].
    split; [apply (timers_set_in_order "slow_down" g); [reflexivity | reflexivity | exact E]|].
    split; [exact O | exact Sc].
  - same_settings. apply (for_range_keeps settings). intros; reflexivity.
  - destruct (3 <? _); [|exact T].
    same_settings. apply (for_range_keeps settings). intros; reflexivity.
  - destruct T as [P [S [LB [E [O Sc]]]]]. unfold tidy. retro_fields.
    split; [exact P|]. split; [exact S|]. split; [exact LB|]. split; [|split; assumption].
    destruct E as [N [R [I D]]]. unfold effects_in_order. retro_fields.
    split; [apply NoDup_dict_set, N|]. split.
    + intros item H. apply In_dict_set in H.
      destruct H as [-> | H]; [cbn; lia | apply R, H].
    + split.
      * rewrite dict_keys_dict_set. split; auto.
      * rewrite (string_neq_keys "invincibility" "double_points") by reflexivity. exact D.
  - destruct T as [P [S [LB [E [O Sc]]]]]. unfold tidy. retro_fields.
    split; [exact P|]. split; [exact S|]. split; [exact LB|]. split; [|split; assumption].
    destruct E as [N [R [I D]]]. unfold effects_in_order. retro_fields.
    split; [apply NoDup_dict_set, N|]. split.
    + intros item H. apply In_dict_set in H.
      destruct H as [-> | H]; [cbn; lia | apply R, H].
    + split.
      * rewrite (string_neq_keys "double_points" "invincibility") by reflexivity. exact I.
      * rewrite dict_keys_dict_set. split; auto.
Qed.

Lemma collect_one_tidy (head : Pos) (g : Retro.SnakeGame) (pu : Retro.PowerUp) :
  tidy g -> tidy (collect_one head g pu).
Proof.
  intros T. unfold collect_one. destruct (pos_eqb _ _); [|exact T].
  apply (apply_power_up_tidy pu) in T.
  refine (tidy_settings (Retro.with_power_ups
            (Retro.remove_power_up pu (Retro.power_ups (Retro.apply_power_up pu g)))
            (Retro.apply_power_up pu g)) _ _ _).
  - apply (create_power_up_particles_keeps settings); intros; reflexivity.
  - destruct T as [P [S [LB [E [O Sc]]]]]. unfold tidy. retro_fields.
    split; [pose proof (remove_power_up_length pu (Retro.power_ups (Retro.apply_power_up pu g)));
            lia|].
    split; [exact S|]. split; [exact LB|]. split; [exact E|]. split; [exact O | exact Sc].
Qed.

Lemma collect_power_ups_tidy (head : Pos) (g : Retro.SnakeGame) :
  tidy g -> tidy (Retro.collect_power_ups head g).
Proof.
  rewrite collect_power_ups_fold. generalize (Retro.power_ups g). intros l. revert g.
  induction l as [|pu l IH]; intros g T; [exact T|].
  cbn [fold_left]. apply IH, collect_one_tidy, T.
Qed.

Lemma eat_or_pop_tidy (fuel : nat) (head : Pos) (g g' : Retro.SnakeGame) :
  Retro.eat_or_pop fuel head g = Ok g' -> tidy g -> tidy g'.
Proof.
  intros H T. destruct (pos_eqb head (Retro.food g)) eqn:F.
  - revert H. unfold Retro.eat_or_pop. rewrite F.
    set (points := if Retro.double_points g then 10 * 2 else 10).
    assert (T1 : tidy (Retro.with_score (Retro.score g + points) g)).
    { destruct T as [P [S [LB [E [O Sc]]]]]. unfold tidy. retro_fields.
      split; [exact P|]. split; [exact S|]. split; [exact LB|]. split; [exact E|].
      split; [exact O|]. apply score_plus; [exact Sc | |];
        subst points; destruct (Retro.double_points g); try reflexivity; lia. }
    destruct (Retro.spawn_food fuel _) as [[f g1]| |] eqn:Sp; try discriminate.
    apply (spawn_food_keeps settings) in Sp; [|intros; reflexivity].
    cbn [bind].
    assert (T2 : tidy (Retro.create_food_particles head (Retro.with_food f g1))).
    { refine (tidy_settings _ _ _ T1).
      rewrite (create_food_particles_keeps settings) by (intros; reflexivity). exact Sp. }
    match goal with |- (if ?c then _ else _) = _ -> _ => destruct c end;
      intros H; apply Ok_inj in H; subst g'; [apply level_up_tidy|]; exact T2.
  - rewrite (eat_or_pop_pops fuel head g F) in H. apply Ok_inj in H. subst g'.
    same_settings. reflexivity.
Qed.

(** A tick leaves the settings in order. *)
Lemma update_game_tidy (fuel : nat) (g g' : Retro.SnakeGame) :
  Retro.update_game fuel g = Ok g' -> tidy g -> tidy g'.
Proof.
  unfold Retro.update_game. intros U T.
  destruct (negb _); [apply Ok_inj in U; subst g'; exact T|].
  destruct (Retro.housekeeping fuel g) as [g1| |] eqn:HK; try discriminate.
  pose proof (housekeeping_tidy _ _ _ HK T) as T1. cbn [bind] in U.
  destruct (Retro.new_head g1) as [head| |]; try discriminate. cbn [bind] in U.
  destruct (_ && _).
  - same_settings. revert U. frame_by (game_over_keeps settings).
  - destruct (Retro.eat_or_pop fuel head _) as [g2| |] eqn:EP; try discriminate.
    cbn [bind] in U. apply Ok_inj in U. subst g'.
    apply collect_power_ups_tidy. apply (eat_or_pop_tidy _ _ _ _ EP).
    same_settings. reflexivity.
Qed.

(** [reset_game] puts the settings in order, whatever they were. *)
Lemma reset_game_tidy (fuel : nat) (g g' : Retro.SnakeGame) :
  Retro.reset_game fuel g = Ok g' -> tidy g'.
Proof.
  unfold Retro.reset_game.
  destruct (Retro.spawn_food fuel _) as [[f g1]| |] eqn:S; try discriminate.
  cbn [bind].
  destruct (load_high_score_total
              (Retro.with_score 0 (Retro.with_food f g1))) as [hs ->].
  cbn [bind]. intros E. apply Ok_inj in E. subst g'.
  apply generate_obstacles_tidy. unfold tidy, effects_in_order. retro_fields.
  split; [cbn; lia|]. split; [lia|]. split; [split; [lia | reflexivity]|].
  split.
  - split; [constructor|]. split; [intros item []|]. split; split; intros H;
      try discriminate; destruct H.
  - split; [split; [constructor | cbn; lia] | split; [lia | reflexivity]].
Qed.

Lemma handle_input_tidy (keys : Retro.Keys) (fuel : nat) (g g' : Retro.SnakeGame) :
  Retro.handle_input keys fuel g = Ok g' -> tidy g -> tidy g'.
Proof.
  unfold Retro.handle_input. intros H T. destruct (Retro.state g).
  - destruct (Retro.K_SPACE keys); [|apply Ok_inj in H; subst g'; exact T].
    destruct (Retro.reset_game fuel g) as [g1| |] eqn:R; try discriminate.
    cbn [bind] in H. apply Ok_inj in H. subst g'.
    refine (tidy_settings _ _ _ (reset_game_tidy _ _ _ R)). reflexivity.
  - revert H.
    repeat match goal with |- context [if ?b then _ else _] => destruct b end;
      intros H; apply Ok_inj in H; subst g'; same_settings; reflexivity.
  - destruct (Retro.K_SPACE keys); apply Ok_inj in H; subst g'; same_settings; reflexivity.
  - destruct (Retro.K_SPACE keys); apply Ok_inj in H; subst g'; same_settings; reflexivity.
Qed.

(** In every state of a game the settings are in order. *)
Lemma Retro_reachable_tidy (g : Retro.SnakeGame) : Retro_reachable g -> tidy g.
Proof.
  induction 1 as [fuel g g' R | running g event _ IH | keys fuel g g' _ IH HI
                 | fuel g g' _ IH U | g _ IH | g _ IH].
  - unfold SnakeGame_init in R.
    destruct (Retro.reset_game fuel g) as [g1| |] eqn:R1; try discriminate.
    cbn [bind] in R. apply Ok_inj in R. subst g'.
    refine (tidy_settings _ _ _ (reset_game_tidy _ _ _ R1)). reflexivity.
  - same_settings. destruct event; cbn [Retro.handle_event snd]; try reflexivity.
    destruct (Retro.state g); reflexivity.
  - exact (handle_input_tidy _ _ _ _ HI IH).
  - exact (update_game_tidy _ _ _ U IH).
  - same_settings. apply (update_particles_keeps settings); intros; reflexivity.
  - same_settings. apply (apply_screen_shake_keeps settings); intros; reflexivity.
Qed.

(** * Retro: what the invariants give *)

(** X2: at most three power-ups are on the board in every state of a game:
    [spawn_power_up] adds none when three are there, and nothing else adds
    one. *)
Theorem at_most_three_power_ups (g : Retro.SnakeGame) :
  Retro_reachable g -> (List.length (Retro.power_ups g) <= 3)%nat.
Proof. intros R. exact (proj1 (Retro_reachable_tidy g R)). Qed.

Lemma at_most_three_power_ups_witness :
  exists g,
    play 5 (Retro.with_rng a_script retro_blank) = Ok g /\
    List.length (Retro.power_ups g) = 1%nat /\
    (List.length (Retro.power_ups g) <= 3)%nat.
Proof.
  eexists. split; [vm_compute; reflexivity|]. split; [reflexivity|].
  apply at_most_three_power_ups.
  apply (play_reachable 5 (Retro.with_rng a_script retro_blank)). vm_compute. reflexivity.
Defined.

(** X3: in every state of a game the speed is between 3 and 20, the level
    is at least 1, the base speed is 7 more than the level, up to 15, and the
    score is a multiple of 5 that is not negative. *)
Theorem speed_level_and_score (g : Retro.SnakeGame) :
  Retro_reachable g ->
  3 <= Retro.speed g <= 20 /\
  1 <= Retro.level g /\
  Retro.base_speed g = Z.min (7 + Retro.level g) 15 /\
  0 <= Retro.score g /\ Retro.score g mod 5 = 0.
Proof.
  intros R. destruct (Retro_reachable_tidy g R) as [_ [S [[L B] [_ [_ [S1 S2]]]]]].
  repeat split; try assumption; lia.
Qed.

Lemma speed_level_and_score_witness :
  exists g,
    play 20 (Retro.with_rng a_script retro_blank) = Ok g /\
    3 <= Retro.speed g <= 20 /\
    1 <= Retro.level g /\
    Retro.base_speed g = Z.min (7 + Retro.level g) 15 /\
    0 <= Retro.score g /\ Retro.score g mod 5 = 0.
Proof.
  eexists. split; [vm_compute; reflexivity|].
  apply speed_level_and_score.
  apply (play_reachable 20 (Retro.with_rng a_script retro_blank)). vm_compute. reflexivity.
Defined.

Lemma obstacle_inside_cells (g : Retro.SnakeGame) (x y : Z) :
  Forall obstacle_inside (Retro.obstacles g) ->
  Retro.is_obstacle_at g x y = true ->
  2 <= x <= Retro.GRID_WIDTH - 2 /\ 2 <= y <= Retro.GRID_HEIGHT - 2.
Proof.
  intros F H. unfold Retro.is_obstacle_at in H. apply existsb_exists in H.
  destruct H as [ob [I H]]. rewrite Forall_forall in F. specialize (F ob I).
  unfold obstacle_inside in F.
  repeat (apply andb_true_iff in H; destruct H as [H ?]).
  repeat match goal with
         | H : (_ <=? _) = true |- _ => apply Z.leb_le in H
         | H : (_ <? _) = true |- _ => apply Z.ltb_lt in H
         end.
  lia.
Qed.

(** X4: the obstacles of a game, at most 16 of them, leave the outer ring
    of the grid free: a cell in an obstacle has [2 <= x <= GRID_WIDTH - 2]
    and [2 <= y <= GRID_HEIGHT - 2]. *)
Theorem obstacles_leave_the_ring_free (g : Retro.SnakeGame) :
  Retro_reachable g ->
  (List.length (Retro.obstacles g) <= 16)%nat /\
  forall x y,
    Retro.is_obstacle_at g x y = true ->
    2 <= x <= Retro.GRID_WIDTH - 2 /\ 2 <= y <= Retro.GRID_HEIGHT - 2.
Proof.
  intros R. destruct (Retro_reachable_tidy g R) as [_ [_ [_ [_ [[F L] _]]]]].
  split; [exact L|]. intros x y. apply obstacle_inside_cells, F.
Qed.

Lemma obstacles_leave_the_ring_free_witness :
  exists g,
    play 0 (Retro.with_rng a_script retro_blank) = Ok g /\
    List.length (Retro.obstacles g) = 3%nat /\
    Retro.is_obstacle_at g 16 2 = true /\
    ((List.length (Retro.obstacles g) <= 16)%nat /\
     forall x y,
       Retro.is_obstacle_at g x y = true ->
       2 <= x <= Retro.GRID_WIDTH - 2 /\ 2 <= y <= Retro.GRID_HEIGHT - 2).
Proof.
  eexists. split; [vm_compute; reflexivity|]. split; [reflexivity|].
  split; [reflexivity|].
  apply obstacles_leave_the_ring_free.
  apply (play_reachable 0 (Retro.with_rng a_script retro_blank)). vm_compute. reflexivity.
Defined.

(** X5: in every state of a game the effect flags say what the timers
    hold: the snake is invincible exactly when the dictionary has the key
    [invincibility], points are doubled exactly when it has [double_points],
    and every timer is between 0 and 300. *)
Theorem effect_flags_follow_the_timers (g : Retro.SnakeGame) :
  Retro_reachable g ->
  (Retro.invincible g = true <-> In "invincibility"%string (dict_keys (Retro.effect_timers g))) /\
  (Retro.double_points g = true <-> In "double_points"%string (dict_keys (Retro.effect_timers g))) /\
  (forall effect timer, In (effect, timer) (Retro.effect_timers g) -> 0 <= timer <= 300).
Proof.
  intros R. destruct (Retro_reachable_tidy g R) as [_ [_ [_ [[_ [Rg [I D]]] _]]]].
  split; [exact I|]. split; [exact D|]. intros effect timer H. exact (Rg _ H).
Qed.

Lemma effect_flags_follow_the_timers_witness :
  exists g,
    play 20 (Retro.with_rng a_script retro_blank) = Ok g /\
    (Retro.invincible g = true <-> In "invincibility"%string (dict_keys (Retro.effect_timers g))) /\
    (Retro.double_points g = true <-> In "double_points"%string (dict_keys (Retro.effect_timers g))) /\
    (forall effect timer, In (effect, timer) (Retro.effect_timers g) -> 0 <= timer <= 300).
Proof.
  eexists. split; [vm_compute; reflexivity|].
  apply effect_flags_follow_the_timers.
  apply (play_reachable 20 (Retro.with_rng a_script retro_blank)). vm_compute. reflexivity.
Defined.

(** The timer of an effect through the ticks. *)
Lemma effects_iter_in_order (n : nat) (g : Retro.SnakeGame) :
  effects_in_order g -> effects_in_order (Nat.iter n Retro.update_effects g).
Proof.
  intros E. induction n as [|n IH]; [exact E|].
  rewrite Nat.iter_succ. apply update_effects_in_order, IH.
Qed.

Lemma timer_runs_down (k : string) (n : nat) (t : Z) (g : Retro.SnakeGame) :
  effects_in_order g ->
  In (k, t) (Retro.effect_timers g) ->
  Z.of_nat n <= t ->
  In (k, t - Z.of_nat n) (Retro.effect_timers (Nat.iter n Retro.update_effects g)).
Proof.
  intros E H. induction n as [|n IH]; intros L.
  - replace (t - Z.of_nat 0) with t by lia. exact H.
  - rewrite Nat.iter_succ.
    destruct (effects_iter_in_order n g E) as [N _].
    destruct (update_effects_spec _ N) as [T _]. rewrite T.
    apply in_map_iff. exists (k, t - Z.of_nat n). split.
    + unfold tick_down. cbn [fst snd]. f_equal. lia.
    + apply filter_In. split; [apply IH; lia|].
      unfold ticking. cbn [snd]. apply Z.ltb_lt. lia.
Qed.

Lemma timer_runs_out (k : string) (g : Retro.SnakeGame) :
  effects_in_order g ->
  In (k, 0) (Retro.effect_timers g) ->
  ~ In k (dict_keys (Retro.effect_timers (Retro.update_effects g))).
Proof.
  intros [N _] H C. destruct (update_effects_spec _ N) as [T _]. rewrite T in C.
  rewrite dict_keys_tick_down in C. unfold dict_keys in C. apply in_map_iff in C.
  destruct C as [[k0 t] [E C]]. cbn [fst] in E. subst k0.
  apply filter_In in C. destruct C as [C R]. unfold ticking in R. cbn [snd] in R.
  apply Z.ltb_lt in R.
  assert (X : (k, t) = (k, 0))
    by (apply (NoDup_map_inj fst (Retro.effect_timers g)); [exact N | exact C | exact H | reflexivity]).
  injection X as X. lia.
Qed.

Lemma In_dict_set_new (k : string) (v : Z) (d : list (string * Z)) :
  In (k, v) (Retro.dict_set k v d).
Proof.
  induction d as [|[k0 v0] d IH]; cbn [Retro.dict_set]; [left; reflexivity|].
  destruct (String.eqb k k0); [left; reflexivity | right; exact IH].
Qed.

(** X6: an effect lasts 300 ticks.  After the tick in which the snake
    collects INVINCIBILITY it is invincible through the next 300 passes of
    [update_effects] (one at the start of each tick) and no longer after the
    301st; likewise the points are doubled through 300 passes after
    DOUBLE_POINTS. *)
Theorem an_effect_lasts_300_ticks (g : Retro.SnakeGame) (pu : Retro.PowerUp) :
  Retro_reachable g ->
  (Retro.pu_type pu = Retro.INVINCIBILITY ->
   (forall n, (n <= 300)%nat ->
      Retro.invincible (Nat.iter n Retro.update_effects (Retro.apply_power_up pu g)) = true) /\
   Retro.invincible (Nat.iter 301 Retro.update_effects (Retro.apply_power_up pu g)) = false) /\
  (Retro.pu_type pu = Retro.DOUBLE_POINTS ->
   (forall n, (n <= 300)%nat ->
      Retro.double_points (Nat.iter n Retro.update_effects (Retro.apply_power_up pu g)) = true) /\
   Retro.double_points (Nat.iter 301 Retro.update_effects (Retro.apply_power_up pu g)) = false).
Proof.
  intros R. pose proof (apply_power_up_tidy pu g (Retro_reachable_tidy g R)) as T.
  destruct T as [_ [_ [_ [E _]]]].
  split; intros Ty.
  - assert (H : In ("invincibility"%string, 300)
                  (Retro.effect_timers (Retro.apply_power_up pu g))).
    { unfold Retro.apply_power_up. rewrite Ty. retro_fields. apply In_dict_set_new. }
    split.
    + intros n L.
      destruct (effects_iter_in_order n _ E) as [_ [_ [I _]]]. apply I.
      unfold dict_keys. apply in_map_iff. exists ("invincibility"%string, 300 - Z.of_nat n).
      split; [reflexivity|]. apply timer_runs_down; [exact E | exact H | lia].
    + change 301%nat with (S 300). rewrite Nat.iter_succ.
      pose proof (effects_iter_in_order 300 _ E) as E300.
      pose proof (timer_runs_down _ 300 _ _ E H ltac:(lia)) as H300.
      change (300 - Z.of_nat 300) with 0 in H300.
      pose proof (timer_runs_out _ _ E300 H300) as Out.
      destruct (update_effects_in_order _ E300) as [_ [_ [I _]]].
      destruct (Retro.invincible _); [|reflexivity].
      exfalso. apply Out, I. reflexivity.
  - assert (H : In ("double_points"%string, 300)
                  (Retro.effect_timers (Retro.apply_power_up pu g))).
    { unfold Retro.apply_power_up. rewrite Ty. retro_fields. apply In_dict_set_new. }
    split.
    + intros n L.
      destruct (effects_iter_in_order n _ E) as [_ [_ [_ D]]]. apply D.
      unfold dict_keys. apply in_map_iff. exists ("double_points"%string, 300 - Z.of_nat n).
      split; [reflexivity|]. apply timer_runs_down; [exact E | exact H | lia].
    + change 301%nat with (S 300). rewrite Nat.iter_succ.
      pose proof (effects_iter_in_order 300 _ E) as E300.
      pose proof (timer_runs_down _ 300 _ _ E H ltac:(lia)) as H300.
      change (300 - Z.of_nat 300) with 0 in H300.
      pose proof (timer_runs_out _ _ E300 H300) as Out.
      destruct (update_effects_in_order _ E300) as [_ [_ [_ D]]].
      destruct (Retro.double_points _); [|reflexivity].
      exfalso. apply Out, D. reflexivity.
Qed.

Lemma an_effect_lasts_300_ticks_witness :
  exists g,
    play 0 (Retro.with_rng a_script retro_blank) = Ok g /\
    Retro.invincible g = false /\
    Retro.invincible
      (Nat.iter 300 Retro.update_effects
         (Retro.apply_power_up (power_up_of Retro.INVINCIBILITY) g)) = true /\
    Retro.invincible
      (Nat.iter 301 Retro.update_effects
         (Retro.apply_power_up (power_up_of Retro.INVINCIBILITY) g)) = false.
Proof.
  eexists. split; [vm_compute; reflexivity|]. split; [reflexivity|].
  match goal with |- Retro.invincible (Nat.iter 300 _ (Retro.apply_power_up _ ?g)) = true /\ _ =>
    pose proof (proj1 (an_effect_lasts_300_ticks g (power_up_of Retro.INVINCIBILITY)
                  (play_reachable 0 (Retro.with_rng a_script retro_blank) g
                     ltac:(vm_compute; reflexivity)))
                  eq_refl) as [H1 H2]
  end.
  split; [apply H1; lia | exact H2].
Defined.

(** * Retro: collisions *)

Lemma housekeeping_invincible (fuel : nat) (g g' : Retro.SnakeGame) :
  Retro.housekeeping fuel g = Ok g' ->
  Retro.invincible g' =
  Retro.invincible g && negb (expired "invincibility" (Retro.effect_timers g)).
Proof.
  unfold Retro.housekeeping. intros H.
  assert (E0 : Retro.invincible
                 (Retro.update_effects (Retro.with_game_time (Retro.game_time g + 1) g))
               = Retro.invincible g
                 && negb (expired "invincibility" (Retro.effect_timers g)))
    by (rewrite update_effects_fold, effects_fold_invincible; reflexivity).
  rewrite <- E0. clear E0.
  revert H. generalize (Retro.update_effects
                          (Retro.with_game_time (Retro.game_time g + 1) g)).
  intros g0.
  pose proof (rand_int_keeps Retro.invincible (fun _ _ => eq_refl) 1 200 g0) as K1.
  destruct (Retro.rand_int 1 200 g0) as [r g1]. cbn [snd] in K1.
  destruct (if r =? 1 then Retro.spawn_power_up fuel g1 else Ok g1) as [g2| |] eqn:Sp;
    try discriminate.
  assert (K2 : Retro.invincible g2 = Retro.invincible g1).
  { destruct (r =? 1).
    - revert Sp. frame_by (spawn_power_up_keeps Retro.invincible).
    - apply Ok_inj in Sp. subst g2. reflexivity. }
  cbn [bind].
  pose proof (now_keeps Retro.invincible (fun _ _ => eq_refl) g2) as K3.
  destruct (Retro.now g2) as [t g3]. cbn [snd] in K3.
  intros H. apply Ok_inj in H. subst g'. retro_fields. congruence.
Qed.

Lemma housekeeping_course (fuel : nat) (g g' : Retro.SnakeGame) :
  Retro.housekeeping fuel g = Ok g' -> course g' = course g.
Proof. frame_by (housekeeping_keeps course). Qed.

Lemma course_fields (g g' : Retro.SnakeGame) :
  course g' = course g ->
  Retro.state g' = Retro.state g /\ Retro.snake g' = Retro.snake g /\
  Retro.direction g' = Retro.direction g /\ Retro.obstacles g' = Retro.obstacles g /\
  Retro.score g' = Retro.score g /\ Retro.high_score g' = Retro.high_score g.
Proof. unfold course. intros E. injection E. intros. repeat split; assumption. Qed.

Lemma course_new_head (g g' : Retro.SnakeGame) :
  course g' = course g -> Retro.new_head g' = Retro.new_head g.
Proof.
  intros E. destruct (course_fields _ _ E) as [_ [E2 [E3 _]]].
  unfold Retro.new_head. rewrite E2, E3. reflexivity.
Qed.

Lemma course_check_collision (g g' : Retro.SnakeGame) (pos : Pos) :
  course g' = course g -> Retro.check_collision g' pos = Retro.check_collision g pos.
Proof.
  intros E. destruct (course_fields _ _ E) as [_ [E2 [_ [E4 _]]]].
  unfold Retro.check_collision, Retro.is_obstacle_at. rewrite E2, E4. reflexivity.
Qed.

Lemma pop_keeps_head {A : Type} (h : A) (l : list A) :
  l <> [] -> hd_error (pop (h :: l)) = Some h.
Proof. intros N. unfold pop. destruct l; [congruence | reflexivity]. Qed.

Lemma apply_power_up_head (pu : Retro.PowerUp) (g : Retro.SnakeGame) (h : Pos) :
  hd_error (Retro.snake g) = Some h ->
  hd_error (Retro.snake (Retro.apply_power_up pu g)) = Some h.
Proof.
  intros H. destruct (Retro.pu_type pu) eqn:T.
  - unfold Retro.apply_power_up. rewrite T. exact H.
  - unfold Retro.apply_power_up. rewrite T. exact H.
  - rewrite (apply_power_up_grow pu g (0, 0) T)
      by (destruct (Retro.snake g); [discriminate | discriminate]).
    destruct (Retro.snake g); [discriminate | exact H].
  - unfold Retro.apply_power_up. rewrite T.
    destruct (3 <? Z.of_nat (List.length (Retro.snake g))) eqn:L; [|exact H].
    apply Z.ltb_lt in L.
    replace (Z.to_nat (Z.min 2 (Z.of_nat (List.length (Retro.snake g)) - 1))) with 2%nat
      by lia.
    rewrite for_range_with_snake. cbn [Retro.snake Retro.with_snake Retro.with_score].
    destruct (Retro.snake g) as [|a [|b [|c [|d rest]]]]; cbn [List.length] in L; try lia.
    cbn in H. injection H as ->. cbn [Nat.iter nat_rect]. unfold pop.
    destruct rest; reflexivity.
  - unfold Retro.apply_power_up. rewrite T. exact H.
  - unfold Retro.apply_power_up. rewrite T. exact H.
Qed.

Lemma collect_power_ups_head (head : Pos) (g : Retro.SnakeGame) (h : Pos) :
  hd_error (Retro.snake g) = Some h ->
  hd_error (Retro.snake (Retro.collect_power_ups head g)) = Some h.
Proof.
  rewrite collect_power_ups_fold. generalize (Retro.power_ups g). intros l. revert g.
  induction l as [|pu l IH]; intros g H; [exact H|].
  cbn [fold_left]. apply IH. unfold collect_one. destruct (pos_eqb _ _); [|exact H].
  rewrite (create_power_up_particles_keeps Retro.snake) by (intros; reflexivity).
  cbn [Retro.snake Retro.with_power_ups]. apply apply_power_up_head, H.
Qed.

Lemma eat_or_pop_head (fuel : nat) (head : Pos) (rest : list Pos) (g g' : Retro.SnakeGame) :
  Retro.snake g = head :: rest -> rest <> [] ->
  Retro.eat_or_pop fuel head g = Ok g' ->
  hd_error (Retro.snake g') = Some head.
Proof.
  intros S N H. destruct (pos_eqb head (Retro.food g)) eqn:F.
  - assert (E : Retro.snake g' = Retro.snake g)
      by (revert H; frame_by (eat_or_pop_eats Retro.snake)).
    rewrite E, S. reflexivity.
  - rewrite (eat_or_pop_pops fuel head g F) in H. apply Ok_inj in H. subst g'.
    cbn [Retro.snake Retro.with_snake]. rewrite S. apply pop_keeps_head, N.
Qed.

Lemma new_head_body (g : Retro.SnakeGame) (head : Pos) :
  Retro.new_head g = Ok head -> Retro.snake g <> [].
Proof. unfold Retro.new_head. destruct (Retro.snake g); [discriminate | discriminate]. Qed.

(** X7: an invincible snake goes through everything.  While the timer of
    INVINCIBILITY has ticks left, a tick never ends the game: the head moves
    on to its next cell, be it outside the grid, in an obstacle or on the
    body, and the game goes on. *)
Theorem invincible_snake_goes_through
  (fuel : nat) (g g' : Retro.SnakeGame) (head : Pos) (timer : Z) :
  Retro.state g = Retro.PLAYING ->
  Retro.invincible g = true ->
  NoDup (dict_keys (Retro.effect_timers g)) ->
  In ("invincibility"%string, timer) (Retro.effect_timers g) -> 0 < timer ->
  Retro.new_head g = Ok head ->
  Retro.update_game fuel g = Ok g' ->
  Retro.state g' = Retro.PLAYING /\ hd_error (Retro.snake g') = Some head.
Proof.
  intros P I N T L NH U. unfold Retro.update_game in U. rewrite P in U.
  cbn [Retro.GameState_eqb negb] in U.
  destruct (Retro.housekeeping fuel g) as [g1| |] eqn:HK; try discriminate.
  cbn [bind] in U.
  pose proof (housekeeping_course _ _ _ HK) as C.
  rewrite (course_new_head _ _ C), NH in U. cbn [bind] in U.
  assert (I1 : Retro.invincible g1 = true).
  { rewrite (housekeeping_invincible _ _ _ HK), I. cbn [andb]. apply negb_true_iff.
    destruct (expired _ _) eqn:X; [|reflexivity].
    apply expired_spec in X. destruct X as [t' [H' L']].
    assert (E : ("invincibility"%string, t') = ("invincibility"%string, timer))
      by (apply (NoDup_map_inj fst (Retro.effect_timers g));
          [exact N | exact H' | exact T | reflexivity]).
    injection E as E. lia. }
  rewrite I1, andb_false_r in U.
  destruct (Retro.eat_or_pop fuel head _) as [g2| |] eqn:EP; try discriminate.
  cbn [bind] in U. apply Ok_inj in U. subst g'.
  destruct (course_fields _ _ C) as [P1 [S1 _]].
  split.
  - rewrite (collect_power_ups_keeps Retro.state) by (intros; reflexivity).
    destruct (pos_eqb head (Retro.food (Retro.with_snake (head :: Retro.snake g1) g1))) eqn:F.
    + assert (E : Retro.state g2 = Retro.state (Retro.with_snake (head :: Retro.snake g1) g1))
        by (revert EP; frame_by (eat_or_pop_eats Retro.state)).
      rewrite E. cbn [Retro.state Retro.with_snake]. congruence.
    + rewrite (eat_or_pop_pops fuel head _ F) in EP. apply Ok_inj in EP. subst g2.
      cbn [Retro.state Retro.with_snake]. congruence.
  - apply collect_power_ups_head.
    apply (eat_or_pop_head fuel head (Retro.snake g1)
             (Retro.with_snake (head :: Retro.snake g1) g1) g2); [reflexivity | | exact EP].
    rewrite S1. exact (new_head_body _ _ NH).
Qed.

Lemma invincible_snake_goes_through_witness :
  Retro.check_collision retro_at_the_wall (40, 15) = true /\
  exists g',
    Retro.update_game 3 retro_at_the_wall = Ok g' /\
    Retro.state g' = Retro.PLAYING /\ hd_error (Retro.snake g') = Some (40, 15).
Proof.
  split; [reflexivity|].
  eexists. split; [vm_compute; reflexivity|].
  apply (invincible_snake_goes_through 3 retro_at_the_wall _ (40, 15) 100).
  - reflexivity.
  - reflexivity.
  - cbn. constructor; [intros [] | constructor].
  - left. reflexivity.
  - lia.
  - reflexivity.
  - vm_compute. reflexivity.
Defined.

Lemma housekeeping_not_invincible (fuel : nat) (g g' : Retro.SnakeGame) :
  Retro.housekeeping fuel g = Ok g' -> Retro.invincible g = false ->
  Retro.invincible g' = false.
Proof. intros H I. rewrite (housekeeping_invincible _ _ _ H), I. reflexivity. Qed.

(** X8: a collision ends the game.  Every cell outside the grid collides;
    and a tick of a snake that is not invincible, whose next cell collides
    (a wall, the body, an obstacle), leaves the snake and the score as they
    were, sets the state to GAME_OVER and the high score to the larger of
    high score and score. *)
Theorem collision_ends_the_game :
  (forall g x y,
     ~ (0 <= x < Retro.GRID_WIDTH /\ 0 <= y < Retro.GRID_HEIGHT) ->
     Retro.check_collision g (x, y) = true) /\
  (forall fuel g g' head,
     Retro.state g = Retro.PLAYING ->
     Retro.invincible g = false ->
     Retro.new_head g = Ok head ->
     Retro.check_collision g head = true ->
     Retro.update_game fuel g = Ok g' ->
     Retro.state g' = Retro.GAME_OVER /\
     Retro.snake g' = Retro.snake g /\
     Retro.score g' = Retro.score g /\
     Retro.high_score g' = Z.max (Retro.high_score g) (Retro.score g)).
Proof.
  split.
  - intros g x y H. unfold Retro.check_collision.
    destruct ((x <? 0) || (Retro.GRID_WIDTH <=? x) || (y <? 0) || (Retro.GRID_HEIGHT <=? y))
      eqn:E; [reflexivity|].
    exfalso. apply H.
    repeat (apply orb_false_iff in E; destruct E as [E ?]).
    repeat match goal with
           | H : (_ <=? _) = false |- _ => apply Z.leb_gt in H
           | H : (_ <? _) = false |- _ => apply Z.ltb_ge in H
           end.
    lia.
  - intros fuel g g' head P I NH C U. unfold Retro.update_game in U. rewrite P in U.
    cbn [Retro.GameState_eqb negb] in U.
    destruct (Retro.housekeeping fuel g) as [g1| |] eqn:HK; try discriminate.
    cbn [bind] in U.
    pose proof (housekeeping_course _ _ _ HK) as Co.
    rewrite (course_new_head _ _ Co), NH in U. cbn [bind] in U.
    rewrite (course_check_collision _ _ head Co), C,
      (housekeeping_not_invincible _ _ _ HK I) in U.
    cbn [andb negb] in U.
    destruct (game_over_file g1 (new_head_body _ _ ltac:(rewrite (course_new_head _ _ Co); exact NH)))
      as [g'' [E [S [H _]]]].
    rewrite E in U. apply Ok_inj in U. subst g''.
    assert (Sn : Retro.snake g' = Retro.snake g1)
      by (revert E; frame_by (game_over_keeps Retro.snake)).
    assert (Sc : Retro.score g' = Retro.score g1)
      by (revert E; frame_by (game_over_keeps Retro.score)).
    destruct (course_fields _ _ Co) as [_ [C2 [_ [_ [C5 C6]]]]].
    rewrite S, Sn, Sc, H. repeat split; congruence.
Qed.

Lemma collision_ends_the_game_witness :
  Retro.check_collision retro_blank (40, 15) = true /\
  exists g',
    Retro.update_game 3 (Retro.with_rng a_script retro_square) = Ok g' /\
    Retro.state g' = Retro.GAME_OVER /\
    Retro.snake g' = Retro.snake (Retro.with_rng a_script retro_square) /\
    Retro.score g' = Retro.score (Retro.with_rng a_script retro_square) /\
    Retro.high_score g' =
      Z.max (Retro.high_score (Retro.with_rng a_script retro_square))
            (Retro.score (Retro.with_rng a_script retro_square)).
Proof.
  split.
  - apply (proj1 collision_ends_the_game retro_blank 40 15). intros [[_ H] _].
    vm_compute in H. discriminate.
  - eexists. split; [vm_compute; reflexivity|].
    apply (proj2 collision_ends_the_game 3%nat (Retro.with_rng a_script retro_square) _ (6, 5)).
    + reflexivity.
    + reflexivity.
    + reflexivity.
    + reflexivity.
    + vm_compute. reflexivity.
Defined.

(** * PiSnake: the game *)

Lemma Pi_delays_closed (delay : float) :
  In delay Pi_delays -> In (PiGame.speed_up delay) Pi_delays.
Proof.
  unfold Pi_delays. cbn [In].
  intros [<- | [<- | [<- | [<- | [<- | [<- | [<- | []]]]]]]]; vm_compute; tauto.
Qed.

Lemma Pi_delays_bounds (delay : float) :
  In delay Pi_delays -> (0.1 <=? delay)%float = true /\ (delay <=? 0.2)%float = true.
Proof.
  unfold Pi_delays. cbn [In].
  intros [<- | [<- | [<- | [<- | [<- | [<- | [<- | []]]]]]]]; split; reflexivity.
Qed.

Lemma Pi_delay_after_listed (apples_eaten : Z) : In (Pi_delay_after apples_eaten) Pi_delays.
Proof.
  unfold Pi_delay_after. induction (Z.to_nat (apples_eaten / 5)) as [|n IH].
  - left. reflexivity.
  - rewrite Nat.iter_succ. apply Pi_delays_closed. exact IH.
Qed.

Lemma Pi_delay_after_next (apples_eaten : Z) :
  0 <= apples_eaten ->
  Pi_delay_after (apples_eaten + 1)
  = if (apples_eaten + 1) mod 5 =? 0 then PiGame.speed_up (Pi_delay_after apples_eaten)
    else Pi_delay_after apples_eaten.
Proof.
  intros P. unfold Pi_delay_after.
  destruct ((apples_eaten + 1) mod 5 =? 0) eqn:M.
  - apply Z.eqb_eq in M.
    replace ((apples_eaten + 1) / 5) with (apples_eaten / 5 + 1)
      by (Z.div_mod_to_equations; lia).
    rewrite Z2Nat.inj_add by (try apply Z.div_pos; lia).
    rewrite Nat.add_comm. reflexivity.
  - apply Z.eqb_neq in M.
    replace ((apples_eaten + 1) / 5) with (apples_eaten / 5)
      by (Z.div_mod_to_equations; lia).
    reflexivity.
Qed.

(** ** The spawners leave the board in order *)

Lemma Pi_is_obstacle_In (g : PiSnake.Game) (x y : Z) :
  PiSnake.is_obstacle g x y = true <-> In (x, y) (map Pi_cell (PiSnake.obstacles g)).
Proof.
  unfold PiSnake.is_obstacle. rewrite existsb_exists, in_map_iff. split.
  - intros [ob [H E]]. apply andb_true_iff in E. destruct E as [E1 E2].
    apply Z.eqb_eq in E1, E2. exists ob. split; [|exact H]. unfold Pi_cell. congruence.
  - intros [ob [E H]]. exists ob. split; [exact H|]. unfold Pi_cell in E.
    injection E as E1 E2. rewrite E1, E2, !Z.eqb_refl. reflexivity.
Qed.

Lemma Pi_rest_fields (c c' : PiSnake.Game) :
  Pi_rest c' = Pi_rest c ->
  PiSnake.snake c' = PiSnake.snake c /\ PiSnake.score c' = PiSnake.score c /\
  PiSnake.apples_eaten c' = PiSnake.apples_eaten c /\
  PiSnake.game_over c' = PiSnake.game_over c /\ PiSnake.paused c' = PiSnake.paused c.
Proof.
  unfold Pi_rest. generalize (PiSnake.snake c') (PiSnake.score c') (PiSnake.apples_eaten c')
    (PiSnake.game_over c') (PiSnake.paused c').
  intros s sc ae go pa E. injection E. intros. repeat split; assumption.
Qed.

Lemma Pi_rest_snake (c c' : PiSnake.Game) :
  Pi_rest c' = Pi_rest c -> PiSnake.snake c' = PiSnake.snake c.
Proof. intros E. apply (Pi_rest_fields _ _ E). Qed.

Lemma Pi_spawn_apple_in_order (c : PiSnake.Game) :
  Pi_board_in_order c ->
  Pi_board_in_order (PiSnake.spawn_apple c) /\
  Pi_rest (PiSnake.spawn_apple c) = Pi_rest c /\
  PiSnake.obstacles (PiSnake.spawn_apple c) = PiSnake.obstacles c.
Proof.
  intros [N A]. unfold PiSnake.spawn_apple.
  destruct (Pi_spawn_apple_loop_spec 100 c) as [F H]. cbn zeta in F, H.
  set (c' := PiSnake.spawn_apple_loop 100 c) in *.
  assert (O : PiSnake.obstacles c' = PiSnake.obstacles c) by (rewrite F; reflexivity).
  split; [|split; [rewrite F; reflexivity | exact O]].
  split; [rewrite O; exact N|].
  intros a Ha. unfold PiSnake.is_obstacle. rewrite O.
  destruct H as [H | [x [y [H [_ Ob]]]]].
  - apply A. rewrite <- H. exact Ha.
  - rewrite H in Ha. injection Ha as <-. exact Ob.
Qed.

Lemma Pi_spawn_obstacle_loop_in_order (left : nat) (c : PiSnake.Game) :
  Pi_board_in_order c ->
  Pi_board_in_order (PiSnake.spawn_obstacle_loop left c) /\
  Pi_rest (PiSnake.spawn_obstacle_loop left c) = Pi_rest c /\
  PiSnake.apple (PiSnake.spawn_obstacle_loop left c) = PiSnake.apple c /\
  (PiSnake.obstacles (PiSnake.spawn_obstacle_loop left c) = PiSnake.obstacles c \/
   exists x y,
     PiSnake.obstacles (PiSnake.spawn_obstacle_loop left c)
       = PiSnake.obstacles c ++ [{| PiSnake.o_x := x; PiSnake.o_y := y |}] /\
     PiSnake.check_collision (PiSnake.snake c) x y = false).
Proof.
  revert c. induction left as [|left IH]; intros c B.
  - cbn [PiSnake.spawn_obstacle_loop]. repeat split; try apply B. left. reflexivity.
  - cbn [PiSnake.spawn_obstacle_loop].
    destruct (randint 0 (PiSnake.GRID_WIDTH - 1) (PiSnake.rng c)) as [x o1].
    destruct (randint 0 (PiSnake.GRID_HEIGHT - 1) o1) as [y o2].
    match goal with |- context [if ?b then _ else _] => destruct b eqn:C end.
    + apply andb_true_iff in C. destruct C as [C C3].
      apply andb_true_iff in C. destruct C as [C1 C2].
      apply negb_true_iff in C1, C2. cbn [PiSnake.snake PiSnake.with_rng] in C1.
      change (PiSnake.is_obstacle (PiSnake.with_rng o2 c) x y)
        with (PiSnake.is_obstacle c x y) in C2.
      cbn [PiSnake.apple PiSnake.with_rng] in C3.
      destruct B as [N A].
      split; [|split; [reflexivity | split; [reflexivity|]]].
      * split.
        -- cbn [PiSnake.obstacles PiSnake.with_obstacles PiSnake.with_rng].
           rewrite map_app. cbn [map Pi_cell PiSnake.o_x PiSnake.o_y].
           apply NoDup_app; [exact N | constructor; [intros [] | constructor] |].
           intros p Hp [<- | []].
           apply Pi_is_obstacle_In in Hp. cbn [PiSnake.o_x PiSnake.o_y] in Hp. congruence.
        -- intros a Ha. cbn [PiSnake.apple PiSnake.with_obstacles PiSnake.with_rng] in Ha.
           unfold PiSnake.is_obstacle.
           cbn [PiSnake.obstacles PiSnake.with_obstacles PiSnake.with_rng].
           rewrite existsb_app. apply orb_false_iff. split; [exact (A a Ha)|].
           cbn [existsb PiSnake.o_x PiSnake.o_y]. rewrite orb_false_r.
           rewrite Ha in C3. apply orb_true_iff in C3.
           destruct C3 as [C3 | C3]; apply negb_true_iff in C3; rewrite C3;
             [reflexivity | apply andb_false_r].
      * right. exists x, y. split; [reflexivity | exact C1].
    + assert (B' : Pi_board_in_order (PiSnake.with_rng o2 c)) by exact B.
      destruct (IH _ B') as [H1 [H2 [H3 H4]]].
      split; [exact H1|]. split; [exact H2|]. split; [exact H3 | exact H4].
Qed.

Lemma Pi_for_range_obstacles (n : nat) (c : PiSnake.Game) :
  Pi_board_in_order c ->
  Pi_board_in_order (for_range n (PiSnake.spawn_obstacle_loop 30) c) /\
  Pi_rest (for_range n (PiSnake.spawn_obstacle_loop 30) c) = Pi_rest c /\
  PiSnake.apple (for_range n (PiSnake.spawn_obstacle_loop 30) c) = PiSnake.apple c /\
  exists new,
    PiSnake.obstacles (for_range n (PiSnake.spawn_obstacle_loop 30) c)
      = PiSnake.obstacles c ++ new /\
    (List.length new <= n)%nat /\
    forall ob, In ob new ->
      PiSnake.check_collision (PiSnake.snake c) (PiSnake.o_x ob) (PiSnake.o_y ob) = false.
Proof.
  revert c. induction n as [|n IH]; intros c B.
  - cbn [for_range]. repeat split; try apply B.
    exists []. rewrite app_nil_r. repeat split; [cbn; lia | intros ob []].
  - cbn [for_range].
    destruct (Pi_spawn_obstacle_loop_in_order 30 c B) as [B1 [R1 [A1 O1]]].
    destruct (IH _ B1) as [B2 [R2 [A2 [new [O2 [L2 S2]]]]]].
    split; [exact B2|]. split; [congruence|]. split; [congruence|].
    pose proof (Pi_rest_snake _ _ R1) as Sn.
    rewrite Sn in S2.
    destruct O1 as [O1 | [x [y [O1 C1]]]].
    + exists new. rewrite O2, O1. repeat split; [lia | exact S2].
    + exists ({| PiSnake.o_x := x; PiSnake.o_y := y |} :: new).
      rewrite O2, O1, <- app_assoc. repeat split; [cbn [List.length]; lia|].
      intros ob [<- | H]; [exact C1 | exact (S2 ob H)].
Qed.

Lemma Pi_spawn_obstacles_in_order (c : PiSnake.Game) :
  Pi_board_in_order c ->
  Pi_board_in_order (PiSnake.spawn_obstacles c) /\
  Pi_rest (PiSnake.spawn_obstacles c) = Pi_rest c /\
  PiSnake.apple (PiSnake.spawn_obstacles c) = PiSnake.apple c /\
  exists new,
    PiSnake.obstacles (PiSnake.spawn_obstacles c) = PiSnake.obstacles c ++ new /\
    (List.length new <= 6)%nat /\
    forall ob, In ob new ->
      PiSnake.check_collision (PiSnake.snake c) (PiSnake.o_x ob) (PiSnake.o_y ob) = false.
Proof.
  intros B. unfold PiSnake.spawn_obstacles.
  destruct (Pi_for_range_obstacles
              (Z.to_nat (Z.min 6 (PiSnake.apples_eaten c / 5 + 1))) c B)
    as [B1 [R1 [A1 [new [O1 [L1 S1]]]]]].
  split; [exact B1|]. split; [exact R1|]. split; [exact A1|].
  exists new. split; [exact O1|]. split; [lia | exact S1].
Qed.

(** ** The particles *)

Section PiGameProofs.

Variables cos sin : float -> float.

Lemma Pi_explode_once_spec (x y : Z) (g : PiGame.Game) :
  List.length (PiGame.particles (PiGame.explode_once cos sin x y g))
    = S (List.length (PiGame.particles g)) /\
  PiGame.core (PiGame.explode_once cos sin x y g)
    = PiSnake.with_rng (PiSnake.rng (PiGame.core (PiGame.explode_once cos sin x y g)))
        (PiGame.core g).
Proof.
  unfold PiGame.explode_once.
  destruct (PiGame.uniform_float 0 PiGame.two_pi _) as [angle o1].
  destruct (PiGame.uniform_float 30 80 o1) as [speed o2].
  destruct (PiGame.uniform_float 0.3 0.8 o2) as [lifetime o3].
  cbn [PiGame.particles PiGame.core PiGame.with_particles PiGame.with_core].
  split; [rewrite length_app; cbn [List.length]; lia | reflexivity].
Qed.

Lemma Pi_explosions_spec (x y : Z) (n : nat) (g : PiGame.Game) :
  List.length (PiGame.particles (for_range n (PiGame.explode_once cos sin x y) g))
    = (List.length (PiGame.particles g) + n)%nat /\
  PiGame.core (for_range n (PiGame.explode_once cos sin x y) g)
    = PiSnake.with_rng
        (PiSnake.rng (PiGame.core (for_range n (PiGame.explode_once cos sin x y) g)))
        (PiGame.core g).
Proof.
  revert g. induction n as [|n IH]; intros g; cbn [for_range].
  - split; [lia | destruct (PiGame.core g); reflexivity].
  - destruct (IH (PiGame.explode_once cos sin x y g)) as [L C].
    destruct (Pi_explode_once_spec x y g) as [L1 C1].
    split; [lia|]. rewrite C at 1. rewrite C1. reflexivity.
Qed.

(** [add_explosion] adds [count] particles when at most 20 are there, none
    otherwise; of the game it moves the generator only. *)
Lemma Pi_add_explosion_spec (x y : Z) (count : nat) (g : PiGame.Game) :
  List.length (PiGame.particles (PiGame.add_explosion cos sin x y count g))
    = (if (20 <? List.length (PiGame.particles g))%nat
       then List.length (PiGame.particles g)
       else List.length (PiGame.particles g) + count)%nat /\
  PiGame.core (PiGame.add_explosion cos sin x y count g)
    = PiSnake.with_rng (PiSnake.rng (PiGame.core (PiGame.add_explosion cos sin x y count g)))
        (PiGame.core g).
Proof.
  unfold PiGame.add_explosion, PiGame.max_particles.
  destruct (20 <? Z.of_nat (List.length (PiGame.particles g))) eqn:E.
  - apply Z.ltb_lt in E.
    replace (20 <? List.length (PiGame.particles g))%nat with true
      by (symmetry; apply Nat.ltb_lt; lia).
    split; [reflexivity | destruct (PiGame.core g); reflexivity].
  - apply Z.ltb_ge in E.
    replace (20 <? List.length (PiGame.particles g))%nat with false
      by (symmetry; apply Nat.ltb_ge; lia).
    apply Pi_explosions_spec.
Qed.

Lemma Pi_particles_update_length (dt : float) (l : list PiSnake.Particle) :
  (List.length (PiSnake.ParticleSystem_update dt l) <= List.length l)%nat.
Proof.
  unfold PiSnake.ParticleSystem_update. rewrite length_map. apply filter_length_le.
Qed.

(** ** The snake in the game *)

Lemma Pi_Snake_update_returns (dt : float) (s : PiSnake.Snake) :
  PiSnake.segments s <> [] ->
  exists s',
    PiSnake.Snake_update dt s = Ok s' /\
    PiSnake.segments s' <> [] /\ PiSnake.move_delay s' = PiSnake.move_delay s.
Proof.
  intros N. unfold PiSnake.Snake_update.
  destruct (_ <=? _)%float.
  - unfold PiSnake.move. cbn [PiSnake.segments PiSnake.next_direction PiSnake.growing
      PiSnake.move_timer PiSnake.move_delay].
    destruct (PiSnake.segments s) as [|[hx hy] rest]; [congruence|].
    destruct (value _) as [dx dy].
    destruct (negb (PiSnake.growing s)); eexists; (split; [reflexivity|]);
      cbn [PiSnake.segments PiSnake.move_delay]; (split; [|reflexivity]).
    + unfold pop. destruct rest; discriminate.
    + discriminate.
  - eexists. split; [reflexivity|]. split; [exact N | reflexivity].
Qed.

Lemma Pi_Snake_update_spec (dt : float) (s : PiSnake.Snake) :
  Pi_reachable s ->
  exists s',
    PiSnake.Snake_update dt s = Ok s' /\
    Pi_reachable s' /\ PiSnake.move_delay s' = PiSnake.move_delay s.
Proof.
  intros R.
  destruct (Pi_Snake_update_returns dt s (Pi_reachable_nonempty s R)) as [s' [E [_ D]]].
  exists s'. split; [exact E|]. split; [exact (pi_update dt s s' R E) | exact D].
Qed.

Lemma Pi_steady_intro (g : PiGame.Game) :
  Pi_reachable (PiSnake.snake (PiGame.core g)) ->
  PiSnake.score (PiGame.core g) = 10 * PiSnake.apples_eaten (PiGame.core g) ->
  0 <= PiSnake.apples_eaten (PiGame.core g) ->
  (List.length (PiGame.particles g) <= 30)%nat ->
  Pi_board_in_order (PiGame.core g) ->
  PiSnake.move_delay (PiSnake.snake (PiGame.core g))
    = Pi_delay_after (PiSnake.apples_eaten (PiGame.core g)) ->
  Pi_steady g.
Proof. intros. unfold Pi_steady. cbn zeta. repeat split; try assumption; apply H3. Qed.

Lemma Pi_steady_elim (g : PiGame.Game) :
  Pi_steady g ->
  Pi_reachable (PiSnake.snake (PiGame.core g)) /\
  PiSnake.score (PiGame.core g) = 10 * PiSnake.apples_eaten (PiGame.core g) /\
  0 <= PiSnake.apples_eaten (PiGame.core g) /\
  (List.length (PiGame.particles g) <= 30)%nat /\
  Pi_board_in_order (PiGame.core g) /\
  PiSnake.move_delay (PiSnake.snake (PiGame.core g))
    = Pi_delay_after (PiSnake.apples_eaten (PiGame.core g)).
Proof.
  unfold Pi_steady. cbn zeta. intros [H1 [[H2 H3] [H4 [H5 H6]]]].
  repeat split; try assumption; apply H5.
Qed.

(** The block of the apple: ten points and one apple more, a board in
    order, at most six particles more. *)
Lemma Pi_eat_steady (a : PiSnake.Apple) (g : PiGame.Game) :
  Pi_steady g ->
  Pi_steady (PiGame.eat cos sin a g) /\
  (List.length (PiGame.particles (PiGame.eat cos sin a g))
   <= Nat.max (List.length (PiGame.particles g)) 26)%nat /\
  PiSnake.segments (PiSnake.snake (PiGame.core (PiGame.eat cos sin a g)))
    = PiSnake.segments (PiSnake.snake (PiGame.core g)) /\
  PiSnake.game_over (PiGame.core (PiGame.eat cos sin a g))
    = PiSnake.game_over (PiGame.core g) /\
  PiSnake.score (PiGame.core (PiGame.eat cos sin a g)) = PiSnake.score (PiGame.core g) + 10.
Proof.
  intros T. apply Pi_steady_elim in T. destruct T as [N [Sc [Ae [Pa [B D]]]]].
  unfold PiGame.eat.
  set (c1 := PiGame.with_score _ _ _).
  assert (Sc1 : PiSnake.score c1 = PiSnake.score (PiGame.core g) + 10) by reflexivity.
  assert (Ae1 : PiSnake.apples_eaten c1 = PiSnake.apples_eaten (PiGame.core g) + 1)
    by reflexivity.
  assert (S1 : PiSnake.segments (PiSnake.snake c1)
               = PiSnake.segments (PiSnake.snake (PiGame.core g))) by reflexivity.
  assert (R1 : Pi_reachable (PiSnake.snake c1)) by exact (pi_grow _ N).
  assert (D1 : PiSnake.move_delay (PiSnake.snake c1)
               = PiSnake.move_delay (PiSnake.snake (PiGame.core g))) by reflexivity.
  assert (Go1 : PiSnake.game_over c1 = PiSnake.game_over (PiGame.core g)) by reflexivity.
  set (g1 := PiGame.with_core c1 g).
  destruct (Pi_add_explosion_spec
              (PiSnake.a_x a * PiSnake.GRID_SIZE + PiSnake.GRID_SIZE / 2)
              (PiSnake.a_y a * PiSnake.GRID_SIZE + PiSnake.GRID_SIZE / 2) 6 g1) as [L2 C2].
  set (g2 := PiGame.add_explosion cos sin _ _ 6 g1) in *.
  assert (B2 : Pi_board_in_order (PiGame.core g2)) by (rewrite C2; exact B).
  destruct (Pi_spawn_apple_in_order _ B2) as [B3 [R3 O3]].
  set (c3 := PiSnake.spawn_apple (PiGame.core g2)) in *.
  destruct (Pi_rest_fields _ _ R3) as [S3 [Sc3 [Ae3 [Go3 _]]]].
  assert (F2 : Pi_rest (PiGame.core g2) = Pi_rest c1) by (rewrite C2; reflexivity).
  destruct (Pi_rest_fields _ _ F2) as [S2 [Sc2 [Ae2 [Go2 _]]]].
  assert (P2 : (List.length (PiGame.particles g2)
                <= Nat.max (List.length (PiGame.particles g)) 26)%nat).
  { rewrite L2. change (PiGame.particles g1) with (PiGame.particles g).
    destruct (20 <? List.length (PiGame.particles g))%nat eqn:E;
      [|apply Nat.ltb_ge in E]; lia. }
  cbn [PiGame.core PiGame.with_core].
  assert (Ae31 : PiSnake.apples_eaten c3 = PiSnake.apples_eaten (PiGame.core g) + 1)
    by (rewrite Ae3, Ae2; exact Ae1).
  destruct (PiSnake.apples_eaten c3 mod 5 =? 0) eqn:M; rewrite Ae31 in M.
  - destruct (Pi_spawn_obstacles_in_order _ B3) as [B4 [R4 [A4 _]]].
    destruct (Pi_rest_fields _ _ R4) as [S4 [Sc4 [Ae4 [Go4 _]]]].
    split; [apply Pi_steady_intro|];
      cbn [PiGame.core PiGame.with_core PiGame.particles PiSnake.snake PiGame.with_snake
           PiSnake.score PiSnake.apples_eaten PiSnake.segments Pi_with_move_delay
           PiSnake.move_delay PiSnake.game_over].
    + apply pi_delay. rewrite S4, S3, S2. exact R1.
    + rewrite Sc4, Ae4, Sc3, Ae3, Sc2, Ae2, Sc1, Ae1. lia.
    + rewrite Ae4, Ae3, Ae2, Ae1. lia.
    + lia.
    + exact B4.
    + rewrite S4, S3, S2, D1, D, Ae4, Ae3, Ae2, Ae1, Pi_delay_after_next, M by exact Ae.
      reflexivity.
    + split; [exact P2|]. rewrite S4, S3, S2, S1, Go4, Go3, Go2, Go1, Sc4, Sc3, Sc2, Sc1.
      repeat split.
  - split; [apply Pi_steady_intro|];
      cbn [PiGame.core PiGame.with_core PiGame.particles].
    + rewrite S3, S2. exact R1.
    + rewrite Sc3, Ae3, Sc2, Ae2, Sc1, Ae1. lia.
    + rewrite Ae3, Ae2, Ae1. lia.
    + lia.
    + exact B3.
    + rewrite S3, S2, D1, D, Ae3, Ae2, Ae1, Pi_delay_after_next, M by exact Ae.
      reflexivity.
    + split; [exact P2|]. rewrite S3, S2, S1, Go3, Go2, Go1, Sc3, Sc2, Sc1. repeat split.
Qed.

End PiGameProofs.

Section PiGameUpdate.

Variables cos sin : float -> float.

(** [Pi_steady] looks at the segments, the delay, the counters, the cells of
    the board and the number of particles. *)
Lemma Pi_steady_ext (g g' : PiGame.Game) :
  Pi_steady g ->
  Pi_reachable (PiSnake.snake (PiGame.core g')) ->
  PiSnake.move_delay (PiSnake.snake (PiGame.core g'))
    = PiSnake.move_delay (PiSnake.snake (PiGame.core g)) ->
  PiSnake.score (PiGame.core g') = PiSnake.score (PiGame.core g) ->
  PiSnake.apples_eaten (PiGame.core g') = PiSnake.apples_eaten (PiGame.core g) ->
  PiSnake.obstacles (PiGame.core g') = PiSnake.obstacles (PiGame.core g) ->
  option_map (fun a => (PiSnake.a_x a, PiSnake.a_y a)) (PiSnake.apple (PiGame.core g'))
    = option_map (fun a => (PiSnake.a_x a, PiSnake.a_y a)) (PiSnake.apple (PiGame.core g)) ->
  (List.length (PiGame.particles g') <= 30)%nat ->
  Pi_steady g'.
Proof.
  intros T N D Sc Ae Ob Ap Pa. apply Pi_steady_elim in T.
  destruct T as [_ [Sc0 [Ae0 [_ [[B1 B2] D0]]]]].
  apply Pi_steady_intro; try congruence; try lia.
  split; [rewrite Ob; exact B1|].
  intros a Ea. unfold PiSnake.is_obstacle. rewrite Ob.
  rewrite Ea in Ap. destruct (PiSnake.apple (PiGame.core g)) as [a0|] eqn:E0; [|discriminate].
  cbn [option_map] in Ap. injection Ap as -> ->. apply (B2 a0 eq_refl).
Qed.

(** [Game.update] returns in a steady state, and the state it returns is
    steady; the score stays or goes up by ten; a game that is over or
    paused stays as it is. *)
Lemma Pi_update_steady (dt : float) (g : PiGame.Game) :
  Pi_steady g ->
  exists g',
    PiGame.update cos sin dt g = Ok g' /\ Pi_steady g' /\
    (PiSnake.score (PiGame.core g') = PiSnake.score (PiGame.core g) \/
     PiSnake.score (PiGame.core g') = PiSnake.score (PiGame.core g) + 10) /\
    (PiSnake.game_over (PiGame.core g) || PiSnake.paused (PiGame.core g) = true -> g' = g).
Proof.
  intros T. unfold PiGame.update.
  destruct (PiSnake.game_over (PiGame.core g) || PiSnake.paused (PiGame.core g)) eqn:GP.
  { exists g. split; [reflexivity|]. split; [exact T|]. split; [left|]; reflexivity. }
  destruct (time_time _) as [now o].
  match goal with
  | |- context [bind (PiSnake.Snake_update dt (PiSnake.snake (PiGame.core ?x)))] =>
      set (g1 := x)
  end.
  assert (C1 : PiGame.core g1 = PiSnake.with_rng o (PiGame.core g))
    by (subst g1; destruct (_ <=? _)%float; reflexivity).
  assert (P1 : PiGame.particles g1 = PiGame.particles g)
    by (subst g1; destruct (_ <=? _)%float; reflexivity).
  clearbody g1.
  pose proof (Pi_steady_elim _ T) as [N [Sc [Ae [Pa [B D]]]]].
  destruct (Pi_Snake_update_spec dt (PiSnake.snake (PiGame.core g1))) as [s' [E [N' D']]].
  { rewrite C1. exact N. }
  rewrite E. cbn [bind].
  set (g2 := PiGame.with_particles _ _).
  assert (T2 : Pi_steady g2).
  { apply (Pi_steady_ext g); try assumption; subst g2;
      cbn [PiGame.core PiGame.with_particles PiGame.with_core PiGame.with_snake
           PiSnake.with_apple PiSnake.snake PiSnake.score PiSnake.apples_eaten
           PiSnake.obstacles PiSnake.apple PiGame.particles];
      rewrite ?D', ?C1; try reflexivity.
    - cbn [PiSnake.apple PiSnake.with_rng].
      destruct (PiSnake.apple (PiGame.core g)); reflexivity.
    - rewrite P1. pose proof (Pi_particles_update_length dt (PiGame.particles g)). lia. }
  assert (Sc2 : PiSnake.score (PiGame.core g2) = PiSnake.score (PiGame.core g))
    by (subst g2; cbn [PiGame.core PiGame.with_particles PiGame.with_core PiGame.with_snake
                       PiSnake.with_apple PiSnake.score]; rewrite C1; reflexivity).
  assert (P2 : (List.length (PiGame.particles g2) <= List.length (PiGame.particles g))%nat)
    by (subst g2; cbn [PiGame.particles PiGame.with_particles PiGame.with_core];
        rewrite P1; apply Pi_particles_update_length).
  clearbody g2. clear E N' D' s' C1 P1 g1.
  pose proof (Pi_steady_elim _ T2) as [N2 _]. apply Pi_reachable_nonempty in N2.
  unfold PiSnake.get_head_position at 1.
  destruct (PiSnake.segments (PiSnake.snake (PiGame.core g2))) as [|[hx hy] rest] eqn:Sg;
    [congruence|].
  cbn [bind].
  set (g3 := match PiSnake.apple (PiGame.core g2) with Some _ => _ | None => _ end).
  assert (T3 : Pi_steady g3 /\
               (List.length (PiGame.particles g3)
                <= Nat.max (List.length (PiGame.particles g2)) 26)%nat /\
               PiSnake.segments (PiSnake.snake (PiGame.core g3)) = (hx, hy) :: rest /\
               (PiSnake.score (PiGame.core g3) = PiSnake.score (PiGame.core g2) \/
                PiSnake.score (PiGame.core g3) = PiSnake.score (PiGame.core g2) + 10)).
  { subst g3. destruct (PiSnake.apple (PiGame.core g2)) as [a|].
    - destruct (pos_eqb _ _).
      + destruct (Pi_eat_steady cos sin a g2 T2) as [H1 [H2 [H3 [_ H5]]]].
        split; [exact H1|]. split; [exact H2|]. split; [rewrite H3; exact Sg | right; exact H5].
      + split; [exact T2|]. split; [lia|]. split; [exact Sg | left; reflexivity].
    - split; [exact T2|]. split; [lia|]. split; [exact Sg | left; reflexivity]. }
  clearbody g3. destruct T3 as [T3 [P3 [S3 Sc3]]].
  unfold PiSnake.check_wall_collision, PiSnake.check_self_collision,
    PiSnake.get_head_position.
  rewrite S3. cbn [bind tl].
  set (hit := if (_ || _ || _ || _)%bool then Ok true else _).
  assert (H : exists b, hit = Ok b).
  { subst hit. destruct (_ || _ || _ || _)%bool; [eexists; reflexivity|].
    destruct (py_in _ _); eexists; reflexivity. }
  destruct H as [b ->]. cbn [bind].
  destruct b.
  - eexists. split; [reflexivity|].
    set (g4 := PiGame.with_core _ g3).
    destruct (Pi_add_explosion_spec cos sin
                (hx * PiSnake.GRID_SIZE + PiSnake.GRID_SIZE / 2)
                (hy * PiSnake.GRID_SIZE + PiSnake.GRID_SIZE / 2) 10 g4) as [L5 C5].
    set (g5 := PiGame.add_explosion cos sin _ _ 10 g4) in *.
    assert (Sc5 : PiSnake.score (PiGame.core g5) = PiSnake.score (PiGame.core g3))
      by (rewrite C5; reflexivity).
    split; [|split; [|discriminate]].
    + apply (Pi_steady_ext g3); try assumption; try (rewrite C5; reflexivity).
      * rewrite C5. exact (proj1 (Pi_steady_elim _ T3)).
      * rewrite L5. change (PiGame.particles g4) with (PiGame.particles g3).
        destruct (20 <? List.length (PiGame.particles g3))%nat eqn:E20;
          [|apply Nat.ltb_ge in E20]; lia.
    + rewrite Sc5. destruct Sc3 as [-> | ->]; [left | right]; congruence.
  - exists g3. split; [reflexivity|]. split; [exact T3|]. split; [|discriminate].
    destruct Sc3 as [-> | ->]; [left | right]; congruence.
Qed.

(** A new game. *)
Lemma Pi_reset_core_fields (o : Oracle) :
  PiSnake.snake (PiGame.reset_core o)
    = PiSnake.Snake_init (PiSnake.GRID_WIDTH / 2) (PiSnake.GRID_HEIGHT / 2) /\
  PiSnake.score (PiGame.reset_core o) = 0 /\
  PiSnake.apples_eaten (PiGame.reset_core o) = 0 /\
  Pi_board_in_order (PiGame.reset_core o) /\
  PiSnake.obstacles (PiGame.reset_core o) = [] /\
  PiSnake.game_over (PiGame.reset_core o) = false /\
  PiSnake.paused (PiGame.reset_core o) = false.
Proof.
  unfold PiGame.reset_core.
  set (c := {| PiSnake.snake := _ |}).
  assert (B : Pi_board_in_order c).
  { split; [constructor | intros a Ea; discriminate]. }
  destruct (Pi_spawn_apple_in_order c B) as [B' [R O]].
  destruct (Pi_rest_fields _ _ R) as [S [Sc [Ae [Go Pa]]]].
  rewrite S, Sc, Ae, Go, Pa, O.
  do 3 (split; [reflexivity|]). split; [exact B'|]. repeat split.
Qed.

Lemma Pi_reset_game_steady (g : PiGame.Game) :
  (List.length (PiGame.particles g) <= 30)%nat -> Pi_steady (PiGame.reset_game g).
Proof.
  intros Pa. unfold PiGame.reset_game.
  destruct (Pi_reset_core_fields (PiSnake.rng (PiGame.core g)))
    as [S [Sc [Ae [B _]]]].
  apply Pi_steady_intro; cbn [PiGame.core PiGame.with_core PiGame.particles];
    try assumption; try lia.
  - rewrite S. apply pi_init.
  - rewrite S, Ae. reflexivity.
Qed.

Lemma Pi_Game_init_steady (o : Oracle) : Pi_steady (PiGame.Game_init o).
Proof.
  unfold PiGame.Game_init.
  destruct (Pi_reset_core_fields o) as [S [Sc [Ae [B _]]]].
  destruct (time_time _) as [now o'].
  apply Pi_steady_intro; cbn [PiGame.core PiGame.particles PiSnake.with_rng PiSnake.snake
                              PiSnake.score PiSnake.apples_eaten List.length];
    try assumption; try lia.
  - rewrite S. apply pi_init.
  - rewrite S, Ae. reflexivity.
Qed.

Lemma Pi_set_direction_fields (d : Direction) (s : PiSnake.Snake) :
  PiSnake.segments (PiSnake.set_direction d s) = PiSnake.segments s /\
  PiSnake.move_delay (PiSnake.set_direction d s) = PiSnake.move_delay s /\
  PiSnake.direction (PiSnake.set_direction d s) = PiSnake.direction s.
Proof.
  unfold PiSnake.set_direction.
  destruct (1 <? _); [destruct (negb _)|]; repeat split.
Qed.

Lemma Pi_turn_steady (d : Direction) (g : PiGame.Game) :
  Pi_steady g ->
  Pi_steady (PiGame.with_core
               (PiGame.with_snake (PiSnake.set_direction d (PiSnake.snake (PiGame.core g)))
                  (PiGame.core g)) g).
Proof.
  intros T. destruct (Pi_set_direction_fields d (PiSnake.snake (PiGame.core g))) as [S [D _]].
  pose proof (Pi_steady_elim _ T) as [N [_ [_ [Pa _]]]].
  apply (Pi_steady_ext g); try assumption;
    cbn [PiGame.core PiGame.with_core PiGame.with_snake PiSnake.snake PiSnake.score
         PiSnake.apples_eaten PiSnake.obstacles PiSnake.apple PiGame.particles];
    try reflexivity; try assumption.
  apply pi_set_direction. exact N.
Qed.

Lemma Pi_handle_events_steady (events : list PiGame.Event) (g : PiGame.Game) :
  Pi_steady g -> Pi_steady (snd (PiGame.handle_events events g)).
Proof.
  revert g. induction events as [|e events IH]; intros g T; [exact T|].
  pose proof (Pi_steady_elim _ T) as [N [_ [_ [Pa _]]]].
  assert (Tp : Pi_steady (PiGame.with_core
                            (PiGame.with_paused (negb (PiSnake.paused (PiGame.core g)))
                               (PiGame.core g)) g)).
  { apply (Pi_steady_ext g); try assumption; try reflexivity. }
  destruct e as [|key|]; cbn [PiGame.handle_events]; [exact T| |apply IH; exact T].
  destruct key; cbn [snd andb]; try exact T;
    try (destruct (PiSnake.game_over (PiGame.core g)); cbn [andb negb];
         [|destruct (PiSnake.paused (PiGame.core g)); cbn [andb negb]]);
    apply IH;
    first [exact T | exact Tp | apply Pi_reset_game_steady; exact Pa | apply Pi_turn_steady; exact T].
Qed.

Lemma PiGame_reachable_steady (g : PiGame.Game) :
  PiGame_reachable cos sin g -> Pi_steady g.
Proof.
  induction 1 as [o | events g R IH | dt g g' R IH E].
  - apply Pi_Game_init_steady.
  - apply Pi_handle_events_steady. exact IH.
  - destruct (Pi_update_steady dt g IH) as [g'' [E' [T' _]]]. congruence.
Qed.

End PiGameUpdate.

(** ** The events *)

Lemma Pi_handle_events_running (events : list PiGame.Event) (g : PiGame.Game) :
  fst (PiGame.handle_events events g) = negb (existsb Pi_quits events).
Proof.
  revert g. induction events as [|e events IH]; intros g; [reflexivity|].
  destruct e as [|key|]; cbn [PiGame.handle_events existsb Pi_quits orb negb fst];
    [reflexivity| |apply IH].
  destruct key; cbn [orb negb fst andb]; try reflexivity;
    try (destruct (PiSnake.game_over (PiGame.core g)); cbn [andb negb];
         [|destruct (PiSnake.paused (PiGame.core g)); cbn [andb negb]]);
    apply IH.
Qed.

Lemma Pi_with_paused_same (c : PiSnake.Game) : PiGame.with_paused (PiSnake.paused c) c = c.
Proof. destruct c; reflexivity. Qed.

(** A game that is over: the events other than R change the pause flag
    only. *)
Lemma Pi_game_over_frozen (events : list PiGame.Event) (g : PiGame.Game) :
  PiSnake.game_over (PiGame.core g) = true ->
  existsb Pi_restarts events = false ->
  exists p,
    snd (PiGame.handle_events events g)
      = PiGame.with_core (PiGame.with_paused p (PiGame.core g)) g.
Proof.
  revert g. induction events as [|e events IH]; intros g Go Nr.
  - exists (PiSnake.paused (PiGame.core g)). rewrite Pi_with_paused_same.
    destruct g; reflexivity.
  - assert (Same : exists p, g = PiGame.with_core (PiGame.with_paused p (PiGame.core g)) g).
    { exists (PiSnake.paused (PiGame.core g)). rewrite Pi_with_paused_same.
      destruct g; reflexivity. }
    cbn [existsb] in Nr. apply orb_false_iff in Nr. destruct Nr as [Ne Nr].
    assert (Toggle : exists p,
               snd (PiGame.handle_events events
                      (PiGame.with_core
                         (PiGame.with_paused (negb (PiSnake.paused (PiGame.core g)))
                            (PiGame.core g)) g))
               = PiGame.with_core (PiGame.with_paused p (PiGame.core g)) g).
    { destruct (IH (PiGame.with_core
                      (PiGame.with_paused (negb (PiSnake.paused (PiGame.core g)))
                         (PiGame.core g)) g) Go Nr) as [p E].
      exists p. rewrite E. reflexivity. }
    destruct e as [|key|]; cbn [PiGame.handle_events snd]; [exact Same| |exact (IH g Go Nr)].
    destruct key; cbn [snd andb]; try exact Same; try discriminate Ne;
      rewrite ?Go; cbn [andb negb]; first [exact Toggle | exact (IH g Go Nr)].
Qed.

(** ** The snake's heading *)

Lemma opposite_differs (d : Direction) : d <> opposite d.
Proof. destruct d; discriminate. Qed.

Lemma step_back (p : Pos) (d : Direction) : step (step p d) (opposite d) = p.
Proof. destruct p as [x y], d; unfold step; cbn; f_equal; lia. Qed.

Lemma step_injective (p : Pos) (d e : Direction) : step p d = step p e -> d = e.
Proof.
  destruct p as [x y], d, e; unfold step; cbn; intros H; try reflexivity;
    injection H; intros; lia.
Qed.

Lemma kept_head (growing : bool) (h n : Pos) (rest body : list Pos) :
  kept growing (h :: rest) = n :: body -> n = h.
Proof.
  unfold kept. destruct growing.
  - intros E. injection E. auto.
  - destruct rest; cbn [removelast]; intros E; [discriminate | injection E; auto].
Qed.

Lemma heading_kept_after_move (cells : list Pos) (growing : bool) (h : Pos)
    (rest : list Pos) (d : Direction) :
  cells = step h d :: kept growing (h :: rest) -> heading_kept cells d d.
Proof.
  intros ->. unfold heading_kept.
  destruct (kept growing (h :: rest)) as [|n body] eqn:K; [exact I|].
  apply kept_head in K. subst n. split; [reflexivity | apply opposite_differs].
Qed.

(** With the second segment one step behind and the pending direction not
    the way back, the next head is not the second segment. *)
Lemma heading_kept_ahead (h n : Pos) (rest : list Pos) (direction next_direction : Direction) :
  heading_kept (h :: n :: rest) direction next_direction ->
  step h next_direction <> n.
Proof.
  intros [H N] E. apply N. rewrite H in E.
  rewrite <- (step_back n direction) in E at 2.
  exact (step_injective _ _ _ E).
Qed.

Lemma Pi_move_heading (s s' : PiSnake.Snake) :
  PiSnake.move s = Ok s' ->
  PiSnake.direction s' = PiSnake.next_direction s /\
  PiSnake.next_direction s' = PiSnake.next_direction s.
Proof.
  unfold PiSnake.move. destruct (PiSnake.segments s) as [|[hx hy] rest]; [discriminate|].
  destruct (value _). destruct (negb _); intros E; apply Ok_inj in E; subst s'; split;
    reflexivity.
Qed.

Lemma Pi_move_keeps_heading (s s' : PiSnake.Snake) :
  PiSnake.move s = Ok s' ->
  heading_kept (PiSnake.segments s') (PiSnake.direction s') (PiSnake.next_direction s').
Proof.
  intros M. destruct (Pi_move_heading _ _ M) as [-> ->].
  destruct (Pi_move_segments _ _ M) as [h [rest [E E']]].
  apply (heading_kept_after_move _ (PiSnake.growing s) h rest). rewrite E', E. reflexivity.
Qed.

Lemma Pi_set_direction_keeps_heading (d : Direction) (s : PiSnake.Snake) :
  heading_kept (PiSnake.segments s) (PiSnake.direction s) (PiSnake.next_direction s) ->
  heading_kept (PiSnake.segments (PiSnake.set_direction d s))
    (PiSnake.direction (PiSnake.set_direction d s))
    (PiSnake.next_direction (PiSnake.set_direction d s)).
Proof.
  intros H. unfold PiSnake.set_direction.
  destruct (1 <? Z.of_nat (List.length (PiSnake.segments s))) eqn:L.
  - destruct (negb (Direction_eqb d (opposite (PiSnake.direction s)))) eqn:O; [|exact H].
    cbn [PiSnake.segments PiSnake.direction PiSnake.next_direction].
    unfold heading_kept in *. destruct (PiSnake.segments s) as [|h [|n rest]]; try exact I.
    split; [apply H|]. intros ->. rewrite Direction_eqb_refl in O. discriminate.
  - cbn [PiSnake.segments PiSnake.direction PiSnake.next_direction].
    apply Z.ltb_ge in L. unfold heading_kept.
    destruct (PiSnake.segments s) as [|h [|n rest]]; try exact I.
    cbn [List.length] in L. lia.
Qed.

Lemma Pi_reachable_heading (s : PiSnake.Snake) :
  Pi_reachable s ->
  heading_kept (PiSnake.segments s) (PiSnake.direction s) (PiSnake.next_direction s).
Proof.
  induction 1 as [x y | d s _ IH | s _ IH | s s' _ IH M | dt s s' _ IH U | delay s _ IH].
  - exact I.
  - apply Pi_set_direction_keeps_heading. exact IH.
  - exact IH.
  - exact (Pi_move_keeps_heading _ _ M).
  - unfold PiSnake.Snake_update in U. destruct (_ <=? _)%float.
    + exact (Pi_move_keeps_heading _ _ U).
    + apply Ok_inj in U. subst s'. exact IH.
  - exact IH.
Qed.

Lemma Ultra_move_heading (s s' : UltraSnake.Snake) :
  UltraSnake.move s = Ok s' ->
  UltraSnake.direction s' = UltraSnake.next_direction s /\
  UltraSnake.next_direction s' = UltraSnake.next_direction s.
Proof.
  unfold UltraSnake.move. destruct (map _ _) as [|hd body]; [discriminate|].
  destruct (value _). destruct (UltraSnake.growing s); intros E; apply Ok_inj in E; subst s';
    split; reflexivity.
Qed.

Lemma Ultra_move_keeps_heading (s s' : UltraSnake.Snake) :
  UltraSnake.move s = Ok s' ->
  heading_kept (UltraSnake.cells s') (UltraSnake.direction s') (UltraSnake.next_direction s').
Proof.
  intros M. destruct (Ultra_move_heading _ _ M) as [-> ->].
  destruct (Ultra_move_cells _ _ M) as [h [rest [E E']]].
  apply (heading_kept_after_move _ (UltraSnake.growing s) h rest). rewrite E', E. reflexivity.
Qed.

Lemma Ultra_set_direction_keeps_heading (d : Direction) (s : UltraSnake.Snake) :
  heading_kept (UltraSnake.cells s) (UltraSnake.direction s) (UltraSnake.next_direction s) ->
  heading_kept (UltraSnake.cells (UltraSnake.set_direction d s))
    (UltraSnake.direction (UltraSnake.set_direction d s))
    (UltraSnake.next_direction (UltraSnake.set_direction d s)).
Proof.
  intros H. unfold UltraSnake.set_direction.
  destruct (1 <? Z.of_nat (List.length (UltraSnake.segments s))) eqn:L.
  - destruct (negb (Direction_eqb d (opposite (UltraSnake.direction s)))) eqn:O; [|exact H].
    unfold UltraSnake.cells in *.
    cbn [UltraSnake.segments UltraSnake.direction UltraSnake.next_direction].
    unfold heading_kept in *.
    destruct (UltraSnake.segments s) as [|h [|n rest]]; try exact I.
    cbn [map] in *.
    split; [apply H|]. intros ->. rewrite Direction_eqb_refl in O. discriminate.
  - unfold UltraSnake.cells.
    cbn [UltraSnake.segments UltraSnake.direction UltraSnake.next_direction].
    apply Z.ltb_ge in L. unfold heading_kept.
    destruct (UltraSnake.segments s) as [|h [|n rest]]; try exact I.
    cbn [List.length] in L. lia.
Qed.

Lemma Ultra_smooth_cells (l : list UltraSnake.SnakeSegment) :
  map (fun segment => (UltraSnake.x segment, UltraSnake.y segment))
      (map (UltraSnake.update_smooth_position 0.3) l)
  = map (fun segment => (UltraSnake.x segment, UltraSnake.y segment)) l.
Proof. rewrite map_map. apply map_ext. intros sg. reflexivity. Qed.

Lemma Ultra_reachable_heading (s : UltraSnake.Snake) :
  Ultra_reachable s ->
  heading_kept (UltraSnake.cells s) (UltraSnake.direction s) (UltraSnake.next_direction s).
Proof.
  induction 1 as [x y | d s _ IH | s _ IH | s s' _ IH M | dt s s' _ IH U | delay s _ IH].
  - exact I.
  - apply Ultra_set_direction_keeps_heading. exact IH.
  - exact IH.
  - exact (Ultra_move_keeps_heading _ _ M).
  - unfold UltraSnake.Snake_update in U. destruct (_ <=? _)%float.
    + exact (Ultra_move_keeps_heading _ _ U).
    + apply Ok_inj in U. subst s'. unfold UltraSnake.cells in *.
      cbn [UltraSnake.segments UltraSnake.direction UltraSnake.next_direction].
      rewrite Ultra_smooth_cells. exact IH.
  - exact IH.
Qed.

(** ** The main loop of PiSnake *)

Section PiGameRun.

Variables cos sin : float -> float.

(** One pass of [while running]. *)
Lemma Pi_run_loop_pass (events : list PiGame.Event) (last_time : float) (g : PiGame.Game) :
  Pi_steady g ->
  exists now g',
    Pi_steady g' /\
    forall frames,
      PiGame.run_loop cos sin (events :: frames) last_time g
      = if existsb Pi_quits events then Ok g' else PiGame.run_loop cos sin frames now g'.
Proof.
  intros T. cbn [PiGame.run_loop].
  destruct (time_time _) as [now o].
  set (g1 := PiGame.with_core _ g).
  assert (T1 : Pi_steady g1).
  { pose proof (Pi_steady_elim _ T) as [N [_ [_ [Pa _]]]].
    apply (Pi_steady_ext g); try assumption; reflexivity. }
  clearbody g1.
  pose proof (Pi_handle_events_running events g1) as Run.
  pose proof (Pi_handle_events_steady events g1 T1) as T2.
  destruct (PiGame.handle_events events g1) as [running g2]. cbn [fst snd] in Run, T2.
  destruct (Pi_update_steady cos sin
              (PiGame.py_min (now - last_time) 0.05) g2 T2) as [g3 [E [T3 _]]].
  exists now, g3. split; [exact T3|]. intros frames.
  rewrite E. cbn [bind]. rewrite Run. destruct (existsb Pi_quits events); reflexivity.
Qed.

Lemma Pi_run_loop_quit (pre : list (list PiGame.Event)) (q : list PiGame.Event)
    (post : list (list PiGame.Event)) (last_time : float) (g : PiGame.Game) :
  Pi_steady g ->
  existsb (existsb Pi_quits) pre = false ->
  existsb Pi_quits q = true ->
  exists g',
    PiGame.run_loop cos sin (pre ++ q :: post) last_time g = Ok g' /\
    PiGame.run_loop cos sin (pre ++ [q]) last_time g = Ok g' /\
    Pi_steady g'.
Proof.
  revert last_time g. induction pre as [|p pre IH]; intros last_time g T Np Q.
  - destruct (Pi_run_loop_pass q last_time g T) as [now [g' [T' E]]].
    exists g'. cbn [app]. rewrite !E, Q. split; [reflexivity|]. split; [reflexivity | exact T'].
  - cbn [existsb] in Np. apply orb_false_iff in Np. destruct Np as [Np Npre].
    destruct (Pi_run_loop_pass p last_time g T) as [now [g' [T' E]]].
    cbn [app]. rewrite !E, Np. exact (IH now g' T' Npre Q).
Qed.

Lemma Pi_run_loop_goes_on (frames : list (list PiGame.Event)) (last_time : float)
    (g : PiGame.Game) :
  Pi_steady g ->
  existsb (existsb Pi_quits) frames = false ->
  PiGame.run_loop cos sin frames last_time g = OutOfFuel.
Proof.
  revert last_time g. induction frames as [|p frames IH]; intros last_time g T Np;
    [reflexivity|].
  cbn [existsb] in Np. apply orb_false_iff in Np. destruct Np as [Np Nf].
  destruct (Pi_run_loop_pass p last_time g T) as [now [g' [T' E]]].
  rewrite E, Np. exact (IH now g' T' Nf).
Qed.

Lemma Pi_first_quit (frames : list (list PiGame.Event)) :
  existsb (existsb Pi_quits) frames = true ->
  exists pre q post,
    frames = pre ++ q :: post /\
    existsb (existsb Pi_quits) pre = false /\ existsb Pi_quits q = true.
Proof.
  induction frames as [|p frames IH]; [discriminate|].
  cbn [existsb]. destruct (existsb Pi_quits p) eqn:Q.
  - intros _. exists [], p, frames. repeat split. exact Q.
  - cbn [orb]. intros H. destruct (IH H) as [pre [q [post [E [Np Qq]]]]].
    exists (p :: pre), q, post. rewrite E. cbn [existsb app]. rewrite Q, Np.
    repeat split. exact Qq.
Qed.

Lemma Pi_run_start_steady (g : PiGame.Game) :
  Pi_steady g ->
  Pi_steady (PiGame.with_core
               (PiSnake.with_rng (snd (time_time (PiSnake.rng (PiGame.core g))))
                  (PiGame.core g)) g).
Proof.
  intros T. pose proof (Pi_steady_elim _ T) as [N [_ [_ [Pa _]]]].
  apply (Pi_steady_ext g); try assumption; reflexivity.
Qed.

Lemma Pi_run_unfold (frames : list (list PiGame.Event)) (g : PiGame.Game) :
  PiGame.run cos sin frames g
  = PiGame.run_loop cos sin frames (fst (time_time (PiSnake.rng (PiGame.core g))))
      (PiGame.with_core
         (PiSnake.with_rng (snd (time_time (PiSnake.rng (PiGame.core g)))) (PiGame.core g))
         g).
Proof. unfold PiGame.run. destruct (time_time _). reflexivity. Qed.

Lemma Pi_frames_reachable (n : nat) (dt : float) (g g' : PiGame.Game) :
  PiGame_reachable cos sin g -> Pi_frames cos sin n dt g = Ok g' ->
  PiGame_reachable cos sin g'.
Proof.
  revert g. induction n as [|n IH]; intros g R E.
  - apply Ok_inj in E. subst g'. exact R.
  - cbn [Pi_frames] in E.
    destruct (PiGame.update cos sin dt g) as [g1| |] eqn:U; try discriminate.
    cbn [bind] in E. exact (IH g1 (pi_game_update cos sin dt g g1 R U) E).
Qed.

End PiGameRun.

Lemma pi_meals_reachable (n : nat) (g : PiGame.Game) :
  pi_meals n = Ok g -> PiGame_reachable cos_0 sin_0 g.
Proof.
  apply Pi_frames_reachable. apply pi_game_init.
Qed.

(** X9: in every state of a game of PiSnake the score is ten times the
    number of apples eaten, and the delay between two moves is what
    [max(0.1, delay - 0.02)] makes of 0.2 when applied once for every five
    apples eaten; it lies between 0.1 and 0.2. *)
Theorem pi_score_and_delay (cos sin : float -> float) (g : PiGame.Game) :
  PiGame_reachable cos sin g ->
  PiSnake.score (PiGame.core g) = 10 * PiSnake.apples_eaten (PiGame.core g) /\
  0 <= PiSnake.apples_eaten (PiGame.core g) /\
  PiSnake.move_delay (PiSnake.snake (PiGame.core g))
    = Nat.iter (Z.to_nat (PiSnake.apples_eaten (PiGame.core g) / 5))
        PiGame.speed_up 0.2%float /\
  (0.1 <=? PiSnake.move_delay (PiSnake.snake (PiGame.core g)))%float = true /\
  (PiSnake.move_delay (PiSnake.snake (PiGame.core g)) <=? 0.2)%float = true.
Proof.
  intros R. apply PiGame_reachable_steady, Pi_steady_elim in R.
  destruct R as [_ [Sc [Ae [_ [_ D]]]]].
  split; [exact Sc|]. split; [exact Ae|]. split; [exact D|].
  rewrite D. apply Pi_delays_bounds, Pi_delay_after_listed.
Qed.

Lemma pi_score_and_delay_witness :
  exists g,
    pi_meals 5 = Ok g /\
    PiSnake.score (PiGame.core g) = 50 /\
    PiSnake.move_delay (PiSnake.snake (PiGame.core g)) = PiGame.speed_up 0.2 /\
    PiSnake.score (PiGame.core g) = 10 * PiSnake.apples_eaten (PiGame.core g) /\
    0 <= PiSnake.apples_eaten (PiGame.core g) /\
    PiSnake.move_delay (PiSnake.snake (PiGame.core g))
      = Nat.iter (Z.to_nat (PiSnake.apples_eaten (PiGame.core g) / 5))
          PiGame.speed_up 0.2%float /\
    (0.1 <=? PiSnake.move_delay (PiSnake.snake (PiGame.core g)))%float = true /\
    (PiSnake.move_delay (PiSnake.snake (PiGame.core g)) <=? 0.2)%float = true.
Proof.
  eexists. split; [vm_compute; reflexivity|]. split; [reflexivity|].
  split; [vm_compute; reflexivity|].
  apply (pi_score_and_delay cos_0 sin_0).
  apply (pi_meals_reachable 5). vm_compute. reflexivity.
Defined.

(** X10: [add_explosion] adds nothing to more than 20 particles and [count]
    particles to 20 or fewer, so that the 20 of [max_particles] can be
    passed; a game never has more than 30 particles. *)
Theorem pi_particles_bounded (cos sin : float -> float) :
  (forall x y count g,
     List.length (PiGame.particles (PiGame.add_explosion cos sin x y count g))
     = if (20 <? List.length (PiGame.particles g))%nat
       then List.length (PiGame.particles g)
       else (List.length (PiGame.particles g) + count)%nat) /\
  (forall g, PiGame_reachable cos sin g -> (List.length (PiGame.particles g) <= 30)%nat).
Proof.
  split.
  - intros x y count g. apply Pi_add_explosion_spec.
  - intros g R. apply PiGame_reachable_steady, Pi_steady_elim in R. apply R.
Qed.

Lemma pi_particles_bounded_witness :
  exists g,
    pi_meals 4 = Ok g /\
    List.length (PiGame.particles g) = 24%nat /\
    (List.length (PiGame.particles g) <= 30)%nat.
Proof.
  eexists. split; [vm_compute; reflexivity|]. split; [reflexivity|].
  apply (proj2 (pi_particles_bounded cos_0 sin_0)).
  apply (pi_meals_reachable 4). vm_compute. reflexivity.
Defined.

(** X11: in every state of a game of PiSnake no two obstacles share a cell
    and the apple is on no obstacle. *)
Theorem pi_obstacles_apart (cos sin : float -> float) (g : PiGame.Game) :
  PiGame_reachable cos sin g ->
  NoDup (map Pi_cell (PiSnake.obstacles (PiGame.core g))) /\
  forall a, PiSnake.apple (PiGame.core g) = Some a ->
            PiSnake.is_obstacle (PiGame.core g) (PiSnake.a_x a) (PiSnake.a_y a) = false.
Proof.
  intros R. apply PiGame_reachable_steady, Pi_steady_elim in R.
  destruct R as [_ [_ [_ [_ [B _]]]]]. exact B.
Qed.

Lemma pi_obstacles_apart_witness :
  exists g,
    pi_meals 5 = Ok g /\
    List.length (PiSnake.obstacles (PiGame.core g)) = 2%nat /\
    NoDup (map Pi_cell (PiSnake.obstacles (PiGame.core g))) /\
    forall a, PiSnake.apple (PiGame.core g) = Some a ->
              PiSnake.is_obstacle (PiGame.core g) (PiSnake.a_x a) (PiSnake.a_y a) = false.
Proof.
  eexists. split; [vm_compute; reflexivity|]. split; [reflexivity|].
  apply (pi_obstacles_apart cos_0 sin_0).
  apply (pi_meals_reachable 5). vm_compute. reflexivity.
Defined.

(** X12: on a board whose obstacles are on distinct cells away from the
    apple, [spawn_obstacles] appends at most [min(6, apples_eaten // 5 + 1)]
    obstacles, none of them on the snake, and leaves such a board; the
    snake, the apple and the counters stay. *)
Theorem pi_spawn_obstacles_adds (c : PiSnake.Game) :
  Pi_board_in_order c ->
  Pi_board_in_order (PiSnake.spawn_obstacles c) /\
  PiSnake.snake (PiSnake.spawn_obstacles c) = PiSnake.snake c /\
  PiSnake.apple (PiSnake.spawn_obstacles c) = PiSnake.apple c /\
  PiSnake.score (PiSnake.spawn_obstacles c) = PiSnake.score c /\
  PiSnake.apples_eaten (PiSnake.spawn_obstacles c) = PiSnake.apples_eaten c /\
  exists new,
    PiSnake.obstacles (PiSnake.spawn_obstacles c) = PiSnake.obstacles c ++ new /\
    (List.length new <= Z.to_nat (Z.min 6 (PiSnake.apples_eaten c / 5 + 1)))%nat /\
    forall ob, In ob new ->
      PiSnake.check_collision (PiSnake.snake c) (PiSnake.o_x ob) (PiSnake.o_y ob) = false.
Proof.
  intros B. unfold PiSnake.spawn_obstacles.
  destruct (Pi_for_range_obstacles
              (Z.to_nat (Z.min 6 (PiSnake.apples_eaten c / 5 + 1))) c B)
    as [B1 [R1 [A1 [new [O1 [L1 S1]]]]]].
  destruct (Pi_rest_fields _ _ R1) as [Sn [Sc [Ae _]]].
  split; [exact B1|]. split; [exact Sn|]. split; [exact A1|]. split; [exact Sc|].
  split; [exact Ae|].
  exists new. split; [exact O1|]. split; [exact L1 | exact S1].
Qed.

Lemma pi_spawn_obstacles_adds_witness :
  Pi_board_in_order (PiGame.reset_core meals_ahead) /\
  exists new,
    PiSnake.obstacles (PiSnake.spawn_obstacles (PiGame.reset_core meals_ahead))
      = PiSnake.obstacles (PiGame.reset_core meals_ahead) ++ new /\
    (List.length new
     <= Z.to_nat (Z.min 6 (PiSnake.apples_eaten (PiGame.reset_core meals_ahead) / 5 + 1)))%nat.
Proof.
  assert (B : Pi_board_in_order (PiGame.reset_core meals_ahead)).
  { split; [vm_compute; constructor | intros a E; vm_compute; reflexivity]. }
  split; [exact B|].
  destruct (pi_spawn_obstacles_adds (PiGame.reset_core meals_ahead) B)
    as [_ [_ [_ [_ [_ [new [O [L _]]]]]]]].
  exists new. split; [exact O | exact L].
Defined.

(** X13: in every state of a game of PiSnake [update] returns, whatever
    [dt]; it leaves the score or adds ten to it, and leaves a game that is
    over or paused as it is. *)
Theorem pi_update_returns (cos sin : float -> float) (dt : float) (g : PiGame.Game) :
  PiGame_reachable cos sin g ->
  exists g',
    PiGame.update cos sin dt g = Ok g' /\
    (PiSnake.score (PiGame.core g') = PiSnake.score (PiGame.core g) \/
     PiSnake.score (PiGame.core g') = PiSnake.score (PiGame.core g) + 10) /\
    (PiSnake.game_over (PiGame.core g) || PiSnake.paused (PiGame.core g) = true -> g' = g).
Proof.
  intros R. apply PiGame_reachable_steady in R.
  destruct (Pi_update_steady cos sin dt g R) as [g' [E [_ [Sc F]]]].
  exists g'. split; [exact E|]. split; [exact Sc | exact F].
Qed.

Lemma pi_update_returns_witness :
  exists g,
    pi_meals 2 = Ok g /\
    exists g',
      PiGame.update cos_0 sin_0 0.2 g = Ok g' /\
      PiSnake.score (PiGame.core g) = 20 /\ PiSnake.score (PiGame.core g') = 30.
Proof.
  eexists. split; [vm_compute; reflexivity|].
  match goal with
  | |- exists g', PiGame.update _ _ _ ?g = _ /\ _ =>
      destruct (pi_update_returns cos_0 sin_0 0.2 g) as [g' [E _]]
  end.
  - apply (pi_meals_reachable 2). vm_compute. reflexivity.
  - exists g'. split; [exact E|]. split; [reflexivity|].
    revert E. vm_compute. intros E. apply Ok_inj in E. subst g'. reflexivity.
Defined.

(** X14: a game of PiSnake that is over stays as it is until R is pressed:
    [update] changes nothing, and events without R change the pause flag at
    most.  R then starts a new game: the score and the number of apples
    eaten at 0, no obstacle, the snake of one segment in the middle of the
    grid; the particles stay. *)
Theorem pi_game_over_until_restart (cos sin : float -> float) (g : PiGame.Game) :
  PiSnake.game_over (PiGame.core g) = true ->
  (forall dt, PiGame.update cos sin dt g = Ok g) /\
  (forall events,
     existsb Pi_restarts events = false ->
     exists p,
       snd (PiGame.handle_events events g)
       = PiGame.with_core (PiGame.with_paused p (PiGame.core g)) g) /\
  (let g' := snd (PiGame.handle_events [PiGame.KEYDOWN PiGame.K_r] g) in
   PiSnake.game_over (PiGame.core g') = false /\
   PiSnake.paused (PiGame.core g') = false /\
   PiSnake.score (PiGame.core g') = 0 /\
   PiSnake.apples_eaten (PiGame.core g') = 0 /\
   PiSnake.obstacles (PiGame.core g') = [] /\
   PiSnake.snake (PiGame.core g')
     = PiSnake.Snake_init (PiSnake.GRID_WIDTH / 2) (PiSnake.GRID_HEIGHT / 2) /\
   PiGame.particles g' = PiGame.particles g).
Proof.
  intros Go. split; [|split].
  - intros dt. unfold PiGame.update. rewrite Go. reflexivity.
  - intros events Nr. exact (Pi_game_over_frozen events g Go Nr).
  - cbn [PiGame.handle_events]. rewrite Go. cbn [andb snd].
    unfold PiGame.reset_game. cbn [PiGame.core PiGame.with_core PiGame.particles].
    destruct (Pi_reset_core_fields (PiSnake.rng (PiGame.core g)))
      as [S [Sc [Ae [_ [O [G P]]]]]].
    repeat split; assumption.
Qed.

Lemma pi_game_over_until_restart_witness :
  exists g,
    pi_meals 16 = Ok g /\
    PiSnake.game_over (PiGame.core g) = true /\
    PiGame.update cos_0 sin_0 0.2 g = Ok g /\
    PiSnake.score (PiGame.core (snd (PiGame.handle_events [PiGame.KEYDOWN PiGame.K_r] g)))
    = 0.
Proof.
  eexists. split; [vm_compute; reflexivity|]. split; [reflexivity|].
  match goal with
  | |- PiGame.update _ _ _ ?g = _ /\ _ =>
      destruct (pi_game_over_until_restart cos_0 sin_0 g eq_refl) as [U [_ R]]
  end.
  split; [apply U | apply R].
Defined.

(** X15: nothing is raised in the loop of [run] of PiSnake.  The loop is
    left, for [sys.exit()], at the first pass whose events hold QUIT, Escape
    or Q, after the [update] of that pass, and the events of later passes are
    not read; without such an event the loop goes on. *)
Theorem pi_run_ends_at_quit (cos sin : float -> float) (o : Oracle) :
  (forall pre q post,
     existsb (existsb Pi_quits) pre = false -> existsb Pi_quits q = true ->
     returns (PiGame.run cos sin (pre ++ q :: post) (PiGame.Game_init o)) /\
     PiGame.run cos sin (pre ++ q :: post) (PiGame.Game_init o)
     = PiGame.run cos sin (pre ++ [q]) (PiGame.Game_init o)) /\
  (forall frames,
     existsb (existsb Pi_quits) frames = false ->
     PiGame.run cos sin frames (PiGame.Game_init o) = OutOfFuel) /\
  (forall frames e, PiGame.run cos sin frames (PiGame.Game_init o) <> Raise e).
Proof.
  pose proof (Pi_run_start_steady _ (Pi_Game_init_steady o)) as T.
  assert (Q : forall pre q post,
             existsb (existsb Pi_quits) pre = false -> existsb Pi_quits q = true ->
             returns (PiGame.run cos sin (pre ++ q :: post) (PiGame.Game_init o)) /\
             PiGame.run cos sin (pre ++ q :: post) (PiGame.Game_init o)
             = PiGame.run cos sin (pre ++ [q]) (PiGame.Game_init o)).
  { intros pre q post Np Qq. rewrite !Pi_run_unfold.
    destruct (Pi_run_loop_quit cos sin pre q post
                (fst (time_time (PiSnake.rng (PiGame.core (PiGame.Game_init o))))) _ T Np Qq)
      as [g' [E1 [E2 _]]].
    rewrite E1, E2. split; [exists g'|]; reflexivity. }
  assert (N : forall frames,
             existsb (existsb Pi_quits) frames = false ->
             PiGame.run cos sin frames (PiGame.Game_init o) = OutOfFuel).
  { intros frames Nf. rewrite Pi_run_unfold. exact (Pi_run_loop_goes_on cos sin _ _ _ T Nf). }
  split; [exact Q|]. split; [exact N|].
  intros frames e E. destruct (existsb (existsb Pi_quits) frames) eqn:F.
  - destruct (Pi_first_quit frames F) as [pre [q [post [-> [Np Qq]]]]].
    destruct (Q pre q post Np Qq) as [[g' R] _]. congruence.
  - rewrite (N frames F) in E. discriminate.
Qed.

Lemma pi_run_ends_at_quit_witness :
  returns (PiGame.run cos_0 sin_0
             ([[]; [PiGame.KEYDOWN PiGame.K_UP]]
                ++ [PiGame.KEYDOWN PiGame.K_q; PiGame.KEYDOWN PiGame.K_r]
                :: [[PiGame.QUIT]])
             (PiGame.Game_init meals_ahead)) /\
  PiGame.run cos_0 sin_0 [[]; [PiGame.KEYDOWN PiGame.K_UP]] (PiGame.Game_init meals_ahead)
  = OutOfFuel.
Proof.
  split.
  - apply (proj1 (pi_run_ends_at_quit cos_0 sin_0 meals_ahead)
             [[]; [PiGame.KEYDOWN PiGame.K_UP]]
             [PiGame.KEYDOWN PiGame.K_q; PiGame.KEYDOWN PiGame.K_r] [[PiGame.QUIT]]);
      reflexivity.
  - apply (proj1 (proj2 (pi_run_ends_at_quit cos_0 sin_0 meals_ahead))). reflexivity.
Defined.

(** X16: a snake of PiSnake or of UltraSnake with two segments or more has
    its head one step of [direction] ahead of its second segment, and its
    next move does not put the head on the second segment, whatever the
    directions asked for.  The snake of a game of PiSnake is such a snake. *)
Theorem head_never_turns_back :
  (forall s h n rest,
     Pi_reachable s -> PiSnake.segments s = h :: n :: rest ->
     h = step n (PiSnake.direction s) /\
     forall s', PiSnake.move s = Ok s' -> PiSnake.get_head_position s' <> Ok n) /\
  (forall s h n rest,
     Ultra_reachable s -> UltraSnake.cells s = h :: n :: rest ->
     h = step n (UltraSnake.direction s) /\
     forall s', UltraSnake.move s = Ok s' -> UltraSnake.get_head_position s' <> Ok n) /\
  (forall cos sin g, PiGame_reachable cos sin g -> Pi_reachable (PiSnake.snake (PiGame.core g))).
Proof.
  split; [|split].
  - intros s h n rest R E. pose proof (Pi_reachable_heading s R) as H. rewrite E in H.
    split; [apply H|]. intros s' M.
    destruct (Pi_move_segments _ _ M) as [h0 [rest0 [E0 E']]].
    rewrite E in E0. injection E0 as <- <-.
    unfold PiSnake.get_head_position. rewrite E'. intros C. apply Ok_inj in C.
    exact (heading_kept_ahead _ _ _ _ _ H C).
  - intros s h n rest R E. pose proof (Ultra_reachable_heading s R) as H. rewrite E in H.
    split; [apply H|]. intros s' M.
    destruct (Ultra_move_cells _ _ M) as [h0 [rest0 [E0 E']]].
    rewrite E in E0. injection E0 as <- <-.
    unfold UltraSnake.get_head_position. unfold UltraSnake.cells in E'.
    destruct (UltraSnake.segments s') as [|sg body]; [discriminate|].
    cbn [map] in E'.
    assert (Hd : (UltraSnake.x sg, UltraSnake.y sg) = step h (UltraSnake.next_direction s))
      by (unfold step; injection E'; intros; f_equal; assumption).
    rewrite Hd. intros C. apply Ok_inj in C.
    exact (heading_kept_ahead _ _ _ _ _ H C).
  - intros cos sin g R. apply PiGame_reachable_steady, Pi_steady_elim in R. apply R.
Qed.

Lemma head_never_turns_back_witness :
  (PiSnake.move (PiSnake.grow (PiSnake.Snake_init 9 10)) = Ok pi_two_cells /\
   (10, 10) = step (9, 10) (PiSnake.direction (PiSnake.set_direction LEFT pi_two_cells)) /\
   forall s', PiSnake.move (PiSnake.set_direction LEFT pi_two_cells) = Ok s' ->
              PiSnake.get_head_position s' <> Ok (9, 10)) /\
  (exists s,
     UltraSnake.move (UltraSnake.grow (UltraSnake.Snake_init 9 10)) = Ok s /\
     (10, 10) = step (9, 10) (UltraSnake.direction s)) /\
  Pi_reachable (PiSnake.snake (PiGame.core (PiGame.Game_init meals_ahead))).
Proof.
  assert (R : Pi_reachable (PiSnake.set_direction LEFT pi_two_cells)).
  { apply pi_set_direction.
    apply (pi_move (PiSnake.grow (PiSnake.Snake_init 9 10))); [|reflexivity].
    apply pi_grow, pi_init. }
  split; [|split].
  - split; [reflexivity|].
    apply (proj1 head_never_turns_back
             (PiSnake.set_direction LEFT pi_two_cells) (10, 10) (9, 10) [] R eq_refl).
  - eexists. split; [reflexivity|].
    match goal with
    | |- _ = step _ (UltraSnake.direction ?s) =>
        apply (proj1 (proj2 head_never_turns_back) s (10, 10) (9, 10) [])
    end.
    + apply (ultra_move (UltraSnake.grow (UltraSnake.Snake_init 9 10))); [|reflexivity].
      apply ultra_grow, ultra_init.
    + reflexivity.
  - apply (proj2 (proj2 head_never_turns_back) cos_0 sin_0). apply pi_game_init.
Defined.

(** * The classes after [SnakeGame] *)

(** X17: with the head off the food, one step in the direction
    [AIPlayer.get_next_move] returns brings the head one step nearer to the
    food; with the head on the food it returns UP, and RIGHT for a snake
    without segments.  Neither the direction of the snake nor what is in the
    way is looked at: the move can be the way back. *)
Theorem ai_move_goes_nearer :
  (forall game head rest,
     Retro.snake game = head :: rest -> head <> Retro.food game ->
     steps_between (step head (AIPlayer.get_next_move game)) (Retro.food game)
     = steps_between head (Retro.food game) - 1) /\
  (forall game head rest,
     Retro.snake game = head :: rest -> head = Retro.food game ->
     AIPlayer.get_next_move game = UP) /\
  (forall game, Retro.snake game = [] -> AIPlayer.get_next_move game = RIGHT) /\
  (forall game head rest k fuel,
     Retro.snake game = head :: rest -> 0 < k ->
     Retro.food game
     = (fst head + k * fst (value (opposite (Retro.direction game))),
        snd head + k * snd (value (opposite (Retro.direction game)))) ->
     Retro.state game = Retro.PLAYING ->
     AIPlayer.get_next_move game = opposite (Retro.direction game) /\
     Retro.handle_input (press (AIPlayer.get_next_move game)) fuel game = Ok game).
Proof.
  repeat apply conj.
  - intros game [hx hy] rest S N. unfold AIPlayer.get_next_move. rewrite S.
    destruct (Retro.food game) as [fx fy]. cbn [fst snd].
    assert (hx <> fx \/ hy <> fy) as D.
    { destruct (Z.eq_dec hx fx) as [-> | Hx]; [|left; exact Hx].
      right. intros ->. apply N. reflexivity. }
    unfold steps_between, step.
    destruct (Z.abs (fy - hy) <? Z.abs (fx - hx)) eqn:A;
      [apply Z.ltb_lt in A | apply Z.ltb_ge in A].
    + destruct (0 <? fx - hx) eqn:P; [apply Z.ltb_lt in P | apply Z.ltb_ge in P];
        cbn [value fst snd]; lia.
    + destruct (0 <? fy - hy) eqn:P; [apply Z.ltb_lt in P | apply Z.ltb_ge in P];
        cbn [value fst snd]; lia.
  - intros game head rest S E. unfold AIPlayer.get_next_move. rewrite S, <- E.
    rewrite !Z.sub_diag. reflexivity.
  - intros game S. unfold AIPlayer.get_next_move. rewrite S. reflexivity.
  - intros game [hx hy] rest k fuel S K F P.
    assert (E : AIPlayer.get_next_move game = opposite (Retro.direction game)).
    { unfold AIPlayer.get_next_move. rewrite S, F. cbn [fst snd].
      destruct (Retro.direction game); cbn [value fst snd opposite];
        match goal with
        | |- (if ?c then _ else _) = _ =>
            let E := fresh in
            destruct c eqn:E; [apply Z.ltb_lt in E | apply Z.ltb_ge in E];
              try (exfalso; lia)
        end;
        match goal with
        | |- (if ?c then _ else _) = _ =>
            let E := fresh in
            destruct c eqn:E; [apply Z.ltb_lt in E | apply Z.ltb_ge in E];
              try (exfalso; lia); reflexivity
        end. }
    split; [exact E|]. rewrite E. exact (Retro_reversal_ignored fuel game P).
Qed.

Lemma ai_move_goes_nearer_witness :
  (steps_between (step (20, 15) (AIPlayer.get_next_move (Retro.with_food (22, 10) retro_blank)))
     (22, 10) = steps_between (20, 15) (22, 10) - 1) /\
  AIPlayer.get_next_move (Retro.with_food (20, 15) retro_blank) = UP /\
  AIPlayer.get_next_move (Retro.with_snake [] retro_blank) = RIGHT /\
  AIPlayer.get_next_move (Retro.with_food (10, 15) retro_blank) = LEFT /\
  Retro.handle_input
    (press (AIPlayer.get_next_move (Retro.with_food (10, 15) retro_blank))) 0
    (Retro.with_food (10, 15) retro_blank)
  = Ok (Retro.with_food (10, 15) retro_blank).
Proof.
  destruct ai_move_goes_nearer as [A [B [C D]]].
  split; [|split; [|split]].
  - apply (A (Retro.with_food (22, 10) retro_blank) (20, 15) []); [reflexivity|].
    discriminate.
  - apply (B (Retro.with_food (20, 15) retro_blank) (20, 15) []); reflexivity.
  - apply (C (Retro.with_snake [] retro_blank)). reflexivity.
  - apply (D (Retro.with_food (10, 15) retro_blank) (20, 15) [] 10 0%nat);
      [reflexivity | lia | reflexivity | reflexivity].
Defined.

(** ** [PowerUpManager] *)

Lemma combo_step_levels (current_time : float) (self : PowerUpManager.PowerUpManager) :
  In (PowerUpManager.combo_multiplier self) combo_levels ->
  In (PowerUpManager.combo_multiplier
        (snd (PowerUpManager.calculate_combo_bonus current_time self))) combo_levels /\
  In (fst (PowerUpManager.calculate_combo_bonus current_time self))
     [Some 10; Some 15; Some 22; Some 33; Some 50].
Proof.
  unfold PowerUpManager.calculate_combo_bonus, combo_levels. cbn [fst snd In].
  destruct (_ <? 3)%float.
  - intros [<- | [<- | [<- | [<- | [<- | []]]]]]; vm_compute; tauto.
  - intros _. vm_compute. tauto.
Qed.

(** X18: the multiplier of [PowerUpManager] is 1.0, 1.5, 2.25, 3.375 or 5.0
    after any calls of [calculate_combo_bonus], and each call returns 10, 15,
    22, 33 or 50, without an exception from [int].  A call 3 seconds or more
    after the one before, or at a time that is not a number, returns 10. *)
Theorem combo_bonus_values :
  (forall times self,
     In (PowerUpManager.combo_multiplier self) combo_levels ->
     In (PowerUpManager.combo_multiplier (snd (combo_bonuses times self))) combo_levels /\
     Forall (fun bonus => In bonus [Some 10; Some 15; Some 22; Some 33; Some 50])
            (fst (combo_bonuses times self))) /\
  (forall current_time self,
     (current_time - PowerUpManager.last_power_up_time self <? 3)%float = false ->
     PowerUpManager.calculate_combo_bonus current_time self
     = (Some 10, {| PowerUpManager.combo_multiplier := 1;
                    PowerUpManager.last_power_up_time := current_time |})).
Proof.
  split.
  - intros times. induction times as [|t times IH]; intros self L.
    + split; [exact L | constructor].
    + cbn [combo_bonuses].
      destruct (combo_step_levels t self L) as [L1 B1].
      destruct (PowerUpManager.calculate_combo_bonus t self) as [bonus self1].
      cbn [fst snd] in L1, B1.
      destruct (IH self1 L1) as [L2 B2].
      destruct (combo_bonuses times self1) as [bonuses self2]. cbn [fst snd] in *.
      split; [exact L2 | constructor; assumption].
  - intros current_time self H. unfold PowerUpManager.calculate_combo_bonus.
    rewrite H. reflexivity.
Qed.

Lemma combo_bonus_values_witness :
  In (PowerUpManager.combo_multiplier PowerUpManager.PowerUpManager_init) combo_levels /\
  fst (combo_bonuses [100; 101; 102; 103; 104; 105; 110; 111]%float
         PowerUpManager.PowerUpManager_init)
  = [Some 10; Some 15; Some 22; Some 33; Some 50; Some 50; Some 10; Some 15] /\
  Forall (fun bonus => In bonus [Some 10; Some 15; Some 22; Some 33; Some 50])
         (fst (combo_bonuses [100; 101; 102; 103; 104; 105; 110; 111]%float
                 PowerUpManager.PowerUpManager_init)) /\
  fst (PowerUpManager.calculate_combo_bonus nan PowerUpManager.PowerUpManager_init)
  = Some 10.
Proof.
  assert (L : In (PowerUpManager.combo_multiplier PowerUpManager.PowerUpManager_init)
                 combo_levels) by (left; reflexivity).
  split; [exact L|]. split; [vm_compute; reflexivity|]. split.
  - apply (proj1 combo_bonus_values
             [100; 101; 102; 103; 104; 105; 110; 111]%float
             PowerUpManager.PowerUpManager_init L).
  - rewrite (proj2 combo_bonus_values nan PowerUpManager.PowerUpManager_init);
      reflexivity.
Defined.

(** ** [PerformanceManager] *)

Lemma update_frame_time_last_30 {A : Type} (entry : A) (frame_times : list A) :
  (List.length frame_times <= 30)%nat ->
  PerformanceManager.update_frame_time entry frame_times
  = skipn (List.length (frame_times ++ [entry]) - 30) (frame_times ++ [entry]).
Proof.
  intros L. unfold PerformanceManager.update_frame_time.
  rewrite length_app. cbn [List.length].
  destruct (30 <? Z.of_nat (List.length frame_times + 1)) eqn:E;
    [apply Z.ltb_lt in E | apply Z.ltb_ge in E].
  - replace (List.length frame_times + 1 - 30)%nat with 1%nat by lia.
    destruct (frame_times ++ [entry]); reflexivity.
  - replace (List.length frame_times + 1 - 30)%nat with 0%nat by lia. reflexivity.
Qed.

(** X19: after any calls of [update_frame_time] on a list of at most 30
    entries, [frame_times] holds the last 30 of the entries it was given, the
    oldest first, or all of them when they are fewer. *)
Theorem frame_times_keep_last_30 {A : Type} (entries frame_times : list A) :
  (List.length frame_times <= 30)%nat ->
  frame_times_after entries frame_times
  = skipn (List.length (frame_times ++ entries) - 30) (frame_times ++ entries) /\
  (List.length (frame_times_after entries frame_times) <= 30)%nat.
Proof.
  revert frame_times. induction entries as [|e entries IH]; intros l L.
  - unfold frame_times_after. cbn [fold_left]. rewrite app_nil_r.
    replace (List.length l - 30)%nat with 0%nat by lia. split; [reflexivity | exact L].
  - unfold frame_times_after in *. cbn [fold_left].
    rewrite (update_frame_time_last_30 e l L).
    set (k := (List.length (l ++ [e]) - 30)%nat).
    assert (Lk : (List.length (skipn k (l ++ [e])) <= 30)%nat).
    { rewrite length_skipn. subst k. lia. }
    destruct (IH _ Lk) as [E Le]. split; [|exact Le].
    rewrite E.
    assert (K : (k <= List.length (l ++ [e]))%nat) by (subst k; lia).
    replace (skipn k (l ++ [e]) ++ entries) with (skipn k ((l ++ [e]) ++ entries))
      by (rewrite skipn_app; replace (k - List.length (l ++ [e]))%nat with 0%nat by lia;
          reflexivity).
    rewrite skipn_skipn, length_skipn, <- app_assoc. cbn [app].
    f_equal. clear E Le Lk IH. subst k. rewrite !length_app in *. cbn [List.length] in *. lia.
Qed.

Lemma frame_times_keep_last_30_witness :
  (List.length (seq 0 5) <= 30)%nat /\
  frame_times_after (seq 5 40) (seq 0 5) = seq 15 30.
Proof.
  split; [vm_compute; lia|].
  rewrite (proj1 (frame_times_keep_last_30 (seq 5 40) (seq 0 5) ltac:(vm_compute; lia))).
  reflexivity.
Defined.

(** ** [ObstaclePatterns.create_maze_section] *)

Lemma range_by_2_In (start stop v : Z) :
  In v (range_by_2 start stop) -> start <= v < stop /\ (v - start) mod 2 = 0.
Proof.
  unfold range_by_2. rewrite in_map_iff. intros [i [<- I]]. apply in_seq in I.
  assert (Z.of_nat i < (stop - start + 1) / 2) by lia.
  split; [Z.div_mod_to_equations; lia|].
  replace (start + 2 * Z.of_nat i - start) with (Z.of_nat i * 2) by lia.
  apply Z.mod_mul. lia.
Qed.

Lemma range_by_2_NoDup (start stop : Z) : NoDup (range_by_2 start stop).
Proof.
  unfold range_by_2. apply NoDup_map_NoDup_ForallPairs; [|apply seq_NoDup].
  intros i j _ _ E. lia.
Qed.

Lemma maze_row (x : Z) (ys : list Z) (obstacles : list Retro.Obstacle) (o : Oracle) :
  NoDup ys ->
  exists kept o',
    fold_left (fun state y => ObstaclePatterns.maze_cell x y state) ys (obstacles, o)
    = (obstacles ++ map (maze_obstacle x) kept, o') /\
    incl kept ys /\ NoDup kept.
Proof.
  revert obstacles o. induction ys as [|y ys IH]; intros obstacles o N.
  - exists [], o. cbn [fold_left map]. rewrite app_nil_r.
    split; [reflexivity|]. split; [apply incl_nil_l | constructor].
  - inversion N as [|? ? Ny Nys]; subst. cbn [fold_left].
    unfold ObstaclePatterns.maze_cell at 2.
    destruct (random_random o) as [r o1]. destruct (r <? 0.3)%float.
    + destruct (IH (obstacles ++ [maze_obstacle x y]) o1 Nys) as [kept [o' [E [I K]]]].
      exists (y :: kept), o'. split; [|split].
      * unfold maze_obstacle in *. rewrite E, <- app_assoc. reflexivity.
      * intros v [<- | H]; [left; reflexivity | right; exact (I v H)].
      * constructor; [|exact K]. intros H. exact (Ny (I y H)).
    + destruct (IH obstacles o1 Nys) as [kept [o' [E [I K]]]].
      exists kept, o'. split; [exact E|]. split; [|exact K].
      intros v H. right. exact (I v H).
Qed.

Lemma maze_rows (xs ys : list Z) (obstacles : list Retro.Obstacle) (o : Oracle) :
  NoDup xs -> NoDup ys ->
  exists new o',
    fold_left
      (fun state x => fold_left (fun state y => ObstaclePatterns.maze_cell x y state) ys state)
      xs (obstacles, o)
    = (obstacles ++ new, o') /\
    (forall ob, In ob new ->
       ob = maze_obstacle (Retro.ob_x ob) (Retro.ob_y ob) /\
       In (Retro.ob_x ob) xs /\ In (Retro.ob_y ob) ys) /\
    NoDup (map Retro_cell new) /\
    (List.length new <= List.length xs * List.length ys)%nat.
Proof.
  intros Nx Ny. revert obstacles o. induction xs as [|x xs IH]; intros obstacles o.
  - exists [], o. cbn [fold_left]. rewrite app_nil_r.
    split; [reflexivity|]. split; [intros ob []|]. split; [constructor | apply Nat.le_0_l].
  - inversion Nx as [|? ? Nx1 Nxs]; subst. cbn [fold_left].
    destruct (maze_row x ys obstacles o Ny) as [kept [o1 [E1 [I1 K1]]]]. rewrite E1.
    destruct (IH Nxs (obstacles ++ map (maze_obstacle x) kept) o1)
      as [new [o' [E [F [N L]]]]].
    exists (map (maze_obstacle x) kept ++ new), o'.
    split; [rewrite E, <- app_assoc; reflexivity|]. split; [|split].
    + intros ob H. apply in_app_or in H. destruct H as [H | H].
      * apply in_map_iff in H. destruct H as [y [<- Hy]]. cbn [Retro.ob_x Retro.ob_y maze_obstacle].
        split; [reflexivity|]. split; [left; reflexivity | exact (I1 y Hy)].
      * destruct (F ob H) as [F1 [F2 F3]]. split; [exact F1|]. split; [right; exact F2 | exact F3].
    + rewrite map_app. apply NoDup_app; [| exact N |].
      * rewrite map_map. apply NoDup_map_NoDup_ForallPairs; [|exact K1].
        intros a b _ _ H. unfold Retro_cell, maze_obstacle in H. cbn in H. congruence.
      * intros c H1 H2. apply in_map_iff in H1. destruct H1 as [ob1 [<- H1]].
        apply in_map_iff in H1. destruct H1 as [y [<- _]].
        apply in_map_iff in H2. destruct H2 as [ob2 [E2 H2]].
        destruct (F ob2 H2) as [_ [F2 _]].
        unfold Retro_cell, maze_obstacle in E2. cbn in E2.
        apply Nx1. injection E2 as <- _. exact F2.
    + rewrite length_app, length_map. cbn [List.length].
      pose proof (NoDup_incl_length K1 I1). lia.
Qed.

(** X20: [create_maze_section] keeps the obstacles it is given and appends
    dark gray one-by-one obstacles of pattern ["maze"], each at an even
    offset from the start inside the section, no two on the same cell or on
    cells side by side, and no more than one for every second column and
    row.  It does not look at the grid, the snake or the food. *)
Theorem maze_section_cells (obstacles : list Retro.Obstacle) (start_x start_y width height : Z)
    (o : Oracle) :
  exists new o',
    ObstaclePatterns.create_maze_section obstacles start_x start_y width height o
    = (obstacles ++ new, o') /\
    (forall ob, In ob new ->
       ob = {| Retro.ob_x := Retro.ob_x ob; Retro.ob_y := Retro.ob_y ob;
               Retro.ob_width := 1; Retro.ob_height := 1;
               Retro.ob_color := Retro.DARK_GRAY; Retro.ob_pattern := "maze" |} /\
       start_x <= Retro.ob_x ob < start_x + width /\
       (Retro.ob_x ob - start_x) mod 2 = 0 /\
       start_y <= Retro.ob_y ob < start_y + height /\
       (Retro.ob_y ob - start_y) mod 2 = 0) /\
    NoDup (map Retro_cell new) /\
    (forall a b, In a new -> In b new -> Retro_cell a <> Retro_cell b ->
       2 <= steps_between (Retro_cell a) (Retro_cell b)) /\
    Z.of_nat (List.length new) <= Z.max 0 ((width + 1) / 2) * Z.max 0 ((height + 1) / 2).
Proof.
  unfold ObstaclePatterns.create_maze_section.
  destruct (maze_rows (range_by_2 start_x (start_x + width))
              (range_by_2 start_y (start_y + height)) obstacles o
              (range_by_2_NoDup _ _) (range_by_2_NoDup _ _))
    as [new [o' [E [F [N L]]]]].
  exists new, o'. split; [exact E|].
  assert (C : forall ob, In ob new ->
             ob = maze_obstacle (Retro.ob_x ob) (Retro.ob_y ob) /\
             (start_x <= Retro.ob_x ob < start_x + width /\
              (Retro.ob_x ob - start_x) mod 2 = 0) /\
             (start_y <= Retro.ob_y ob < start_y + height /\
              (Retro.ob_y ob - start_y) mod 2 = 0)).
  { intros ob H. destruct (F ob H) as [F1 [F2 F3]].
    split; [exact F1|]. split; apply range_by_2_In; assumption. }
  split; [|split; [exact N|split]].
  - intros ob H. destruct (C ob H) as [C1 [[C2 C3] [C4 C5]]].
    split; [exact C1|]. repeat split; assumption || apply C2 || apply C4.
  - intros a b Ha Hb D.
    destruct (C a Ha) as [_ [[_ Ax] [_ Ay]]]. destruct (C b Hb) as [_ [[_ Bx] [_ By]]].
    unfold Retro_cell, steps_between in *. cbn [fst snd].
    assert (Retro.ob_x a <> Retro.ob_x b \/ Retro.ob_y a <> Retro.ob_y b) as [Dx | Dy].
    { destruct (Z.eq_dec (Retro.ob_x a) (Retro.ob_x b)) as [Ex | Dx]; [|left; exact Dx].
      right. intros Ey. apply D. congruence. }
    + assert ((Retro.ob_x a - Retro.ob_x b) mod 2 = 0)
        by (revert Ax Bx; clear; intros; Z.div_mod_to_equations; lia).
      revert H Dx. clear. intros. Z.div_mod_to_equations. lia.
    + assert ((Retro.ob_y a - Retro.ob_y b) mod 2 = 0)
        by (revert Ay By; clear; intros; Z.div_mod_to_equations; lia).
      revert H Dy. clear. intros. Z.div_mod_to_equations. lia.
  - unfold range_by_2 in L. rewrite !length_map, !length_seq in L.
    replace (start_x + width - start_x + 1) with (width + 1) in L by lia.
    replace (start_y + height - start_y + 1) with (height + 1) in L by lia.
    apply Nat2Z.inj_le in L. rewrite Nat2Z.inj_mul in L.
    replace (Z.of_nat (Z.to_nat ((width + 1) / 2))) with (Z.max 0 ((width + 1) / 2)) in L
      by lia.
    replace (Z.of_nat (Z.to_nat ((height + 1) / 2))) with (Z.max 0 ((height + 1) / 2)) in L
      by lia.
    exact L.
Qed.

Lemma maze_section_cells_witness :
  exists new o',
    ObstaclePatterns.create_maze_section [] 2 2 5 3
      {| ints := []; floats := [0.1; 0.5; 0.2; 0.9; 0.25; 0.7]%float; times := [] |}
    = ([] ++ new, o') /\
    List.length new = 3%nat /\
    NoDup (map Retro_cell new).
Proof.
  destruct (maze_section_cells [] 2 2 5 3
              {| ints := []; floats := [0.1; 0.5; 0.2; 0.9; 0.25; 0.7]%float; times := [] |})
    as [new [o' [E [_ [N _]]]]].
  exists new, o'. split; [exact E|]. split; [|exact N].
  revert E. vm_compute. intros E. injection E as <- _. reflexivity.
Defined.

(** ** [GameConfig] *)

Lemma string_app_assoc (a b c : string) : ((a ++ b) ++ c = a ++ (b ++ c))%string.
Proof. induction a as [|ch a IH]; [reflexivity|]. cbn [String.append]. rewrite IH. reflexivity. Qed.

(** *** UTF-8: what was encoded is decoded *)

Lemma byte_value_of (b : Z) : 0 <= b < 256 -> byte_value (byte_of b) = b.
Proof.
  intros H. unfold byte_value, byte_of.
  rewrite nat_ascii_embedding by lia. lia.
Qed.

Lemma continuation_of (low high b : Z) :
  128 <= b < 192 -> low <= b <= high ->
  continuation low high (byte_of b) = Some (b - 128).
Proof.
  intros B H. unfold continuation. rewrite (byte_value_of b) by lia.
  destruct (Z.leb_spec low b); [|lia]. destruct (Z.leb_spec b high); [|lia]. reflexivity.
Qed.

Lemma bytes_inj (a b : string) : Some a = Some b -> a = b.
Proof. intros H. injection H. trivial. Qed.

(** One byte of the text is read, what follows it being kept folded. *)
Ltac decode_head :=
  cbn [String.append];
  match goal with
  | |- utf8_decode (String _ ?t) = _ => remember t as tail eqn:T
  end;
  cbn [utf8_decode].

Ltac decide_tests :=
  repeat match goal with
         | |- context [?a <? ?b] => destruct (Z.ltb_spec a b); try lia
         | |- context [?a <=? ?b] => destruct (Z.leb_spec a b); try lia
         | |- context [?a =? ?b] => destruct (Z.eqb_spec a b); try lia
         end.

Lemma utf8_decode_char (c : Z) (bytes rest : string) :
  utf8_encode_char c = Some bytes ->
  utf8_decode (bytes ++ rest) = option_map (cons c) (utf8_decode rest).
Proof.
  unfold utf8_encode_char.
  destruct ((0 <=? c) && (c <? 128)) eqn:C1.
  { intros B; apply bytes_inj in B; subst bytes.
    apply andb_true_iff in C1. destruct C1 as [L H].
    apply Z.leb_le in L. apply Z.ltb_lt in H.
    decode_head. rewrite (byte_value_of c) by lia. subst tail.
    destruct (Z.ltb_spec c 128); [reflexivity | lia]. }
  destruct ((128 <=? c) && (c <? 2048)) eqn:C2.
  { intros B; apply bytes_inj in B; subst bytes.
    apply andb_true_iff in C2. destruct C2 as [L H].
    apply Z.leb_le in L. apply Z.ltb_lt in H.
    pose proof (Z.div_mod c 64 ltac:(lia)) as E.
    pose proof (Z.mod_pos_bound c 64 ltac:(lia)) as M.
    assert (Q : 2 <= c / 64 < 32)
      by (split; [apply Z.div_le_lower_bound | apply Z.div_lt_upper_bound]; lia).
    decode_head. rewrite (byte_value_of (192 + c / 64)) by lia.
    decide_tests. cbn [andb]. subst tail. cbv beta iota.
    rewrite (continuation_of 128 191 (128 + c mod 64)) by lia.
    do 2 f_equal. lia. }
  destruct (((2048 <=? c) && (c <? 55296)) || ((57344 <=? c) && (c <? 65536))) eqn:C3.
  { intros B; apply bytes_inj in B; subst bytes.
    assert (R : 2048 <= c < 55296 \/ 57344 <= c < 65536).
    { apply orb_true_iff in C3. destruct C3 as [C3 | C3]; apply andb_true_iff in C3;
        destruct C3 as [L H]; apply Z.leb_le in L; apply Z.ltb_lt in H; lia. }
    pose proof (Z.div_mod c 4096 ltac:(lia)) as E1.
    pose proof (Z.mod_pos_bound c 4096 ltac:(lia)) as M1.
    pose proof (Z.div_mod c 64 ltac:(lia)) as E2.
    pose proof (Z.mod_pos_bound c 64 ltac:(lia)) as M2.
    pose proof (Z.div_mod (c / 64) 64 ltac:(lia)) as E3.
    pose proof (Z.mod_pos_bound (c / 64) 64 ltac:(lia)) as M3.
    assert (D : c / 64 / 64 = c / 4096) by (rewrite Z.div_div by lia; reflexivity).
    rewrite D in E3. clear D.
    generalize dependent (c / 4096). intros a E1 E3.
    generalize dependent ((c / 64) mod 64). intros m M3 E3.
    generalize dependent (c / 64). intros q E2 E3.
    generalize dependent (c mod 64). intros r M2 E2.
    assert (A : 0 <= a < 16) by lia.
    decode_head. rewrite (byte_value_of (224 + a)) by lia.
    decide_tests; cbn [andb]; subst tail; cbv beta iota;
      rewrite (continuation_of _ _ (128 + m)), (continuation_of 128 191 (128 + r)) by lia;
      do 2 f_equal; lia. }
  destruct ((65536 <=? c) && (c <? 1114112)) eqn:C4; [|discriminate].
  intros B; apply bytes_inj in B; subst bytes.
  apply andb_true_iff in C4. destruct C4 as [L H].
  apply Z.leb_le in L. apply Z.ltb_lt in H.
  pose proof (Z.div_mod c 64 ltac:(lia)) as E1.
  pose proof (Z.mod_pos_bound c 64 ltac:(lia)) as M1.
  pose proof (Z.div_mod (c / 64) 64 ltac:(lia)) as E2.
  pose proof (Z.mod_pos_bound (c / 64) 64 ltac:(lia)) as M2.
  pose proof (Z.div_mod (c / 4096) 64 ltac:(lia)) as E3.
  pose proof (Z.mod_pos_bound (c / 4096) 64 ltac:(lia)) as M3.
  assert (D1 : c / 64 / 64 = c / 4096) by (rewrite Z.div_div by lia; reflexivity).
  assert (D2 : c / 4096 / 64 = c / 262144) by (rewrite Z.div_div by lia; reflexivity).
  rewrite D1 in E2. rewrite D2 in E3. clear D1 D2.
  generalize dependent (c / 262144). intros a E3.
  generalize dependent ((c / 4096) mod 64). intros m1 M3 E3.
  generalize dependent (c / 4096). intros q1 E2 E3.
  generalize dependent ((c / 64) mod 64). intros m2 M2 E2.
  generalize dependent (c / 64). intros q2 E1 E2.
  generalize dependent (c mod 64). intros r M1 E1.
  assert (A : 0 <= a < 5) by lia.
  decode_head. rewrite (byte_value_of (240 + a)) by lia.
  decide_tests; cbn [andb]; subst tail; cbv beta iota;
    rewrite (continuation_of _ _ (128 + m1)), (continuation_of 128 191 (128 + m2)),
      (continuation_of 128 191 (128 + r)) by lia;
    do 2 f_equal; lia.
Qed.

Lemma utf8_decode_encode (text : Text) (bytes rest : string) :
  utf8_encode text = Some bytes ->
  utf8_decode (bytes ++ rest) = option_map (app text) (utf8_decode rest).
Proof.
  revert bytes. induction text as [|c text IH]; intros bytes.
  - intros [= <-]. cbn [String.append app]. destruct (utf8_decode rest); reflexivity.
  - cbn [utf8_encode]. destruct (utf8_encode_char c) as [b|] eqn:C; [|discriminate].
    destruct (utf8_encode text) as [more|]; [|discriminate]. intros [= <-].
    rewrite string_app_assoc, (utf8_decode_char c b _ C), (IH more eq_refl).
    destruct (utf8_decode rest); reflexivity.
Qed.

Lemma utf8_encode_char_encodable (c : Z) :
  match utf8_encode_char c with
  | Some _ => encodable c = true
  | None => encodable c = false
  end.
Proof.
  unfold utf8_encode_char, encodable.
  destruct (Z.leb_spec 0 c), (Z.ltb_spec c 128), (Z.leb_spec 128 c), (Z.ltb_spec c 2048),
    (Z.leb_spec 2048 c), (Z.ltb_spec c 55296), (Z.leb_spec 57344 c), (Z.ltb_spec c 65536),
    (Z.leb_spec 65536 c), (Z.ltb_spec c 1114112); cbn [andb orb]; try reflexivity; lia.
Qed.

Lemma utf8_encode_encodable (text : Text) :
  match utf8_encode text with
  | Some _ => forallb encodable text = true
  | None => forallb encodable text = false
  end.
Proof.
  induction text as [|c text IH]; [reflexivity|]. cbn [utf8_encode forallb].
  pose proof (utf8_encode_char_encodable c) as C.
  destruct (utf8_encode_char c); rewrite C; [|reflexivity].
  destruct (utf8_encode text); rewrite IH; reflexivity.
Qed.

(** The lines that [write_lines] wrote are read again. *)
Lemma write_lines_decode (lines : list Text) :
  forallb (forallb encodable) lines = true ->
  utf8_decode (write_lines (map Some lines)) = Some (List.concat lines).
Proof.
  induction lines as [|line lines IH]; [reflexivity|].
  cbn [forallb map write_lines List.concat].
  intros H. apply andb_true_iff in H. destruct H as [L R].
  pose proof (utf8_encode_encodable line) as E.
  destruct (utf8_encode line) as [bytes|] eqn:B; [|congruence].
  rewrite (utf8_decode_encode line bytes _ B), (IH R). reflexivity.
Qed.

(** *** The lines of the file *)

Lemma one_line_app (a b : Text) : one_line (a ++ b) = one_line a && one_line b.
Proof.
  induction a as [|c a IH]; [reflexivity|]. cbn [app one_line].
  rewrite IH, andb_assoc. reflexivity.
Qed.

Lemma plain_key_one_line (k : Text) : plain_key k = true -> one_line k = true.
Proof.
  induction k as [|c k IH]; [reflexivity|]. cbn [plain_key one_line].
  intros H. apply andb_true_iff in H. destruct H as [H K]. apply andb_true_iff in H.
  destruct H as [S _]. rewrite (IH K), andb_true_r.
  destruct (Z.eqb_spec c 10) as [-> | _]; [discriminate S|].
  destruct (Z.eqb_spec c 13) as [-> | _]; [discriminate S|]. reflexivity.
Qed.

Lemma universal_newlines_line (a rest : Text) :
  one_line a = true ->
  universal_newlines (a ++ 10 :: rest) = a ++ 10 :: universal_newlines rest.
Proof.
  induction a as [|c a IH]; intros H; [reflexivity|].
  cbn [one_line] in H. apply andb_true_iff in H. destruct H as [H A].
  apply andb_true_iff in H. destruct H as [_ C]. apply negb_true_iff in C.
  cbn [app universal_newlines]. rewrite C, (IH A). reflexivity.
Qed.

Lemma py_lines_line (a rest : Text) :
  one_line a = true ->
  py_lines (a ++ 10 :: rest) = (a ++ [10]) :: py_lines rest.
Proof.
  induction a as [|c a IH]; intros H; [reflexivity|].
  cbn [one_line] in H. apply andb_true_iff in H. destruct H as [H A].
  apply andb_true_iff in H. destruct H as [N _]. apply negb_true_iff in N.
  cbn [app py_lines]. rewrite N, (IH A). reflexivity.
Qed.

Lemma rstrip_keeps (c : Z) (rest : Text) :
  is_space c = false -> rstrip is_space (c :: rest) = c :: rstrip is_space rest.
Proof. intros H. cbn [rstrip]. rewrite H. destruct (rstrip is_space rest); reflexivity. Qed.

Lemma rstrip_newline (v : Text) : rstrip is_space (v ++ [10]) = rstrip is_space v.
Proof.
  induction v as [|c v IH]; [reflexivity|]. cbn [app rstrip]. rewrite IH. reflexivity.
Qed.

Lemma plain_key_strip (k rest : Text) :
  plain_key k = true -> k <> [] ->
  py_strip (k ++ 61 :: rest) = k ++ 61 :: rstrip is_space rest.
Proof.
  intros P N. unfold py_strip.
  assert (L : lstrip is_space (k ++ 61 :: rest) = k ++ 61 :: rest).
  { destruct k as [|c k]; [congruence|]. cbn [plain_key] in P.
    apply andb_true_iff in P. destruct P as [P _]. apply andb_true_iff in P.
    destruct P as [S _]. apply negb_true_iff in S.
    cbn [app lstrip]. rewrite S. reflexivity. }
  rewrite L. clear L N. induction k as [|c k IH].
  - cbn [app]. apply rstrip_keeps. reflexivity.
  - cbn [plain_key] in P. apply andb_true_iff in P. destruct P as [P K].
    apply andb_true_iff in P. destruct P as [S _]. apply negb_true_iff in S.
    cbn [app]. rewrite (rstrip_keeps c _ S), (IH K). reflexivity.
Qed.

Lemma plain_key_split (k rest : Text) :
  plain_key k = true ->
  has_equals (k ++ 61 :: rest) = true /\
  split_equals (k ++ 61 :: rest) = (k, rest).
Proof.
  induction k as [|c k IH]; intros P; [split; reflexivity|].
  cbn [plain_key] in P. apply andb_true_iff in P. destruct P as [P K].
  apply andb_true_iff in P. destruct P as [_ E]. apply negb_true_iff in E.
  destruct (IH K) as [H S].
  cbn [app has_equals split_equals]. rewrite E, H, S. split; reflexivity.
Qed.

(** What [load_lines] reads in a line of [save_to_file]. *)
Lemma line_text_read (key : string) (value : Text) :
  plain_key (text_of key) = true -> text_of key <> [] ->
  has_equals (GameConfig.line_text key value) = true /\
  split_equals (py_strip (GameConfig.line_text key value))
  = (text_of key, rstrip is_space value).
Proof.
  intros P N. unfold GameConfig.line_text.
  change (text_of key ++ [61] ++ value ++ [10])
    with (text_of key ++ 61 :: (value ++ [10])).
  split; [apply (plain_key_split _ _ P)|].
  rewrite (plain_key_strip _ _ P N), rstrip_newline.
  apply (plain_key_split _ _ P).
Qed.

Lemma line_text_lines (key : string) (value rest : Text) :
  plain_key (text_of key) = true -> one_line value = true ->
  universal_newlines (GameConfig.line_text key value ++ rest)
  = GameConfig.line_text key value ++ universal_newlines rest /\
  py_lines (GameConfig.line_text key value ++ rest)
  = GameConfig.line_text key value :: py_lines rest.
Proof.
  intros P O. unfold GameConfig.line_text.
  assert (A : one_line (text_of key ++ [61] ++ value) = true).
  { rewrite one_line_app, (plain_key_one_line _ P). cbn [app one_line andb negb Z.eqb].
    exact O. }
  assert (E : forall tail,
             (text_of key ++ [61] ++ value ++ [10]) ++ tail
             = (text_of key ++ [61] ++ value) ++ 10 :: tail).
  { intros tail. rewrite <- ?app_assoc. reflexivity. }
  split.
  - rewrite E, (universal_newlines_line _ _ A), E. reflexivity.
  - rewrite E, (py_lines_line _ _ A). f_equal.
    rewrite <- ?app_assoc. reflexivity.
Qed.

Lemma line_text_encodable (key : string) (value : Text) :
  forallb encodable (text_of key) = true ->
  forallb encodable (GameConfig.line_text key value) = forallb encodable value.
Proof.
  intros K. unfold GameConfig.line_text. rewrite !forallb_app, K.
  cbn [forallb andb]. change (encodable 61) with true. change (encodable 10) with true.
  cbn [andb]. rewrite andb_true_r. reflexivity.
Qed.

(** X21: [load_from_file] of what [save_to_file] wrote, the disk taking it
    all, sets [difficulty], [show_grid], [particle_effects] and
    [screen_shake] to the strings that were written, white space at their end
    apart, and leaves the three other attributes; this for values whose text
    holds no line end and no surrogate.  A flag comes back as the string
    ["True"] or ["False"], and both count as true in a condition.  A missing
    file leaves the configuration as it is, a file of bytes that are not
    UTF-8 raises, a file that cannot be opened for writing is left as it is,
    and a [difficulty] whose text cannot be made or encoded leaves the file
    empty. *)
Theorem config_comes_back_as_text
    (has_other_attribute set_other_attribute_raises : Text -> bool) :
  (forall saved self file difficulty show_grid particle_effects screen_shake,
     written_as (GameConfig.difficulty saved) difficulty ->
     written_as (GameConfig.show_grid saved) show_grid ->
     written_as (GameConfig.particle_effects saved) particle_effects ->
     written_as (GameConfig.screen_shake saved) screen_shake ->
     GameConfig.load_from_file has_other_attribute set_other_attribute_raises
       (GameConfig.save_to_file saved Writable file) self
     = Some {| GameConfig.difficulty := read_back difficulty;
               GameConfig.snake_color := GameConfig.snake_color self;
               GameConfig.food_color := GameConfig.food_color self;
               GameConfig.show_grid := read_back show_grid;
               GameConfig.particle_effects := read_back particle_effects;
               GameConfig.screen_shake := read_back screen_shake;
               GameConfig.auto_pause_on_focus_loss :=
                 GameConfig.auto_pause_on_focus_loss self |}) /\
  (forall b,
     written_as (GameConfig.Bool b) (text_of (if b then "True" else "False")) /\
     read_back (text_of (if b then "True" else "False"))
     = GameConfig.Str (text_of (if b then "True" else "False")) /\
     GameConfig.truth (read_back (text_of (if b then "True" else "False"))) = true) /\
  (forall self,
     GameConfig.load_from_file has_other_attribute set_other_attribute_raises
       GameConfig.Missing self = Some self) /\
  (forall content self,
     utf8_decode content = None ->
     GameConfig.load_from_file has_other_attribute set_other_attribute_raises
       (GameConfig.Bytes content) self = None) /\
  (forall saved file, GameConfig.save_to_file saved CannotOpen file = file) /\
  (forall saved file,
     match GameConfig.py_format (GameConfig.difficulty saved) with
     | Some value => forallb encodable value = false
     | None => True
     end ->
     GameConfig.save_to_file saved Writable file = GameConfig.Bytes EmptyString).
Proof.
  split; [|split; [|split; [|split; [|split]]]].
  - intros saved self file t1 t2 t3 t4 [F1 [O1 C1]] [F2 [O2 C2]] [F3 [O3 C3]] [F4 [O4 C4]].
    unfold GameConfig.save_to_file, GameConfig.load_from_file, written, GameConfig.line_of.
    rewrite F1, F2, F3, F4. cbn [option_map].
    change [Some (GameConfig.line_text "difficulty" t1);
            Some (GameConfig.line_text "show_grid" t2);
            Some (GameConfig.line_text "particle_effects" t3);
            Some (GameConfig.line_text "screen_shake" t4)]
      with (map Some [GameConfig.line_text "difficulty" t1;
                      GameConfig.line_text "show_grid" t2;
                      GameConfig.line_text "particle_effects" t3;
                      GameConfig.line_text "screen_shake" t4]).
    rewrite write_lines_decode.
    2:{ cbn [forallb]. rewrite !line_text_encodable by reflexivity.
        rewrite C1, C2, C3, C4. reflexivity. }
    cbn [List.concat].
    destruct (line_text_lines "difficulty" t1
                (GameConfig.line_text "show_grid" t2
                 ++ GameConfig.line_text "particle_effects" t3
                 ++ GameConfig.line_text "screen_shake" t4 ++ [])
                eq_refl O1) as [U1 L1].
    destruct (line_text_lines "show_grid" t2
                (GameConfig.line_text "particle_effects" t3
                 ++ GameConfig.line_text "screen_shake" t4 ++ [])
                eq_refl O2) as [U2 L2].
    destruct (line_text_lines "particle_effects" t3
                (GameConfig.line_text "screen_shake" t4 ++ [])
                eq_refl O3) as [U3 L3].
    destruct (line_text_lines "screen_shake" t4 [] eq_refl O4) as [U4 L4].
    cbn [universal_newlines py_lines] in U4, L4.
    rewrite U1, U2, U3, U4, L1, L2, L3, L4.
    destruct (line_text_read "difficulty" t1 eq_refl) as [H1 S1]; [discriminate|].
    destruct (line_text_read "show_grid" t2 eq_refl) as [H2 S2]; [discriminate|].
    destruct (line_text_read "particle_effects" t3 eq_refl) as [H3 S3]; [discriminate|].
    destruct (line_text_read "screen_shake" t4 eq_refl) as [H4 S4]; [discriminate|].
    cbn [GameConfig.load_lines]. rewrite H1, S1, H2, S2, H3, S3, H4, S4.
    reflexivity.
  - intros [|]; repeat split; reflexivity.
  - intros self. reflexivity.
  - intros content self D. unfold GameConfig.load_from_file. rewrite D. reflexivity.
  - intros saved file. reflexivity.
  - intros saved file C. unfold GameConfig.save_to_file, written, GameConfig.line_of.
    destruct (GameConfig.py_format (GameConfig.difficulty saved)) as [value|];
      [|reflexivity].
    cbn [option_map write_lines].
    pose proof (utf8_encode_encodable (GameConfig.line_text "difficulty" value)) as E.
    rewrite line_text_encodable in E by reflexivity.
    destruct (utf8_encode _); [congruence | reflexivity].
Qed.

Lemma config_comes_back_as_text_witness :
  GameConfig.load_from_file (fun _ => false) (fun _ => false)
    (GameConfig.save_to_file
       {| GameConfig.difficulty := GameConfig.Str hard_and_space;
          GameConfig.snake_color := GameConfig.Colour Retro.NEON_GREEN;
          GameConfig.food_color := GameConfig.Colour Retro.NEON_PINK;
          GameConfig.show_grid := GameConfig.Bool false;
          GameConfig.particle_effects := GameConfig.Bool true;
          GameConfig.screen_shake := GameConfig.Bool false;
          GameConfig.auto_pause_on_focus_loss := GameConfig.Bool true |}
       Writable GameConfig.Missing)
    GameConfig.GameConfig_init
  = Some {| GameConfig.difficulty := GameConfig.Str (text_of "Hard");
            GameConfig.snake_color := GameConfig.Colour Retro.NEON_GREEN;
            GameConfig.food_color := GameConfig.Colour Retro.NEON_PINK;
            GameConfig.show_grid := GameConfig.Str (text_of "False");
            GameConfig.particle_effects := GameConfig.Str (text_of "True");
            GameConfig.screen_shake := GameConfig.Str (text_of "False");
            GameConfig.auto_pause_on_focus_loss := GameConfig.Bool true |} /\
  GameConfig.load_from_file (fun _ => false) (fun _ => false)
    (GameConfig.Bytes not_utf8) GameConfig.GameConfig_init = None /\
  GameConfig.save_to_file
    {| GameConfig.difficulty := GameConfig.Str [55296];
       GameConfig.snake_color := GameConfig.Colour Retro.NEON_GREEN;
       GameConfig.food_color := GameConfig.Colour Retro.NEON_PINK;
       GameConfig.show_grid := GameConfig.Bool false;
       GameConfig.particle_effects := GameConfig.Bool true;
       GameConfig.screen_shake := GameConfig.Bool false;
       GameConfig.auto_pause_on_focus_loss := GameConfig.Bool true |}
    Writable GameConfig.Missing = GameConfig.Bytes EmptyString.
Proof.
  split; [|split].
  - rewrite (proj1 (config_comes_back_as_text (fun _ => false) (fun _ => false))
               _ _ _ hard_and_space (text_of "False") (text_of "True") (text_of "False"));
      [reflexivity | | | |]; repeat split; reflexivity.
  - apply (proj1 (proj2 (proj2 (proj2
             (config_comes_back_as_text (fun _ => false) (fun _ => false)))))).
    reflexivity.
  - apply (proj2 (proj2 (proj2 (proj2 (proj2
             (config_comes_back_as_text (fun _ => false) (fun _ => false))))))).
    reflexivity.
Defined.

(** * UltraSnake: the game *)

Lemma raises_nothing_bind {A B : Type} (P : A -> Prop) (Q : B -> Prop)
    (m : result A) (k : A -> result B) :
  raises_nothing P m -> (forall a, P a -> raises_nothing Q (k a)) ->
  raises_nothing Q (bind m k).
Proof. destruct m as [a| |]; cbn; intros H K; [apply K; exact H | exact H | exact I]. Qed.

Lemma raises_nothing_weaken {A : Type} (P Q : A -> Prop) (r : result A) :
  raises_nothing P r -> (forall a, P a -> Q a) -> raises_nothing Q r.
Proof. destruct r as [a| |]; cbn; intros H K; [apply K; exact H | exact H | exact I]. Qed.

Lemma Ultra_delays_closed (delay : float) :
  In delay Ultra_delays -> In (UltraGame.speed_up delay) Ultra_delays.
Proof.
  unfold Ultra_delays. cbn [In].
  intros [<- | [<- | [<- | [<- | [<- | [<- | [<- | [<- | []]]]]]]]]; vm_compute; tauto.
Qed.

Lemma Ultra_delays_bounds (delay : float) :
  In delay Ultra_delays -> (0.08 <=? delay)%float = true /\ (delay <=? 0.15)%float = true.
Proof.
  unfold Ultra_delays. cbn [In].
  intros [<- | [<- | [<- | [<- | [<- | [<- | [<- | [<- | []]]]]]]]]; split; reflexivity.
Qed.

Lemma Ultra_delay_after_listed (apples_eaten : Z) :
  In (Ultra_delay_after apples_eaten) Ultra_delays.
Proof.
  unfold Ultra_delay_after. induction (Z.to_nat (apples_eaten / 5)) as [|n IH].
  - left. reflexivity.
  - rewrite Nat.iter_succ. apply Ultra_delays_closed. exact IH.
Qed.

Lemma Ultra_delay_after_next (apples_eaten : Z) :
  0 <= apples_eaten ->
  Ultra_delay_after (apples_eaten + 1)
  = if (apples_eaten + 1) mod 5 =? 0 then UltraGame.speed_up (Ultra_delay_after apples_eaten)
    else Ultra_delay_after apples_eaten.
Proof.
  intros P. unfold Ultra_delay_after.
  destruct ((apples_eaten + 1) mod 5 =? 0) eqn:M.
  - apply Z.eqb_eq in M.
    replace ((apples_eaten + 1) / 5) with (apples_eaten / 5 + 1)
      by (Z.div_mod_to_equations; lia).
    rewrite Z2Nat.inj_add by (try apply Z.div_pos; lia).
    rewrite Nat.add_comm. reflexivity.
  - apply Z.eqb_neq in M.
    replace ((apples_eaten + 1) / 5) with (apples_eaten / 5)
      by (Z.div_mod_to_equations; lia).
    reflexivity.
Qed.

Lemma Ultra_is_obstacle_In (g : UltraSnake.Game) (x y : Z) :
  UltraSnake.is_obstacle g x y = true <-> In (x, y) (UltraSnake.obstacles g).
Proof.
  unfold UltraSnake.is_obstacle. rewrite existsb_exists. split.
  - intros [[ox oy] [H E]]. cbn [fst snd] in E. apply andb_true_iff in E.
    destruct E as [E1 E2]. apply Z.eqb_eq in E1, E2. subst. exact H.
  - intros H. exists (x, y). split; [exact H|]. cbn [fst snd]. rewrite !Z.eqb_refl. reflexivity.
Qed.

Lemma Ultra_rest_fields (c c' : UltraSnake.Game) :
  Ultra_rest c' = Ultra_rest c ->
  UltraSnake.snake c' = UltraSnake.snake c /\ UltraSnake.score c' = UltraSnake.score c /\
  UltraSnake.apples_eaten c' = UltraSnake.apples_eaten c /\
  UltraSnake.game_over c' = UltraSnake.game_over c /\
  UltraSnake.paused c' = UltraSnake.paused c.
Proof.
  unfold Ultra_rest.
  generalize (UltraSnake.snake c') (UltraSnake.score c') (UltraSnake.apples_eaten c')
    (UltraSnake.game_over c') (UltraSnake.paused c').
  intros s sc ae go pa E. injection E. intros. repeat split; assumption.
Qed.

(** [spawn_apple], when it returns, leaves a board in order whatever the
    apple was. *)
Lemma Ultra_spawn_apple_in_order (fuel : nat) (c c' : UltraSnake.Game) :
  NoDup (UltraSnake.obstacles c) ->
  UltraSnake.spawn_apple fuel c = Ok c' ->
  Ultra_board_in_order c' /\ Ultra_rest c' = Ultra_rest c /\
  UltraSnake.obstacles c' = UltraSnake.obstacles c.
Proof.
  intros N E. destruct (Ultra_spawn_apple_spec fuel c c' E) as [x [y [F [_ O]]]].
  rewrite F. split; [|split; reflexivity].
  split; [exact N|]. exists (x, y). split; [reflexivity|]. exact O.
Qed.

Lemma Ultra_spawn_apple_raises_nothing (fuel : nat) (c : UltraSnake.Game) (e : exn) :
  UltraSnake.spawn_apple fuel c <> Raise e.
Proof.
  revert c. induction fuel as [|fuel IH]; intros c; [discriminate|].
  cbn [UltraSnake.spawn_apple].
  destruct (randint _ _ _) as [x o1]. destruct (randint _ _ o1) as [y o2].
  destruct (_ && _); [discriminate | apply IH].
Qed.

(** One obstacle: with an apple on the board [spawn_obstacles] raises
    nothing. *)
Lemma Ultra_spawn_obstacle_loop_in_order (left : nat) (c : UltraSnake.Game) :
  Ultra_board_in_order c ->
  exists c',
    UltraGame.spawn_obstacle_loop left c = Ok c' /\
    Ultra_board_in_order c' /\ Ultra_rest c' = Ultra_rest c /\
    UltraSnake.apple c' = UltraSnake.apple c /\
    (UltraSnake.obstacles c' = UltraSnake.obstacles c \/
     exists x y,
       UltraSnake.obstacles c' = UltraSnake.obstacles c ++ [(x, y)] /\
       UltraSnake.check_collision (UltraSnake.snake c) x y = false).
Proof.
  revert c. induction left as [|left IH]; intros c B.
  - exists c. split; [reflexivity|]. split; [exact B|]. repeat split. left. reflexivity.
  - cbn [UltraGame.spawn_obstacle_loop].
    destruct (randint _ _ _) as [x o1]. destruct (randint _ _ o1) as [y o2].
    assert (B2 : Ultra_board_in_order (UltraSnake.with_rng o2 c)) by exact B.
    destruct (IH _ B2) as [c' [E [B' [R [A O]]]]].
    assert (Again : exists c',
               UltraGame.spawn_obstacle_loop left (UltraSnake.with_rng o2 c) = Ok c' /\
               Ultra_board_in_order c' /\ Ultra_rest c' = Ultra_rest c /\
               UltraSnake.apple c' = UltraSnake.apple c /\
               (UltraSnake.obstacles c' = UltraSnake.obstacles c \/
                exists x y,
                  UltraSnake.obstacles c' = UltraSnake.obstacles c ++ [(x, y)] /\
                  UltraSnake.check_collision (UltraSnake.snake c) x y = false)).
    { exists c'. split; [exact E|]. split; [exact B'|]. split; [exact R|].
      split; [exact A | exact O]. }
    cbn [UltraSnake.snake UltraSnake.with_rng UltraSnake.apple].
    destruct (negb (UltraSnake.check_collision (UltraSnake.snake c) x y)) eqn:Sn;
      [|exact Again].
    destruct (negb (UltraSnake.is_obstacle (UltraSnake.with_rng o2 c) x y)) eqn:Ob;
      [|exact Again].
    cbn [andb]. destruct B as [N [a [Ea Oa]]]. rewrite Ea in Again |- *.
    destruct (negb (x =? fst a) || negb (y =? snd a)) eqn:Ap; [|exact Again].
    apply negb_true_iff in Sn, Ob.
    eexists. split; [reflexivity|]. split; [|split; [reflexivity|split; [exact Ea|]]].
    + split.
      * cbn [UltraSnake.obstacles UltraGame.with_obstacles UltraSnake.with_rng].
        apply NoDup_app; [exact N | constructor; [intros [] | constructor] |].
        intros p Hp [<- | []]. apply (Ultra_is_obstacle_In c) in Hp.
        change (UltraSnake.is_obstacle c x y = false) in Ob. congruence.
      * exists a. split; [exact Ea|].
        destruct (UltraSnake.is_obstacle
                    (UltraGame.with_obstacles
                       (UltraSnake.obstacles (UltraSnake.with_rng o2 c) ++ [(x, y)])
                       (UltraSnake.with_rng o2 c)) (fst a) (snd a)) eqn:H; [|reflexivity].
        apply Ultra_is_obstacle_In in H.
        cbn [UltraSnake.obstacles UltraGame.with_obstacles UltraSnake.with_rng] in H.
        apply in_app_or in H. destruct H as [H | [H | []]].
        -- apply (Ultra_is_obstacle_In c) in H. congruence.
        -- injection H as Hx Hy. rewrite Hx, Hy, !Z.eqb_refl in Ap. discriminate.
    + right. exists x, y. split; [reflexivity | exact Sn].
Qed.

Lemma Ultra_for_range_obstacles (n : nat) (c : UltraSnake.Game) :
  Ultra_board_in_order c ->
  exists c',
    UltraGame.for_range_raising n (UltraGame.spawn_obstacle_loop 50) c = Ok c' /\
    Ultra_board_in_order c' /\ Ultra_rest c' = Ultra_rest c /\
    UltraSnake.apple c' = UltraSnake.apple c /\
    exists new,
      UltraSnake.obstacles c' = UltraSnake.obstacles c ++ new /\
      (List.length new <= n)%nat /\
      forall p, In p new ->
        UltraSnake.check_collision (UltraSnake.snake c) (fst p) (snd p) = false.
Proof.
  revert c. induction n as [|n IH]; intros c B.
  - exists c. split; [reflexivity|]. split; [exact B|]. repeat split.
    exists []. rewrite app_nil_r. repeat split; [apply Nat.le_0_l | intros p []].
  - cbn [UltraGame.for_range_raising].
    destruct (Ultra_spawn_obstacle_loop_in_order 50 c B) as [c1 [E1 [B1 [R1 [A1 O1]]]]].
    rewrite E1. cbn [bind].
    destruct (IH c1 B1) as [c' [E [B' [R [A [new [O [L S]]]]]]]].
    pose proof (Ultra_rest_fields _ _ R1) as [Sn _].
    exists c'. split; [exact E|]. split; [exact B'|]. split; [congruence|].
    split; [congruence|].
    destruct O1 as [O1 | [x [y [O1 S1]]]].
    + exists new. split; [congruence|]. split; [lia|].
      intros p Hp. rewrite <- Sn. exact (S p Hp).
    + exists ((x, y) :: new). split; [rewrite O, O1, <- app_assoc; reflexivity|].
      split; [cbn [List.length]; lia|].
      intros p [<- | Hp]; [exact S1 | rewrite <- Sn; exact (S p Hp)].
Qed.

Section UltraGameProofs.

Variables cos sin : float -> float.

Lemma Ultra_explode_once_core (x y : Z) (color : Z * Z * Z) (g : UltraGame.Game) :
  UltraGame.core (UltraGame.explode_once cos sin x y color g)
  = UltraSnake.with_rng
      (UltraSnake.rng (UltraGame.core (UltraGame.explode_once cos sin x y color g)))
      (UltraGame.core g) /\
  List.length (UltraGame.particles (UltraGame.explode_once cos sin x y color g))
  = S (List.length (UltraGame.particles g)).
Proof.
  unfold UltraGame.explode_once.
  destruct (PiGame.uniform_float 0 PiGame.two_pi _) as [angle o1].
  destruct (PiGame.uniform_float 50 150 o1) as [speed o2].
  destruct (PiGame.uniform_float 0.5 1.5 o2) as [lifetime o3].
  cbn [UltraGame.core UltraGame.particles].
  split; [reflexivity | rewrite length_app; cbn [List.length]; lia].
Qed.

(** [add_explosion] adds [count] particles, whatever their number, and of
    the game moves the generator only. *)
Lemma Ultra_add_explosion_spec (x y : Z) (color : Z * Z * Z) (count : nat)
    (g : UltraGame.Game) :
  UltraGame.core (UltraGame.add_explosion cos sin x y color count g)
  = UltraSnake.with_rng
      (UltraSnake.rng (UltraGame.core (UltraGame.add_explosion cos sin x y color count g)))
      (UltraGame.core g) /\
  List.length (UltraGame.particles (UltraGame.add_explosion cos sin x y color count g))
  = (List.length (UltraGame.particles g) + count)%nat.
Proof.
  unfold UltraGame.add_explosion. revert g.
  induction count as [|n IH]; intros g; cbn [for_range].
  - split; [destruct (UltraGame.core g); reflexivity | lia].
  - destruct (IH (UltraGame.explode_once cos sin x y color g)) as [C L].
    destruct (Ultra_explode_once_core x y color g) as [C1 L1].
    split; [|lia]. rewrite C at 1. rewrite C1. reflexivity.
Qed.

Lemma Ultra_Snake_update_spec (dt : float) (s : UltraSnake.Snake) :
  Ultra_reachable s ->
  exists s',
    UltraSnake.Snake_update dt s = Ok s' /\
    Ultra_reachable s' /\ UltraSnake.move_delay s' = UltraSnake.move_delay s.
Proof.
  intros R. pose proof (Ultra_reachable_nonempty s R) as N.
  assert (Ret : exists s', UltraSnake.Snake_update dt s = Ok s' /\
                           UltraSnake.move_delay s' = UltraSnake.move_delay s).
  { unfold UltraSnake.Snake_update. destruct (_ <=? _)%float.
    - unfold UltraSnake.move. cbn [UltraSnake.segments UltraSnake.next_direction
        UltraSnake.growing UltraSnake.move_timer UltraSnake.move_delay].
      destruct (UltraSnake.segments s) as [|h body]; [congruence|]. cbn [map].
      destruct (value _) as [dx dy].
      destruct (UltraSnake.growing s); eexists; split; reflexivity.
    - eexists. split; reflexivity. }
  destruct Ret as [s' [E D]]. exists s'. split; [exact E|].
  split; [exact (ultra_update dt s s' R E) | exact D].
Qed.

Lemma Ultra_steady_intro (g : UltraGame.Game) :
  Ultra_reachable (UltraSnake.snake (UltraGame.core g)) ->
  UltraSnake.score (UltraGame.core g) = 10 * UltraSnake.apples_eaten (UltraGame.core g) ->
  0 <= UltraSnake.apples_eaten (UltraGame.core g) ->
  Ultra_board_in_order (UltraGame.core g) ->
  UltraSnake.move_delay (UltraSnake.snake (UltraGame.core g))
    = Ultra_delay_after (UltraSnake.apples_eaten (UltraGame.core g)) ->
  Ultra_steady g.
Proof. intros. unfold Ultra_steady. cbn zeta. split; [|split; [split|split]]; assumption. Qed.

Lemma Ultra_steady_elim (g : UltraGame.Game) :
  Ultra_steady g ->
  Ultra_reachable (UltraSnake.snake (UltraGame.core g)) /\
  UltraSnake.score (UltraGame.core g) = 10 * UltraSnake.apples_eaten (UltraGame.core g) /\
  0 <= UltraSnake.apples_eaten (UltraGame.core g) /\
  Ultra_board_in_order (UltraGame.core g) /\
  UltraSnake.move_delay (UltraSnake.snake (UltraGame.core g))
    = Ultra_delay_after (UltraSnake.apples_eaten (UltraGame.core g)).
Proof.
  unfold Ultra_steady. cbn zeta. intros [H1 [[H2 H3] [H4 H5]]].
  split; [|split; [|split; [|split]]]; assumption.
Qed.

Lemma Ultra_steady_ext (g g' : UltraGame.Game) :
  Ultra_steady g ->
  Ultra_reachable (UltraSnake.snake (UltraGame.core g')) ->
  UltraSnake.move_delay (UltraSnake.snake (UltraGame.core g'))
    = UltraSnake.move_delay (UltraSnake.snake (UltraGame.core g)) ->
  UltraSnake.score (UltraGame.core g') = UltraSnake.score (UltraGame.core g) ->
  UltraSnake.apples_eaten (UltraGame.core g') = UltraSnake.apples_eaten (UltraGame.core g) ->
  UltraSnake.obstacles (UltraGame.core g') = UltraSnake.obstacles (UltraGame.core g) ->
  UltraSnake.apple (UltraGame.core g') = UltraSnake.apple (UltraGame.core g) ->
  Ultra_steady g'.
Proof.
  intros T R D Sc Ae Ob Ap. apply Ultra_steady_elim in T.
  destruct T as [_ [Sc0 [Ae0 [[B1 [a [B2 B3]]] D0]]]].
  apply Ultra_steady_intro; try congruence; try lia.
  split; [rewrite Ob; exact B1|].
  exists a. split; [congruence|]. unfold UltraSnake.is_obstacle in *. rewrite Ob. exact B3.
Qed.

(** The block of the apple. *)
Lemma Ultra_eat_steady (fuel : nat) (a : Pos) (g : UltraGame.Game) :
  Ultra_steady g ->
  raises_nothing
    (fun g' => Ultra_steady g' /\
               UltraSnake.score (UltraGame.core g')
               = UltraSnake.score (UltraGame.core g) + 10 /\
               UltraSnake.game_over (UltraGame.core g')
               = UltraSnake.game_over (UltraGame.core g))
    (UltraGame.eat cos sin fuel a g).
Proof.
  intros T. apply Ultra_steady_elim in T. destruct T as [N [Sc [Ae [B D]]]].
  unfold UltraGame.eat. cbv zeta.
  set (c1 := UltraGame.with_score _ _ _).
  assert (Sc1 : UltraSnake.score c1 = UltraSnake.score (UltraGame.core g) + 10)
    by reflexivity.
  assert (Ae1 : UltraSnake.apples_eaten c1
                = UltraSnake.apples_eaten (UltraGame.core g) + 1) by reflexivity.
  assert (D1 : UltraSnake.move_delay (UltraSnake.snake c1)
               = UltraSnake.move_delay (UltraSnake.snake (UltraGame.core g)))
    by reflexivity.
  assert (Go1 : UltraSnake.game_over c1 = UltraSnake.game_over (UltraGame.core g))
    by reflexivity.
  assert (O1 : UltraSnake.obstacles c1 = UltraSnake.obstacles (UltraGame.core g))
    by reflexivity.
  assert (R1 : Ultra_reachable (UltraSnake.snake c1)) by exact (ultra_grow _ N).
  set (g1 := UltraGame.with_core c1 g).
  destruct (Ultra_add_explosion_spec
              (fst a * UltraSnake.GRID_SIZE + UltraSnake.GRID_SIZE / 2)
              (snd a * UltraSnake.GRID_SIZE + UltraSnake.GRID_SIZE / 2)
              UltraGame.APPLE_RED 20 g1) as [C2 _].
  set (g2 := UltraGame.add_explosion cos sin _ _ _ 20 g1) in *.
  assert (F2 : Ultra_rest (UltraGame.core g2) = Ultra_rest c1) by (rewrite C2; reflexivity).
  destruct (Ultra_rest_fields _ _ F2) as [S2 [Sc2 [Ae2 [Go2 _]]]].
  assert (N2 : NoDup (UltraSnake.obstacles (UltraGame.core g2))).
  { rewrite C2. change (NoDup (UltraSnake.obstacles (UltraGame.core g))). apply B. }
  destruct (UltraSnake.spawn_apple fuel (UltraGame.core g2)) as [c3|e|] eqn:E3;
    [|exfalso; exact (Ultra_spawn_apple_raises_nothing _ _ _ E3) | exact I].
  cbn [bind].
  destruct (Ultra_spawn_apple_in_order fuel _ c3 N2 E3) as [B3 [R3 _]].
  destruct (Ultra_rest_fields _ _ R3) as [S3 [Sc3 [Ae3 [Go3 _]]]].
  assert (Ae31 : UltraSnake.apples_eaten c3
                 = UltraSnake.apples_eaten (UltraGame.core g) + 1)
    by (rewrite Ae3, Ae2; exact Ae1).
  destruct (UltraSnake.apples_eaten c3 mod 5 =? 0) eqn:M; rewrite Ae31 in M.
  - unfold UltraGame.spawn_obstacles.
    destruct (Ultra_for_range_obstacles
                (Z.to_nat (Z.min 10 (UltraSnake.apples_eaten c3 / 5 * 2 + 2))) c3 B3)
      as [c4 [E4 [B4 [R4 _]]]].
    rewrite E4. cbn [bind raises_nothing].
    destruct (Ultra_rest_fields _ _ R4) as [S4 [Sc4 [Ae4 [Go4 _]]]].
    split; [apply Ultra_steady_intro|];
      cbn [UltraGame.core UltraGame.with_core UltraSnake.snake UltraGame.with_snake
           UltraSnake.score UltraSnake.apples_eaten UltraSnake.game_over
           UltraSnake.move_delay Ultra_with_move_delay].
    + apply ultra_delay. rewrite S4, S3, S2. exact R1.
    + rewrite Sc4, Ae4, Sc3, Ae3, Sc2, Ae2, Sc1, Ae1. lia.
    + rewrite Ae4, Ae3, Ae2, Ae1. lia.
    + exact B4.
    + rewrite S4, S3, S2, D1, D, Ae4, Ae3, Ae2, Ae1, Ultra_delay_after_next, M by exact Ae.
      reflexivity.
    + rewrite Sc4, Sc3, Sc2, Go4, Go3, Go2. split; [exact Sc1 | exact Go1].
  - cbn [raises_nothing].
    split; [apply Ultra_steady_intro|]; cbn [UltraGame.core UltraGame.with_core].
    + rewrite S3, S2. exact R1.
    + rewrite Sc3, Ae3, Sc2, Ae2, Sc1, Ae1. lia.
    + rewrite Ae3, Ae2, Ae1. lia.
    + exact B3.
    + rewrite S3, S2, D1, D, Ae3, Ae2, Ae1, Ultra_delay_after_next, M by exact Ae.
      reflexivity.
    + rewrite Sc3, Sc2, Go3, Go2. split; [exact Sc1 | exact Go1].
Qed.

Lemma Ultra_crash_steady (head_x head_y : Z) (color : Z * Z * Z) (g : UltraGame.Game) :
  Ultra_steady g ->
  Ultra_steady (UltraGame.crash cos sin head_x head_y color g) /\
  UltraSnake.score (UltraGame.core (UltraGame.crash cos sin head_x head_y color g))
  = UltraSnake.score (UltraGame.core g) /\
  UltraSnake.snake (UltraGame.core (UltraGame.crash cos sin head_x head_y color g))
  = UltraSnake.snake (UltraGame.core g) /\
  UltraSnake.obstacles (UltraGame.core (UltraGame.crash cos sin head_x head_y color g))
  = UltraSnake.obstacles (UltraGame.core g) /\
  UltraSnake.game_over (UltraGame.core (UltraGame.crash cos sin head_x head_y color g))
  = true.
Proof.
  intros T. unfold UltraGame.crash. cbv zeta.
  set (g1 := UltraGame.with_core _ g).
  destruct (Ultra_add_explosion_spec
              (head_x * UltraSnake.GRID_SIZE + UltraSnake.GRID_SIZE / 2)
              (head_y * UltraSnake.GRID_SIZE + UltraSnake.GRID_SIZE / 2) color 30 g1)
    as [C _].
  set (g2 := UltraGame.add_explosion cos sin _ _ _ 30 g1) in *.
  pose proof (Ultra_steady_elim _ T) as [N _].
  split; [|rewrite C; repeat split].
  apply (Ultra_steady_ext g); try assumption; try (rewrite C; reflexivity).
  rewrite C. exact N.
Qed.

(** [Game.update] raises nothing in a steady state, and the state it
    returns is steady. *)
Lemma Ultra_update_steady (fuel : nat) (dt : float) (g : UltraGame.Game) :
  Ultra_steady g ->
  raises_nothing
    (fun g' => Ultra_steady g' /\
               (UltraSnake.score (UltraGame.core g') = UltraSnake.score (UltraGame.core g) \/
                UltraSnake.score (UltraGame.core g')
                = UltraSnake.score (UltraGame.core g) + 10) /\
               (UltraSnake.game_over (UltraGame.core g)
                || UltraSnake.paused (UltraGame.core g) = true -> g' = g))
    (UltraGame.update cos sin fuel dt g).
Proof.
  intros T. unfold UltraGame.update.
  destruct (UltraSnake.game_over (UltraGame.core g) || UltraSnake.paused (UltraGame.core g))
    eqn:GP.
  { cbn [raises_nothing]. split; [exact T|]. split; [left|]; reflexivity. }
  pose proof (Ultra_steady_elim _ T) as [N _].
  destruct (Ultra_Snake_update_spec dt _ N) as [s' [E [R' D']]].
  rewrite E. cbn [bind].
  match goal with
  | |- raises_nothing _ (bind (UltraSnake.get_head_position
                                 (UltraSnake.snake (UltraGame.core ?x))) _) =>
      set (g3 := x)
  end.
  assert (T3 : Ultra_steady g3 /\
               UltraSnake.score (UltraGame.core g3) = UltraSnake.score (UltraGame.core g)).
  { subst g3. cbn [UltraGame.core].
    destruct (UltraSnake.apple (UltraGame.core
                (UltraGame.with_core (UltraGame.with_snake s' (UltraGame.core g)) g)));
      (split; [|reflexivity]);
      apply (Ultra_steady_ext g); try assumption; try reflexivity. }
  clearbody g3. destruct T3 as [T3 Sc3]. clear E R' D' s'.
  pose proof (Ultra_steady_elim _ T3) as [N3 _]. apply Ultra_reachable_nonempty in N3.
  unfold UltraSnake.get_head_position at 1.
  destruct (UltraSnake.segments (UltraSnake.snake (UltraGame.core g3))) as [|h body] eqn:Sg;
    [congruence|].
  cbn [bind fst snd].
  apply (raises_nothing_bind
           (fun g4 => Ultra_steady g4 /\
                      (UltraSnake.score (UltraGame.core g4)
                       = UltraSnake.score (UltraGame.core g) \/
                       UltraSnake.score (UltraGame.core g4)
                       = UltraSnake.score (UltraGame.core g) + 10))).
  { destruct (UltraSnake.apple (UltraGame.core g3)) as [a|].
    - destruct (_ && _).
      + apply (raises_nothing_weaken _ _ _ (Ultra_eat_steady fuel a g3 T3)).
        intros g4 [T4 [Sc4 _]]. split; [exact T4 | right; congruence].
      + cbn [raises_nothing]. split; [exact T3 | left; exact Sc3].
    - cbn [raises_nothing]. split; [exact T3 | left; exact Sc3]. }
  intros g4 [T4 Sc4].
  pose proof (Ultra_steady_elim _ T4) as [N4 _]. apply Ultra_reachable_nonempty in N4.
  unfold UltraSnake.check_wall_collision, UltraSnake.get_head_position.
  destruct (UltraSnake.segments (UltraSnake.snake (UltraGame.core g4))) as [|h4 body4] eqn:S4;
    [congruence|].
  cbn [bind].
  set (g5 := if (_ || _ || _ || _)%bool then _ else g4).
  assert (T5 : Ultra_steady g5 /\
               UltraSnake.score (UltraGame.core g5) = UltraSnake.score (UltraGame.core g4) /\
               UltraSnake.snake (UltraGame.core g5) = UltraSnake.snake (UltraGame.core g4)).
  { subst g5. destruct (_ || _ || _ || _)%bool.
    - destruct (Ultra_crash_steady (UltraSnake.x h) (UltraSnake.y h) UltraGame.SNAKE_HEAD
                  g4 T4) as [H1 [H2 [H3 _]]].
      split; [exact H1|]. split; [exact H2 | exact H3].
    - split; [exact T4|]. split; reflexivity. }
  clearbody g5. destruct T5 as [T5 [Sc5 Sn5]].
  unfold UltraSnake.check_self_collision, UltraSnake.get_head_position.
  rewrite Sn5, S4. cbn [bind].
  set (g6 := if existsb _ _ then _ else g5).
  assert (T6 : Ultra_steady g6 /\
               UltraSnake.score (UltraGame.core g6) = UltraSnake.score (UltraGame.core g5)).
  { subst g6. destruct (existsb _ _).
    - destruct (Ultra_crash_steady (UltraSnake.x h) (UltraSnake.y h) UltraGame.SNAKE_HEAD
                  g5 T5) as [H1 [H2 _]].
      split; [exact H1 | exact H2].
    - split; [exact T5 | reflexivity]. }
  clearbody g6. destruct T6 as [T6 Sc6].
  cbn [raises_nothing].
  destruct (UltraSnake.is_obstacle (UltraGame.core g6) (UltraSnake.x h) (UltraSnake.y h)).
  - destruct (Ultra_crash_steady (UltraSnake.x h) (UltraSnake.y h) UltraGame.OBSTACLE_BROWN
                g6 T6) as [H1 [H2 _]].
    split; [exact H1|]. split; [|discriminate].
    rewrite H2, Sc6, Sc5. exact Sc4.
  - split; [exact T6|]. split; [|discriminate]. rewrite Sc6, Sc5. exact Sc4.
Qed.

Lemma Ultra_reset_core_fields (fuel : nat) (o : Oracle) (c : UltraSnake.Game) :
  UltraGame.reset_core fuel o = Ok c ->
  UltraSnake.snake c
    = UltraSnake.Snake_init (UltraSnake.GRID_WIDTH / 2) (UltraSnake.GRID_HEIGHT / 2) /\
  UltraSnake.score c = 0 /\
  UltraSnake.apples_eaten c = 0 /\
  Ultra_board_in_order c /\
  UltraSnake.obstacles c = [] /\
  UltraSnake.game_over c = false /\
  UltraSnake.paused c = false.
Proof.
  unfold UltraGame.reset_core. intros E.
  apply Ultra_spawn_apple_in_order in E; [|constructor].
  destruct E as [B [R O]].
  destruct (Ultra_rest_fields _ _ R) as [S [Sc [Ae [Go Pa]]]].
  rewrite S, Sc, Ae, Go, Pa, O.
  do 3 (split; [reflexivity|]). split; [exact B|]. repeat split.
Qed.

Lemma Ultra_reset_core_steady (fuel : nat) (o : Oracle)
    (particles : list UltraSnake.Particle) :
  raises_nothing
    (fun c => Ultra_steady {| UltraGame.core := c; UltraGame.particles := particles |})
    (UltraGame.reset_core fuel o).
Proof.
  destruct (UltraGame.reset_core fuel o) as [c|e|] eqn:E; cbn [raises_nothing];
    [|exact (Ultra_spawn_apple_raises_nothing _ _ _ E) | exact I].
  destruct (Ultra_reset_core_fields fuel o c E) as [S [Sc [Ae [B _]]]].
  apply Ultra_steady_intro; cbn [UltraGame.core]; try assumption; try lia.
  - rewrite S. apply ultra_init.
  - rewrite S, Ae. reflexivity.
Qed.

Lemma Ultra_Game_init_steady (fuel : nat) (o : Oracle) :
  raises_nothing Ultra_steady (UltraGame.Game_init fuel o).
Proof.
  unfold UltraGame.Game_init.
  apply (raises_nothing_bind _ _ _ _ (Ultra_reset_core_steady fuel o [])).
  intros c T. exact T.
Qed.

Lemma Ultra_set_direction_fields (d : Direction) (s : UltraSnake.Snake) :
  UltraSnake.move_delay (UltraSnake.set_direction d s) = UltraSnake.move_delay s.
Proof.
  unfold UltraSnake.set_direction.
  destruct (1 <? _); [destruct (negb _)|]; reflexivity.
Qed.

Lemma Ultra_handle_events_steady (fuel : nat) (events : list UltraGame.Event)
    (g : UltraGame.Game) :
  Ultra_steady g ->
  raises_nothing (fun r => Ultra_steady (snd r)) (UltraGame.handle_events fuel events g).
Proof.
  revert g. induction events as [|e events IH]; intros g T; [exact T|].
  pose proof (Ultra_steady_elim _ T) as [N _].
  assert (Tp : Ultra_steady
                 (UltraGame.with_core
                    (UltraGame.with_paused (negb (UltraSnake.paused (UltraGame.core g)))
                       (UltraGame.core g)) g)).
  { apply (Ultra_steady_ext g); try assumption; reflexivity. }
  assert (Tt : forall d,
             Ultra_steady
               (UltraGame.with_core
                  (UltraGame.with_snake
                     (UltraSnake.set_direction d (UltraSnake.snake (UltraGame.core g)))
                     (UltraGame.core g)) g)).
  { intros d. apply (Ultra_steady_ext g); try assumption; try reflexivity.
    - apply ultra_set_direction. exact N.
    - apply Ultra_set_direction_fields. }
  assert (Tr : raises_nothing (fun r => Ultra_steady (snd r))
                 (g0 <- UltraGame.reset_game fuel g ;; UltraGame.handle_events fuel events g0)).
  { unfold UltraGame.reset_game.
    apply (raises_nothing_bind Ultra_steady); [|exact IH].
    apply (raises_nothing_bind _ _ _ _
             (Ultra_reset_core_steady fuel _ (UltraGame.particles g))).
    intros c Tc. exact Tc. }
  destruct e as [|key|]; cbn [UltraGame.handle_events]; [exact T| |apply IH; exact T].
  destruct key; cbn [snd andb raises_nothing]; try exact T;
    try (destruct (UltraSnake.game_over (UltraGame.core g)); cbn [andb negb];
         [|destruct (UltraSnake.paused (UltraGame.core g)); cbn [andb negb]]);
    first [exact Tr | apply IH; first [exact T | exact Tp | apply Tt]].
Qed.

Lemma UltraGame_reachable_steady (g : UltraGame.Game) :
  UltraGame_reachable cos sin g -> Ultra_steady g.
Proof.
  induction 1 as [fuel o g E | fuel events g running g' R IH E | fuel dt g g' R IH E
                 | o g R IH].
  - pose proof (Ultra_Game_init_steady fuel o) as H. rewrite E in H. exact H.
  - pose proof (Ultra_handle_events_steady fuel events g IH) as H. rewrite E in H. exact H.
  - pose proof (Ultra_update_steady fuel dt g IH) as H. rewrite E in H. apply H.
  - pose proof (Ultra_steady_elim _ IH) as [N _].
    apply (Ultra_steady_ext g); try assumption; reflexivity.
Qed.

End UltraGameProofs.

Lemma Ultra_frames_reachable (cos sin : float -> float) (fuel n : nat) (dt : float)
    (g g' : UltraGame.Game) :
  UltraGame_reachable cos sin g -> Ultra_frames cos sin fuel n dt g = Ok g' ->
  UltraGame_reachable cos sin g'.
Proof.
  revert g. induction n as [|n IH]; intros g R E.
  - apply Ok_inj in E. subst g'. exact R.
  - cbn [Ultra_frames] in E.
    destruct (UltraGame.update cos sin fuel dt g) as [g1| |] eqn:U; try discriminate.
    cbn [bind] in E. exact (IH g1 (ultra_game_update cos sin fuel dt g g1 R U) E).
Qed.

Lemma ultra_meals_reachable (n : nat) (g : UltraGame.Game) :
  ultra_meals n = Ok g -> UltraGame_reachable cos_0 sin_0 g.
Proof.
  unfold ultra_meals.
  destruct (UltraGame.Game_init 3 ultra_meals_ahead) as [g0| |] eqn:E; try discriminate.
  cbn [bind]. apply Ultra_frames_reachable. exact (ultra_game_init cos_0 sin_0 3 _ g0 E).
Qed.

(** X22: in every state of a game of UltraSnake the score is ten times the
    number of apples eaten; the delay between two moves is what
    [max(0.08, delay - 0.01)] makes of 0.15 when applied once for every five
    apples eaten, between 0.08 and 0.15; no two obstacles share a cell, and
    there is an apple, on no obstacle. *)
Theorem ultra_score_delay_and_board (cos sin : float -> float) (g : UltraGame.Game) :
  UltraGame_reachable cos sin g ->
  UltraSnake.score (UltraGame.core g) = 10 * UltraSnake.apples_eaten (UltraGame.core g) /\
  0 <= UltraSnake.apples_eaten (UltraGame.core g) /\
  UltraSnake.move_delay (UltraSnake.snake (UltraGame.core g))
    = Nat.iter (Z.to_nat (UltraSnake.apples_eaten (UltraGame.core g) / 5))
        UltraGame.speed_up 0.15%float /\
  (0.08 <=? UltraSnake.move_delay (UltraSnake.snake (UltraGame.core g)))%float = true /\
  (UltraSnake.move_delay (UltraSnake.snake (UltraGame.core g)) <=? 0.15)%float = true /\
  NoDup (UltraSnake.obstacles (UltraGame.core g)) /\
  exists a,
    UltraSnake.apple (UltraGame.core g) = Some a /\
    UltraSnake.is_obstacle (UltraGame.core g) (fst a) (snd a) = false.
Proof.
  intros R. apply UltraGame_reachable_steady, Ultra_steady_elim in R.
  destruct R as [_ [Sc [Ae [[N A] D]]]].
  split; [exact Sc|]. split; [exact Ae|]. split; [exact D|].
  split; [|split; [|split; [exact N | exact A]]];
    rewrite D; apply Ultra_delays_bounds, Ultra_delay_after_listed.
Qed.

Lemma ultra_score_delay_and_board_witness :
  exists g,
    ultra_meals 5 = Ok g /\
    UltraSnake.score (UltraGame.core g) = 50 /\
    UltraSnake.obstacles (UltraGame.core g) = [(3, 3); (4, 4); (5, 5); (6, 6)] /\
    UltraSnake.move_delay (UltraSnake.snake (UltraGame.core g)) = UltraGame.speed_up 0.15 /\
    NoDup (UltraSnake.obstacles (UltraGame.core g)).
Proof.
  eexists. split; [vm_compute; reflexivity|]. split; [reflexivity|].
  split; [reflexivity|]. split; [vm_compute; reflexivity|].
  match goal with
  | |- NoDup (UltraSnake.obstacles (UltraGame.core ?g)) =>
      apply (ultra_score_delay_and_board cos_0 sin_0 g)
  end.
  apply (ultra_meals_reachable 5). vm_compute. reflexivity.
Defined.

(** X23: in every state of a game of UltraSnake [update] and
    [handle_events] raise nothing: [update] returns, or loops in
    [spawn_apple]; when it returns the score is the same or ten more; a game
    that is over or paused is returned as it is. *)
Theorem ultra_update_raises_nothing (cos sin : float -> float) (g : UltraGame.Game) :
  UltraGame_reachable cos sin g ->
  (forall fuel dt e, UltraGame.update cos sin fuel dt g <> Raise e) /\
  (forall fuel dt g',
     UltraGame.update cos sin fuel dt g = Ok g' ->
     UltraSnake.score (UltraGame.core g') = UltraSnake.score (UltraGame.core g) \/
     UltraSnake.score (UltraGame.core g') = UltraSnake.score (UltraGame.core g) + 10) /\
  (forall fuel dt,
     UltraSnake.game_over (UltraGame.core g) || UltraSnake.paused (UltraGame.core g) = true ->
     UltraGame.update cos sin fuel dt g = Ok g) /\
  (forall fuel events e, UltraGame.handle_events fuel events g <> Raise e).
Proof.
  intros R. apply UltraGame_reachable_steady in R. split; [|split; [|split]].
  - intros fuel dt e E. pose proof (Ultra_update_steady cos sin fuel dt g R) as H.
    rewrite E in H. exact H.
  - intros fuel dt g' E. pose proof (Ultra_update_steady cos sin fuel dt g R) as H.
    rewrite E in H. apply H.
  - intros fuel dt GP. unfold UltraGame.update. rewrite GP. reflexivity.
  - intros fuel events e E. pose proof (Ultra_handle_events_steady fuel events g R) as H.
    rewrite E in H. exact H.
Qed.

Lemma ultra_update_raises_nothing_witness :
  exists g,
    ultra_meals 2 = Ok g /\
    exists g',
      UltraGame.update cos_0 sin_0 3 0.15 g = Ok g' /\
      (UltraSnake.score (UltraGame.core g') = UltraSnake.score (UltraGame.core g) \/
       UltraSnake.score (UltraGame.core g') = UltraSnake.score (UltraGame.core g) + 10).
Proof.
  eexists. split; [vm_compute; reflexivity|].
  eexists. split; [vm_compute; reflexivity|].
  match goal with
  | |- UltraSnake.score (UltraGame.core ?g') = UltraSnake.score (UltraGame.core ?g) \/ _ =>
      apply (proj1 (proj2 (ultra_update_raises_nothing cos_0 sin_0 g
                             ltac:(apply (ultra_meals_reachable 2); vm_compute; reflexivity)))
               3%nat 0.15%float g')
  end.
  vm_compute. reflexivity.
Defined.

Lemma Ultra_spawn_obstacle_loop_no_apple (left : nat) (c : UltraSnake.Game) :
  UltraSnake.apple c = None ->
  UltraSnake.check_collision (UltraSnake.snake c)
    (fst (Ultra_first_cell (UltraSnake.rng c))) (snd (Ultra_first_cell (UltraSnake.rng c)))
  = false ->
  UltraSnake.is_obstacle c
    (fst (Ultra_first_cell (UltraSnake.rng c))) (snd (Ultra_first_cell (UltraSnake.rng c)))
  = false ->
  UltraGame.spawn_obstacle_loop (S left) c = Raise AttributeError.
Proof.
  intros A. unfold Ultra_first_cell. cbn [UltraGame.spawn_obstacle_loop].
  destruct (randint 0 (UltraSnake.GRID_WIDTH - 1) (UltraSnake.rng c)) as [x o1].
  destruct (randint 0 (UltraSnake.GRID_HEIGHT - 1) o1) as [y o2].
  cbn [fst snd UltraSnake.snake UltraSnake.with_rng UltraSnake.apple].
  intros Sn Ob.
  change (UltraSnake.is_obstacle (UltraSnake.with_rng o2 c) x y)
    with (UltraSnake.is_obstacle c x y).
  rewrite Sn, Ob, A. reflexivity.
Qed.

(** X24: [spawn_obstacles] of UltraSnake, on a board in order with its
    apple, returns; it appends at most [min(10, (apples_eaten // 5) * 2 + 2)]
    obstacles, none on the snake, and leaves the board in order, with the
    snake, the apple and the counters as they were.  Without an apple it
    raises [AttributeError] when the first cell drawn is off the snake and
    the obstacles. *)
Theorem ultra_spawn_obstacles_adds :
  (forall c,
     Ultra_board_in_order c ->
     exists c',
       UltraGame.spawn_obstacles c = Ok c' /\
       Ultra_board_in_order c' /\
       UltraSnake.snake c' = UltraSnake.snake c /\
       UltraSnake.apple c' = UltraSnake.apple c /\
       UltraSnake.score c' = UltraSnake.score c /\
       UltraSnake.apples_eaten c' = UltraSnake.apples_eaten c /\
       exists new,
         UltraSnake.obstacles c' = UltraSnake.obstacles c ++ new /\
         (List.length new
          <= Z.to_nat (Z.min 10 (UltraSnake.apples_eaten c / 5 * 2 + 2)))%nat /\
         forall p, In p new ->
           UltraSnake.check_collision (UltraSnake.snake c) (fst p) (snd p) = false) /\
  (forall c,
     UltraSnake.apple c = None -> 0 <= UltraSnake.apples_eaten c ->
     UltraSnake.check_collision (UltraSnake.snake c)
       (fst (Ultra_first_cell (UltraSnake.rng c))) (snd (Ultra_first_cell (UltraSnake.rng c)))
     = false ->
     UltraSnake.is_obstacle c
       (fst (Ultra_first_cell (UltraSnake.rng c))) (snd (Ultra_first_cell (UltraSnake.rng c)))
     = false ->
     UltraGame.spawn_obstacles c = Raise AttributeError).
Proof.
  split.
  - intros c B. unfold UltraGame.spawn_obstacles.
    destruct (Ultra_for_range_obstacles
                (Z.to_nat (Z.min 10 (UltraSnake.apples_eaten c / 5 * 2 + 2))) c B)
      as [c' [E [B' [R [A [new [O [L S]]]]]]]].
    destruct (Ultra_rest_fields _ _ R) as [Sn [Sc [Ae _]]].
    exists c'. split; [exact E|]. split; [exact B'|]. split; [exact Sn|].
    split; [exact A|]. split; [exact Sc|]. split; [exact Ae|].
    exists new. split; [exact O|]. split; [exact L | exact S].
  - intros c A P. unfold UltraGame.spawn_obstacles, Ultra_first_cell.
    assert (C : exists n, Z.to_nat (Z.min 10 (UltraSnake.apples_eaten c / 5 * 2 + 2)) = S n).
    { exists (Nat.pred (Z.to_nat (Z.min 10 (UltraSnake.apples_eaten c / 5 * 2 + 2)))).
      assert (0 <= UltraSnake.apples_eaten c / 5) by (apply Z.div_pos; lia). lia. }
    destruct C as [n ->]. cbn [UltraGame.for_range_raising]. intros Sn Ob.
    rewrite (Ultra_spawn_obstacle_loop_no_apple 49 c A Sn Ob). reflexivity.
Qed.

Lemma ultra_spawn_obstacles_adds_witness :
  (Ultra_board_in_order (UltraSnake.with_apple (Some (31, 20)) ultra_no_apple) /\
   exists c',
     UltraGame.spawn_obstacles (UltraSnake.with_apple (Some (31, 20)) ultra_no_apple) = Ok c' /\
     UltraSnake.apple c' = Some (31, 20) /\
     UltraSnake.obstacles c' = [(32, 20); (33, 20)]) /\
  UltraSnake.apple ultra_no_apple = None /\
  UltraGame.spawn_obstacles ultra_no_apple = Raise AttributeError.
Proof.
  split; [|split; [reflexivity|]].
  - assert (B : Ultra_board_in_order (UltraSnake.with_apple (Some (31, 20)) ultra_no_apple)).
    { split; [constructor|]. exists (31, 20). split; reflexivity. }
    split; [exact B|].
    destruct (proj1 ultra_spawn_obstacles_adds _ B) as [c' [E [_ [_ [A _]]]]].
    exists c'. split; [exact E|]. split; [exact A|].
    revert E. vm_compute. intros E. apply Ok_inj in E. subst c'. reflexivity.
  - apply (proj2 ultra_spawn_obstacles_adds ultra_no_apple);
      [reflexivity | vm_compute; discriminate | reflexivity | reflexivity].
Defined.

(** * Retro: the space bar held down *)

(** A tick of a game being played moves the head to its next cell, or ends
    the game, the snake staying where it was. *)
Lemma update_game_moves (fuel : nat) (g g' : Retro.SnakeGame) :
  Retro.state g = Retro.PLAYING ->
  Retro.update_game fuel g = Ok g' ->
  exists head,
    Retro.new_head g = Ok head /\
    ((Retro.state g' = Retro.PLAYING /\ hd_error (Retro.snake g') = Some head) \/
     (Retro.state g' = Retro.GAME_OVER /\ Retro.snake g' = Retro.snake g)).
Proof.
  intros P U. unfold Retro.update_game in U. rewrite P in U.
  cbn [Retro.GameState_eqb negb] in U.
  destruct (Retro.housekeeping fuel g) as [g1| |] eqn:HK; try discriminate.
  cbn [bind] in U.
  pose proof (housekeeping_course _ _ _ HK) as Co.
  destruct (course_fields _ _ Co) as [P1 [S1 _]].
  rewrite (course_new_head _ _ Co) in U.
  destruct (Retro.new_head g) as [head| |] eqn:NH; try discriminate.
  cbn [bind] in U. exists head. split; [reflexivity|].
  pose proof (new_head_body _ _ NH) as N.
  destruct (Retro.check_collision g1 head && negb (Retro.invincible g1)).
  - right.
    destruct (game_over_file g1 ltac:(rewrite S1; exact N)) as [g'' [E [S _]]].
    rewrite E in U. apply Ok_inj in U. subst g''. split; [exact S|].
    rewrite <- S1. revert E. frame_by (game_over_keeps Retro.snake).
  - left.
    destruct (Retro.eat_or_pop fuel head _) as [g2| |] eqn:EP; try discriminate.
    cbn [bind] in U. apply Ok_inj in U. subst g'. split.
    + rewrite (collect_power_ups_keeps Retro.state) by (intros; reflexivity).
      destruct (pos_eqb head (Retro.food (Retro.with_snake (head :: Retro.snake g1) g1)))
        eqn:F.
      * assert (E : Retro.state g2
                    = Retro.state (Retro.with_snake (head :: Retro.snake g1) g1))
          by (revert EP; frame_by (eat_or_pop_eats Retro.state)).
        rewrite E. cbn [Retro.state Retro.with_snake]. congruence.
      * rewrite (eat_or_pop_pops fuel head _ F) in EP. apply Ok_inj in EP. subst g2.
        cbn [Retro.state Retro.with_snake]. congruence.
    + apply collect_power_ups_head.
      apply (eat_or_pop_head fuel head (Retro.snake g1)
               (Retro.with_snake (head :: Retro.snake g1) g1) g2);
        [reflexivity | | exact EP].
      rewrite S1. exact N.
Qed.

(** X25: the keys are read as held, at every pass of the main loop of
    Retro.  With the space bar held and no arrow key, a pass that finds the
    game being played pauses it, without a tick: the snake, the direction,
    the food and the score stay.  The next pass, the bar still held, takes
    the game out of the pause and runs a tick on it: the pass returns
    whenever that tick returns, with the state the tick gave, its particles
    moved and the screen shaken; and the state it returns is a game being
    played whose head has moved to its next cell, or a game that is over. *)
Theorem held_space_bar_flickers (fuel : nat) :
  (forall g,
     Retro.state g = Retro.PLAYING ->
     exists g1,
       Retro.run_iteration [] space_bar fuel g = Ok (true, g1) /\
       Retro.state g1 = Retro.PAUSED /\
       Retro.snake g1 = Retro.snake g /\
       Retro.direction g1 = Retro.direction g /\
       Retro.food g1 = Retro.food g /\
       Retro.score g1 = Retro.score g) /\
  (forall g g1,
     Retro.state g = Retro.PAUSED ->
     Retro.update_game fuel (Retro.with_state Retro.PLAYING g) = Ok g1 ->
     Retro.run_iteration [] space_bar fuel g
     = Ok (true, Retro.apply_screen_shake (Retro.update_particles g1))) /\
  (forall g running g',
     Retro.state g = Retro.PAUSED ->
     Retro.run_iteration [] space_bar fuel g = Ok (running, g') ->
     running = true /\
     (Retro.state g' = Retro.PLAYING \/ Retro.state g' = Retro.GAME_OVER) /\
     exists head,
       Retro.new_head g = Ok head /\
       ((Retro.state g' = Retro.PLAYING /\ hd_error (Retro.snake g') = Some head) \/
        (Retro.state g' = Retro.GAME_OVER /\ Retro.snake g' = Retro.snake g))).
Proof.
  split; [|split].
  - intros g P. unfold Retro.run_iteration. cbn [fold_left].
    unfold Retro.handle_input. rewrite P. cbn [space_bar Retro.K_UP Retro.K_DOWN Retro.K_LEFT
      Retro.K_RIGHT Retro.K_SPACE andb bind].
    rewrite update_game_idle by (cbn [Retro.state Retro.with_state]; discriminate).
    cbn [bind]. eexists. split; [reflexivity|].
    rewrite (apply_screen_shake_keeps Retro.state) by (intros; reflexivity).
    rewrite (apply_screen_shake_keeps Retro.snake) by (intros; reflexivity).
    rewrite (apply_screen_shake_keeps Retro.direction) by (intros; reflexivity).
    rewrite (apply_screen_shake_keeps Retro.food) by (intros; reflexivity).
    rewrite (apply_screen_shake_keeps Retro.score) by (intros; reflexivity).
    rewrite !update_particles_list. repeat split.
  - intros g g1 P U. unfold Retro.run_iteration. cbn [fold_left].
    unfold Retro.handle_input. rewrite P. cbn [space_bar Retro.K_SPACE bind].
    rewrite U. reflexivity.
  - intros g running g' P. unfold Retro.run_iteration. cbn [fold_left].
    unfold Retro.handle_input. rewrite P. cbn [space_bar Retro.K_SPACE bind].
    destruct (Retro.update_game fuel (Retro.with_state Retro.PLAYING g)) as [g1| |] eqn:U;
      try discriminate.
    cbn [bind]. intros E. apply Ok_inj in E. injection E as <- <-.
    split; [reflexivity|].
    rewrite (apply_screen_shake_keeps Retro.state) by (intros; reflexivity).
    rewrite (apply_screen_shake_keeps Retro.snake) by (intros; reflexivity).
    rewrite !update_particles_list. cbn [Retro.state Retro.snake Retro.with_particles].
    destruct (update_game_moves fuel (Retro.with_state Retro.PLAYING g) g1 eq_refl U)
      as [head [NH M]].
    change (Retro.new_head (Retro.with_state Retro.PLAYING g)) with (Retro.new_head g) in NH.
    change (Retro.snake (Retro.with_state Retro.PLAYING g)) with (Retro.snake g) in M.
    split; [destruct M as [[M _] | [M _]]; [left | right]; exact M|].
    exists head. split; [exact NH | exact M].
Qed.

Lemma held_space_bar_flickers_witness :
  Retro.run_iteration [] space_bar 3 retro_blank
  = Ok (true, Retro.with_state Retro.PAUSED retro_blank) /\
  (exists g2,
     Retro.update_game 3 (Retro.with_state Retro.PLAYING
                            (Retro.with_state Retro.PAUSED retro_blank)) = Ok g2 /\
     Retro.run_iteration [] space_bar 3 (Retro.with_state Retro.PAUSED retro_blank)
     = Ok (true, Retro.apply_screen_shake (Retro.update_particles g2))) /\
  exists g2,
    Retro.run_iteration [] space_bar 3 (Retro.with_state Retro.PAUSED retro_blank)
    = Ok (true, g2) /\
    Retro.state g2 = Retro.PLAYING /\ Retro.snake g2 = [(21, 15)] /\
    exists head,
      Retro.new_head (Retro.with_state Retro.PAUSED retro_blank) = Ok head /\
      ((Retro.state g2 = Retro.PLAYING /\ hd_error (Retro.snake g2) = Some head) \/
       (Retro.state g2 = Retro.GAME_OVER /\
        Retro.snake g2 = Retro.snake (Retro.with_state Retro.PAUSED retro_blank))).
Proof.
  split; [|split].
  - destruct (proj1 (held_space_bar_flickers 3) retro_blank eq_refl) as [g1 [E1 _]].
    rewrite E1. revert E1. vm_compute. intros E1. symmetry. exact E1.
  - eexists. split; [vm_compute; reflexivity|].
    apply (proj1 (proj2 (held_space_bar_flickers 3))
             (Retro.with_state Retro.PAUSED retro_blank)); [reflexivity|].
    vm_compute. reflexivity.
  - eexists. split; [vm_compute; reflexivity|]. split; [reflexivity|].
    split; [reflexivity|].
    apply (proj2 (proj2 (held_space_bar_flickers 3))
             (Retro.with_state Retro.PAUSED retro_blank) true);
      [reflexivity | vm_compute; reflexivity].
Defined.
